(** * MongoDB snapshot manager: a shallow embedding of
      [python/mongodb_snapshot.py] and the properties of its snapshot and
      restore engine.

    The embedding follows the Python source function by function.  Python
    text is modelled by [string] (characters with code points below 256),
    the file system by a directory tree addressed through POSIX path
    strings, the MongoDB driver by an explicit server state with a trace of
    the calls issued against each client object, and exceptions by an
    outcome type threaded through a state monad. *)

From Stdlib Require Import String Ascii List ZArith Lia Bool Arith PeanoNat.
From Stdlib Require Import DecimalString Decimal Permutation Sorted.
From Stdlib Require DecimalFacts DecimalPos DecimalNat DecimalZ DecimalN.
From Stdlib Require Import RelationClasses.
Import ListNotations.
Set Warnings "-register-all".
Local Open Scope string_scope.
Local Open Scope list_scope.
Local Open Scope nat_scope.

(** Python's [+] on text. *)
Infix "+++" := String.append (right associativity, at level 60).

(** ** Python text *)

Module PyStr.

(** [str.isspace] on one character, for code points below 256: the ASCII
    white space and separators 9-13 and 28-32, NEL (0x85) and NBSP (0xA0). *)
Definition isspace (c : ascii) : bool :=
  let n := nat_of_ascii c in
  ((9 <=? n) && (n <=? 13)) || ((28 <=? n) && (n <=? 32))
  || (n =? 133) || (n =? 160).

(** [s.lstrip()] *)
Fixpoint lstrip (s : string) : string :=
  match s with
  | EmptyString => EmptyString
  | String c r => if isspace c then lstrip r else s
  end.

(** [s.rstrip()]: a character is dropped when it is white space and
    everything after it has been dropped. *)
Fixpoint rstrip (s : string) : string :=
  match s with
  | EmptyString => EmptyString
  | String c r =>
      match rstrip r with
      | EmptyString => if isspace c then EmptyString else String c EmptyString
      | r' => String c r'
      end
  end.

(** [s.strip()] *)
Definition strip (s : string) : string := rstrip (lstrip s).

(** [s.startswith(p)] *)
Definition startswith (s p : string) : bool := String.prefix p s.

(** [s.endswith(x)] *)
Definition endswith (s x : string) : bool :=
  (String.length x <=? String.length s)
  && String.eqb (substring (String.length s - String.length x)
                           (String.length x) s) x.

(** [s[:-k]] for a positive [k]: all but the last [k] characters, the empty
    string when [s] is shorter than [k]. *)
Definition drop_last (k : nat) (s : string) : string :=
  substring 0 (String.length s - k) s.

(** [x in xs] on a list of strings *)
Definition str_in (x : string) (xs : list string) : bool :=
  existsb (String.eqb x) xs.

(** [str(n)] for a non-negative integer *)
Definition str_of_nat (n : nat) : string :=
  NilZero.string_of_uint (Nat.to_uint n).

(** [str(z)] for an integer *)
Definition str_of_Z (z : Z) : string :=
  NilZero.string_of_int (Z.to_int z).

(** Decimal rendering padded with zeros on the left to [w] digits, as the
    numeric fields of [strftime] are. *)
Fixpoint zeros (k : nat) : string :=
  match k with O => "" | S k' => String "0" (zeros k') end.

Definition zero_pad (w n : nat) : string :=
  let d := str_of_nat n in zeros (w - String.length d) +++ d.

End PyStr.

(** ** Python values and [str] / [repr]

    The values a document fetched through the driver is made of: [None],
    booleans, integers (BSON int32 and int64), text, lists, dictionaries in
    insertion order, and the two extended scalars of the driver, the object
    identifier ([bson.objectid.ObjectId], given by its 24 hexadecimal
    digits) and the naive [datetime.datetime] the driver decodes BSON dates
    to.  Floating-point fields are outside the model. *)

Module PyVal.
Import PyStr.

Record datetime := mk_datetime {
  year : nat; month : nat; day : nat;
  hour : nat; minute : nat; second : nat; microsecond : nat
}.

Inductive pyval : Type :=
| PNone
| PBool (b : bool)
| PInt (z : Z)
| PStr (s : string)
| PList (xs : list pyval)
| PDict (items : list (pyval * pyval))
| PObjectId (oid : string)
| PDatetime (dt : datetime).

(** [sep.join(xs)] *)
Fixpoint join (sep : string) (xs : list string) : string :=
  match xs with
  | [] => ""
  | [x] => x
  | x :: rest => x +++ sep +++ join sep rest
  end.

(** [str.isprintable] on one character, for code points below 256. *)
Definition isprintable (c : ascii) : bool :=
  let n := nat_of_ascii c in
  ((32 <=? n) && (n <? 127)) || ((161 <=? n) && negb (n =? 173)).

Definition hex_digit (n : nat) : ascii :=
  if n <? 10 then ascii_of_nat (48 + n) else ascii_of_nat (87 + n).

(** The escape [\xNN] of a character. *)
Definition hex_escape (c : ascii) : string :=
  let n := nat_of_ascii c in
  String "\" (String "x" (String (hex_digit (n / 16))
                           (String (hex_digit (n mod 16)) ""))).

Fixpoint contains_char (q : ascii) (s : string) : bool :=
  match s with
  | EmptyString => false
  | String c r => Ascii.eqb c q || contains_char q r
  end.

Definition squote : ascii := "'"%char.
Definition dquote : ascii := ascii_of_nat 34.
Definition backslash : ascii := "\"%char.

(** The quote [repr] encloses a text in: the single quote, unless the text
    holds a single quote and no double quote. *)
Definition repr_quote (s : string) : ascii :=
  if contains_char squote s && negb (contains_char dquote s)
  then dquote else squote.

(** One character of the body of [repr(s)], [q] being the enclosing quote. *)
Definition repr_char (q c : ascii) : string :=
  let n := nat_of_ascii c in
  if Ascii.eqb c q || Ascii.eqb c backslash then String backslash (String c "")
  else if n =? 9 then String backslash "t"
  else if n =? 10 then String backslash "n"
  else if n =? 13 then String backslash "r"
  else if isprintable c then String c ""
  else hex_escape c.

Fixpoint repr_body (q : ascii) (s : string) : string :=
  match s with
  | EmptyString => ""
  | String c r => repr_char q c +++ repr_body q r
  end.

(** [repr(s)] for a text [s]. *)
Definition repr_str (s : string) : string :=
  let q := repr_quote s in
  String q (repr_body q s +++ String q "").

(** [repr(dt)] for a naive datetime: the microsecond is left out when it is
    zero, and then the second too when it is zero. *)
Definition repr_datetime (dt : datetime) : string :=
  let base := [year dt; month dt; day dt; hour dt; minute dt] in
  let fields :=
    if microsecond dt =? 0
    then (if second dt =? 0 then base else base ++ [second dt])
    else base ++ [second dt; microsecond dt] in
  "datetime.datetime(" +++ join ", " (map str_of_nat fields) +++ ")".

(** [repr(v)]; [str] of a dictionary is its [repr]. *)
Fixpoint repr (v : pyval) : string :=
  match v with
  | PNone => "None"
  | PBool true => "True"
  | PBool false => "False"
  | PInt z => str_of_Z z
  | PStr s => repr_str s
  | PList xs => "[" +++ join ", " (map repr xs) +++ "]"
  | PDict items =>
      "{" +++ join ", " (map (fun '(k, x) => repr k +++ ": " +++ repr x) items)
          +++ "}"
  | PObjectId oid => "ObjectId('" +++ oid +++ "')"
  | PDatetime dt => repr_datetime dt
  end.

Definition str (v : pyval) : string := repr v.

End PyVal.

(** ** Exceptions *)

Module Exn.

(** The exception classes the program meets.  [KeyboardInterrupt] and
    [SystemExit] derive from [BaseException] only: an [except Exception]
    clause does not catch them. *)
Inductive exn_class : Type :=
| SyntaxError | NameError | AttributeError | TypeError | ValueError
| FileNotFoundError | FileExistsError | NotADirectoryError
| IsADirectoryError | OSError
| PyMongoError
| KeyboardInterrupt | SystemExit.

Record exn := mk_exn { exn_cls : exn_class; exn_msg : string }.

(** [isinstance(e, Exception)] *)
Definition is_Exception (e : exn) : bool :=
  match exn_cls e with
  | KeyboardInterrupt | SystemExit => false
  | _ => true
  end.

(** [str(e)] *)
Definition str_exn (e : exn) : string := exn_msg e.

End Exn.

(** ** [eval] on the text of a document

    [eval(doc_str)] is Python's expression evaluator, run with the names
    visible at line 151 of the source.  The model covers the expressions
    [str(document)] writes and their truncations: displays of dictionaries
    and lists, the constants, integer and text literals, names, attribute
    references and calls.  Whatever lies outside that fragment is reported
    as such ([None]) instead of being guessed. *)

Module PyEval.
Import PyStr PyVal Exn.

Inductive token : Type :=
| TLBrace | TRBrace | TLBrack | TRBrack | TLParen | TRParen
| TColon | TComma | TDot | TMinus
| TInt (n : nat) | TStr (s : string) | TName (x : string).

(** What the evaluator says of a text: a value, an exception, or that the
    text is outside the modelled fragment. *)
Inductive outcome (A : Type) : Type :=
| Value (a : A)
| Raises (e : exn).
Arguments Value {A} a.
Arguments Raises {A} e.

Definition syntax_error {A} (m : string) : option (outcome A) :=
  Some (Raises (mk_exn SyntaxError m)).

Definition is_digit (c : ascii) : bool :=
  let n := nat_of_ascii c in (48 <=? n) && (n <=? 57).

Definition is_ident_start (c : ascii) : bool :=
  let n := nat_of_ascii c in
  ((65 <=? n) && (n <=? 90)) || ((97 <=? n) && (n <=? 122)) || (n =? 95).

Definition is_ident_char (c : ascii) : bool :=
  is_ident_start c || is_digit c.

Definition hex_value (c : ascii) : option nat :=
  let n := nat_of_ascii c in
  if (48 <=? n) && (n <=? 57) then Some (n - 48)
  else if (97 <=? n) && (n <=? 102) then Some (n - 87)
  else if (65 <=? n) && (n <=? 70) then Some (n - 55)
  else None.

Definition snoc (s : string) (c : ascii) : string := s +++ String c "".

(** The scanner reads one character at a time. *)
Inductive lex_state : Type :=
| LDefault
| LName (acc : string)
| LNum (acc : string)
| LStr (q : ascii) (acc : string)
| LEsc (q : ascii) (acc : string)
| LHex1 (q : ascii) (acc : string)
| LHex2 (q : ascii) (acc : string) (hi : nat)
| LAfterStr.

(** A character met between tokens: the token it is, or the state it
    opens.  [None] is a character the model does not scan. *)
Definition lex_start (c : ascii) : option (list token * lex_state) :=
  let n := nat_of_ascii c in
  if (n =? 32) || (n =? 9) then Some ([], LDefault)
  else if Ascii.eqb c "{" then Some ([TLBrace], LDefault)
  else if Ascii.eqb c "}" then Some ([TRBrace], LDefault)
  else if Ascii.eqb c "[" then Some ([TLBrack], LDefault)
  else if Ascii.eqb c "]" then Some ([TRBrack], LDefault)
  else if Ascii.eqb c "(" then Some ([TLParen], LDefault)
  else if Ascii.eqb c ")" then Some ([TRParen], LDefault)
  else if Ascii.eqb c ":" then Some ([TColon], LDefault)
  else if Ascii.eqb c "," then Some ([TComma], LDefault)
  else if Ascii.eqb c "." then Some ([TDot], LDefault)
  else if Ascii.eqb c "-" then Some ([TMinus], LDefault)
  else if Ascii.eqb c squote || Ascii.eqb c dquote then Some ([], LStr c "")
  else if is_digit c then Some ([], LNum (String c ""))
  else if is_ident_start c then Some ([], LName (String c ""))
  else None.

(** The integer a run of digits denotes; a run of several digits that
    starts with [0] is not scanned. *)
Definition int_token (acc : string) : option token :=
  match acc with
  | String "0" (String _ _) => None
  | _ => option_map (fun u => TInt (Nat.of_uint u)) (NilZero.uint_of_string acc)
  end.

(** A token has just ended and [c] follows it. *)
Definition lex_after (t : token) (c : ascii)
  : option (list token * lex_state) :=
  option_map (fun '(ts, st) => (t :: ts, st)) (lex_start c).

Definition lex_step (st : lex_state) (c : ascii)
  : option (list token * lex_state) :=
  let n := nat_of_ascii c in
  match st with
  | LDefault => lex_start c
  | LName acc =>
      if is_ident_char c then Some ([], LName (snoc acc c))
      else if Ascii.eqb c squote || Ascii.eqb c dquote then None
      else lex_after (TName acc) c
  | LNum acc =>
      if is_digit c then Some ([], LNum (snoc acc c))
      else if is_ident_start c || Ascii.eqb c "." then None
      else match int_token acc with
           | Some t => lex_after t c
           | None => None
           end
  | LStr q acc =>
      if Ascii.eqb c q then Some ([TStr acc], LAfterStr)
      else if Ascii.eqb c backslash then Some ([], LEsc q acc)
      else if (n =? 0) || (n =? 10) || (n =? 13) then None
      else Some ([], LStr q (snoc acc c))
  | LEsc q acc =>
      if Ascii.eqb c backslash || Ascii.eqb c squote || Ascii.eqb c dquote
      then Some ([], LStr q (snoc acc c))
      else if Ascii.eqb c "n" then Some ([], LStr q (snoc acc (ascii_of_nat 10)))
      else if Ascii.eqb c "r" then Some ([], LStr q (snoc acc (ascii_of_nat 13)))
      else if Ascii.eqb c "t" then Some ([], LStr q (snoc acc (ascii_of_nat 9)))
      else if Ascii.eqb c "x" then Some ([], LHex1 q acc)
      else None
  | LHex1 q acc =>
      match hex_value c with
      | Some h => Some ([], LHex2 q acc h)
      | None => None
      end
  | LHex2 q acc hi =>
      match hex_value c with
      | Some lo => Some ([], LStr q (snoc acc (ascii_of_nat (16 * hi + lo))))
      | None => None
      end
  | LAfterStr =>
      if Ascii.eqb c squote || Ascii.eqb c dquote then None
      else lex_start c
  end.

(** The end of the text: a pending name or number is emitted; a text
    literal left open is a syntax error. *)
Definition lex_end (st : lex_state) : option (outcome (list token)) :=
  match st with
  | LDefault | LAfterStr => Some (Value [])
  | LName acc => Some (Value [TName acc])
  | LNum acc => option_map (fun t => Value [t]) (int_token acc)
  | LStr _ _ | LEsc _ _ | LHex1 _ _ | LHex2 _ _ _ =>
      syntax_error "unterminated string literal"
  end.

Fixpoint lex (st : lex_state) (s : string) : option (outcome (list token)) :=
  match s with
  | EmptyString => lex_end st
  | String c r =>
      match lex_step st c with
      | None => None
      | Some (ts, st') =>
          match lex st' r with
          | Some (Value rest) => Some (Value (ts ++ rest))
          | other => other
          end
      end
  end.

Definition tokenize (s : string) : option (outcome (list token)) :=
  lex LDefault s.

(** *** Expressions *)

Inductive expr : Type :=
| EConst (v : pyval)
| EName (x : string)
| EAttr (e : expr) (a : string)
| ECall (f : expr) (args : list expr)
| EList (es : list expr)
| EDict (kvs : list (expr * expr)).

Inductive presult (A : Type) : Type :=
| POk (a : A) (rest : list token)
| PSyntaxError
| PUnmodelled.
Arguments POk {A} a rest.
Arguments PSyntaxError {A}.
Arguments PUnmodelled {A}.

Definition keywords : list string :=
  ["False"; "None"; "True"; "and"; "as"; "assert"; "async"; "await";
   "break"; "class"; "continue"; "def"; "del"; "elif"; "else"; "except";
   "finally"; "for"; "from"; "global"; "if"; "import"; "in"; "is";
   "lambda"; "nonlocal"; "not"; "or"; "pass"; "raise"; "return"; "try";
   "while"; "with"; "yield"].

(** The constant a keyword denotes, if any. *)
Definition keyword_const (x : string) : option pyval :=
  if String.eqb x "None" then Some PNone
  else if String.eqb x "True" then Some (PBool true)
  else if String.eqb x "False" then Some (PBool false)
  else None.

(** Attribute references and calls after a name.  The end of the text
    inside an open bracket is a syntax error; a token the fragment has no
    rule for is left unmodelled. *)
Fixpoint parse_expr (fuel : nat) (ts : list token) : presult expr :=
  match fuel with
  | O => PUnmodelled
  | S f =>
      match ts with
      | [] => PSyntaxError
      | TInt n :: r => POk (EConst (PInt (Z.of_nat n))) r
      | TMinus :: TInt n :: r => POk (EConst (PInt (- Z.of_nat n))) r
      | TMinus :: [] => PSyntaxError
      | TStr s :: r => POk (EConst (PStr s)) r
      | TName x :: r =>
          match keyword_const x with
          | Some v => POk (EConst v) r
          | None =>
              if str_in x keywords then PUnmodelled
              else parse_trailers f (EName x) r
          end
      | TLBrack :: TRBrack :: r => POk (EList []) r
      | TLBrack :: r =>
          match parse_items f TRBrack r with
          | POk es r' => POk (EList es) r'
          | PSyntaxError => PSyntaxError
          | PUnmodelled => PUnmodelled
          end
      | TLBrace :: TRBrace :: r => POk (EDict []) r
      | TLBrace :: r =>
          match parse_pairs f r with
          | POk kvs r' => POk (EDict kvs) r'
          | PSyntaxError => PSyntaxError
          | PUnmodelled => PUnmodelled
          end
      | _ => PUnmodelled
      end
  end

with parse_trailers (fuel : nat) (e : expr) (ts : list token)
  : presult expr :=
  match fuel with
  | O => PUnmodelled
  | S f =>
      match ts with
      | TDot :: TName a :: r =>
          if str_in a keywords then PUnmodelled
          else parse_trailers f (EAttr e a) r
      | TDot :: [] => PSyntaxError
      | TDot :: _ => PUnmodelled
      | TLParen :: TRParen :: r => parse_trailers f (ECall e []) r
      | TLParen :: r =>
          match parse_items f TRParen r with
          | POk args r' => parse_trailers f (ECall e args) r'
          | PSyntaxError => PSyntaxError
          | PUnmodelled => PUnmodelled
          end
      | _ => POk e ts
      end
  end

(** One or more expressions separated by commas, up to the closing
    bracket [close]; a comma may precede the bracket. *)
with parse_items (fuel : nat) (close : token) (ts : list token)
  : presult (list expr) :=
  match fuel with
  | O => PUnmodelled
  | S f =>
      match parse_expr f ts with
      | POk e r =>
          match r with
          | [] => PSyntaxError
          | TComma :: [] => PSyntaxError
          | TComma :: r' =>
              match r' with
              | TRBrack :: r'' =>
                  match close with TRBrack => POk [e] r'' | _ => PUnmodelled end
              | TRParen :: r'' =>
                  match close with TRParen => POk [e] r'' | _ => PUnmodelled end
              | _ =>
                  match parse_items f close r' with
                  | POk es r'' => POk (e :: es) r''
                  | PSyntaxError => PSyntaxError
                  | PUnmodelled => PUnmodelled
                  end
              end
          | TRBrack :: r' =>
              match close with TRBrack => POk [e] r' | _ => PUnmodelled end
          | TRParen :: r' =>
              match close with TRParen => POk [e] r' | _ => PUnmodelled end
          | _ => PUnmodelled
          end
      | PSyntaxError => PSyntaxError
      | PUnmodelled => PUnmodelled
      end
  end

(** One or more [key: value] pairs up to the closing brace. *)
with parse_pairs (fuel : nat) (ts : list token)
  : presult (list (expr * expr)) :=
  match fuel with
  | O => PUnmodelled
  | S f =>
      match parse_expr f ts with
      | POk k r =>
          match r with
          | [] => PSyntaxError
          | TColon :: r1 =>
              match parse_expr f r1 with
              | POk x r2 =>
                  match r2 with
                  | [] => PSyntaxError
                  | TRBrace :: r3 => POk [(k, x)] r3
                  | TComma :: [] => PSyntaxError
                  | TComma :: TRBrace :: r3 => POk [(k, x)] r3
                  | TComma :: r3 =>
                      match parse_pairs f r3 with
                      | POk kvs r4 => POk ((k, x) :: kvs) r4
                      | PSyntaxError => PSyntaxError
                      | PUnmodelled => PUnmodelled
                      end
                  | _ => PUnmodelled
                  end
              | PSyntaxError => PSyntaxError
              | PUnmodelled => PUnmodelled
              end
          | _ => PUnmodelled
          end
      | PSyntaxError => PSyntaxError
      | PUnmodelled => PUnmodelled
      end
  end.

(** Bracket nesting the model follows; every CPython release accepts at
    least this much. *)
Definition max_nesting : nat := 32.

(** Deepest bracket nesting of a token list, [d] brackets being open. *)
Fixpoint nesting (d : nat) (ts : list token) : nat :=
  match ts with
  | [] => d
  | (TLBrace | TLBrack | TLParen) :: r => Nat.max d (nesting (S d) r)
  | (TRBrace | TRBrack | TRParen) :: r => Nat.max d (nesting (pred d) r)
  | _ :: r => nesting d r
  end.

(** The expression a token list is, when it is one and nothing follows. *)
Definition parse (ts : list token) : option (outcome expr) :=
  if max_nesting <? nesting 0 ts then None
  else
    match parse_expr (2 * List.length ts + 2) ts with
    | POk e [] => Some (Value e)
    | POk _ (_ :: _) => None
    | PSyntaxError => syntax_error "invalid syntax"
    | PUnmodelled => None
    end.

(** *** Evaluation *)

(** Names of the driver's value classes.  The module imports none of them
    (its imports are [os], [logging], [schedule], [time], [datetime] from
    [datetime], [MongoClient] and [load_dotenv]), no local variable of
    [restore_snapshot] bears such a name and none is a builtin: looking one
    up raises [NameError]. *)
Definition unbound_names : list string :=
  ["ObjectId"; "Binary"; "Code"; "DBRef"; "Decimal128"; "Int64";
   "MaxKey"; "MinKey"; "Regex"; "Timestamp"].

Definition name_error (x : string) : exn :=
  mk_exn NameError ("name '" +++ x +++ "' is not defined").

(** [from datetime import datetime] binds the name [datetime] to the class,
    which has no attribute [datetime]. *)
Definition datetime_attribute_error : exn :=
  mk_exn AttributeError
    "type object 'datetime.datetime' has no attribute 'datetime'".

Definition hashable (v : pyval) : bool :=
  match v with
  | PList _ | PDict _ => false
  | _ => true
  end.

Definition datetime_eqb (a b : datetime) : bool :=
  (year a =? year b) && (month a =? month b) && (day a =? day b)
  && (hour a =? hour b) && (minute a =? minute b)
  && (second a =? second b) && (microsecond a =? microsecond b).

(** [a == b] on hashable values; a boolean equals the integer it is. *)
Definition key_eqb (a b : pyval) : bool :=
  match a, b with
  | PNone, PNone => true
  | PBool x, PBool y => Bool.eqb x y
  | PBool x, PInt z | PInt z, PBool x => Z.eqb z (if x then 1 else 0)
  | PInt x, PInt y => Z.eqb x y
  | PStr x, PStr y => String.eqb x y
  | PObjectId x, PObjectId y => String.eqb x y
  | PDatetime x, PDatetime y => datetime_eqb x y
  | _, _ => false
  end.

(** [d[k] = x]: the value of an equal key is replaced in place, a new key
    is added at the end. *)
Fixpoint dict_set (items : list (pyval * pyval)) (k x : pyval)
  : list (pyval * pyval) :=
  match items with
  | [] => [(k, x)]
  | (k0, x0) :: rest =>
      if key_eqb k0 k then (k0, x) :: rest
      else (k0, x0) :: dict_set rest k x
  end.

Definition build_dict (kvs : list (pyval * pyval)) : option (outcome pyval) :=
  if forallb (fun kv => hashable (fst kv)) kvs
  then Some (Value (PDict (fold_left (fun d kv => dict_set d (fst kv) (snd kv))
                                     kvs [])))
  else None.

(** Evaluation goes from left to right and stops at the first exception. *)
Fixpoint eval_expr (e : expr) : option (outcome pyval) :=
  match e with
  | EConst v => Some (Value v)
  | EName x =>
      if str_in x unbound_names then Some (Raises (name_error x)) else None
  | EAttr e1 a =>
      match e1 with
      | EName x =>
          if String.eqb x "datetime" && String.eqb a "datetime"
          then Some (Raises datetime_attribute_error)
          else match eval_expr e1 with
               | Some (Raises ex) => Some (Raises ex)
               | _ => None
               end
      | _ => match eval_expr e1 with
             | Some (Raises ex) => Some (Raises ex)
             | _ => None
             end
      end
  | ECall f _ =>
      match eval_expr f with
      | Some (Raises ex) => Some (Raises ex)
      | _ => None
      end
  | EList es =>
      let fix eval_list (es : list expr) : option (outcome (list pyval)) :=
        match es with
        | [] => Some (Value [])
        | e1 :: r =>
            match eval_expr e1 with
            | Some (Value v) =>
                match eval_list r with
                | Some (Value vs) => Some (Value (v :: vs))
                | other => other
                end
            | Some (Raises ex) => Some (Raises ex)
            | None => None
            end
        end in
      match eval_list es with
      | Some (Value vs) => Some (Value (PList vs))
      | Some (Raises ex) => Some (Raises ex)
      | None => None
      end
  | EDict kvs =>
      let fix eval_pairs (kvs : list (expr * expr))
        : option (outcome (list (pyval * pyval))) :=
        match kvs with
        | [] => Some (Value [])
        | (ke, xe) :: r =>
            match eval_expr ke with
            | Some (Value k) =>
                match eval_expr xe with
                | Some (Value x) =>
                    match eval_pairs r with
                    | Some (Value ps) => Some (Value ((k, x) :: ps))
                    | other => other
                    end
                | Some (Raises ex) => Some (Raises ex)
                | None => None
                end
            | Some (Raises ex) => Some (Raises ex)
            | None => None
            end
        end in
      match eval_pairs kvs with
      | Some (Value ps) => build_dict ps
      | Some (Raises ex) => Some (Raises ex)
      | None => None
      end
  end.

(** [eval(s)] on the modelled fragment. *)
Definition py_eval (s : string) : option (outcome pyval) :=
  match tokenize s with
  | Some (Value ts) =>
      match parse ts with
      | Some (Value e) => eval_expr e
      | Some (Raises ex) => Some (Raises ex)
      | None => None
      end
  | Some (Raises ex) => Some (Raises ex)
  | None => None
  end.

(** An evaluator that behaves as the model says wherever the model speaks. *)
Definition extends_py_eval (ev : string -> outcome pyval) : Prop :=
  forall s o, py_eval s = Some o -> ev s = o.

(** The model completed by a syntax error on every text it leaves out. *)
Definition py_eval_total (s : string) : outcome pyval :=
  match py_eval s with
  | Some o => o
  | None => Raises (mk_exn SyntaxError "invalid syntax")
  end.

End PyEval.

(** ** The file system

    A tree of directories and regular files, addressed by POSIX path
    strings.  A path is resolved one component at a time from the root (an
    absolute path) or from the working directory; every component is looked
    up in a directory, so that a path through a regular file or a missing
    directory does not resolve. *)

Module FS.
Import Exn.

Inductive node : Type :=
| File (content : string)
| Dir (entries : list (string * node)).

Record fs := mk_fs {
  root : node;          (* the directory [/] *)
  cwd : list string     (* the working directory, from the root *)
}.

Inductive result (A : Type) : Type :=
| Ok (a : A)
| Err (e : exn).
Arguments Ok {A} a.
Arguments Err {A} e.

Fixpoint assoc {A} (k : string) (es : list (string * A)) : option A :=
  match es with
  | [] => None
  | (k0, a) :: rest => if String.eqb k0 k then Some a else assoc k rest
  end.

(** The node at a resolved position. *)
Fixpoint lookup (t : node) (pos : list string) : option node :=
  match pos with
  | [] => Some t
  | c :: r =>
      match t with
      | Dir es =>
          match assoc c es with
          | Some m => lookup m r
          | None => None
          end
      | File _ => None
      end
  end.

Definition is_dir_at (t : node) (pos : list string) : bool :=
  match lookup t pos with
  | Some (Dir _) => true
  | _ => false
  end.

(** The components of a path string, the text between its slashes. *)
Fixpoint split_slash (s : string) : list string :=
  match s with
  | EmptyString => [""]
  | String c r =>
      if Ascii.eqb c "/" then "" :: split_slash r
      else match split_slash r with
           | x :: xs => String c x :: xs
           | [] => [String c ""]
           end
  end.

(** One step of path resolution from the directory at [pos]. *)
Definition step (pos : list string) (c : string) : list string :=
  if String.eqb c "" || String.eqb c "." then pos
  else if String.eqb c ".." then removelast pos
  else pos ++ [c].

(** Resolution of the components [cs] from [pos]: each is taken in a
    directory that exists.  The position reached need not exist. *)
Fixpoint walk (t : node) (pos : list string) (cs : list string)
  : option (list string) :=
  match cs with
  | [] => Some pos
  | c :: r => if is_dir_at t pos then walk t (step pos c) r else None
  end.

(** The position a path string denotes.  The empty path denotes nothing. *)
Definition resolve (f : fs) (p : string) : option (list string) :=
  match p with
  | EmptyString => None
  | String c _ =>
      walk (root f) (if Ascii.eqb c "/" then [] else cwd f) (split_slash p)
  end.

Definition node_at (f : fs) (p : string) : option node :=
  match resolve f p with
  | Some pos => lookup (root f) pos
  | None => None
  end.

(** [os.path.exists(p)] *)
Definition exists_ (f : fs) (p : string) : bool :=
  match node_at f p with Some _ => true | None => false end.

(** [os.path.isdir(p)] *)
Definition isdir (f : fs) (p : string) : bool :=
  match node_at f p with Some (Dir _) => true | _ => false end.

(** [os.path.join(a, b)] *)
Definition join (a b : string) : string :=
  if PyStr.startswith b "/" then b
  else if String.eqb a "" || PyStr.endswith a "/" then a +++ b
  else a +++ "/" +++ b.

Definition no_such_file (p : string) : exn :=
  mk_exn FileNotFoundError ("[Errno 2] No such file or directory: '" +++ p +++ "'").
Definition not_a_directory (p : string) : exn :=
  mk_exn NotADirectoryError ("[Errno 20] Not a directory: '" +++ p +++ "'").
Definition is_a_directory (p : string) : exn :=
  mk_exn IsADirectoryError ("[Errno 21] Is a directory: '" +++ p +++ "'").
Definition file_exists (p : string) : exn :=
  mk_exn FileExistsError ("[Errno 17] File exists: '" +++ p +++ "'").

(** [os.listdir(p)]: the names of the entries, in directory order. *)
Definition listdir (f : fs) (p : string) : result (list string) :=
  match node_at f p with
  | Some (Dir es) => Ok (map fst es)
  | Some (File _) => Err (not_a_directory p)
  | None => Err (no_such_file p)
  end.

(** The text of the regular file at [p], as [open(p, 'r')] gives it. *)
Definition read_text (f : fs) (p : string) : result string :=
  match node_at f p with
  | Some (File s) => Ok s
  | Some (Dir _) => Err (is_a_directory p)
  | None => Err (no_such_file p)
  end.

(** The entry [c] of a directory is replaced, or added at the end. *)
Fixpoint set_entry (es : list (string * node)) (c : string)
                   (g : option node -> node) : list (string * node) :=
  match es with
  | [] => [(c, g None)]
  | (k, n) :: rest =>
      if String.eqb k c then (k, g (Some n)) :: rest
      else (k, n) :: set_entry rest c g
  end.

(** The tree with [new] at position [pos]. *)
Fixpoint update (t : node) (pos : list string) (new : node) : node :=
  match pos with
  | [] => new
  | c :: r =>
      match t with
      | Dir es =>
          Dir (set_entry es c (fun old =>
                 match old with
                 | Some n => update n r new
                 | None => update (Dir []) r new
                 end))
      | File _ => t
      end
  end.

Definition with_root (f : fs) (t : node) : fs := mk_fs t (cwd f).

(** [open(p, 'w')] followed by the writing of [s]: the regular file at [p]
    is created or replaced. *)
Definition write_text (f : fs) (p s : string) : result fs :=
  match resolve f p with
  | Some pos =>
      match lookup (root f) pos with
      | Some (Dir _) => Err (is_a_directory p)
      | Some (File _) | None =>
          match pos with
          | [] => Err (is_a_directory p)
          | _ :: _ =>
              if is_dir_at (root f) (removelast pos)
              then Ok (with_root f (update (root f) pos (File s)))
              else Err (no_such_file p)
          end
      end
  | None => Err (no_such_file p)
  end.

(** [f.write(s)] on the file opened at [p]: [s] is added at its end. *)
Definition append_text (f : fs) (p s : string) : result fs :=
  match resolve f p with
  | Some pos =>
      match lookup (root f) pos with
      | Some (File old) =>
          Ok (with_root f (update (root f) pos (File (old +++ s))))
      | Some (Dir _) => Err (is_a_directory p)
      | None => Err (no_such_file p)
      end
  | None => Err (no_such_file p)
  end.

Definition LF : ascii := ascii_of_nat 10.
Definition CR : ascii := ascii_of_nat 13.

(** Text mode reads with universal newlines: [\r\n] and [\r] come out
    as [\n]. *)
Fixpoint universal_newlines (s : string) : string :=
  match s with
  | EmptyString => EmptyString
  | String c r =>
      if Ascii.eqb c CR then
        String LF (universal_newlines
                     match r with
                     | String c2 r2 => if Ascii.eqb c2 LF then r2 else r
                     | EmptyString => r
                     end)
      else String c (universal_newlines r)
  end.

(** The lines of a text, each with the newline that ends it; [cur] is the
    line being read. *)
Fixpoint lines_from (cur : string) (s : string) : list string :=
  match s with
  | EmptyString => if String.eqb cur "" then [] else [cur]
  | String c r =>
      if Ascii.eqb c LF then (cur +++ String c "") :: lines_from "" r
      else lines_from (cur +++ String c "") r
  end.

(** What [for line in f] yields for a file of text [s]. *)
Definition readlines (s : string) : list string :=
  lines_from "" (universal_newlines s).

(** [os.makedirs(p)], one component at a time: missing directories are
    made on the way; [fresh] tells whether the last one was. *)
Fixpoint makedirs_walk (t : node) (pos : list string) (cs : list string)
                       (fresh : bool) (p : string) : result node :=
  match cs with
  | [] => if fresh then Ok t else Err (file_exists p)
  | c :: r =>
      if is_dir_at t pos then
        let pos' := step pos c in
        match lookup t pos' with
        | Some _ =>
            makedirs_walk t pos' r
              (if String.eqb c "" || String.eqb c "." then fresh else false) p
        | None => makedirs_walk (update t pos' (Dir [])) pos' r true p
        end
      else Err (not_a_directory p)
  end.

Definition makedirs (f : fs) (p : string) : result fs :=
  match p with
  | EmptyString => Err (no_such_file p)
  | String c _ =>
      match makedirs_walk (root f) (if Ascii.eqb c "/" then [] else cwd f)
                          (split_slash p) false p with
      | Ok t => Ok (with_root f t)
      | Err e => Err e
      end
  end.

End FS.

(** ** The MongoDB server and the driver's client objects

    The driver is an external capability: list the databases, list the
    collections of a database, find every document of a collection, delete
    every document of a collection, insert many documents.  The server is
    modelled by the databases it holds, each a list of named collections of
    documents in insertion order. *)

Module Mongo.
Import PyVal FS.

Definition collection := list pyval.
Definition database := list (string * collection).
Definition server := list (string * database).

Definition get_database (s : server) (db : string) : database :=
  match assoc db s with Some d => d | None => [] end.

(** [client.list_database_names()] *)
Definition list_database_names (s : server) : list string := map fst s.

(** [client[db].list_collection_names()] *)
Definition list_collection_names (s : server) (db : string) : list string :=
  map fst (get_database s db).

(** [list(client[db][coll].find())] *)
Definition find (s : server) (db coll : string) : collection :=
  match assoc coll (get_database s db) with Some docs => docs | None => [] end.

Fixpoint set_assoc {A} (k : string) (g : option A -> A)
                   (es : list (string * A)) : list (string * A) :=
  match es with
  | [] => [(k, g None)]
  | (k0, a) :: rest =>
      if String.eqb k0 k then (k0, g (Some a)) :: rest
      else (k0, a) :: set_assoc k g rest
  end.

(** [client[db][coll].delete_many({})]: an existing collection is emptied;
    nothing is created. *)
Definition delete_many (s : server) (db coll : string) : server :=
  match assoc coll (get_database s db) with
  | Some _ =>
      set_assoc db (fun _ => set_assoc coll (fun _ => [])
                                       (get_database s db)) s
  | None => s
  end.

(** [client[db][coll].insert_many(docs)]: the documents are appended; the
    collection and the database are created when missing. *)
Definition insert_many (s : server) (db coll : string) (docs : list pyval)
  : server :=
  set_assoc db (fun _ => set_assoc coll
                           (fun old => match old with
                                       | Some ds => ds ++ docs
                                       | None => docs
                                       end)
                           (get_database s db)) s.

(** The calls the program issues through a client. *)
Inductive driver_op : Type :=
| OpServerInfo
| OpListDatabaseNames
| OpListCollectionNames (db : string)
| OpFind (db coll : string)
| OpDeleteMany (db coll : string)
| OpInsertMany (db coll : string) (docs : list pyval).

(** What happens to client objects, in order.  [EvCall c closed op] is the
    call [op] issued through client [c]; [closed] tells whether [c] had been
    closed when the call was made. *)
Inductive event : Type :=
| EvNewClient (c : nat)
| EvCall (c : nat) (closed : bool) (op : driver_op)
| EvClose (c : nat).

End Mongo.

(** ** The state the program runs in, and its monad *)

Module Run.
Import PyStr PyVal Exn FS Mongo.
Export FS(result, Ok, Err).

Inductive level : Type := INFO | ERROR.

(** The [MongoDBSnapshot] object. *)
Record instance := mk_instance {
  mongo_uri : option string;
  backup_dir : string;
  client : option nat        (* [self.client]: [None] or a client object *)
}.

Record state := mk_state {
  self : instance;
  files : fs;
  server_ : server;
  clients : nat;                    (* how many client objects were made *)
  closed : list nat;                (* the client objects that are closed *)
  trace : list event;
  log : list (level * string);
  now : datetime;                   (* what [datetime.now()] returns *)
  faults : list (option exn)        (* what the next external calls meet *)
}.

Definition M (A : Type) : Type := state -> result A * state.

Definition ret {A} (a : A) : M A := fun s => (Ok a, s).
Definition raise {A} (e : exn) : M A := fun s => (Err e, s).
Definition bind {A B} (m : M A) (k : A -> M B) : M B :=
  fun s => match m s with
           | (Ok a, s') => k a s'
           | (Err e, s') => (Err e, s')
           end.

Notation "x <- m ;; k" := (bind m (fun x => k))
  (at level 61, m at next level, right associativity).
Notation "m ;; k" := (bind m (fun _ => k))
  (at level 61, right associativity).

Definition get : M state := fun s => (Ok s, s).
Definition put (s : state) : M unit := fun _ => (Ok tt, s).
Definition lift {A} (r : result A) : M A := fun s => (r, s).

(** [try: body except Exception as e: handler(e)] *)
Definition try_except {A} (body : M A) (handler : exn -> M A) : M A :=
  fun s => match body s with
           | (Err e, s') =>
               if is_Exception e then handler e s' else (Err e, s')
           | r => r
           end.

(** [try: body finally: final] *)
Definition try_finally {A} (body : M A) (final : M unit) : M A :=
  fun s => match body s with
           | (r, s') =>
               match final s' with
               | (Ok _, s'') => (r, s'')
               | (Err e, s'') => (Err e, s'')
               end
           end.

(** [for x in xs: body(x)] *)
Fixpoint for_each {A} (xs : list A) (body : A -> M unit) : M unit :=
  match xs with
  | [] => ret tt
  | x :: rest => body x ;; for_each rest body
  end.

(** [for x in xs: acc = body(acc, x)], for a loop that fills a local list. *)
Fixpoint for_fold {A B} (xs : list A) (acc : B) (body : B -> A -> M B)
  : M B :=
  match xs with
  | [] => ret acc
  | x :: rest => acc' <- body acc x ;; for_fold rest acc' body
  end.

Definition when (b : bool) (m : M unit) : M unit := if b then m else ret tt.

(** *** State updates *)

Definition set_self (i : instance) (s : state) : state :=
  mk_state i (files s) (server_ s) (clients s) (closed s) (trace s) (log s)
           (now s) (faults s).
Definition set_files (f : fs) (s : state) : state :=
  mk_state (self s) f (server_ s) (clients s) (closed s) (trace s) (log s)
           (now s) (faults s).
Definition set_server (v : server) (s : state) : state :=
  mk_state (self s) (files s) v (clients s) (closed s) (trace s) (log s)
           (now s) (faults s).
Definition set_clients (n : nat) (s : state) : state :=
  mk_state (self s) (files s) (server_ s) n (closed s) (trace s) (log s)
           (now s) (faults s).
Definition set_closed (c : list nat) (s : state) : state :=
  mk_state (self s) (files s) (server_ s) (clients s) c (trace s) (log s)
           (now s) (faults s).
Definition add_event (e : event) (s : state) : state :=
  mk_state (self s) (files s) (server_ s) (clients s) (closed s)
           (trace s ++ [e]) (log s) (now s) (faults s).
Definition add_log (l : level) (m : string) (s : state) : state :=
  mk_state (self s) (files s) (server_ s) (clients s) (closed s) (trace s)
           (log s ++ [(l, m)]) (now s) (faults s).
Definition set_faults (fl : list (option exn)) (s : state) : state :=
  mk_state (self s) (files s) (server_ s) (clients s) (closed s) (trace s)
           (log s) (now s) fl.

Definition modify (g : state -> state) : M unit := fun s => (Ok tt, g s).

(** [logging.info(m)] and [logging.error(m)] *)
Definition logging_info (m : string) : M unit := modify (add_log INFO m).
Definition logging_error (m : string) : M unit := modify (add_log ERROR m).

(** An external call may fail for reasons of its own (the network, the
    server, the disk): the next entry of [faults] is what it meets. *)
Definition external : M unit :=
  fun s => match faults s with
           | [] => (Ok tt, s)
           | None :: rest => (Ok tt, set_faults rest s)
           | Some e :: rest => (Err e, set_faults rest s)
           end.

(** *** The file system calls *)

Definition os_path_exists (p : string) : M bool :=
  fun s => (Ok (FS.exists_ (files s) p), s).
Definition os_path_isdir (p : string) : M bool :=
  fun s => (Ok (FS.isdir (files s) p), s).
Definition os_makedirs (p : string) : M unit :=
  external ;;
  s <- get ;;
  f <- lift (FS.makedirs (files s) p) ;;
  modify (set_files f).
Definition os_listdir (p : string) : M (list string) :=
  external ;;
  s <- get ;;
  lift (FS.listdir (files s) p).

(** [open(p, 'w')]: the file is created, or emptied. *)
Definition open_write (p : string) : M unit :=
  external ;;
  s <- get ;;
  f <- lift (FS.write_text (files s) p "") ;;
  modify (set_files f).

(** [f.write(text)] on the file opened at [p]. *)
Definition file_write (p text : string) : M unit :=
  external ;;
  s <- get ;;
  f <- lift (FS.append_text (files s) p text) ;;
  modify (set_files f).

(** [open(p, 'r')] and the lines its iteration yields. *)
Definition open_read (p : string) : M (list string) :=
  external ;;
  s <- get ;;
  text <- lift (FS.read_text (files s) p) ;;
  ret (FS.readlines text).

(** *** The driver calls *)

Definition is_closed (closed : list nat) (c : nat) : bool :=
  existsb (Nat.eqb c) closed.

Definition mark_closed (c : nat) (closed : list nat) : list nat :=
  if is_closed closed c then closed else c :: closed.

Definition mark_open (c : nat) (closed : list nat) : list nat :=
  filter (fun x => negb (Nat.eqb c x)) closed.

(** [MongoClient(uri)]: a new client object. *)
Definition MongoClient : M nat :=
  external ;;
  s <- get ;;
  let c := clients s in
  put (add_event (EvNewClient c) (set_clients (S c) s)) ;;
  ret c.

(** A call through client [c].  A driver that answers a call made through a
    closed client has reopened it. *)
Definition driver_call (c : nat) (op : driver_op) : M unit :=
  s <- get ;;
  put (add_event (EvCall c (is_closed (closed s) c) op) s) ;;
  external ;;
  modify (fun s => set_closed (mark_open c (closed s)) s).

(** [client.close()] *)
Definition client_close (c : nat) : M unit :=
  modify (fun s => add_event (EvClose c)
                     (set_closed (mark_closed c (closed s)) s)).

Definition client_server_info (c : nat) : M unit :=
  driver_call c OpServerInfo.

Definition client_list_database_names (c : nat) : M (list string) :=
  driver_call c OpListDatabaseNames ;;
  s <- get ;; ret (list_database_names (server_ s)).

Definition db_list_collection_names (c : nat) (db : string)
  : M (list string) :=
  driver_call c (OpListCollectionNames db) ;;
  s <- get ;; ret (list_collection_names (server_ s) db).

Definition collection_find (c : nat) (db coll : string) : M (list pyval) :=
  driver_call c (OpFind db coll) ;;
  s <- get ;; ret (find (server_ s) db coll).

Definition collection_delete_many (c : nat) (db coll : string) : M unit :=
  driver_call c (OpDeleteMany db coll) ;;
  modify (fun s => set_server (delete_many (server_ s) db coll) s).

Definition collection_insert_many (c : nat) (db coll : string)
                                  (docs : list pyval) : M unit :=
  driver_call c (OpInsertMany db coll docs) ;;
  modify (fun s => set_server (insert_many (server_ s) db coll docs) s).

End Run.

(** ** The class [MongoDBSnapshot] *)

Module MongoDBSnapshot.
Import PyStr PyVal Exn FS Mongo Run.
Import PyEval(outcome, Value, Raises).

(** [sorted(xs, reverse=True)] on texts, which Python compares code point by
    code point. *)
Fixpoint insert_desc (x : string) (l : list string) : list string :=
  match l with
  | [] => [x]
  | y :: r => if String.ltb y x then x :: l else y :: insert_desc x r
  end.

Definition sorted_reverse (xs : list string) : list string :=
  fold_right insert_desc [] xs.

(** [dt.strftime('%Y%m%d_%H%M%S')] *)
Definition strftime (dt : datetime) : string :=
  zero_pad 4 (year dt) +++ zero_pad 2 (month dt) +++ zero_pad 2 (day dt)
  +++ "_" +++ zero_pad 2 (hour dt) +++ zero_pad 2 (minute dt)
  +++ zero_pad 2 (second dt).

(** [[x for x in xs if cond(x)]] *)
Definition comprehension {A} (xs : list A) (cond : A -> M bool)
  : M (list A) :=
  for_fold xs [] (fun acc x =>
    b <- cond x ;; ret (if b then acc ++ [x] else acc)).

Definition with_client (i : instance) (c : option nat) : instance :=
  mk_instance (mongo_uri i) (backup_dir i) c.

Definition is_none {A} (o : option A) : bool :=
  match o with None => true | Some _ => false end.

Definition nonempty {A} (l : list A) : bool :=
  match l with [] => false | _ :: _ => true end.

(** A use of [self.client] as a client object. *)
Definition self_client : M nat :=
  s <- get ;;
  match client (self s) with
  | Some c => ret c
  | None => raise (mk_exn AttributeError
                     "'NoneType' object has no attribute of a client")
  end.

(** [__init__], lines 23-30; the two arguments are the environment
    variables [MONGODB_URI] and [BACKUP_DIR]. *)
Definition init (env_uri env_backup_dir : option string) : M unit :=
  let dir := match env_backup_dir with Some d => d | None => "backups" end in
  modify (set_self (mk_instance env_uri dir None)) ;;
  e <- os_path_exists dir ;;
  when (negb e) (os_makedirs dir).

(** [connect], lines 32-41 *)
Definition connect : M unit :=
  try_except
    (c <- MongoClient ;;
     modify (fun s => set_self (with_client (self s) (Some c)) s) ;;
     c' <- self_client ;;
     client_server_info c' ;;
     logging_info "Successfully connected to MongoDB")
    (fun e =>
       logging_error ("Failed to connect to MongoDB: " +++ str_exn e) ;;
       raise e).

(** The body of the loop over collections, lines 72-82; [c] and [db_name]
    are the database object [db]. *)
Definition export_collection (c : nat) (db_name db_backup_path : string)
                             (collection : string) : M unit :=
  collection_data <- collection_find c db_name collection ;;
  let output_file := join db_backup_path (collection +++ ".json") in
  open_write output_file ;;
  for_each collection_data (fun document =>
    file_write output_file (str document +++ String LF "")) ;;
  logging_info ("Exported " +++ str_of_nat (List.length collection_data)
                +++ " documents from " +++ db_name +++ "." +++ collection).

(** The body of the loop over databases, lines 59-82 *)
Definition snapshot_database (backup_path : string) (db_name : string)
  : M unit :=
  when (negb (str_in db_name ["admin"; "local"]))
    (logging_info ("Creating snapshot for database: " +++ db_name) ;;
     let db_backup_path := join backup_path db_name in
     e <- os_path_exists db_backup_path ;;
     when (negb e) (os_makedirs db_backup_path) ;;
     c <- self_client ;;
     collections <- db_list_collection_names c db_name ;;
     for_each collections (export_collection c db_name db_backup_path)).

(** The [finally] clause of both operations, lines 89-91 and 166-168 *)
Definition release : M unit :=
  s <- get ;;
  match client (self s) with
  | Some c => client_close c
  | None => ret tt
  end.

(** [create_snapshot], lines 43-91 *)
Definition create_snapshot : M unit :=
  try_finally
    (try_except
       (s <- get ;;
        when (is_none (client (self s))) connect ;;
        c <- self_client ;;
        databases <- client_list_database_names c ;;
        s <- get ;;
        let timestamp := strftime (now s) in
        let backup_path := join (backup_dir (self s)) timestamp in
        e <- os_path_exists backup_path ;;
        when (negb e) (os_makedirs backup_path) ;;
        for_each databases (snapshot_database backup_path) ;;
        logging_info ("Snapshot completed successfully at " +++ timestamp))
       (fun e =>
          logging_error ("Error creating snapshot: " +++ str_exn e) ;;
          raise e))
    release.

(** [list_snapshots], lines 93-107 *)
Definition list_snapshots : M (list string) :=
  try_except
    (s <- get ;;
     e <- os_path_exists (backup_dir (self s)) ;;
     if negb e then ret []
     else
       names <- os_listdir (backup_dir (self s)) ;;
       snapshots <- for_fold names [] (fun snapshots snapshot_dir =>
         d <- os_path_isdir (join (backup_dir (self s)) snapshot_dir) ;;
         ret (if d then snapshots ++ [snapshot_dir] else snapshots)) ;;
       ret (sorted_reverse snapshots))
    (fun e =>
       logging_error ("Error listing snapshots: " +++ str_exn e) ;;
       raise e).

Section Restore.

(** Python's [eval], as a function of the text it is given. *)
Variable eval : string -> outcome pyval.

(** The body of the loop over lines, lines 147-155 *)
Definition restore_line (documents : list pyval) (line : string)
  : M (list pyval) :=
  try_except
    (let doc_str := strip line in
     if startswith doc_str "{" then
       match eval doc_str with
       | Value doc => ret (documents ++ [doc])
       | Raises e => raise e
       end
     else ret documents)
    (fun e =>
       logging_error ("Error parsing document: " +++ str_exn e) ;;
       ret documents).

(** The body of the loop over collection files, lines 134-159; [c] and
    [db_name] are the database object [db]. *)
Definition restore_collection (c : nat) (db_name db_path : string)
                              (collection_file : string) : M unit :=
  let collection_name := drop_last 5 collection_file in
  let collection_path := join db_path collection_file in
  logging_info ("Restoring collection: " +++ collection_name) ;;
  collection_delete_many c db_name collection_name ;;
  lines <- open_read collection_path ;;
  documents <- for_fold lines [] restore_line ;;
  when (nonempty documents)
    (collection_insert_many c db_name collection_name documents ;;
     logging_info ("Restored " +++ str_of_nat (List.length documents)
                   +++ " documents to " +++ db_name +++ "."
                   +++ collection_name)).

(** The body of the loop over databases, lines 123-159 *)
Definition restore_database (snapshot_path : string) (db_name : string)
  : M unit :=
  let db_path := join snapshot_path db_name in
  logging_info ("Restoring database: " +++ db_name) ;;
  c <- self_client ;;
  names <- os_listdir db_path ;;
  collection_files <- comprehension names (fun f => ret (endswith f ".json")) ;;
  for_each collection_files (restore_collection c db_name db_path).

(** [restore_snapshot], lines 109-168 *)
Definition restore_snapshot (snapshot_name : string) : M unit :=
  try_finally
    (try_except
       (s <- get ;;
        when (is_none (client (self s))) connect ;;
        s <- get ;;
        let snapshot_path := join (backup_dir (self s)) snapshot_name in
        e <- os_path_exists snapshot_path ;;
        if negb e then
          raise (mk_exn ValueError
                   ("Snapshot " +++ snapshot_name +++ " does not exist"))
        else
          names <- os_listdir snapshot_path ;;
          databases <- comprehension names (fun d =>
                         os_path_isdir (join snapshot_path d)) ;;
          for_each databases (restore_database snapshot_path) ;;
          logging_info ("Snapshot " +++ snapshot_name
                        +++ " restored successfully"))
       (fun e =>
          logging_error ("Error restoring snapshot: " +++ str_exn e) ;;
          raise e))
    release.

End Restore.

End MongoDBSnapshot.


(** ** The command line tool, [mongodb_cli.py]

    [main] from the point where [parse_args] has returned: the namespace
    holds one of the three actions and the value of [--snapshot], [None]
    when the option is absent.  The value [main] returns is what [print]
    wrote to the standard output, one text for each call, in order. *)

Module MongoDBCli.
Import PyStr PyVal Exn FS Mongo Run MongoDBSnapshot.
Import PyEval(outcome).

(** The [choices] of the positional argument. *)
Inductive action : Type := ActCreate | ActRestore | ActList.

Record namespace := mk_namespace {
  action_ : action;
  snapshot : option string
}.

Section Main.

Variable eval : string -> outcome pyval.

(** The environment variables [MONGODB_URI] and [BACKUP_DIR]. *)
Variables env_uri env_backup_dir : option string.

(** [main], lines 4-27 *)
Definition main (args : namespace) : M (list string) :=
  init env_uri env_backup_dir ;;
  match action_ args with
  | ActCreate => create_snapshot ;; ret []
  | ActRestore =>
      match snapshot args with
      | Some (String c name) =>
          restore_snapshot eval (String c name) ;; ret []
      | Some EmptyString | None =>        (* [not args.snapshot] *)
          ret ["Error: Snapshot name is required for restore action"]
      end
  | ActList =>
      snapshots <- list_snapshots ;;
      if nonempty snapshots then
        ret (String LF "Available snapshots:"
             :: map (fun snapshot => "- " +++ snapshot) snapshots)
      else
        ret [String LF "No snapshots found"]
  end.

End Main.

End MongoDBCli.

(** ** [restore_snapshot] with [eval] run in its frame

    [eval(doc_str)] at line 151 is given no namespace of its own: the text
    is evaluated with the globals of the module and the locals of
    [restore_snapshot].  It is an expression of Python, and evaluating it
    can reach the list [documents] and, through [self], [db], [os] or
    [logging], the state of the program, change them, and then return a
    value or raise.  [MongoDBSnapshot.restore_snapshot] takes an evaluator
    that looks at its text only; the definitions of this module take an
    evaluator that is given the list [documents] and the state, and returns
    them with its outcome.  The lines of the file are those read when the
    file was opened. *)

Module Framed.
Import PyStr PyVal Exn FS Mongo Run MongoDBSnapshot.
Import PyEval.

Definition evaluator : Type :=
  string -> list pyval -> state -> (outcome pyval * list pyval) * state.

(** An evaluator that looks at its text only. *)
Definition only_text (e0 : string -> outcome pyval) : evaluator :=
  fun text documents s => (e0 text, documents, s).

Section Restore.

Variable eval : evaluator.

(** The body of the loop over lines, lines 147-155 *)
Definition restore_line (documents : list pyval) (line : string)
  : M (list pyval) :=
  let doc_str := strip line in
  if startswith doc_str "{" then
    fun s =>
      match eval doc_str documents s with
      | (Value doc, documents', s') => (Ok (documents' ++ [doc]), s')
      | (Raises e, documents', s') =>
          if is_Exception e then
            (logging_error ("Error parsing document: " +++ str_exn e) ;;
             ret documents') s'
          else (Err e, s')
      end
  else ret documents.

(** The body of the loop over collection files, lines 134-159; [c] and
    [db_name] are the database object [db]. *)
Definition restore_collection (c : nat) (db_name db_path : string)
                              (collection_file : string) : M unit :=
  let collection_name := drop_last 5 collection_file in
  let collection_path := join db_path collection_file in
  logging_info ("Restoring collection: " +++ collection_name) ;;
  collection_delete_many c db_name collection_name ;;
  lines <- open_read collection_path ;;
  documents <- for_fold lines [] restore_line ;;
  when (nonempty documents)
    (collection_insert_many c db_name collection_name documents ;;
     logging_info ("Restored " +++ str_of_nat (List.length documents)
                   +++ " documents to " +++ db_name +++ "."
                   +++ collection_name)).

(** The body of the loop over databases, lines 123-159 *)
Definition restore_database (snapshot_path : string) (db_name : string)
  : M unit :=
  let db_path := join snapshot_path db_name in
  logging_info ("Restoring database: " +++ db_name) ;;
  c <- self_client ;;
  names <- os_listdir db_path ;;
  collection_files <- comprehension names (fun f => ret (endswith f ".json")) ;;
  for_each collection_files (restore_collection c db_name db_path).

(** [restore_snapshot], lines 109-168 *)
Definition restore_snapshot (snapshot_name : string) : M unit :=
  try_finally
    (try_except
       (s <- get ;;
        when (is_none (client (self s))) connect ;;
        s <- get ;;
        let snapshot_path := join (backup_dir (self s)) snapshot_name in
        e <- os_path_exists snapshot_path ;;
        if negb e then
          raise (mk_exn ValueError
                   ("Snapshot " +++ snapshot_name +++ " does not exist"))
        else
          names <- os_listdir snapshot_path ;;
          databases <- comprehension names (fun d =>
                         os_path_isdir (join snapshot_path d)) ;;
          for_each databases (restore_database snapshot_path) ;;
          logging_info ("Snapshot " +++ snapshot_name
                        +++ " restored successfully"))
       (fun e =>
          logging_error ("Error restoring snapshot: " +++ str_exn e) ;;
          raise e))
    release.

End Restore.

(** *** An expression that reaches the frame

    The local name [documents] is bound to the list the loop fills, and
    [documents.clear()] empties that list and returns [None].  The
    evaluation below is that of [PyEval.eval_expr], from left to right,
    with this one call added: it returns the outcome and the list as the
    evaluation leaves it. *)

Definition is_documents_clear (f : expr) : bool :=
  match f with
  | EAttr (EName x) a => String.eqb x "documents" && String.eqb a "clear"
  | _ => false
  end.

Fixpoint eval_in_frame (e : expr) (documents : list pyval)
  : option (outcome pyval * list pyval) :=
  match e with
  | ECall f [] =>
      if is_documents_clear f then Some (Value PNone, [])
      else option_map (fun o => (o, documents)) (eval_expr e)
  | EList es =>
      let fix eval_list (es : list expr) (documents : list pyval)
        : option (outcome (list pyval) * list pyval) :=
        match es with
        | [] => Some (Value [], documents)
        | e1 :: r =>
            match eval_in_frame e1 documents with
            | Some (Value v, documents1) =>
                match eval_list r documents1 with
                | Some (Value vs, documents2) =>
                    Some (Value (v :: vs), documents2)
                | other => other
                end
            | Some (Raises ex, documents1) => Some (Raises ex, documents1)
            | None => None
            end
        end in
      match eval_list es documents with
      | Some (Value vs, documents') => Some (Value (PList vs), documents')
      | Some (Raises ex, documents') => Some (Raises ex, documents')
      | None => None
      end
  | EDict kvs =>
      let fix eval_pairs (kvs : list (expr * expr)) (documents : list pyval)
        : option (outcome (list (pyval * pyval)) * list pyval) :=
        match kvs with
        | [] => Some (Value [], documents)
        | (ke, xe) :: r =>
            match eval_in_frame ke documents with
            | Some (Value k, documents1) =>
                match eval_in_frame xe documents1 with
                | Some (Value x, documents2) =>
                    match eval_pairs r documents2 with
                    | Some (Value ps, documents3) =>
                        Some (Value ((k, x) :: ps), documents3)
                    | other => other
                    end
                | Some (Raises ex, documents2) => Some (Raises ex, documents2)
                | None => None
                end
            | Some (Raises ex, documents1) => Some (Raises ex, documents1)
            | None => None
            end
        end in
      match eval_pairs kvs documents with
      | Some (Value ps, documents') =>
          option_map (fun o => (o, documents')) (build_dict ps)
      | Some (Raises ex, documents') => Some (Raises ex, documents')
      | None => None
      end
  | _ => option_map (fun o => (o, documents)) (eval_expr e)
  end.

(** [eval(s)] in the frame, on the modelled fragment. *)
Definition py_eval_in_frame (s : string) (documents : list pyval)
  : option (outcome pyval * list pyval) :=
  match tokenize s with
  | Some (Value ts) =>
      match parse ts with
      | Some (Value e) => eval_in_frame e documents
      | Some (Raises ex) => Some (Raises ex, documents)
      | None => None
      end
  | Some (Raises ex) => Some (Raises ex, documents)
  | None => None
  end.

(** The model in the frame, completed as [PyEval.py_eval_total] is. *)
Definition frame_eval : evaluator :=
  fun text documents s =>
    match py_eval_in_frame text documents with
    | Some (o, documents') => (o, documents', s)
    | None => (Raises (mk_exn SyntaxError "invalid syntax"), documents, s)
    end.

End Framed.
(** * Vocabulary of the statements *)

(** Definitions the statements about the connection use. *)
Module ConnectionSpec.
Import Mongo Run.

(** An event that is not the making of a client. *)
Definition not_new (e : event) : Prop := forall c, e <> EvNewClient c.

(** [self.client], when it holds a client, holds a closed one. *)
Definition released (s : state) : Prop :=
  match client (self s) with
  | Some c => is_closed (closed s) c = true
  | None => True
  end.

(** A run from [s] to [s'] released its connection: every client made
    during the run is the one [self.client] holds at the end, and that one
    is closed by the last thing the run did. *)
Definition run_releases (s s' : state) : Prop :=
  exists evs, trace s' = trace s ++ evs
    /\ (forall c, In (EvNewClient c) evs -> client (self s') = Some c)
    /\ (forall c, client (self s') = Some c ->
          is_closed (closed s') c = true
          /\ exists before, evs = before ++ [EvClose c]).

End ConnectionSpec.

(** Definitions the statements about restoring use. *)
Module RestoreSpec.
Import PyStr PyVal Exn FS Mongo Run MongoDBSnapshot.

(** A deletion or an insertion asked of the server. *)
Definition is_mutation (e : event) : bool :=
  match e with
  | EvCall _ _ (OpDeleteMany _ _) => true
  | EvCall _ _ (OpInsertMany _ _ _) => true
  | _ => false
  end.

(** The operation starts with a connection: the object holds a client, or
    [connect] succeeds. *)
Definition connection_ready (s : state) : Prop :=
  match client (self s) with
  | Some _ => True
  | None => fst (connect s) = Ok tt
  end.

(** The line passes the test of line 150. *)
Definition looks_like_document (line : string) : bool :=
  startswith (strip line) "{".

(** What becomes of a line of a Collection File: it is skipped without a
    word, it decodes to a value, it is malformed (it looks like a document
    and [eval] raises an [Exception]), or [eval] raises something an
    [except Exception] clause does not catch. *)
Inductive line_kind : Type :=
| Skipped
| Decodable (doc : pyval)
| Malformed (e : exn)
| Fatal (e : exn).

Definition classify (eval : string -> PyEval.outcome pyval) (line : string)
  : line_kind :=
  if looks_like_document line then
    match eval (strip line) with
    | PyEval.Value doc => Decodable doc
    | PyEval.Raises e => if is_Exception e then Malformed e else Fatal e
    end
  else Skipped.

(** The documents of the decodable lines, in order. *)
Definition decoded (eval : string -> PyEval.outcome pyval)
                   (lines : list string) : list pyval :=
  flat_map (fun line => match classify eval line with
                        | Decodable doc => [doc]
                        | _ => []
                        end) lines.

Definition is_malformed (eval : string -> PyEval.outcome pyval)
                        (line : string) : bool :=
  match classify eval line with Malformed _ => true | _ => false end.


Definition is_fatal (eval : string -> PyEval.outcome pyval)
                    (line : string) : bool :=
  match classify eval line with Fatal _ => true | _ => false end.

(** The log entry of line 154. *)
Definition decode_failure_entry (e : exn) : level * string :=
  (ERROR, "Error parsing document: " +++ str_exn e).

(** A log entry that reports a decode failure. *)
Definition is_decode_failure (entry : level * string) : bool :=
  match entry with
  | (ERROR, m) => startswith m "Error parsing document: "
  | (INFO, _) => false
  end.

(** How many decode failures a log reports. *)
Definition decode_failures (l : list (level * string)) : nat :=
  List.length (filter is_decode_failure l).


(** The collection a Collection File is restored to holds exactly the
    documents decoded from the file. *)
Definition holds_exactly (eval : string -> PyEval.outcome pyval) (f : fs)
           (v : server) (db_name db_path collection_file : string) : Prop :=
  forall text,
    FS.read_text f (join db_path collection_file) = Ok text ->
    find v db_name (drop_last 5 collection_file)
    = decoded eval (FS.readlines text).

(** The collection an event deletes from or inserts into, if it does. *)
Definition mutation_target (e : event) : option (string * string) :=
  match e with
  | EvCall _ _ (OpDeleteMany db coll) => Some (db, coll)
  | EvCall _ _ (OpInsertMany db coll _) => Some (db, coll)
  | _ => None
  end.

(** An event that deletes from or inserts into a collection does so on
    account of a Collection File: an entry of the database's directory in
    the snapshot whose name ends in [.json], the collection being named by
    what precedes that suffix. *)
Definition from_collection_file (f : fs) (snapshot_path : string)
                                (e : event) : Prop :=
  forall db coll,
    mutation_target e = Some (db, coll) ->
    exists names file,
      FS.listdir f (join snapshot_path db) = Ok names
      /\ In file names
      /\ endswith file ".json" = true
      /\ coll = drop_last 5 file
      /\ file = coll +++ ".json".

(** The validation error of line 117. *)
Definition snapshot_not_found (snapshot_name : string) : exn :=
  mk_exn ValueError ("Snapshot " +++ snapshot_name +++ " does not exist").

End RestoreSpec.

(** Definitions the statements about the snapshot store use. *)
Module StoreSpec.
Import PyStr FS Run.

Fixpoint has_slash (s : string) : bool :=
  match s with
  | EmptyString => false
  | String c r => Ascii.eqb c "/" || has_slash r
  end.

(** A name a directory entry can bear: not empty, not [.] or [..], without
    a slash. *)
Definition is_component (n : string) : bool :=
  negb (String.eqb n "") && negb (String.eqb n ".")
  && negb (String.eqb n "..") && negb (has_slash n).

Definition is_dir_node (n : node) : bool :=
  match n with Dir _ => true | File _ => false end.

(** The names of the immediate subdirectories among the entries of a
    directory. *)
Definition subdirectories (es : list (string * node)) : list string :=
  map fst (filter (fun e => is_dir_node (snd e)) es).

(** The two reserved system databases, line 60. *)
Definition system_databases : list string := ["admin"; "local"].

(** The names of the server can be names of files: every database name is
    a component, and so is every collection name followed by [.json]. *)
Definition names_fit_files (v : Mongo.server) : Prop :=
  Forall (fun d => is_component d = true) (Mongo.list_database_names v)
  /\ forall d c,
       In c (Mongo.list_collection_names v d) ->
       is_component (c +++ ".json") = true.

(** [a] comes before [b] in a list sorted newest first: [b <= a]. *)
Definition newest_first (a b : string) : Prop := String.leb b a = true.

(** The next external call meets no fault. *)
Definition next_call_succeeds (s : state) : Prop :=
  hd None (faults s) = None.

End StoreSpec.

(** A small world to run the operations in: four databases on the server,
    an empty backup root in the working directory. *)
Module Demo.
Import PyVal FS Mongo Run.

Definition ann : pyval :=
  PDict [(PStr "_id", PInt 1); (PStr "name", PStr "ann")].
Definition bob : pyval :=
  PDict [(PStr "_id", PObjectId "507f1f77bcf86cd799439011");
         (PStr "name", PStr "bob")].

Definition cal : pyval :=
  PDict [(PStr "_id", PInt 3);
         (PStr "seen", PDatetime (mk_datetime 2024 1 2 3 4 5 0))].

Definition demo_server : server :=
  [("admin", [("system.users", [])]);
   ("local", [("startup_log", [ann])]);
   ("shop", [("users", [ann; bob]); ("orders", [])]);
   ("analytics", [("events", [ann])])].

Definition demo_files : fs :=
  mk_fs (Dir [("srv", Dir [("backups", Dir [])])]) ["srv"].

Definition demo_state : state :=
  mk_state (mk_instance (Some "mongodb://localhost:27017") "backups" None)
           demo_files demo_server 0 [] [] []
           (mk_datetime 2024 1 2 2 0 0 0) [].


(** A Collection File of ten valid lines and two malformed ones: a line cut
    inside a text literal and a line cut inside a list. *)
Definition twelve_lines : string :=
  "{'_id': 1, 'name': 'ann'}
{'_id': 2, 'name': 'ben'}
{'_id': 3, 'name': 'cy', 'tags': ['a', 'b']}
{'_id': 4, 'name': 'dee
{'_id': 5, 'name': 'eve', 'n': -7}
{'_id': 6, 'name': 'fay', 'ok': True}
{'_id': 7, 'name': 'gus', 'boss': None}
{'_id': 8, 'tags': [1, 2
{'_id': 9, 'name': 'hal', 'address': {'city': 'Hue'}}
{'_id': 10, 'name': 'ida'}
{'_id': 11, 'name': 'jo'}
{'_id': 12, 'name': 'kim'}
".

(** A snapshot on disk that holds that file, and a target collection with
    a document the snapshot does not have. *)
Definition restore_files : fs :=
  mk_fs (Dir [("srv",
           Dir [("backups",
             Dir [("20240102_020000",
               Dir [("shop",
                 Dir [("users.json", File twelve_lines);
                      ("README.txt", File "not a collection")])])])])])
        ["srv"].

Definition zed : pyval :=
  PDict [(PStr "_id", PInt 99); (PStr "name", PStr "zed")].

Definition restore_state : state :=
  mk_state (mk_instance (Some "mongodb://localhost:27017") "backups" None)
           restore_files [("shop", [("users", [zed])])] 0 [] [] []
           (mk_datetime 2024 1 3 9 30 0 0) [].


(** A backup root with three snapshots and a stray file. *)
Definition listing_entries : list (string * node) :=
  [("20240102_020000", Dir []);
   ("notes.txt", File "keep");
   ("20240101_020000", Dir [("shop", Dir [])]);
   ("20240103_020000", Dir [])].

Definition listing_state : state :=
  mk_state (mk_instance (Some "mongodb://localhost:27017") "backups" None)
           (mk_fs (Dir [("srv", Dir [("backups", Dir listing_entries)])])
                  ["srv"])
           [] 0 [] [] [] (mk_datetime 2024 1 4 8 0 0 0) [].

End Demo.

(** Definitions the statements about documents and their lines use. *)
Module DocumentSpec.
Import PyStr PyVal.

Fixpoint all_chars (p : ascii -> bool) (s : string) : bool :=
  match s with
  | EmptyString => true
  | String c r => p c && all_chars p r
  end.

(** A hexadecimal digit as [str] of an object identifier shows it. *)
Definition is_hex_digit (c : ascii) : bool :=
  let n := nat_of_ascii c in
  ((48 <=? n) && (n <=? 57)) || ((97 <=? n) && (n <=? 102)).

(** The text of an object identifier: 24 hexadecimal digits. *)
Definition is_object_id (oid : string) : bool :=
  (String.length oid =? 24) && all_chars is_hex_digit oid.

Definition is_text (v : pyval) : bool :=
  match v with PStr _ => true | _ => false end.

(** No two keys of the list are equal. *)
Fixpoint distinct (ks : list pyval) : bool :=
  match ks with
  | [] => true
  | k :: r => forallb (fun k' => negb (PyEval.key_eqb k k')) r && distinct r
  end.

(** A value a document fetched through the driver is made of: the keys of
    a dictionary are texts, no two of them equal, and an object identifier
    has its 24 digits. *)
Fixpoint is_value (v : pyval) : bool :=
  match v with
  | PNone | PBool _ | PInt _ | PStr _ | PDatetime _ => true
  | PObjectId oid => is_object_id oid
  | PList xs => forallb is_value xs
  | PDict items =>
      forallb (fun '(k, x) => is_text k && is_value x) items
      && distinct (map fst items)
  end.

(** A document: a dictionary that is such a value. *)
Definition is_document (v : pyval) : bool :=
  match v with PDict _ => is_value v | _ => false end.

(** A value without extended scalars: no object identifier and no
    datetime at any depth. *)
Fixpoint plain (v : pyval) : bool :=
  match v with
  | PNone | PBool _ | PInt _ | PStr _ => true
  | PObjectId _ | PDatetime _ => false
  | PList xs => forallb plain xs
  | PDict items => forallb (fun '(k, x) => plain k && plain x) items
  end.

Definition list_max (ns : list nat) : nat := fold_right Nat.max 0 ns.

(** How deep the brackets of [str v] nest. *)
Fixpoint depth (v : pyval) : nat :=
  match v with
  | PNone | PBool _ | PInt _ | PStr _ => 0
  | PObjectId _ | PDatetime _ => 1
  | PList xs => S (list_max (map depth xs))
  | PDict items =>
      S (list_max (map (fun '(k, x) => Nat.max (depth k) (depth x)) items))
  end.

(** The text holds a line break. *)
Fixpoint has_line_break (s : string) : bool :=
  match s with
  | EmptyString => false
  | String c r => Ascii.eqb c FS.LF || Ascii.eqb c FS.CR || has_line_break r
  end.

(** The line [create_snapshot] writes for a document, line 80. *)
Definition line_of (document : pyval) : string :=
  str document +++ String FS.LF "".

(** The text of the Collection File of a list of documents. *)
Definition lines_of (documents : list pyval) : string :=
  List.fold_right (fun d rest => line_of d +++ rest) "" documents.

(** Every document of the server is a document nested no deeper than
    the model of [eval] follows. *)
Definition documents_ok (v : Mongo.server) : bool :=
  forallb (fun db : string * Mongo.database =>
    forallb (fun coll : string * Mongo.collection =>
      forallb (fun doc => is_document doc
                          && (depth doc <=? PyEval.max_nesting))
              (snd coll)) (snd db)) v.

End DocumentSpec.

(** Definitions the statements about snapshot names use. *)
Module StampSpec.
Import PyVal.

(** A time the clock can show: a year of four digits, a month, a day of a
    month and a time of day. *)
Definition is_clock_time (dt : datetime) : bool :=
  (1000 <=? year dt) && (year dt <? 100 * 100)
  && (1 <=? month dt) && (month dt <=? 12)
  && (1 <=? day dt) && (day dt <=? 31)
  && (hour dt <? 24) && (minute dt <? 60) && (second dt <? 60).

(** What a snapshot name shows of a time: everything down to the second. *)
Definition fields (dt : datetime) : list nat :=
  [year dt; month dt; day dt; hour dt; minute dt; second dt].

(** The order of times, field by field. *)
Fixpoint compare_fields (a b : list nat) : comparison :=
  match a, b with
  | [], [] => Eq
  | [], _ :: _ => Lt
  | _ :: _, [] => Gt
  | x :: a', y :: b' =>
      match Nat.compare x y with
      | Eq => compare_fields a' b'
      | c => c
      end
  end.

End StampSpec.

(** Positions in the tree of files. *)
Module PlaceSpec.

(** The way to [q] goes through [p]. *)
Fixpoint is_prefix (p q : list string) : bool :=
  match p, q with
  | [], _ => true
  | a :: p', b :: q' => String.eqb a b && is_prefix p' q'
  | _ :: _, [] => false
  end.

(** [q] is off the branch of [p]: neither at or below [p], nor above it. *)
Definition off_branch (p q : list string) : bool :=
  negb (is_prefix p q) && negb (is_prefix q p).

End PlaceSpec.

(** A machine on which nothing has been set up yet, and two times of the
    clock a day apart. *)
Module Setup.
Import PyVal FS Mongo Run.

Definition bare_files : fs := mk_fs (Dir [("srv", Dir [])]) ["srv"].

Definition bare_state : state :=
  mk_state (mk_instance None "" None) bare_files Demo.demo_server 0 [] [] []
           (mk_datetime 2024 1 2 2 0 0 0) [].

(** The server some time after [Demo.demo_state]: the users of the shop
    replaced, a collection and a database added. *)
Definition later_server : server :=
  [("local", [("startup_log", [])]);
   ("shop", [("users", [Demo.zed]); ("carts", [Demo.zed])]);
   ("crm", [("leads", [Demo.ann])])].

Definition monday : datetime := mk_datetime 2024 1 1 2 0 0 0.
Definition tuesday : datetime := mk_datetime 2024 1 2 2 0 0 0.

End Setup.

(** Definitions the statements about [eval] in its frame use. *)
Module FrameSpec.
Import PyStr PyVal Exn FS Mongo Run.
Import PyEval(outcome, Value, Raises, py_eval).

(** On [text] the evaluator only computes: whatever the documents and the
    state, it leaves them as they are and gives what [e0] gives for the
    text. *)
Definition computes (eval : Framed.evaluator) (e0 : string -> outcome pyval)
                    (text : string) : Prop :=
  forall documents s, eval text documents s = (e0 text, documents, s).

(** The database directories of a snapshot, as lines 120-121 find them. *)
Definition database_dirs (f : fs) (snapshot_path : string) : list string :=
  match FS.listdir f snapshot_path with
  | Ok names => filter (fun d => FS.isdir f (join snapshot_path d)) names
  | Err _ => []
  end.

(** The Collection Files of a database directory, as lines 131-132 find
    them. *)
Definition collection_files (f : fs) (db_path : string) : list string :=
  match FS.listdir f db_path with
  | Ok names => filter (fun n => endswith n ".json") names
  | Err _ => []
  end.

(** The lines of the file at [p]. *)
Definition file_lines (f : fs) (p : string) : list string :=
  match FS.read_text f p with
  | Ok text => FS.readlines text
  | Err _ => []
  end.

(** The texts a restore of the snapshot gives to [eval]: the stripped
    lines of its Collection Files that start with a brace. *)
Definition evaluated_texts (f : fs) (snapshot_path : string) : list string :=
  flat_map
    (fun db =>
       flat_map
         (fun file =>
            filter (fun t => startswith t "{")
                   (map strip
                        (file_lines f (join (join snapshot_path db) file))))
         (collection_files f (join snapshot_path db)))
    (database_dirs f snapshot_path).



Definition is_syntax_error (o : outcome pyval) : bool :=
  match o with
  | Raises e => match exn_cls e with SyntaxError => true | _ => false end
  | Value _ => false
  end.

(** The evaluator reads [text] as the model of [PyEval] says: if that
    model gives a value, a [NameError] or an [AttributeError] for the text,
    the evaluator gives the same and only computes.  (Of a syntax error the
    model knows the class, not the message of the release at hand, and
    nothing is asked there.) *)
Definition reads_literal (eval : Framed.evaluator) (text : string) : Prop :=
  forall o,
    py_eval text = Some o -> is_syntax_error o = false ->
    forall documents s, eval text documents s = (o, documents, s).

(** It does so on the text of every document of the server. *)
Definition reads_documents (eval : Framed.evaluator) (v : server) : Prop :=
  forall db coll d, In d (find v db coll) -> reads_literal eval (str d).

End FrameSpec.

(** A snapshot with a Collection File that no [create_snapshot] wrote: its
    second line is an expression that empties the list [documents], its
    third the line of a document with an object identifier. *)
Module FrameDemo.
Import PyVal FS Mongo Run.

Definition two : pyval := PDict [(PStr "_id", PInt 2); (PStr "x", PNone)].

Definition clearing_lines : string :=
  "{'_id': 1, 'name': 'ann'}
{'_id': 2, 'x': documents.clear()}
{'_id': ObjectId('507f1f77bcf86cd799439011'), 'name': 'bob'}
".

Definition clearing_files : fs :=
  mk_fs (Dir [("srv",
           Dir [("backups",
             Dir [("20240102_020000",
               Dir [("shop",
                 Dir [("users.json", File clearing_lines)])])])])])
        ["srv"].

Definition clearing_state : state :=
  mk_state (mk_instance (Some "mongodb://localhost:27017") "backups" None)
           clearing_files [("shop", [("users", [Demo.zed])])] 0 [] [] []
           (mk_datetime 2024 1 3 9 30 0 0) [].

End FrameDemo.
(** * Properties *)

(** ** Reasoning about runs *)

Module RunFacts.
Import PyStr PyVal Exn FS Mongo Run.

(** [m] takes every state to one related to it by [R], whatever it returns. *)
Definition preserves {A} (R : state -> state -> Prop) (m : M A) : Prop :=
  forall s r s', m s = (r, s') -> R s s'.

Lemma bind_inv {A B} (m : M A) (k : A -> M B) s r s' :
  bind m k s = (r, s') ->
  (exists e, m s = (Err e, s') /\ r = Err e) \/
  (exists a s1, m s = (Ok a, s1) /\ k a s1 = (r, s')).
Proof.
  unfold bind. destruct (m s) as [[a|e] s1]; intros H.
  - right. eauto.
  - left. inversion H; subst. eauto.
Qed.

Lemma bind_ok {A B} (m : M A) (k : A -> M B) s a s1 :
  m s = (Ok a, s1) -> bind m k s = k a s1.
Proof. unfold bind. intros ->. reflexivity. Qed.

Lemma bind_err {A B} (m : M A) (k : A -> M B) s e s1 :
  m s = (Err e, s1) -> bind m k s = (Err e, s1).
Proof. unfold bind. intros ->. reflexivity. Qed.

Section Preserves.
Context (R : state -> state -> Prop) `{!PreOrder R}.

Lemma preserves_ret {A} (a : A) : preserves R (ret a).
Proof. intros s r s' H. inversion H; subst. reflexivity. Qed.

Lemma preserves_raise {A} e : preserves R (@raise A e).
Proof. intros s r s' H. inversion H; subst. reflexivity. Qed.

Lemma preserves_get : preserves R get.
Proof. intros s r s' H. inversion H; subst. reflexivity. Qed.

Lemma preserves_lift {A} (x : result A) : preserves R (lift x).
Proof. intros s r s' H. inversion H; subst. reflexivity. Qed.

Lemma preserves_bind {A B} (m : M A) (k : A -> M B) :
  preserves R m -> (forall a, preserves R (k a)) -> preserves R (bind m k).
Proof.
  intros Hm Hk s r s' H. apply bind_inv in H.
  destruct H as [(e & H & _) | (a & s1 & H1 & H2)].
  - eapply Hm; eauto.
  - etransitivity; [eapply Hm | eapply Hk]; eauto.
Qed.

Lemma preserves_when b (m : M unit) :
  preserves R m -> preserves R (when b m).
Proof. destruct b; simpl; auto using preserves_ret. Qed.

Lemma preserves_for_each {A} (xs : list A) (body : A -> M unit) :
  (forall x, In x xs -> preserves R (body x)) -> preserves R (for_each xs body).
Proof.
  induction xs as [|x xs IH]; simpl; intros Hb.
  - apply preserves_ret.
  - apply preserves_bind; auto.
Qed.

Lemma preserves_for_fold {A B} (xs : list A) (body : B -> A -> M B) acc :
  (forall b x, In x xs -> preserves R (body b x)) ->
  preserves R (for_fold xs acc body).
Proof.
  revert acc. induction xs as [|x xs IH]; simpl; intros acc Hb.
  - apply preserves_ret.
  - apply preserves_bind; auto.
Qed.

Lemma preserves_try_except {A} (body : M A) (handler : exn -> M A) :
  preserves R body -> (forall e, preserves R (handler e)) ->
  preserves R (try_except body handler).
Proof.
  intros Hb Hh s r s'. unfold try_except.
  destruct (body s) as [[a|e] s1] eqn:E.
  - intros H; inversion H; subst. eapply Hb; eauto.
  - destruct (is_Exception e).
    + intros H. etransitivity; [eapply Hb | eapply Hh]; eauto.
    + intros H; inversion H; subst. eapply Hb; eauto.
Qed.

Lemma preserves_try_finally {A} (body : M A) (final : M unit) :
  preserves R body -> preserves R final ->
  preserves R (try_finally body final).
Proof.
  intros Hb Hf s r s'. unfold try_finally.
  destruct (body s) as [r1 s1] eqn:E.
  destruct (final s1) as [[u|e] s2] eqn:F; intros H; inversion H; subst;
    (etransitivity; [eapply Hb | eapply Hf]; eauto).
Qed.

Lemma preserves_modify (g : state -> state) :
  (forall s, R s (g s)) -> preserves R (modify g).
Proof. intros Hg s r s' H. inversion H; subst. apply Hg. Qed.

Lemma preserves_put_after_get (g : state -> state) :
  (forall s, R s (g s)) -> preserves R (s <- get ;; put (g s)).
Proof. intros Hg s r s' H. inversion H; subst. apply Hg. Qed.

End Preserves.

(** *** Triples

    [hoare P m Q E]: from a state that satisfies [P], [m] returns a value
    [a] in a state that satisfies [Q a], or raises [e] in a state that
    satisfies [E e]. *)
Definition hoare {A} (P : state -> Prop) (m : M A)
                 (Q : A -> state -> Prop) (E : exn -> state -> Prop) : Prop :=
  forall s, P s ->
    match m s with
    | (Ok a, s') => Q a s'
    | (Err e, s') => E e s'
    end.

Lemma hoare_ret {A} (P : state -> Prop) (a : A) Q E :
  (forall s, P s -> Q a s) -> hoare P (ret a) Q E.
Proof. intros H s Hp. simpl. auto. Qed.

Lemma hoare_raise {A} (P : state -> Prop) e (Q : A -> state -> Prop) E :
  (forall s, P s -> E e s) -> hoare P (raise e) Q E.
Proof. intros H s Hp. simpl. auto. Qed.

Lemma hoare_bind {A B} P (m : M A) (k : A -> M B) Q1 Q E :
  hoare P m Q1 E -> (forall a, hoare (Q1 a) (k a) Q E) ->
  hoare P (bind m k) Q E.
Proof.
  intros Hm Hk s Hp. specialize (Hm s Hp). unfold bind.
  destruct (m s) as [[a|e] s1]; auto. apply Hk; auto.
Qed.

Lemma hoare_get_bind {B} P (k : state -> M B) Q E :
  (forall s0, hoare (fun s => P s /\ s = s0) (k s0) Q E) ->
  hoare P (bind get k) Q E.
Proof. intros H s Hp. unfold bind, get. apply (H s s). auto. Qed.

Lemma hoare_weaken {A} (P P' : state -> Prop) (m : M A)
                   (Q Q' : A -> state -> Prop) (E E' : exn -> state -> Prop) :
  hoare P' m Q' E' ->
  (forall s, P s -> P' s) ->
  (forall a s, Q' a s -> Q a s) ->
  (forall e s, E' e s -> E e s) ->
  hoare P m Q E.
Proof.
  intros H HP HQ HE s Hp. specialize (H s (HP s Hp)).
  destruct (m s) as [[a|e] s1]; auto.
Qed.

Lemma hoare_and {A} P (m : M A) Q1 Q2 E1 E2 :
  hoare P m Q1 E1 -> hoare P m Q2 E2 ->
  hoare P m (fun a s => Q1 a s /\ Q2 a s) (fun e s => E1 e s /\ E2 e s).
Proof.
  intros H1 H2 s Hp. specialize (H1 s Hp). specialize (H2 s Hp).
  destruct (m s) as [[a|e] s1]; auto.
Qed.

Lemma hoare_when P b (m : M unit) (Q : unit -> state -> Prop) E :
  (b = true -> hoare P m Q E) -> (b = false -> forall s, P s -> Q tt s) ->
  hoare P (when b m) Q E.
Proof.
  destruct b; simpl; intros H1 H2; auto. apply hoare_ret. auto.
Qed.

(** A loop with an invariant that knows which elements have been seen. *)
Lemma hoare_for_each_prefix {A} (xs : list A) (body : A -> M unit)
      (I : list A -> state -> Prop) E :
  (forall pre x post, xs = pre ++ x :: post ->
     hoare (I pre) (body x) (fun _ => I (pre ++ [x])) E) ->
  hoare (I []) (for_each xs body) (fun _ => I xs) E.
Proof.
  intros Hb.
  assert (G : forall post pre, xs = pre ++ post ->
            hoare (I pre) (for_each post body) (fun _ => I xs) E).
  { induction post as [|x post IH]; intros pre Hx; simpl.
    - apply hoare_ret. rewrite app_nil_r in Hx. subst pre. auto.
    - eapply hoare_bind; [eapply Hb; eauto |].
      intros u. apply IH. rewrite Hx, <- app_assoc. reflexivity. }
  apply (G xs []). reflexivity.
Qed.

Lemma hoare_for_each {A} (xs : list A) (body : A -> M unit)
      (I : state -> Prop) E :
  (forall x, In x xs -> hoare I (body x) (fun _ => I) E) ->
  hoare I (for_each xs body) (fun _ => I) E.
Proof.
  intros Hb. apply (hoare_for_each_prefix xs body (fun _ => I)).
  intros pre x post Hx. apply Hb. rewrite Hx. apply in_or_app. simpl. auto.
Qed.

Lemma hoare_try_except {A} P (body : M A) (handler : exn -> M A) Q E1 E :
  hoare P body Q E1 ->
  (forall e, is_Exception e = true -> hoare (E1 e) (handler e) Q E) ->
  (forall e s, is_Exception e = false -> E1 e s -> E e s) ->
  hoare P (try_except body handler) Q E.
Proof.
  intros Hb Hh Hn s Hp. specialize (Hb s Hp). unfold try_except.
  destruct (body s) as [[a|e] s1]; auto.
  destruct (is_Exception e) eqn:X.
  - apply Hh; auto.
  - apply Hn; auto.
Qed.

Lemma hoare_try_finally {A} P (body : M A) (final : M unit) Q1 E1 Q E :
  hoare P body Q1 E1 ->
  (forall a, hoare (Q1 a) final (fun _ => Q a) E) ->
  (forall e, hoare (E1 e) final (fun _ => E e) E) ->
  hoare P (try_finally body final) Q E.
Proof.
  intros Hb Hq He s Hp. specialize (Hb s Hp). unfold try_finally.
  destruct (body s) as [[a|e] s1].
  - specialize (Hq a s1 Hb). destruct (final s1) as [[u|e'] s2]; auto.
  - specialize (He e s1 Hb). destruct (final s1) as [[u|e'] s2]; auto.
Qed.

(** A triple that speaks of the normal return only. *)
Lemma hoare_of_ok {A} (P : state -> Prop) (m : M A) (Q : A -> state -> Prop) :
  (forall s a s', P s -> m s = (Ok a, s') -> Q a s') ->
  hoare P m Q (fun _ _ => True).
Proof.
  intros H s Hp. destruct (m s) as [[a|e] s1] eqn:X; auto. eapply H; eauto.
Qed.

Lemma hoare_ok_elim {A} (P : state -> Prop) (m : M A) Q E s a s' :
  hoare P m Q E -> P s -> m s = (Ok a, s') -> Q a s'.
Proof. intros H Hp X. specialize (H s Hp). rewrite X in H. exact H. Qed.

(** A program that preserves a preorder keeps every state related to a
    fixed earlier one. *)
Lemma hoare_of_preserves {A} (R : state -> state -> Prop) `{!PreOrder R}
      (m : M A) s0 :
  preserves R m ->
  hoare (R s0) m (fun _ => R s0) (fun _ => R s0).
Proof.
  intros H s Hp. destruct (m s) as [[a|e] s1] eqn:X;
    (etransitivity; [exact Hp | eapply H; eauto]).
Qed.

End RunFacts.

(** ** What the operations leave alone *)

Module Frames.
Import PyStr PyVal Exn FS Mongo Run MongoDBSnapshot RunFacts.

(** The server's data is the same. *)
Definition same_server (s s' : state) : Prop := server_ s' = server_ s.
(** The file system is the same. *)
Definition same_files (s s' : state) : Prop := files s' = files s.
(** The object is the same, [self.client] included. *)
Definition same_self (s s' : state) : Prop := self s' = self s.
(** The object's configuration is the same. *)
Definition same_config (s s' : state) : Prop :=
  backup_dir (self s') = backup_dir (self s)
  /\ mongo_uri (self s') = mongo_uri (self s).
(** The clock is the same. *)
Definition same_now (s s' : state) : Prop := now s' = now s.
(** The log is the same. *)
Definition same_log (s s' : state) : Prop := log s' = log s.
(** The trace has grown by events that satisfy [P]. *)
Definition trace_grows (P : event -> Prop) (s s' : state) : Prop :=
  exists evs, trace s' = trace s ++ evs /\ Forall P evs.
(** The log has grown by entries that satisfy [P]. *)
Definition log_grows (P : level * string -> Prop) (s s' : state) : Prop :=
  exists ls, log s' = log s ++ ls /\ Forall P ls.

Definition rel_and (R1 R2 : state -> state -> Prop) (s s' : state) : Prop :=
  R1 s s' /\ R2 s s'.

#[export] Instance same_server_pre : PreOrder same_server.
Proof. split; unfold same_server; [intros s | intros a b c]; congruence. Qed.
#[export] Instance same_files_pre : PreOrder same_files.
Proof. split; unfold same_files; [intros s | intros a b c]; congruence. Qed.
#[export] Instance same_self_pre : PreOrder same_self.
Proof. split; unfold same_self; [intros s | intros a b c]; congruence. Qed.
#[export] Instance same_now_pre : PreOrder same_now.
Proof. split; unfold same_now; [intros s | intros a b c]; congruence. Qed.
#[export] Instance same_log_pre : PreOrder same_log.
Proof. split; unfold same_log; [intros s | intros a b c]; congruence. Qed.
#[export] Instance same_config_pre : PreOrder same_config.
Proof.
  split; unfold same_config; [intros s | intros a b c]; intuition congruence.
Qed.
#[export] Instance trace_grows_pre P : PreOrder (trace_grows P).
Proof.
  split.
  - intros s. exists []. rewrite app_nil_r. auto.
  - intros a b c (e1 & H1 & F1) (e2 & H2 & F2). exists (e1 ++ e2).
    rewrite H2, H1, app_assoc. split; auto. apply Forall_app; auto.
Qed.
#[export] Instance log_grows_pre P : PreOrder (log_grows P).
Proof.
  split.
  - intros s. exists []. rewrite app_nil_r. auto.
  - intros a b c (e1 & H1 & F1) (e2 & H2 & F2). exists (e1 ++ e2).
    rewrite H2, H1, app_assoc. split; auto. apply Forall_app; auto.
Qed.
#[export] Instance rel_and_pre R1 R2 `{!PreOrder R1} `{!PreOrder R2} :
  PreOrder (rel_and R1 R2).
Proof.
  split.
  - intros s. split; reflexivity.
  - intros a b c [H1 H2] [H3 H4]. split; etransitivity; eauto.
Qed.

Lemma trace_grows_one (P : event -> Prop) s s' e :
  trace s' = trace s ++ [e] -> P e -> trace_grows P s s'.
Proof. intros H Pe. exists [e]. auto. Qed.

Lemma trace_grows_none (P : event -> Prop) s s' :
  trace s' = trace s -> trace_grows P s s'.
Proof. intros H. exists []. rewrite app_nil_r. auto. Qed.


Lemma log_grows_none (P : level * string -> Prop) s s' :
  log s' = log s -> log_grows P s s'.
Proof. intros H. exists []. rewrite app_nil_r. auto. Qed.

Lemma trace_grows_weaken (P Q : event -> Prop) s s' :
  (forall e, P e -> Q e) -> trace_grows P s s' -> trace_grows Q s s'.
Proof.
  intros PQ (evs & H & F). exists evs. split; auto.
  eapply Forall_impl; eauto.
Qed.

(** Unfolds a primitive of the state monad on a state and splits on what
    the next external call meets. *)
Ltac run_prim :=
  let s := fresh "s" in let r := fresh "r" in let s' := fresh "s'" in
  let H := fresh "H" in
  intros s r s' H;
  unfold os_path_exists, os_path_isdir, os_makedirs, os_listdir, open_write,
         file_write, open_read, MongoClient, driver_call, client_close,
         logging_info, logging_error, self_client, release,
         modify, external, lift, get, put, bind, ret, raise in H;
  repeat match type of H with
         | context [faults ?x] => destruct (faults x) as [|[?|] ?]
         | context [match ?x with _ => _ end] => destruct x eqn:?
         end;
  inversion H; subst; clear H.

Ltac frame_simpl :=
  unfold rel_and, same_server, same_files, same_self, same_config, same_now,
         same_log;
  simpl; repeat split; auto;
  try (apply trace_grows_none; reflexivity);
  try (apply log_grows_none; reflexivity).

(** Structural steps of a proof that a program preserves a relation. *)
Ltac pres_step :=
  match goal with
  | |- preserves _ (bind _ _) =>
      apply preserves_bind; [typeclasses eauto | | intros ?]
  | |- preserves _ (ret _) => apply preserves_ret; typeclasses eauto
  | |- preserves _ (raise _) => apply preserves_raise; typeclasses eauto
  | |- preserves _ get => apply preserves_get; typeclasses eauto
  | |- preserves _ (lift _) => apply preserves_lift; typeclasses eauto
  | |- preserves _ (when _ _) =>
      apply preserves_when; [typeclasses eauto |]
  | |- preserves _ (for_each _ _) =>
      apply preserves_for_each; [typeclasses eauto | intros ? ?]
  | |- preserves _ (for_fold _ _ _) =>
      apply preserves_for_fold; [typeclasses eauto | intros ? ? ?]
  | |- preserves _ (try_except _ _) =>
      apply preserves_try_except; [typeclasses eauto | | intros ?]
  | |- preserves _ (try_finally _ _) =>
      apply preserves_try_finally; [typeclasses eauto | |]
  | |- preserves _ (if ?b then _ else _) => destruct b
  | |- preserves _ (match ?x with _ => _ end) => destruct x
  end.

Ltac pres_unfold :=
  unfold export_collection, snapshot_database, restore_line,
         restore_collection, restore_database, comprehension,
         client_server_info, client_list_database_names,
         db_list_collection_names, collection_find, collection_delete_many,
         collection_insert_many;
  cbv zeta.

(** A program is shown to preserve a relation by going through its
    structure down to the primitives, which [prim] settles. *)
Ltac pres_by prim := repeat (pres_unfold; first [pres_step | solve [prim]]).

(** A primitive preserves a conjunction of frame relations; [ev] settles
    what is asked of the event the primitive records. *)
Ltac frame_prim ev :=
  run_prim; frame_simpl;
  try (eapply trace_grows_one; [simpl; reflexivity | ev]).

End Frames.

(** ** Text *)

Module StrFacts.
Import PyStr.

Lemma length_append a b :
  String.length (a +++ b) = String.length a + String.length b.
Proof. induction a as [|c a IH]; simpl; congruence. Qed.

Lemma append_assoc a b c : (a +++ b) +++ c = a +++ (b +++ c).
Proof. induction a as [|x a IH]; simpl; congruence. Qed.

Lemma substring_all s : substring 0 (String.length s) s = s.
Proof. induction s as [|c s IH]; simpl; congruence. Qed.

Lemma substring_split s n :
  n <= String.length s ->
  substring 0 n s +++ substring n (String.length s - n) s = s.
Proof.
  revert n. induction s as [|c s IH]; intros n Hn.
  - simpl in Hn. assert (n = 0) by lia. subst. reflexivity.
  - destruct n as [|n].
    + simpl. rewrite substring_all. reflexivity.
    + simpl in *. rewrite IH by lia. reflexivity.
Qed.

(** A name that ends with a suffix is what is left without it, followed by
    the suffix. *)
Lemma endswith_split s x :
  endswith s x = true ->
  s = substring 0 (String.length s - String.length x) s +++ x.
Proof.
  unfold endswith. intros H. apply andb_true_iff in H. destruct H as [L E].
  apply Nat.leb_le in L. apply String.eqb_eq in E.
  pose proof (substring_split s (String.length s - String.length x)) as Hs.
  replace (String.length s - (String.length s - String.length x))
    with (String.length x) in Hs by lia.
  rewrite E in Hs. symmetry. apply Hs. lia.
Qed.

(** [name[:-5]] takes exactly the suffix [.json] off a name that ends
    with it. *)
Lemma drop_last_json f :
  endswith f ".json" = true -> f = drop_last 5 f +++ ".json".
Proof. intros H. apply endswith_split in H. exact H. Qed.

Lemma drop_last_json_inj f g :
  endswith f ".json" = true -> endswith g ".json" = true ->
  drop_last 5 f = drop_last 5 g -> f = g.
Proof.
  intros Hf Hg E. rewrite (drop_last_json f Hf), (drop_last_json g Hg), E.
  reflexivity.
Qed.

Lemma startswith_empty s : startswith s "" = true.
Proof. unfold startswith. destruct s; reflexivity. Qed.

End StrFacts.

(** ** Paths and directories *)

Module FSFacts.
Import PyStr FS StrFacts StoreSpec.

Lemma split_slash_nonempty s : split_slash s <> [].
Proof.
  destruct s as [|c s]; simpl; [discriminate |].
  destruct (Ascii.eqb c "/"); [discriminate |].
  destruct (split_slash s); discriminate.
Qed.

Lemma split_slash_app a b :
  split_slash (a +++ String "/" b) = split_slash a ++ split_slash b.
Proof.
  induction a as [|c a IH]; simpl.
  - reflexivity.
  - destruct (Ascii.eqb c "/"); simpl.
    + rewrite IH. reflexivity.
    + rewrite IH. pose proof (split_slash_nonempty a) as Hn.
      destruct (split_slash a); [contradiction | reflexivity].
Qed.

Lemma split_slash_component n :
  has_slash n = false -> split_slash n = [n].
Proof.
  induction n as [|c n IH]; simpl; auto.
  intros H. apply orb_false_iff in H. destruct H as [H1 H2].
  rewrite H1, IH; auto.
Qed.

Lemma walk_app t p xs ys :
  walk t p (xs ++ ys)
  = match walk t p xs with
    | Some q => walk t q ys
    | None => None
    end.
Proof.
  revert p. induction xs as [|x xs IH]; intros p; simpl; auto.
  destruct (is_dir_at t p); auto.
Qed.

Lemma step_component p n : is_component n = true -> step p n = p ++ [n].
Proof.
  unfold is_component, step. intros H.
  repeat (apply andb_true_iff in H; destruct H as [H ?]).
  apply negb_true_iff in H, H1, H2. rewrite H, H2, H1. reflexivity.
Qed.

Lemma lookup_app t p q :
  lookup t (p ++ q)
  = match lookup t p with
    | Some m => lookup m q
    | None => None
    end.
Proof.
  revert t. induction p as [|c p IH]; intros t; simpl; auto.
  destruct t as [s|es]; auto. destruct (assoc c es); auto.
Qed.

Lemma lookup_child t p n :
  lookup t (p ++ [n])
  = match lookup t p with
    | Some (Dir es) => assoc n es
    | _ => None
    end.
Proof.
  rewrite lookup_app. destruct (lookup t p) as [[s|es]|]; simpl; auto.
  destruct (assoc n es); auto.
Qed.

Lemma component_no_slash n : is_component n = true -> has_slash n = false.
Proof.
  unfold is_component. intros H.
  repeat (apply andb_true_iff in H; destruct H as [H ?]).
  apply negb_true_iff. assumption.
Qed.

Lemma component_not_absolute n :
  is_component n = true -> startswith n "/" = false.
Proof.
  intros H. pose proof (component_no_slash n H) as Hs.
  unfold is_component in H. destruct n as [|c n]; [discriminate |].
  simpl in Hs. apply orb_false_iff in Hs. destruct Hs as [Hc _].
  unfold startswith.
  change (String.prefix "/" (String c n))
    with (if ascii_dec "/" c then String.prefix "" n else false).
  destruct (ascii_dec "/" c) as [<- | _]; [| reflexivity].
  rewrite Ascii.eqb_refl in Hc. discriminate.
Qed.

(** The first character of a path decides where its resolution starts. *)
Definition start (f : fs) (p : string) : list string :=
  match p with
  | String c _ => if Ascii.eqb c "/" then [] else cwd f
  | EmptyString => cwd f
  end.

Lemma resolve_walk f p :
  p <> "" -> resolve f p = walk (root f) (start f p) (split_slash p).
Proof. destruct p; [congruence | reflexivity]. Qed.

(** [os.path.join(p, n)] for a component [n], when [p] is a directory:
    it resolves to the entry [n] of that directory. *)
Lemma resolve_join f p n pos es :
  is_component n = true ->
  resolve f p = Some pos ->
  lookup (root f) pos = Some (Dir es) ->
  resolve f (join p n) = Some (pos ++ [n]).
Proof.
  intros Hn Hp Hd.
  assert (Pne : p <> "") by (intros ->; discriminate).
  rewrite resolve_walk in Hp by auto.
  assert (Dp : is_dir_at (root f) pos = true)
    by (unfold is_dir_at; rewrite Hd; reflexivity).
  unfold join. rewrite component_not_absolute by auto.
  destruct (String.eqb p "") eqn:E0; [apply String.eqb_eq in E0; contradiction |].
  simpl. destruct (endswith p "/") eqn:Es.
  - pose proof (endswith_split _ _ Es) as Hsplit. simpl in Hsplit.
    set (a := substring 0 (String.length p - 1) p) in *.
    assert (Pa : p +++ n = a +++ String "/" n).
    { rewrite Hsplit at 1. apply append_assoc. }
    assert (St : start f (p +++ n) = start f p).
    { destruct p; [contradiction | reflexivity]. }
    rewrite resolve_walk.
    2:{ destruct p; [contradiction | discriminate]. }
    rewrite St, Pa, split_slash_app, (split_slash_component n), walk_app
      by (apply component_no_slash; auto).
    rewrite Hsplit, split_slash_app, walk_app in Hp. simpl in Hp.
    destruct (walk (root f) (start f (a +++ "/")) (split_slash a)) as [q|] eqn:W;
      [| discriminate].
    rewrite <- Hsplit in W. rewrite W. simpl.
    destruct (is_dir_at (root f) q) eqn:Dq; [| discriminate].
    unfold step in Hp at 1. simpl in Hp. inversion Hp; subst q.
    rewrite step_component by auto. reflexivity.
  - assert (St : start f (p +++ String "/" n) = start f p).
    { destruct p; [contradiction | reflexivity]. }
    rewrite resolve_walk.
    2:{ destruct p; [contradiction | discriminate]. }
    rewrite St, split_slash_app, (split_slash_component n), walk_app
      by (apply component_no_slash; auto).
    rewrite Hp. simpl. rewrite Dp, step_component by auto. reflexivity.
Qed.

Lemma node_at_join f p n es :
  is_component n = true ->
  node_at f p = Some (Dir es) ->
  node_at f (join p n) = assoc n es.
Proof.
  intros Hn Hp. unfold node_at in *.
  destruct (resolve f p) as [pos|] eqn:R; [| discriminate].
  rewrite (resolve_join f p n pos es Hn R Hp).
  rewrite lookup_child, Hp. reflexivity.
Qed.

Lemma isdir_join f p n es :
  is_component n = true ->
  node_at f p = Some (Dir es) ->
  isdir f (join p n)
  = match assoc n es with Some m => is_dir_node m | None => false end.
Proof.
  intros Hn Hp. unfold isdir. rewrite (node_at_join f p n es Hn Hp).
  destruct (assoc n es) as [[|]|]; reflexivity.
Qed.

Lemma assoc_head_other {A} k k0 (a : A) es :
  k0 <> k -> assoc k ((k0, a) :: es) = assoc k es.
Proof.
  intros H. simpl. destruct (String.eqb k0 k) eqn:E; auto.
  apply String.eqb_eq in E. contradiction.
Qed.

(** Filtering the names of a directory by the kind of their entry gives the
    names of the entries of that kind. *)
Lemma filter_names_by_entry (es : list (string * node)) :
  NoDup (map fst es) ->
  filter (fun n => match assoc n es with
                   | Some m => is_dir_node m
                   | None => false
                   end) (map fst es)
  = subdirectories es.
Proof.
  unfold subdirectories. induction es as [|[k a] es IH]; intros Hnd; simpl; auto.
  inversion Hnd as [|? ? Hk Hnd']; subst.
  rewrite String.eqb_refl.
  assert (E : filter (fun n => match (if String.eqb k n then Some a else assoc n es) with
                               | Some m => is_dir_node m
                               | None => false
                               end) (map fst es)
              = filter (fun n => match assoc n es with
                                 | Some m => is_dir_node m
                                 | None => false
                                 end) (map fst es)).
  { apply filter_ext_in. intros n Hin.
    destruct (String.eqb k n) eqn:E; auto.
    apply String.eqb_eq in E. subst n. contradiction. }
  rewrite E, IH by auto. destruct (is_dir_node a); reflexivity.
Qed.


(** *** What a position holds *)

(** Nothing, a regular file ([Some false]) or a directory ([Some true]). *)
Definition kind (t : node) (q : list string) : option bool :=
  option_map is_dir_node (lookup t q).

Lemma is_dir_at_kind t q : is_dir_at t q = true <-> kind t q = Some true.
Proof.
  unfold is_dir_at, kind. destruct (lookup t q) as [[|]|]; simpl;
    split; congruence.
Qed.

Lemma is_dir_at_kind_eq t t' q :
  kind t q = kind t' q -> is_dir_at t q = is_dir_at t' q.
Proof.
  unfold is_dir_at, kind.
  destruct (lookup t q) as [[|]|], (lookup t' q) as [[|]|]; simpl; congruence.
Qed.

Definition is_leaf (n : node) : Prop :=
  (exists s, n = File s) \/ n = Dir [].

Lemma lookup_leaf n r : is_leaf n -> r <> [] -> lookup n r = None.
Proof.
  intros [(s & ->) | ->] Hr; destruct r; simpl; congruence.
Qed.

Lemma assoc_set_entry_same es c g :
  assoc c (set_entry es c g) = Some (g (assoc c es)).
Proof.
  induction es as [|[k a] es IH]; simpl.
  - rewrite String.eqb_refl. reflexivity.
  - destruct (String.eqb k c) eqn:E; simpl; rewrite E; auto.
Qed.

Lemma assoc_set_entry_other es c c' g :
  c <> c' -> assoc c' (set_entry es c g) = assoc c' es.
Proof.
  intros Hne. induction es as [|[k a] es IH]; simpl.
  - destruct (String.eqb c c') eqn:E; auto.
    apply String.eqb_eq in E. contradiction.
  - destruct (String.eqb k c) eqn:E; simpl.
    + apply String.eqb_eq in E. subst k.
      destruct (String.eqb c c') eqn:E'; auto.
      apply String.eqb_eq in E'. contradiction.
    + destruct (String.eqb k c'); auto.
Qed.

Lemma list_eq_dec_string (a b : list string) : {a = b} + {a <> b}.
Proof. apply list_eq_dec. apply string_dec. Qed.

(** A leaf put at a position that held nothing, in a directory: that
    position changes and no other. *)
Lemma kind_update_new pos : forall t leaf q,
  is_leaf leaf ->
  pos <> [] ->
  is_dir_at t (removelast pos) = true ->
  lookup t pos = None ->
  kind (update t pos leaf) q
  = if list_eq_dec_string q pos then Some (is_dir_node leaf) else kind t q.
Proof.
  induction pos as [|c r IH]; intros t leaf q Hl Hne Hpar Hnone;
    [congruence |].
  destruct t as [s|es].
  { destruct r; simpl in Hpar; discriminate. }
  destruct q as [|c2 r2].
  { destruct (list_eq_dec_string [] (c :: r)); [discriminate |].
    reflexivity. }
  unfold kind. simpl update. simpl lookup.
  destruct (string_dec c c2) as [<- | Hc].
  - rewrite assoc_set_entry_same.
    destruct r as [|c' r'].
    + simpl in Hnone.
      destruct (assoc c es) as [m|] eqn:A; [discriminate |].
      simpl update.
      destruct (list_eq_dec_string (c :: r2) [c]) as [E | NE].
      * inversion E; subst. reflexivity.
      * rewrite lookup_leaf; auto. intros ->. congruence.
    + assert (Hr : c' :: r' <> []) by discriminate.
      change (removelast (c :: c' :: r')) with (c :: removelast (c' :: r')) in Hpar.
      unfold is_dir_at in Hpar. simpl lookup in Hpar, Hnone.
      destruct (assoc c es) as [m|] eqn:A; [| discriminate].
      specialize (IH m leaf r2 Hl Hr).
      unfold kind, is_dir_at in IH. rewrite IH; auto.
      destruct (list_eq_dec_string (c :: r2) (c :: c' :: r')) as [E | NE'];
        destruct (list_eq_dec_string r2 (c' :: r')) as [E2 | NE];
        try reflexivity; try congruence.
  - rewrite assoc_set_entry_other by auto.
    destruct (list_eq_dec_string (c2 :: r2) (c :: r)) as [E | NE];
      [inversion E; congruence | reflexivity].
Qed.

(** A regular file replaced by a regular file: nothing changes kind. *)
Lemma kind_update_file pos : forall t s0 s1 q,
  lookup t pos = Some (File s0) ->
  kind (update t pos (File s1)) q = kind t q.
Proof.
  induction pos as [|c r IH]; intros t s0 s1 q H.
  - simpl in H. inversion H; subst. unfold kind. destruct q; reflexivity.
  - destruct t as [s|es]; [discriminate |]. simpl in H.
    destruct (assoc c es) as [m|] eqn:A; [| discriminate].
    destruct q as [|c2 r2]; [reflexivity |].
    unfold kind. simpl update. simpl lookup.
    destruct (string_dec c c2) as [<- | Hc].
    + rewrite assoc_set_entry_same, A.
      specialize (IH m s0 s1 r2 H). unfold kind in IH. exact IH.
    + rewrite assoc_set_entry_other by auto. reflexivity.
Qed.

(** Resolution looks at directories only. *)
Lemma walk_ext t t' :
  (forall q, is_dir_at t q = is_dir_at t' q) ->
  forall cs p, walk t p cs = walk t' p cs.
Proof.
  intros H. induction cs as [|c cs IH]; intros p; simpl; auto.
  rewrite H, IH. reflexivity.
Qed.

Lemma walk_mono t t' :
  (forall q, is_dir_at t q = true -> is_dir_at t' q = true) ->
  forall cs p q, walk t p cs = Some q -> walk t' p cs = Some q.
Proof.
  intros H. induction cs as [|c cs IH]; intros p q; simpl; auto.
  destruct (is_dir_at t p) eqn:D; [| discriminate].
  rewrite (H _ D). apply IH.
Qed.


Lemma lookup_update_same pos : forall t new,
  is_dir_at t (removelast pos) = true ->
  lookup (update t pos new) pos = Some new.
Proof.
  induction pos as [|c r IH]; intros t new Hpar; [reflexivity |].
  destruct t as [s|es].
  { destruct r; simpl in Hpar; discriminate. }
  simpl. rewrite assoc_set_entry_same.
  destruct r as [|c' r']; [destruct (assoc c es); reflexivity |].
  change (removelast (c :: c' :: r')) with (c :: removelast (c' :: r')) in Hpar.
  unfold is_dir_at in Hpar. simpl lookup in Hpar.
  destruct (assoc c es) as [m|] eqn:A; [| discriminate].
  apply IH. exact Hpar.
Qed.

Lemma lookup_removelast t pos n :
  lookup t pos = Some n -> exists m, lookup t (removelast pos) = Some m.
Proof.
  revert n. induction pos as [|c pos' _] using rev_ind; intros n H;
    [simpl; eauto |].
  rewrite removelast_last. rewrite lookup_app in H.
  destruct (lookup t pos'); [eauto | discriminate].
Qed.

Lemma is_dir_at_lookup t pos :
  is_dir_at t pos = true -> exists es, lookup t pos = Some (Dir es).
Proof.
  unfold is_dir_at. destruct (lookup t pos) as [[|es]|]; try discriminate.
  eauto.
Qed.

(** A step from a directory to a position that holds nothing goes down to
    a new name. *)
Lemma step_to_nothing t pos c :
  is_dir_at t pos = true ->
  lookup t (step pos c) = None ->
  step pos c = pos ++ [c].
Proof.
  intros D Hn. apply is_dir_at_lookup in D. destruct D as (es & D).
  unfold step in *.
  destruct (String.eqb c "" || String.eqb c "."); [congruence |].
  destruct (String.eqb c ".."); [| reflexivity].
  destruct (lookup_removelast _ _ _ D) as (m & Hm). congruence.
Qed.

Lemma is_dir_at_update_dir t pos q :
  is_dir_at t pos = true ->
  forall c, lookup t (pos ++ [c]) = None ->
  is_dir_at t q = true -> is_dir_at (update t (pos ++ [c]) (Dir [])) q = true.
Proof.
  intros D c Hn Hq. apply is_dir_at_kind. rewrite kind_update_new.
  - destruct (list_eq_dec_string q (pos ++ [c])); [reflexivity |].
    apply is_dir_at_kind. exact Hq.
  - right. reflexivity.
  - destruct pos; discriminate.
  - rewrite removelast_last. exact D.
  - exact Hn.
Qed.

(** [os.makedirs] on any path: the path then resolves to an empty
    directory, and every directory there was is still there. *)
Lemma makedirs_walk_ok cs : forall t pos fresh p t',
  makedirs_walk t pos cs fresh p = Ok t' ->
  (fresh = true -> lookup t pos = Some (Dir [])) ->
  exists P, walk t' pos cs = Some P
            /\ lookup t' P = Some (Dir [])
            /\ (forall q, is_dir_at t q = true -> is_dir_at t' q = true).
Proof.
  induction cs as [|c r IH]; intros t pos fresh p t' H Hf; simpl in H.
  - destruct fresh; [| discriminate]. inversion H; subst.
    exists pos. simpl. auto.
  - destruct (is_dir_at t pos) eqn:D; [| discriminate].
    destruct (lookup t (step pos c)) as [n|] eqn:Lk.
    + apply IH in H.
      * destruct H as (P & W & L & M). exists P. simpl.
        rewrite (M _ D). auto.
      * unfold step in *.
        destruct (String.eqb c "" || String.eqb c "."); [exact Hf | discriminate].
    + pose proof (step_to_nothing _ _ _ D Lk) as St. rewrite St in *.
      apply IH in H.
      * destruct H as (P & W & L & M). exists P. simpl.
        assert (D' : is_dir_at t' pos = true).
        { apply M. apply is_dir_at_update_dir; auto. }
        rewrite D', St. split; [exact W |]. split; [exact L |].
        intros q Hq. apply M. apply is_dir_at_update_dir; auto.
      * intros _. apply lookup_update_same. rewrite removelast_last. exact D.
Qed.

Lemma makedirs_ok f p f' :
  makedirs f p = Ok f' ->
  cwd f' = cwd f
  /\ exists P, resolve f' p = Some P
               /\ lookup (root f') P = Some (Dir [])
               /\ (forall q, is_dir_at (root f) q = true ->
                             is_dir_at (root f') q = true).
Proof.
  unfold makedirs. destruct p as [|c p']; [discriminate |].
  destruct (makedirs_walk _ _ _ _ _) as [t'|e] eqn:W; [| discriminate].
  intros H; inversion H; subst. simpl. split; [reflexivity |].
  apply makedirs_walk_ok in W; [| discriminate].
  exact W.
Qed.

(** The components of [os.path.join(p, n)], for a component [n] and a
    directory [p]. *)
Lemma join_components f p n pos :
  is_component n = true ->
  resolve f p = Some pos ->
  is_dir_at (root f) pos = true ->
  exists xs,
    split_slash (join p n) = xs ++ [n]
    /\ join p n <> ""
    /\ start f (join p n) = start f p
    /\ walk (root f) (start f p) xs = Some pos.
Proof.
  intros Hn Hp Dp.
  assert (Pne : p <> "") by (intros ->; discriminate).
  rewrite resolve_walk in Hp by auto.
  unfold join. rewrite component_not_absolute by auto.
  destruct (String.eqb p "") eqn:E0; [apply String.eqb_eq in E0; contradiction |].
  simpl. destruct (endswith p "/") eqn:Es.
  - pose proof (endswith_split _ _ Es) as Hsplit. simpl in Hsplit.
    set (a := substring 0 (String.length p - 1) p) in *.
    assert (Pa : p +++ n = a +++ String "/" n).
    { rewrite Hsplit at 1. apply append_assoc. }
    exists (split_slash a). repeat split.
    + rewrite Pa, split_slash_app, (split_slash_component n)
        by (apply component_no_slash; auto). reflexivity.
    + destruct p; [contradiction | discriminate].
    + destruct p; [contradiction | reflexivity].
    + rewrite Hsplit, split_slash_app, walk_app in Hp. simpl in Hp.
      rewrite <- Hsplit in Hp.
      destruct (walk (root f) (start f p) (split_slash a)) as [q|] eqn:W;
        [| discriminate].
      destruct (is_dir_at (root f) q); [| discriminate].
      unfold step in Hp. simpl in Hp. exact Hp.
  - exists (split_slash p). repeat split.
    + rewrite split_slash_app, (split_slash_component n)
        by (apply component_no_slash; auto). reflexivity.
    + destruct p; [contradiction | discriminate].
    + destruct p; [contradiction | reflexivity].
    + exact Hp.
Qed.

Lemma makedirs_walk_existing xs : forall t pos q ys fresh p,
  walk t pos xs = Some q ->
  lookup t q <> None ->
  exists fresh',
    makedirs_walk t pos (xs ++ ys) fresh p = makedirs_walk t q ys fresh' p.
Proof.
  induction xs as [|c r IH]; intros t pos q ys fresh p W Hq; simpl in W.
  - inversion W; subst. exists fresh. reflexivity.
  - destruct (is_dir_at t pos) eqn:D; [| discriminate].
    simpl. rewrite D.
    assert (Hs : lookup t (step pos c) <> None).
    { destruct r as [|c2 r2]; simpl in W.
      - inversion W; subst. exact Hq.
      - destruct (is_dir_at t (step pos c)) eqn:D2; [| discriminate].
        apply is_dir_at_lookup in D2. destruct D2 as (es & ->). discriminate. }
    destruct (lookup t (step pos c)) as [n|]; [| contradiction].
    apply IH; auto.
Qed.

(** [os.makedirs(os.path.join(p, n))] when [p] is a directory without an
    entry [n]: the entry is made, an empty directory. *)
Lemma makedirs_join f p n pos f' :
  is_component n = true ->
  resolve f p = Some pos ->
  is_dir_at (root f) pos = true ->
  lookup (root f) (pos ++ [n]) = None ->
  makedirs f (join p n) = Ok f' ->
  f' = with_root f (update (root f) (pos ++ [n]) (Dir [])).
Proof.
  intros Hn Hp Dp Hnone.
  destruct (join_components f p n pos Hn Hp Dp) as (xs & Sp & Ne & St & W).
  unfold makedirs. destruct (join p n) as [|c j] eqn:J; [congruence |].
  change (if Ascii.eqb c "/" then [] else cwd f) with (start f (String c j)).
  rewrite St, Sp.
  assert (Hq : lookup (root f) pos <> None).
  { apply is_dir_at_lookup in Dp. destruct Dp as (es & ->). discriminate. }
  destruct (makedirs_walk_existing xs (root f) (start f p) pos [n] false
              (String c j) W Hq) as (fresh' & ->).
  simpl. rewrite Dp, step_component, Hnone by auto.
  intros H; inversion H; reflexivity.
Qed.


(** *** Writing files *)

Lemma write_text_kind f p s0 f' :
  write_text f p s0 = Ok f' ->
  cwd f' = cwd f
  /\ (forall q, is_dir_at (root f) q = is_dir_at (root f') q)
  /\ exists pos, resolve f p = Some pos
       /\ forall q, kind (root f') q
                    = if list_eq_dec_string q pos then Some false
                      else kind (root f) q.
Proof.
  unfold write_text. destruct (resolve f p) as [pos|] eqn:R; [| discriminate].
  assert (G : forall t',
             (forall q, kind t' q = if list_eq_dec_string q pos then Some false
                                    else kind (root f) q) ->
             kind (root f) pos <> Some true ->
             forall q, is_dir_at (root f) q = is_dir_at t' q).
  { intros t' Hk Hn q. specialize (Hk q).
    destruct (list_eq_dec_string q pos) as [-> | _].
    - unfold is_dir_at, kind in *.
      destruct (lookup (root f) pos) as [[|]|], (lookup t' pos) as [[|]|];
        simpl in *; congruence.
    - apply is_dir_at_kind_eq. congruence. }
  destruct (lookup (root f) pos) as [[s1|es]|] eqn:L; try discriminate.
  - destruct pos as [|c r] eqn:Ep; [discriminate |]. rewrite <- Ep in *.
    destruct (is_dir_at (root f) (removelast pos)); [| discriminate].
    intros H; inversion H; subst f'. cbn [root cwd with_root].
    assert (Hk : forall q, kind (update (root f) pos (File s0)) q
                           = if list_eq_dec_string q pos then Some false
                             else kind (root f) q).
    { intros q. rewrite (kind_update_file _ _ s1) by exact L.
      destruct (list_eq_dec_string q pos) as [-> | _]; [| reflexivity].
      unfold kind. rewrite L. reflexivity. }
    split; [reflexivity |]. split; [| eauto].
    apply G; auto. unfold kind. rewrite L. discriminate.
  - destruct pos as [|c r] eqn:Ep; [discriminate |]. rewrite <- Ep in *.
    destruct (is_dir_at (root f) (removelast pos)) eqn:D; [| discriminate].
    intros H; inversion H; subst f'. cbn [root cwd with_root].
    assert (Hk : forall q, kind (update (root f) pos (File s0)) q
                           = if list_eq_dec_string q pos then Some false
                             else kind (root f) q).
    { intros q. rewrite kind_update_new; auto.
      - left. eauto.
      - rewrite Ep. discriminate. }
    split; [reflexivity |]. split; [| eauto].
    apply G; auto. unfold kind. rewrite L. discriminate.
Qed.

Lemma append_text_kind f p s0 f' :
  append_text f p s0 = Ok f' ->
  cwd f' = cwd f /\ forall q, kind (root f') q = kind (root f) q.
Proof.
  unfold append_text. destruct (resolve f p) as [pos|] eqn:R; [| discriminate].
  destruct (lookup (root f) pos) as [[s1|es]|] eqn:L; try discriminate.
  intros H; inversion H; subst. simpl. split; [reflexivity |].
  intros q. apply (kind_update_file _ _ s1). exact L.
Qed.

Lemma resolve_ext f f' p :
  cwd f' = cwd f ->
  (forall q, is_dir_at (root f) q = is_dir_at (root f') q) ->
  resolve f' p = resolve f p.
Proof.
  intros Hc Hd. unfold resolve. destruct p as [|c p']; [reflexivity |].
  rewrite Hc. symmetry. apply walk_ext. exact Hd.
Qed.

(** *** The directory of a snapshot while it is being written

    [bp] resolves to the directory at [P0], whose subdirectories are the
    names in [created]; it has no other entry. *)
Definition snapshot_dir (P0 : list string) (bp : string)
                        (created : list string) (f : fs) : Prop :=
  resolve f bp = Some P0
  /\ kind (root f) P0 = Some true
  /\ forall d, kind (root f) (P0 ++ [d])
               = if str_in d created then Some true else None.

Lemma kind_dir_lookup t q :
  kind t q = Some true -> exists es, lookup t q = Some (Dir es).
Proof. intros H. apply is_dir_at_lookup. apply is_dir_at_kind. exact H. Qed.

Lemma snapshot_dir_kind_entry P0 bp created f d :
  snapshot_dir P0 bp created f ->
  is_component d = true ->
  option_map is_dir_node (node_at f (join bp d))
  = if str_in d created then Some true else None.
Proof.
  intros (R & K & E) Hd.
  destruct (kind_dir_lookup _ _ K) as (es & L).
  unfold node_at. rewrite (resolve_join f bp d P0 es Hd R L).
  apply E.
Qed.

Lemma snapshot_dir_isdir P0 bp created f d :
  snapshot_dir P0 bp created f ->
  is_component d = true ->
  isdir f (join bp d) = str_in d created.
Proof.
  intros H Hd. pose proof (snapshot_dir_kind_entry _ _ _ _ d H Hd) as K.
  unfold isdir. destruct (node_at f (join bp d)) as [[|]|];
    destruct (str_in d created); simpl in K; congruence.
Qed.

Lemma snapshot_dir_exists P0 bp created f d :
  snapshot_dir P0 bp created f ->
  is_component d = true ->
  exists_ f (join bp d) = str_in d created.
Proof.
  intros H Hd. pose proof (snapshot_dir_kind_entry _ _ _ _ d H Hd) as K.
  unfold exists_. destruct (node_at f (join bp d)) as [[|]|];
    destruct (str_in d created); simpl in K; congruence.
Qed.

Lemma app_one_neq {A} (l : list A) x y z : l ++ [x] <> (l ++ [y]) ++ [z].
Proof.
  intros H. apply (f_equal (@List.length A)) in H.
  rewrite !length_app in H. simpl in H. lia.
Qed.

Lemma app_nil_neq {A} (l : list A) y z : l <> (l ++ [y]) ++ [z].
Proof.
  intros H. apply (f_equal (@List.length A)) in H.
  rewrite !length_app in H. simpl in H. lia.
Qed.

Lemma snapshot_dir_same_kinds P0 bp created f f' :
  snapshot_dir P0 bp created f ->
  cwd f' = cwd f ->
  (forall q, is_dir_at (root f) q = is_dir_at (root f') q) ->
  kind (root f') P0 = kind (root f) P0 ->
  (forall d, kind (root f') (P0 ++ [d]) = kind (root f) (P0 ++ [d])) ->
  snapshot_dir P0 bp created f'.
Proof.
  intros (R & K & E) Hc Hd K0 K1. split; [| split].
  - rewrite (resolve_ext f f') by auto. exact R.
  - congruence.
  - intros d. rewrite K1. apply E.
Qed.

(** A file written in a subdirectory of the snapshot leaves the snapshot
    directory as it is. *)
Lemma snapshot_dir_write P0 bp created f d cj s0 f' :
  snapshot_dir P0 bp created f ->
  is_component d = true -> str_in d created = true ->
  is_component cj = true ->
  write_text f (join (join bp d) cj) s0 = Ok f' ->
  snapshot_dir P0 bp created f'.
Proof.
  intros S Hd Hin Hc W. pose proof S as (R & K & E).
  destruct (kind_dir_lookup _ _ K) as (es & L).
  pose proof (resolve_join f bp d P0 es Hd R L) as R1.
  pose proof (E d) as Kd. rewrite Hin in Kd.
  destruct (kind_dir_lookup _ _ Kd) as (es1 & L1).
  pose proof (resolve_join f (join bp d) cj (P0 ++ [d]) es1 Hc R1 L1) as R2.
  apply write_text_kind in W. destruct W as (Hcwd & Hdirs & pos & Rp & Hk).
  assert (pos = (P0 ++ [d]) ++ [cj]) by congruence. subst pos.
  eapply snapshot_dir_same_kinds; eauto.
  - rewrite Hk. destruct (list_eq_dec_string P0 ((P0 ++ [d]) ++ [cj])) as [X | _];
      [exfalso; eapply app_nil_neq; eauto | reflexivity].
  - intros d'. rewrite Hk.
    destruct (list_eq_dec_string (P0 ++ [d']) ((P0 ++ [d]) ++ [cj])) as [X | _];
      [exfalso; eapply app_one_neq; eauto | reflexivity].
Qed.

Lemma snapshot_dir_append P0 bp created f p s0 f' :
  snapshot_dir P0 bp created f ->
  append_text f p s0 = Ok f' ->
  snapshot_dir P0 bp created f'.
Proof.
  intros S W. apply append_text_kind in W. destruct W as (Hcwd & Hk).
  eapply snapshot_dir_same_kinds; eauto.
  intros q. apply is_dir_at_kind_eq. symmetry. apply Hk.
Qed.

Lemma str_in_cons d x l :
  str_in d (x :: l) = String.eqb d x || str_in d l.
Proof. reflexivity. Qed.

(** A subdirectory made in the snapshot directory is added to its
    subdirectories. *)
Lemma snapshot_dir_makedirs P0 bp created f d f' :
  snapshot_dir P0 bp created f ->
  is_component d = true ->
  exists_ f (join bp d) = false ->
  makedirs f (join bp d) = Ok f' ->
  snapshot_dir P0 bp (d :: created) f'.
Proof.
  intros S Hd Hex M. pose proof S as (R & K & E).
  rewrite (snapshot_dir_exists _ _ _ _ d S Hd) in Hex.
  pose proof (E d) as Kd. rewrite Hex in Kd.
  assert (Ln : lookup (root f) (P0 ++ [d]) = None).
  { unfold kind in Kd. destruct (lookup (root f) (P0 ++ [d])); [discriminate | auto]. }
  assert (D0 : is_dir_at (root f) P0 = true) by (apply is_dir_at_kind; exact K).
  pose proof (makedirs_join f bp d P0 f' Hd R D0 Ln M) as ->.
  assert (Hk : forall q, kind (update (root f) (P0 ++ [d]) (Dir [])) q
                         = if list_eq_dec_string q (P0 ++ [d]) then Some true
                           else kind (root f) q).
  { intros q. rewrite kind_update_new; auto.
    - right. reflexivity.
    - destruct P0; discriminate.
    - rewrite removelast_last. exact D0. }
  split; [| split]; cbn [root cwd with_root].
  - unfold resolve in *. destruct bp as [|c bp']; [discriminate |].
    cbn [root cwd with_root]. eapply walk_mono; [| exact R].
    intros q Hq. apply is_dir_at_kind. rewrite Hk.
    destruct (list_eq_dec_string q (P0 ++ [d])); [reflexivity |].
    apply is_dir_at_kind. exact Hq.
  - rewrite Hk. destruct (list_eq_dec_string P0 (P0 ++ [d])) as [X | _]; auto.
  - intros d'. rewrite Hk, str_in_cons.
    destruct (list_eq_dec_string (P0 ++ [d']) (P0 ++ [d])) as [X | NX].
    + apply app_inv_head in X. inversion X; subst.
      rewrite String.eqb_refl. reflexivity.
    + destruct (String.eqb d' d) eqn:Ed.
      * apply String.eqb_eq in Ed. subst. contradiction.
      * apply E.
Qed.

(** The snapshot directory just made has no subdirectory. *)
Lemma snapshot_dir_fresh f bp f' :
  makedirs f bp = Ok f' ->
  exists P0, snapshot_dir P0 bp [] f'.
Proof.
  intros M. apply makedirs_ok in M. destruct M as (_ & P & R & L & _).
  exists P. split; [exact R |]. split.
  - unfold kind. rewrite L. reflexivity.
  - intros d. unfold kind. rewrite lookup_child, L. reflexivity.
Qed.

End FSFacts.

(** ** The order of texts and [sorted(reverse=True)] *)

Module OrderFacts.
Import PyStr MongoDBSnapshot StoreSpec.

Lemma compare_not_gt_trans a :
  forall b c,
    String.compare a b <> Gt -> String.compare b c <> Gt ->
    String.compare a c <> Gt.
Proof.
  induction a as [|x a IH]; intros [|y b] [|z c]; simpl; try congruence.
  unfold Ascii.compare.
  destruct (N.compare_spec (N_of_ascii x) (N_of_ascii y)) as [E1|L1|G1];
    intros H1; [| | exfalso; apply H1; reflexivity];
    destruct (N.compare_spec (N_of_ascii y) (N_of_ascii z)) as [E2|L2|G2];
    intros H2; try (exfalso; apply H2; reflexivity).
  - rewrite E1, E2, N.compare_refl. apply IH with (b := b); auto.
  - assert (X : N.compare (N_of_ascii x) (N_of_ascii z) = Lt)
      by (apply N.compare_lt_iff; lia).
    rewrite X. discriminate.
  - assert (X : N.compare (N_of_ascii x) (N_of_ascii z) = Lt)
      by (apply N.compare_lt_iff; lia).
    rewrite X. discriminate.
  - assert (X : N.compare (N_of_ascii x) (N_of_ascii z) = Lt)
      by (apply N.compare_lt_iff; lia).
    rewrite X. discriminate.
Qed.

Lemma leb_not_gt a b : String.leb a b = true <-> String.compare a b <> Gt.
Proof.
  unfold String.leb. destruct (String.compare a b); split; congruence.
Qed.

Lemma leb_trans a b c :
  String.leb a b = true -> String.leb b c = true -> String.leb a c = true.
Proof.
  rewrite !leb_not_gt. apply compare_not_gt_trans.
Qed.

Lemma ltb_leb a b : String.ltb a b = true -> String.leb a b = true.
Proof.
  unfold String.ltb, String.leb. destruct (String.compare a b); congruence.
Qed.

Lemma not_ltb_leb a b : String.ltb a b = false -> String.leb b a = true.
Proof.
  unfold String.ltb, String.leb. rewrite (String.compare_antisym b a).
  destruct (String.compare a b); simpl; congruence.
Qed.

#[export] Instance newest_first_trans : Transitive newest_first.
Proof. intros a b c H1 H2. unfold newest_first in *. eapply leb_trans; eauto. Qed.

Lemma insert_desc_perm x l : Permutation (insert_desc x l) (x :: l).
Proof.
  induction l as [|y l IH]; simpl; auto.
  destruct (String.ltb y x); auto.
  rewrite IH. apply perm_swap.
Qed.

Lemma insert_desc_sorted x l :
  StronglySorted newest_first l -> StronglySorted newest_first (insert_desc x l).
Proof.
  induction l as [|y l IH]; intros Hs; simpl.
  - constructor; constructor.
  - inversion Hs as [|? ? Hs' Hall]; subst.
    destruct (String.ltb y x) eqn:E.
    + constructor; auto. constructor.
      * apply ltb_leb. exact E.
      * eapply Forall_impl; [| exact Hall].
        intros z Hz. unfold newest_first in *.
        eapply leb_trans; [exact Hz | apply ltb_leb; exact E].
    + constructor; auto.
      eapply Permutation_Forall; [symmetry; apply insert_desc_perm |].
      constructor; auto. apply not_ltb_leb. exact E.
Qed.

(** [sorted(xs, reverse=True)] holds the elements of [xs], newest first. *)
Lemma sorted_reverse_perm xs : Permutation (sorted_reverse xs) xs.
Proof.
  induction xs as [|x xs IH]; simpl; auto.
  rewrite insert_desc_perm. auto.
Qed.

Lemma sorted_reverse_sorted xs : StronglySorted newest_first (sorted_reverse xs).
Proof.
  induction xs as [|x xs IH]; simpl.
  - constructor.
  - apply insert_desc_sorted. exact IH.
Qed.

End OrderFacts.

(** ** The server's data under deletion and insertion *)

Module MongoFacts.
Import PyVal FS Mongo.

Lemma assoc_set_assoc_same {A} k (g : option A -> A) es :
  assoc k (set_assoc k g es) = Some (g (assoc k es)).
Proof.
  induction es as [|[k0 a] es IH]; simpl.
  - rewrite String.eqb_refl. reflexivity.
  - destruct (String.eqb k0 k) eqn:E; simpl; rewrite E; auto.
Qed.

Lemma assoc_set_assoc_other {A} k k' (g : option A -> A) es :
  k <> k' -> assoc k' (set_assoc k g es) = assoc k' es.
Proof.
  intros Hne. induction es as [|[k0 a] es IH]; simpl.
  - destruct (String.eqb k k') eqn:E; auto.
    apply String.eqb_eq in E. contradiction.
  - destruct (String.eqb k0 k) eqn:E; simpl.
    + apply String.eqb_eq in E. subst k0.
      destruct (String.eqb k k') eqn:E'; auto.
      apply String.eqb_eq in E'. contradiction.
    + destruct (String.eqb k0 k'); auto.
Qed.

Lemma get_database_set_same db g s :
  get_database (set_assoc db g s) db = g (assoc db s).
Proof. unfold get_database. rewrite assoc_set_assoc_same. reflexivity. Qed.

Lemma get_database_set_other db db' g s :
  db <> db' -> get_database (set_assoc db g s) db' = get_database s db'.
Proof.
  intros H. unfold get_database. rewrite assoc_set_assoc_other; auto.
Qed.

(** After [delete_many({})] the collection has no document. *)
Lemma find_delete_many_same s db coll :
  find (delete_many s db coll) db coll = [].
Proof.
  unfold delete_many, find.
  destruct (assoc coll (get_database s db)) eqn:E.
  - rewrite get_database_set_same, assoc_set_assoc_same. reflexivity.
  - rewrite E. reflexivity.
Qed.

(** After [insert_many(docs)] the collection has [docs] after what it had. *)
Lemma find_insert_many_same s db coll docs :
  find (insert_many s db coll docs) db coll = find s db coll ++ docs.
Proof.
  unfold insert_many, find.
  rewrite get_database_set_same, assoc_set_assoc_same.
  destruct (assoc coll (get_database s db)); reflexivity.
Qed.

(** The other collections are left alone. *)
Lemma find_set_other s db coll db' coll' (h : option collection -> collection) :
  (db', coll') <> (db, coll) ->
  find (set_assoc db (fun _ => set_assoc coll h (get_database s db)) s)
       db' coll'
  = find s db' coll'.
Proof.
  intros Hne. unfold find.
  destruct (String.eqb db db') eqn:E.
  - apply String.eqb_eq in E. subst db'.
    rewrite get_database_set_same.
    rewrite assoc_set_assoc_other; auto. congruence.
  - apply String.eqb_neq in E. rewrite get_database_set_other; auto.
Qed.

Lemma find_delete_many_other s db coll db' coll' :
  (db', coll') <> (db, coll) ->
  find (delete_many s db coll) db' coll' = find s db' coll'.
Proof.
  intros Hne. unfold delete_many.
  destruct (assoc coll (get_database s db)); auto.
  apply find_set_other; auto.
Qed.

Lemma find_insert_many_other s db coll docs db' coll' :
  (db', coll') <> (db, coll) ->
  find (insert_many s db coll docs) db' coll' = find s db' coll'.
Proof. intros Hne. unfold insert_many. apply find_set_other; auto. Qed.

End MongoFacts.

(** ** The connection is released on every exit path *)

Module Release.
Import PyStr PyVal Exn FS Mongo Run MongoDBSnapshot RunFacts Frames.
Import PyEval(outcome, Value, Raises).
Import ConnectionSpec.

(** The object is untouched and no client is made. *)
Definition quiet : state -> state -> Prop :=
  rel_and same_self (trace_grows not_new).

#[export] Instance quiet_pre : PreOrder quiet.
Proof. unfold quiet. typeclasses eauto. Qed.

Ltac quiet_prim :=
  run_prim; unfold quiet; frame_simpl;
  try (eapply trace_grows_one; [simpl; reflexivity | intros ? ?; discriminate]).

Lemma quiet_logging_info m : preserves quiet (logging_info m).
Proof. quiet_prim. Qed.
Lemma quiet_logging_error m : preserves quiet (logging_error m).
Proof. quiet_prim. Qed.
Lemma quiet_exists p : preserves quiet (os_path_exists p).
Proof. quiet_prim. Qed.
Lemma quiet_isdir p : preserves quiet (os_path_isdir p).
Proof. quiet_prim. Qed.
Lemma quiet_makedirs p : preserves quiet (os_makedirs p).
Proof. quiet_prim. Qed.
Lemma quiet_listdir p : preserves quiet (os_listdir p).
Proof. quiet_prim. Qed.
Lemma quiet_open_write p : preserves quiet (open_write p).
Proof. quiet_prim. Qed.
Lemma quiet_file_write p t : preserves quiet (file_write p t).
Proof. quiet_prim. Qed.
Lemma quiet_open_read p : preserves quiet (open_read p).
Proof. quiet_prim. Qed.
Lemma quiet_driver_call c op : preserves quiet (driver_call c op).
Proof. quiet_prim. Qed.
Lemma quiet_self_client : preserves quiet self_client.
Proof. quiet_prim. Qed.
Lemma quiet_modify_server g :
  preserves quiet (modify (fun s => set_server (g s) s)).
Proof. quiet_prim. Qed.

Create HintDb quiet.

#[local] Hint Resolve quiet_logging_info quiet_logging_error quiet_exists
  quiet_isdir quiet_makedirs quiet_listdir quiet_open_write quiet_file_write
  quiet_open_read quiet_driver_call quiet_self_client quiet_modify_server
  : quiet.

Ltac quiet_tac :=
  repeat (pres_unfold; first [pres_step | solve [auto with quiet]]).


Lemma MongoClient_inv s r s1 :
  MongoClient s = (r, s1) ->
  self s1 = self s /\
  ((exists e, r = Err e /\ trace s1 = trace s) \/
   (exists c, r = Ok c /\ trace s1 = trace s ++ [EvNewClient c])).
Proof.
  revert s r s1. run_prim; simpl; split; eauto.
Qed.

Definition is_err {A} (r : result A) : Prop := exists e, r = Err e.

(** What [connect] does: the constructor fails and nothing is made, or a
    client is made and stored in [self.client]. *)
Lemma connect_cases s r s1 :
  connect s = (r, s1) ->
  (quiet s s1 /\ is_err r) \/
  (exists c evs,
      self s1 = with_client (self s) (Some c)
      /\ trace s1 = trace s ++ EvNewClient c :: evs
      /\ Forall not_new evs).
Proof.
  unfold connect, try_except.
  match goal with |- context [bind MongoClient ?k] => set (rest := k) end.
  destruct (bind MongoClient rest s) as [r0 s0] eqn:B.
  assert (Hh : forall e, preserves quiet
            (logging_error ("Failed to connect to MongoDB: " +++ str_exn e) ;;
             @raise unit e)) by (intros e; quiet_tac).
  apply bind_inv in B. destruct B as [(e & B & ->) | (c & s2 & B & K)].
  - apply MongoClient_inv in B. destruct B as (Hs & [(e' & E & T) | (c & E & T)]);
      [| discriminate].
    assert (Q0 : quiet s s0).
    { split; [exact Hs | apply trace_grows_none; exact T]. }
    destruct (is_Exception e); intros H.
    + left. split.
      * etransitivity; [exact Q0 | eapply Hh; eauto].
      * apply bind_inv in H. destruct H as [(e2 & _ & ->) | (a & s3 & _ & H)];
          [eexists; eauto | inversion H; eexists; eauto].
    + inversion H; subst. left. split; [exact Q0 | eexists; eauto].
  - apply MongoClient_inv in B. destruct B as (Hs & [(e' & E & T) | (c' & E & T)]);
      [discriminate |]. inversion E; subst c'; clear E.
    subst rest. cbv beta in K.
    apply bind_inv in K.
    destruct K as [(e & K & ->) | ([] & s3 & K & K2)]; [inversion K |].
    inversion K; subst s3; clear K.
    match type of K2 with bind ?m ?k _ = _ =>
      assert (Q : preserves quiet (bind m k)) by quiet_tac end.
    apply Q in K2. destruct K2 as [Hself (evs & Ht & Hf)].
    simpl in Hself, Ht.
    assert (Base : exists evs0, self s0 = with_client (self s) (Some c)
              /\ trace s0 = trace s ++ EvNewClient c :: evs0
              /\ Forall not_new evs0).
    { exists evs. rewrite Hself, Ht, Hs, T, <- app_assoc. auto. }
    destruct Base as (evs0 & B1 & B2 & B3).
    destruct r0 as [u|e].
    + intros H; inversion H; subst. right. eauto.
    + destruct (is_Exception e); intros H.
      * apply Hh in H. destruct H as [Hself' (evs' & Ht' & Hf')].
        right. exists c, (evs0 ++ evs'). rewrite Hself', Ht', B1, B2.
        rewrite <- app_assoc. simpl. repeat split; auto.
        apply Forall_app; auto.
      * inversion H; subst. right. eauto.
Qed.


(** At most one client was made, and it is the one [self.client] holds. *)
Definition acquires (s s1 : state) : Prop :=
  exists evs, trace s1 = trace s ++ evs /\
    ((self s1 = self s /\ Forall not_new evs) \/
     (exists c evs', client (self s1) = Some c
                     /\ evs = EvNewClient c :: evs' /\ Forall not_new evs')).

Lemma acquires_of_quiet s s1 : quiet s s1 -> acquires s s1.
Proof. intros [Hs (evs & Ht & Hf)]. exists evs. split; auto. Qed.

Lemma acquires_then_quiet s s1 s2 :
  acquires s s1 -> quiet s1 s2 -> acquires s s2.
Proof.
  intros (evs & Ht & Hc) [Hs (evs2 & Ht2 & Hf2)].
  exists (evs ++ evs2). rewrite Ht2, Ht, app_assoc. split; auto.
  destruct Hc as [[Hs1 Hf] | (c & evs' & Hc & -> & Hf)].
  - left. split; [unfold same_self in Hs; congruence | apply Forall_app; auto].
  - right. exists c, (evs' ++ evs2). unfold same_self in Hs. rewrite Hs.
    repeat split; auto. apply Forall_app; auto.
Qed.

(** The guarded connection of both operations, lines 46-47 and 112-113,
    followed by a body that makes no client. *)
Lemma guard_acquires (rest : M unit) s r s1 :
  preserves quiet rest ->
  (s0 <- get ;; when (is_none (client (self s0))) connect ;; rest) s = (r, s1) ->
  acquires s s1.
Proof.
  intros Hrest. unfold bind at 1. unfold get.
  intros H. apply bind_inv in H.
  destruct (client (self s)) as [c0|] eqn:C; simpl in H.
  - destruct H as [(e & H & _) | (a & s2 & H & K)]; inversion H; subst.
    apply acquires_of_quiet. eapply Hrest; eauto.
  - destruct H as [(e & H & _) | (a & s2 & H & K)].
    + apply connect_cases in H. destruct H as [[Q _] | (c & evs & Hs & Ht & Hf)].
      * apply acquires_of_quiet; auto.
      * exists (EvNewClient c :: evs). split; auto. right.
        exists c, evs. rewrite Hs. auto.
    + apply Hrest in K. apply connect_cases in H.
      destruct H as [[Q _] | (c & evs & Hs & Ht & Hf)].
      * apply acquires_of_quiet. etransitivity; eauto.
      * eapply acquires_then_quiet; [| exact K].
        exists (EvNewClient c :: evs). split; auto. right.
        exists c, evs. rewrite Hs. auto.
Qed.

Lemma quiet_create_rest backup_path_of :
  preserves quiet
    (c <- self_client ;;
     databases <- client_list_database_names c ;;
     s <- get ;;
     let timestamp := strftime (now s) in
     let backup_path := backup_path_of s timestamp in
     e <- os_path_exists backup_path ;;
     when (negb e) (os_makedirs backup_path) ;;
     for_each databases (snapshot_database backup_path) ;;
     logging_info ("Snapshot completed successfully at " +++ timestamp)).
Proof. quiet_tac. Qed.

Lemma quiet_restore_collection ev c db db_path f :
  preserves quiet (restore_collection ev c db db_path f).
Proof. quiet_tac. Qed.

Lemma quiet_restore_database ev sp db :
  preserves quiet (restore_database ev sp db).
Proof. quiet_tac. Qed.

Lemma is_closed_mark_closed c l : is_closed (mark_closed c l) c = true.
Proof.
  unfold mark_closed. destruct (is_closed l c) eqn:E; auto.
  unfold is_closed. simpl. rewrite Nat.eqb_refl. reflexivity.
Qed.


(** The [finally] clause after a body that acquired at most one client. *)
Lemma release_after s s1 r s' :
  acquires s s1 -> release s1 = (r, s') -> run_releases s s'.
Proof.
  intros (evs & Ht & Hc). unfold release, bind, get, client_close, modify.
  destruct (client (self s1)) as [c|] eqn:C; intros H; inversion H; subst;
    clear H; unfold run_releases; simpl.
  - exists (evs ++ [EvClose c]). rewrite Ht, app_assoc. split; auto. split.
    + intros c' Hin. apply in_app_or in Hin. destruct Hin as [Hin | [Hin | []]];
        [| discriminate].
      destruct Hc as [[_ Hf] | (c2 & evs' & Hc2 & -> & Hf)].
      * rewrite Forall_forall in Hf. exfalso. eapply Hf; eauto.
      * destruct Hin as [Hin | Hin].
        -- inversion Hin; subst. congruence.
        -- rewrite Forall_forall in Hf. exfalso. eapply Hf; eauto.
    + intros c' Hc'. rewrite C in Hc'. inversion Hc'; subst c'.
      split; [apply is_closed_mark_closed | eauto].
  - exists evs. split; auto. split.
    + intros c' Hin.
      destruct Hc as [[_ Hf] | (c2 & evs' & Hc2 & -> & Hf)]; [| congruence].
      rewrite Forall_forall in Hf. exfalso. eapply Hf; eauto.
    + intros c' Hc'. congruence.
Qed.

(** Both operations have the shape
    [try: guard; rest  except Exception: handler  finally: release]. *)
Lemma guarded_run_releases (rest : M unit) (handler : exn -> M unit) s r s' :
  preserves quiet rest ->
  (forall e, preserves quiet (handler e)) ->
  try_finally
    (try_except
       (s0 <- get ;; when (is_none (client (self s0))) connect ;; rest)
       handler)
    release s = (r, s') ->
  run_releases s s'.
Proof.
  intros Hrest Hh. unfold try_finally, try_except.
  destruct ((s0 <- get ;; when (is_none (client (self s0))) connect ;; rest) s)
    as [r1 s1] eqn:B.
  apply guard_acquires in B; auto.
  assert (A2 : forall r2 s2,
             match r1 with
             | Ok a => (Ok a, s1)
             | Err e => if is_Exception e then handler e s1 else (Err e, s1)
             end = (r2, s2) -> acquires s s2).
  { intros r2 s2. destruct r1 as [a|e].
    - intros H; inversion H; subst; auto.
    - destruct (is_Exception e); intros H.
      + eapply acquires_then_quiet; eauto. eapply Hh; eauto.
      + inversion H; subst; auto. }
  destruct (match r1 with
            | Ok a => (Ok a, s1)
            | Err e => if is_Exception e then handler e s1 else (Err e, s1)
            end) as [r2 s2] eqn:E.
  specialize (A2 _ _ eq_refl).
  destruct (release s2) as [r3 s3] eqn:Rl.
  pose proof (release_after _ _ _ _ A2 Rl) as Hrel.
  destruct r3; intros H; inversion H; subst; auto.
Qed.

Lemma create_snapshot_releases s r s' :
  create_snapshot s = (r, s') -> run_releases s s'.
Proof.
  unfold create_snapshot. intros H.
  eapply guarded_run_releases; [| | exact H].
  - apply (quiet_create_rest (fun s t => join (backup_dir (self s)) t)).
  - intros e. quiet_tac.
Qed.



(** *** An object that already holds a client *)

Lemma quiet_release : preserves quiet release.
Proof.
  unfold release. apply preserves_bind; [typeclasses eauto | |].
  - apply preserves_get. typeclasses eauto.
  - intros s0. destruct (client (self s0)).
    + quiet_prim.
    + apply preserves_ret. typeclasses eauto.
Qed.

(** With a client in [self.client] the guard of line 46 or 112 is skipped:
    the whole operation makes no client. *)
Lemma guarded_run_reuses (rest : M unit) (handler : exn -> M unit) s c r s' :
  preserves quiet rest ->
  (forall e, preserves quiet (handler e)) ->
  client (self s) = Some c ->
  try_finally
    (try_except
       (s0 <- get ;; when (is_none (client (self s0))) connect ;; rest)
       handler)
    release s = (r, s') ->
  try_finally (try_except rest handler) release s = (r, s') /\ quiet s s'.
Proof.
  intros Hrest Hh C H.
  assert (E : try_finally (try_except rest handler) release s = (r, s')).
  { rewrite <- H. unfold try_finally, try_except, bind at 1, get.
    rewrite C. reflexivity. }
  split; [exact E |].
  revert E. apply preserves_try_finally; [typeclasses eauto | | apply quiet_release].
  apply preserves_try_except; [typeclasses eauto | auto | auto].
Qed.

(** The first thing [create_snapshot] does through a held client. *)
Lemma create_snapshot_first_call s c r s' :
  client (self s) = Some c ->
  create_snapshot s = (r, s') ->
  exists evs,
    trace s' = trace s
               ++ EvCall c (is_closed (closed s) c) OpListDatabaseNames :: evs
    /\ Forall not_new evs.
Proof.
  intros C H. unfold create_snapshot in H.
  eapply guarded_run_reuses in H;
    [| apply (quiet_create_rest (fun s t => join (backup_dir (self s)) t))
     | intros e; quiet_tac | exact C].
  destruct H as [H _].
  set (s_a := add_event (EvCall c (is_closed (closed s) c) OpListDatabaseNames) s).
  match type of H with
  | try_finally (try_except (bind self_client ?k) ?h) release s = _ =>
      set (K := k) in H; set (handler := h) in H
  end.
  set (rest' :=
         (external ;;
          modify (fun s => set_closed (mark_open c (closed s)) s)) ;;
         s0 <- get ;;
         (fun databases =>
            s <- get ;;
            let timestamp := strftime (now s) in
            let backup_path := join (backup_dir (self s)) timestamp in
            e <- os_path_exists backup_path ;;
            when (negb e) (os_makedirs backup_path) ;;
            for_each databases (snapshot_database backup_path) ;;
            logging_info ("Snapshot completed successfully at " +++ timestamp))
           (list_database_names (server_ s0))).
  assert (E : bind self_client K s = rest' s_a).
  { assert (S0 : self_client s = (Ok c, s)).
    { unfold self_client, bind, get. rewrite C. reflexivity. }
    rewrite (bind_ok _ _ _ _ _ S0).
    subst K rest'. unfold client_list_database_names, driver_call.
    unfold bind, get, put, ret, modify. fold s_a.
    destruct (external s_a) as [[[]|e] s2]; reflexivity. }
  assert (Q : preserves quiet
                (try_finally (try_except rest' handler) release)).
  { subst rest' handler.
    apply preserves_try_finally; [typeclasses eauto | | apply quiet_release].
    apply preserves_try_except; [typeclasses eauto | | intros e; quiet_tac].
    apply preserves_bind; [typeclasses eauto | |].
    - apply preserves_bind; [typeclasses eauto | quiet_prim | intros ?; quiet_prim].
    - intros ?. cbv beta. quiet_tac. }
  assert (H' : try_finally (try_except rest' handler) release s_a = (r, s')).
  { rewrite <- H. unfold try_finally, try_except. rewrite E. reflexivity. }
  apply Q in H'. destruct H' as [_ (evs & Ht & Hf)].
  exists evs. subst s_a. simpl in Ht. rewrite Ht, <- app_assoc. auto.
Qed.

(** A successful operation on an object without a client leaves one in
    [self.client]. *)
Lemma guarded_run_ok_holds (rest : M unit) (handler : exn -> M unit) s s' :
  preserves quiet rest ->
  (forall e, preserves quiet (handler e)) ->
  (forall e, forall s0, is_err (fst (handler e s0))) ->
  try_finally
    (try_except
       (s0 <- get ;; when (is_none (client (self s0))) connect ;; rest)
       handler)
    release s = (Ok tt, s') ->
  exists c, client (self s') = Some c.
Proof.
  intros Hrest Hh Herr. unfold try_finally, try_except.
  destruct ((s0 <- get ;; when (is_none (client (self s0))) connect ;; rest) s)
    as [r1 s1] eqn:B.
  assert (Hc : r1 = Ok tt -> exists c, client (self s1) = Some c).
  { intros ->. unfold bind at 1, get in B. apply bind_inv in B.
    destruct B as [(e & _ & B) | ([] & s2 & B & K)]; [discriminate |].
    apply Hrest in K. destruct K as [Ks _]. unfold same_self in Ks.
    rewrite Ks. destruct (client (self s)) as [c0|] eqn:C; simpl in B.
    - inversion B; subst. eauto.
    - apply connect_cases in B.
      destruct B as [[_ (e & B)] | (c & evs & Hs & _)]; [discriminate |].
      rewrite Hs. simpl. eauto. }
  destruct r1 as [[]|e].
  - destruct (release s1) as [r3 s3] eqn:Rl.
    apply quiet_release in Rl. destruct Rl as [Rs _]. unfold same_self in Rs.
    destruct r3; intros H; inversion H; subst. rewrite Rs. auto.
  - destruct (is_Exception e) eqn:Ex.
    + destruct (handler e s1) as [r2 s2] eqn:Hd.
      pose proof (Herr e s1) as He. rewrite Hd in He. destruct He as (e2 & He).
      simpl in He. subst r2.
      destruct (release s2) as [[u|e3] s3] eqn:Rl; intros H; inversion H.
    + destruct (release s1) as [[u|e3] s3] eqn:Rl; intros H; inversion H.
Qed.

Lemma log_and_raise_is_err m e s0 :
  is_err (fst ((logging_error m ;; @raise unit e) s0)).
Proof. unfold is_err. simpl. eauto. Qed.

Lemma create_snapshot_ok_holds s s' :
  create_snapshot s = (Ok tt, s') -> exists c, client (self s') = Some c.
Proof.
  unfold create_snapshot. intros H.
  eapply guarded_run_ok_holds; [| | | exact H].
  - apply (quiet_create_rest (fun s t => join (backup_dir (self s)) t)).
  - intros e. quiet_tac.
  - intros e s0. apply log_and_raise_is_err.
Qed.

Lemma restore_snapshot_reuses ev name s c r s' :
  client (self s) = Some c ->
  restore_snapshot ev name s = (r, s') -> quiet s s'.
Proof.
  intros C H. unfold restore_snapshot in H.
  eapply guarded_run_reuses in H; [apply H | quiet_tac | intros e; quiet_tac | exact C].
Qed.

End Release.


(** ** Restoring *)

Module RestoreFacts.
Import PyStr PyVal Exn FS Mongo Run MongoDBSnapshot RunFacts Frames.
Import PyEval(outcome, Value, Raises).
Import RestoreSpec MongoFacts StrFacts.

(** Nothing is asked of the server's data, and neither the files nor the
    configuration of the object change. *)
Definition harmless : state -> state -> Prop :=
  rel_and same_server
    (rel_and same_files
       (rel_and same_config
          (trace_grows (fun e => is_mutation e = false)))).

#[export] Instance harmless_pre : PreOrder harmless.
Proof. unfold harmless. typeclasses eauto. Qed.

Ltac harmless_prim := unfold harmless; frame_prim ltac:(reflexivity).

Lemma harmless_connect : preserves harmless connect.
Proof. unfold connect. pres_by harmless_prim. Qed.

Lemma harmless_release : preserves harmless release.
Proof.
  unfold release. apply preserves_bind; [typeclasses eauto | |].
  - apply preserves_get. typeclasses eauto.
  - intros s0. destruct (client (self s0)).
    + harmless_prim.
    + apply preserves_ret. typeclasses eauto.
Qed.

Lemma harmless_log_and_raise m e :
  preserves harmless (logging_error m ;; @raise unit e).
Proof. pres_by harmless_prim. Qed.


Lemma release_returns s : exists s', release s = (Ok tt, s').
Proof.
  unfold release, bind, get, client_close, modify, ret.
  destruct (client (self s)); eauto.
Qed.

Lemma log_and_raise_returns m e s :
  exists s', (logging_error m ;; @raise unit e) s = (Err e, s').
Proof. unfold logging_error, modify, bind, raise. eauto. Qed.

(** The operation up to the validation of the snapshot name, lines
    112-117, when the snapshot is missing. *)
Lemma restore_missing ev name s r s' :
  FS.exists_ (files s) (join (backup_dir (self s)) name) = false ->
  restore_snapshot ev name s = (r, s') ->
  harmless s s'
  /\ (exists e, r = Err e)
  /\ (connection_ready s -> r = Err (snapshot_not_found name)).
Proof.
  intros Hmiss. unfold restore_snapshot, try_finally, try_except.
  match goal with |- context [bind get ?k] => set (body := bind get k) end.
  destruct (body s) as [r1 s1] eqn:B.
  assert (HB : harmless s s1
               /\ (exists e, r1 = Err e)
               /\ (connection_ready s -> r1 = Err (snapshot_not_found name))).
  { subst body. unfold bind at 1, get at 1 in B. apply bind_inv in B.
    destruct B as [(e & B & ->) | ([] & s2 & B & K)].
    - assert (Q : harmless s s1).
      { revert B. apply preserves_when; [typeclasses eauto |].
        apply harmless_connect. }
      split; [exact Q |]. split; [eauto |].
      unfold connection_ready. destruct (client (self s)); simpl in B.
      + inversion B.
      + intros Hc. rewrite B in Hc. discriminate.
    - assert (Q : harmless s s2).
      { revert B. apply preserves_when; [typeclasses eauto |].
        apply harmless_connect. }
      destruct Q as (Q1 & Q2 & (Q3 & Q4) & Q5).
      unfold bind, get, os_path_exists in K.
      unfold same_files in Q2. rewrite Q2, Q3, Hmiss in K. simpl in K.
      inversion K; subst.
      split; [repeat split; auto |]. split; eauto. }
  destruct HB as (Q & (e & ->) & Hv).
  destruct (release_returns s1) as (sf1 & Rl1).
  destruct (is_Exception e) eqn:Ex.
  - destruct (log_and_raise_returns ("Error restoring snapshot: " +++ str_exn e) e s1)
      as (s2 & L).
    rewrite L. destruct (release_returns s2) as (sf & Rl). rewrite Rl.
    intros H; inversion H; subst. split; [| split; eauto].
    etransitivity; [exact Q |]. etransitivity.
    + eapply harmless_log_and_raise; eauto.
    + eapply harmless_release; eauto.
  - rewrite Rl1. intros H; inversion H; subst. split; [| split; eauto].
    etransitivity; [exact Q |]. eapply harmless_release; eauto.
Qed.


(** *** The loop over the lines of a Collection File *)

Lemma restore_line_skip ev docs line s :
  looks_like_document line = false ->
  restore_line ev docs line s = (Ok docs, s).
Proof.
  unfold looks_like_document, restore_line, try_except. intros ->. reflexivity.
Qed.

Lemma restore_line_classify ev docs line s :
  restore_line ev docs line s =
  match classify ev line with
  | Skipped => (Ok docs, s)
  | Decodable doc => (Ok (docs ++ [doc]), s)
  | Malformed e =>
      (Ok docs, add_log ERROR ("Error parsing document: " +++ str_exn e) s)
  | Fatal e => (Err e, s)
  end.
Proof.
  unfold restore_line, classify, looks_like_document, try_except.
  destruct (startswith (strip line) "{"); [| reflexivity].
  destruct (ev (strip line)) as [doc|e]; [reflexivity |].
  unfold raise. destruct (is_Exception e); reflexivity.
Qed.

(** The state with [ls] added to its log. *)
Definition add_logs (ls : list (level * string)) (s : state) : state :=
  mk_state (self s) (files s) (server_ s) (clients s) (closed s) (trace s)
           (log s ++ ls) (now s) (faults s).

Lemma add_logs_nil s : add_logs [] s = s.
Proof. destruct s. unfold add_logs. simpl. rewrite app_nil_r. reflexivity. Qed.

Lemma add_logs_add_log l m ls s :
  add_logs ls (add_log l m s) = add_logs ((l, m) :: ls) s.
Proof. unfold add_logs, add_log. simpl. rewrite <- app_assoc. reflexivity. Qed.

(** The log entries the malformed lines give rise to. *)
Definition failure_entries (ev : string -> outcome pyval)
                           (lines : list string) : list (level * string) :=
  flat_map (fun line => match classify ev line with
                        | Malformed e => [decode_failure_entry e]
                        | _ => []
                        end) lines.

Lemma restore_lines ev lines docs s :
  forallb (fun l => negb (is_fatal ev l)) lines = true ->
  for_fold lines docs (restore_line ev) s
  = (Ok (docs ++ decoded ev lines), add_logs (failure_entries ev lines) s).
Proof.
  revert docs s. induction lines as [|line lines IH]; intros docs s Hnf.
  - simpl. rewrite app_nil_r, add_logs_nil. reflexivity.
  - simpl in Hnf. apply andb_true_iff in Hnf. destruct Hnf as [H1 H2].
    simpl. unfold bind. rewrite restore_line_classify.
    unfold is_fatal in H1. unfold decoded, failure_entries. simpl.
    destruct (classify ev line) eqn:C; try discriminate.
    + rewrite IH by auto. reflexivity.
    + rewrite IH by auto. rewrite <- app_assoc. reflexivity.
    + rewrite IH by auto. rewrite add_logs_add_log. reflexivity.
Qed.

Lemma failure_entries_count ev lines :
  decode_failures (failure_entries ev lines)
  = List.length (filter (is_malformed ev) lines).
Proof.
  unfold decode_failures, failure_entries, is_malformed.
  induction lines as [|line lines IH]; simpl; auto.
  destruct (classify ev line); simpl; auto.
  replace (startswith (str_exn e) "") with true
    by (unfold startswith; destruct (str_exn e); reflexivity).
  cbv iota. change (List.length (?x :: ?l)) with (S (List.length l)).
  f_equal. exact IH.
Qed.


Lemma decode_failures_app l1 l2 :
  decode_failures (l1 ++ l2) = decode_failures l1 + decode_failures l2.
Proof.
  unfold decode_failures. rewrite filter_app, length_app. reflexivity.
Qed.



(** *** Runs that meet no fault *)






(** *** Successful runs *)

(** Neither the files, nor the object, nor the server's data change. *)
Definition steady : state -> state -> Prop :=
  rel_and same_files (rel_and same_self same_server).

#[export] Instance steady_pre : PreOrder steady.
Proof. unfold steady. typeclasses eauto. Qed.

Ltac steady_prim := unfold steady; frame_prim ltac:(idtac).

Lemma steady_logging_info m : preserves steady (logging_info m).
Proof. steady_prim. Qed.
Lemma steady_driver_call c op : preserves steady (driver_call c op).
Proof. steady_prim. Qed.
Lemma steady_open_read p : preserves steady (open_read p).
Proof. steady_prim. Qed.
Lemma steady_listdir p : preserves steady (os_listdir p).
Proof. steady_prim. Qed.
Lemma steady_self_client : preserves steady self_client.
Proof. steady_prim. Qed.
Lemma steady_restore_line ev docs line : preserves steady (restore_line ev docs line).
Proof. pres_by steady_prim. Qed.
Lemma steady_restore_lines ev lines docs :
  preserves steady (for_fold lines docs (restore_line ev)).
Proof. pres_by steady_prim. Qed.

Lemma open_read_value p s lines s' :
  open_read p s = (Ok lines, s') ->
  exists text, FS.read_text (files s) p = Ok text
               /\ lines = FS.readlines text.
Proof.
  unfold open_read, bind, external, get, lift, ret.
  destruct (faults s) as [|[e|] fl]; simpl;
    try (destruct (FS.read_text (files s) p) as [text|e'] eqn:R);
    intros H; inversion H; subst; eauto.
Qed.

Lemma os_listdir_value p s names s' :
  os_listdir p s = (Ok names, s') -> FS.listdir (files s) p = Ok names.
Proof.
  unfold os_listdir, bind, external, get, lift.
  destruct (faults s) as [|[e|] fl]; simpl;
    try (destruct (FS.listdir (files s) p) as [ns|e'] eqn:R);
    intros H; inversion H; subst; eauto.
Qed.

Lemma restore_lines_value ev lines docs s docs' s' :
  for_fold lines docs (restore_line ev) s = (Ok docs', s') ->
  docs' = docs ++ decoded ev lines.
Proof.
  revert docs s. induction lines as [|line lines IH]; intros docs s; simpl.
  - intros H; inversion H; subst. rewrite app_nil_r. reflexivity.
  - unfold bind. rewrite restore_line_classify. unfold decoded. simpl.
    destruct (classify ev line) eqn:C; intros H.
    + apply IH in H. exact H.
    + apply IH in H. rewrite H, <- app_assoc. reflexivity.
    + apply IH in H. exact H.
    + discriminate.
Qed.

(** One Collection File, lines 135-159, on a run that returns. *)
Lemma restore_collection_ok ev c db db_path f s s' :
  restore_collection ev c db db_path f s = (Ok tt, s') ->
  files s' = files s /\ self s' = self s
  /\ holds_exactly ev (files s) (server_ s') db db_path f
  /\ (forall db' coll', (db', coll') <> (db, drop_last 5 f) ->
        find (server_ s') db' coll' = find (server_ s) db' coll').
Proof.
  unfold restore_collection. intros H.
  apply bind_inv in H. destruct H as [(e & _ & H) | ([] & s1 & H1 & H)];
    [discriminate |].
  apply steady_logging_info in H1. destruct H1 as (F1 & S1 & V1).
  unfold collection_delete_many in H.
  apply bind_inv in H. destruct H as [(e & _ & H) | ([] & s3 & H3 & H)];
    [discriminate |].
  apply bind_inv in H3. destruct H3 as [(e & _ & H3) | ([] & s2 & H2 & H3)];
    [discriminate |].
  apply steady_driver_call in H2. destruct H2 as (F2 & S2 & V2).
  inversion H3; subst s3; clear H3.
  apply bind_inv in H. destruct H as [(e & _ & H) | (lines & s4 & H4 & H)];
    [discriminate |].
  pose proof (open_read_value _ _ _ _ H4) as (text & R & ->).
  apply steady_open_read in H4. destruct H4 as (F4 & S4 & V4).
  apply bind_inv in H. destruct H as [(e & _ & H) | (docs & s5 & H5 & H)];
    [discriminate |].
  pose proof (restore_lines_value _ _ _ _ _ _ H5) as ->. simpl in H.
  apply steady_restore_lines in H5. destruct H5 as (F5 & S5 & V5).
  unfold same_files, same_self, same_server in *. simpl in *.
  assert (Hf : files s5 = files s) by congruence.
  assert (Hs : self s5 = self s) by congruence.
  assert (Hv : server_ s5 = delete_many (server_ s) db (drop_last 5 f))
    by congruence.
  assert (Hread : forall text', FS.read_text (files s) (join db_path f) = Ok text'
                                -> text' = text).
  { intros text' R'. rewrite <- F1, <- F2 in R'. simpl in R.
    rewrite R in R'. congruence. }
  destruct (decoded ev (FS.readlines text)) as [|d ds] eqn:D; simpl in H.
  - inversion H; subst s'. repeat split; auto.
    + intros text' R'. apply Hread in R'. subst text'. rewrite Hv, D.
      apply find_delete_many_same.
    + intros db' coll' Hne. rewrite Hv. apply find_delete_many_other; auto.
  - unfold collection_insert_many in H.
    apply bind_inv in H. destruct H as [(e & _ & H) | ([] & s7 & H7 & H)];
      [discriminate |].
    apply bind_inv in H7. destruct H7 as [(e & _ & H7) | ([] & s6 & H6 & H7)];
      [discriminate |].
    apply steady_driver_call in H6. destruct H6 as (F6 & S6 & V6).
    unfold same_files, same_self, same_server in *.
    inversion H7; subst s7; clear H7.
    apply steady_logging_info in H. destruct H as (F8 & S8 & V8).
    unfold same_files, same_self, same_server in *. simpl in *.
    assert (Hv' : server_ s' = insert_many (delete_many (server_ s) db (drop_last 5 f))
                                 db (drop_last 5 f) (d :: ds)) by congruence.
    repeat split; try congruence.
    + intros text' R'. apply Hread in R'. subst text'. rewrite Hv', D.
      rewrite find_insert_many_same, find_delete_many_same. reflexivity.
    + intros db' coll' Hne. rewrite Hv'.
      rewrite find_insert_many_other, find_delete_many_other; auto.
Qed.


(** A comprehension whose condition only reads the state is a filter. *)
Lemma comprehension_reads {A} (xs : list A) (cond : A -> M bool)
      (p : state -> A -> bool) :
  (forall x s, cond x s = (Ok (p s x), s)) ->
  forall s, comprehension xs cond s = (Ok (filter (p s) xs), s).
Proof.
  intros Hc s. unfold comprehension.
  assert (G : forall acc,
             for_fold xs acc
               (fun acc x => b <- cond x ;; ret (if b then acc ++ [x] else acc)) s
             = (Ok (acc ++ filter (p s) xs), s)).
  { induction xs as [|x xs IH]; intros acc; simpl.
    - rewrite app_nil_r. reflexivity.
    - unfold bind at 1. unfold bind at 1. rewrite Hc. unfold ret at 1.
      rewrite IH. destruct (p s x); simpl; [rewrite <- app_assoc |]; reflexivity. }
  apply (G []).
Qed.

Lemma collection_files_are_json names s :
  comprehension names (fun f => ret (endswith f ".json")) s
  = (Ok (filter (fun f => endswith f ".json") names), s).
Proof.
  apply (comprehension_reads names _ (fun _ f => endswith f ".json")).
  reflexivity.
Qed.

Lemma databases_are_directories sp names s :
  comprehension names (fun d => os_path_isdir (join sp d)) s
  = (Ok (filter (fun d => FS.isdir (files s) (join sp d)) names), s).
Proof.
  apply (comprehension_reads names _
           (fun s d => FS.isdir (files s) (join sp d))).
  reflexivity.
Qed.

Lemma self_client_value s c s' :
  self_client s = (Ok c, s') -> s' = s.
Proof.
  unfold self_client, bind, get, ret, raise.
  destruct (client (self s)); intros H; inversion H; reflexivity.
Qed.

(** One database directory, lines 123-159, on a run that returns. *)
Lemma restore_database_ok ev sp db s s' :
  restore_database ev sp db s = (Ok tt, s') ->
  files s' = files s /\ self s' = self s
  /\ (forall names f,
        FS.listdir (files s) (join sp db) = Ok names ->
        In f names -> endswith f ".json" = true ->
        holds_exactly ev (files s) (server_ s') db (join sp db) f)
  /\ (forall db' coll', db' <> db ->
        find (server_ s') db' coll' = find (server_ s) db' coll').
Proof.
  unfold restore_database. intros H.
  apply bind_inv in H. destruct H as [(e & _ & H) | ([] & s1 & H1 & H)];
    [discriminate |].
  apply steady_logging_info in H1. destruct H1 as (F1 & S1 & V1).
  apply bind_inv in H. destruct H as [(e & _ & H) | (c & s2 & H2 & H)];
    [discriminate |].
  apply self_client_value in H2. subst s2.
  apply bind_inv in H. destruct H as [(e & _ & H) | (names & s3 & H3 & H)];
    [discriminate |].
  pose proof (os_listdir_value _ _ _ _ H3) as L.
  apply steady_listdir in H3. destruct H3 as (F3 & S3 & V3).
  unfold bind in H. rewrite collection_files_are_json in H.
  unfold same_files, same_self, same_server in *.
  set (I := fun (pre : list string) (st : state) =>
              files st = files s /\ self st = self s
              /\ (forall f, In f pre ->
                    holds_exactly ev (files s) (server_ st) db (join sp db) f)
              /\ (forall db' coll', db' <> db ->
                    find (server_ st) db' coll' = find (server_ s) db' coll')).
  assert (T : hoare (I [])
                (for_each (filter (fun f => endswith f ".json") names)
                          (restore_collection ev c db (join sp db)))
                (fun _ => I (filter (fun f => endswith f ".json") names))
                (fun _ _ => True)).
  { apply hoare_for_each_prefix. intros pre x post Hx.
    assert (Ex : endswith x ".json" = true).
    { assert (Hin : In x (filter (fun f => endswith f ".json") names)).
      { rewrite Hx. apply in_or_app. simpl. auto. }
      apply filter_In in Hin. apply Hin. }
    assert (Epre : forall f, In f pre -> endswith f ".json" = true).
    { intros f Hf.
      assert (Hin : In f (filter (fun f => endswith f ".json") names)).
      { rewrite Hx. apply in_or_app. auto. }
      apply filter_In in Hin. apply Hin. }
    apply hoare_of_ok. intros st [] st' (If & Is & Ih & Io) Hrun.
    apply restore_collection_ok in Hrun.
    destruct Hrun as (Rf & Rs & Rh & Ro).
    unfold I. repeat split; try congruence.
    - intros f Hf. apply in_app_or in Hf. destruct Hf as [Hf | [<- | []]].
      + destruct (string_dec (drop_last 5 f) (drop_last 5 x)) as [Eq | Ne].
        * assert (f = x) by (apply drop_last_json_inj; auto). subst f.
          rewrite If in Rh. exact Rh.
        * intros text R. rewrite Ro by congruence. apply Ih; auto.
      + rewrite If in Rh. exact Rh.
    - intros db' coll' Hne. rewrite Ro by congruence. apply Io; auto. }
  assert (I0 : I [] s3).
  { unfold I. simpl in *. repeat split; try congruence. intros f []. }
  pose proof (hoare_ok_elim _ _ _ _ _ _ _ T I0 H) as (Ff & Fs & Fh & Fo).
  repeat split; auto.
  intros names' f L' Hin Ej. simpl in L. rewrite F1 in L. simpl in L.
  assert (names' = names) by congruence. subst names'.
  apply Fh. apply filter_In. auto.
Qed.


(** The whole operation on a run that returns. *)
Lemma restore_snapshot_ok ev name s s' :
  restore_snapshot ev name s = (Ok tt, s') ->
  FS.exists_ (files s) (join (backup_dir (self s)) name) = true
  /\ files s' = files s
  /\ (forall names db fnames f,
        FS.listdir (files s) (join (backup_dir (self s)) name) = Ok names ->
        In db names ->
        FS.isdir (files s) (join (join (backup_dir (self s)) name) db) = true ->
        FS.listdir (files s) (join (join (backup_dir (self s)) name) db)
        = Ok fnames ->
        In f fnames -> endswith f ".json" = true ->
        holds_exactly ev (files s) (server_ s') db
                      (join (join (backup_dir (self s)) name) db) f).
Proof.
  unfold restore_snapshot, try_finally, try_except.
  match goal with |- context [bind get ?k] => set (body := bind get k) end.
  destruct (body s) as [r1 s1] eqn:B.
  destruct r1 as [[]|e].
  2:{ destruct (is_Exception e).
      - destruct (log_and_raise_returns
                    ("Error restoring snapshot: " +++ str_exn e) e s1) as (s2 & L).
        rewrite L. destruct (release_returns s2) as (sf & Rl). rewrite Rl.
        discriminate.
      - destruct (release_returns s1) as (sf & Rl). rewrite Rl. discriminate. }
  destruct (release s1) as [r2 s2] eqn:Rl.
  pose proof (harmless_release _ _ _ Rl) as (RV & RF & _ & _).
  unfold same_server, same_files in RV, RF.
  intros H. assert (s2 = s') by (destruct r2; inversion H; auto). subst s2.
  clear H Rl.
  subst body. unfold bind at 1, get at 1 in B.
  apply bind_inv in B. destruct B as [(e & _ & B) | ([] & sa & Ba & B)];
    [discriminate |].
  assert (Qa : harmless s sa).
  { revert Ba. apply preserves_when; [typeclasses eauto |].
    apply harmless_connect. }
  destruct Qa as (Va & Fa & (Ca & _) & _).
  unfold same_server, same_files in Va, Fa.
  unfold bind at 1, get at 1 in B. rewrite Ca in B.
  set (sp := join (backup_dir (self s)) name) in *.
  unfold bind at 1, os_path_exists at 1 in B. rewrite Fa in B.
  destruct (FS.exists_ (files s) sp) eqn:Ex; simpl in B; [| discriminate].
  apply bind_inv in B. destruct B as [(e & _ & B) | (names & sb & Bb & B)];
    [discriminate |].
  pose proof (os_listdir_value _ _ _ _ Bb) as L. rewrite Fa in L.
  apply steady_listdir in Bb. destruct Bb as (Fb & Sb & Vb).
  unfold same_files, same_self, same_server in Fb, Sb, Vb.
  unfold bind at 1 in B. rewrite databases_are_directories in B.
  apply bind_inv in B. destruct B as [(e & _ & B) | ([] & sc & Bc & B)];
    [discriminate |].
  apply steady_logging_info in B. destruct B as (Fd & Sd & Vd).
  unfold same_files, same_self, same_server in Fd, Sd, Vd.
  set (dbs := filter (fun d => FS.isdir (files sb) (join sp d)) names) in *.
  set (J := fun (pre : list string) (st : state) =>
              files st = files s
              /\ (forall db fnames f, In db pre ->
                    FS.listdir (files s) (join sp db) = Ok fnames ->
                    In f fnames -> endswith f ".json" = true ->
                    holds_exactly ev (files s) (server_ st) db (join sp db) f)).
  assert (T : hoare (J []) (for_each dbs (restore_database ev sp))
                    (fun _ => J dbs) (fun _ _ => True)).
  { apply hoare_for_each_prefix. intros pre x post Hx.
    apply hoare_of_ok. intros st [] st' (Jf & Jh) Hrun.
    apply restore_database_ok in Hrun. destruct Hrun as (Rf & Rs & Rh & Ro).
    rewrite Jf in Rh. split; [congruence |].
    intros db fnames f Hin Lf Hf Ej.
    apply in_app_or in Hin. destruct Hin as [Hin | [<- | []]].
    - destruct (string_dec db x) as [-> | Ne].
      + eapply Rh; eauto.
      + intros text R. rewrite Ro by auto. eapply Jh; eauto.
    - eapply Rh; eauto. }
  assert (J0 : J [] sb).
  { split; [congruence |]. intros db fnames f []. }
  pose proof (hoare_ok_elim _ _ _ _ _ _ _ T J0 Bc) as (Jf & Jh).
  split; [reflexivity |]. split; [congruence |].
  intros names' db fnames f L' Hdb Hdir Lf Hf Ej.
  assert (names' = names) by congruence. subst names'.
  intros text R. rewrite RV, Vd. eapply Jh; eauto.
  subst dbs. apply filter_In. split; auto. rewrite Fb, Fa. exact Hdir.
Qed.


(** *** Which collections a restore touches *)

Section Touched.
Variable fs0 : fs.
Variable sp0 : string.

(** The files stay, and what is asked of the server comes from Collection
    Files. *)
Definition careful : state -> state -> Prop :=
  rel_and same_files
    (rel_and same_config (trace_grows (from_collection_file fs0 sp0))).

#[local] Instance careful_pre : PreOrder careful.
Proof. unfold careful. typeclasses eauto. Qed.

Lemma from_collection_file_other e :
  mutation_target e = None -> from_collection_file fs0 sp0 e.
Proof. intros H db coll H'. congruence. Qed.

Ltac careful_prim :=
  unfold careful; frame_prim ltac:(apply from_collection_file_other; reflexivity).

Lemma careful_logging_info m : preserves careful (logging_info m).
Proof. careful_prim. Qed.
Lemma careful_self_client : preserves careful self_client.
Proof. careful_prim. Qed.
Lemma careful_listdir p : preserves careful (os_listdir p).
Proof. careful_prim. Qed.

Lemma careful_of_harmless s s' : harmless s s' -> careful s s'.
Proof.
  intros (_ & F & C & T). split; [exact F |]. split; [exact C |].
  eapply trace_grows_weaken; [| exact T].
  intros e He. apply from_collection_file_other.
  destruct e as [| c b [] |]; simpl in *; auto; discriminate.
Qed.

Lemma careful_restore_collection ev c db names f :
  FS.listdir fs0 (join sp0 db) = Ok names ->
  In f names -> endswith f ".json" = true ->
  preserves careful (restore_collection ev c db (join sp0 db) f).
Proof.
  intros L Hin Ej.
  assert (P : forall e, mutation_target e = Some (db, drop_last 5 f) \/
                        mutation_target e = None ->
                        from_collection_file fs0 sp0 e).
  { intros e [He | He]; [| apply from_collection_file_other; auto].
    intros db' coll' H'. rewrite He in H'. inversion H'; subst.
    exists names, f. repeat split; auto. apply drop_last_json; auto. }
  pres_by ltac:(unfold careful; frame_prim ltac:(apply P; simpl; auto)).
Qed.

Lemma careful_restore_database ev db s r s' :
  files s = fs0 ->
  restore_database ev sp0 db s = (r, s') -> careful s s'.
Proof.
  intros F0. unfold restore_database. intros H.
  apply bind_inv in H. destruct H as [(e & H & _) | ([] & s1 & H1 & H)].
  { eapply careful_logging_info; eauto. }
  assert (Q1 : careful s s1) by (eapply careful_logging_info; eauto).
  etransitivity; [exact Q1 |]. destruct Q1 as (F1 & _).
  apply bind_inv in H. destruct H as [(e & H & _) | (c & s2 & H2 & H)].
  { eapply careful_self_client; eauto. }
  apply self_client_value in H2. subst s2.
  apply bind_inv in H. destruct H as [(e & H & _) | (names & s3 & H3 & H)].
  { eapply careful_listdir; eauto. }
  pose proof (os_listdir_value _ _ _ _ H3) as L.
  assert (Q3 : careful s1 s3) by (eapply careful_listdir; eauto).
  etransitivity; [exact Q3 |].
  unfold bind in H. rewrite collection_files_are_json in H.
  revert H. apply preserves_for_each; [typeclasses eauto |].
  intros f Hf. apply filter_In in Hf. destruct Hf as [Hin Ej].
  eapply careful_restore_collection; eauto.
  unfold same_files in F1. rewrite F1, F0 in L. exact L.
Qed.

(** The loop over the databases of the snapshot. *)
Lemma careful_restore_databases ev dbs s r s' :
  files s = fs0 ->
  for_each dbs (restore_database ev sp0) s = (r, s') -> careful s s'.
Proof.
  revert s. induction dbs as [|db dbs IH]; intros s F0; simpl.
  - intros H; inversion H; subst. reflexivity.
  - intros H. apply bind_inv in H.
    destruct H as [(e & H & _) | ([] & s1 & H1 & H)].
    + eapply careful_restore_database; eauto.
    + pose proof (careful_restore_database _ _ _ _ _ F0 H1) as Q1.
      etransitivity; [exact Q1 |]. apply IH; auto.
      destruct Q1 as (F1 & _). unfold same_files in F1. congruence.
Qed.

Lemma careful_release : preserves careful release.
Proof.
  intros s r s' H. apply careful_of_harmless. eapply harmless_release; eauto.
Qed.

End Touched.

Lemma restore_snapshot_careful ev name s r s' :
  restore_snapshot ev name s = (r, s') ->
  careful (files s) (join (backup_dir (self s)) name) s s'.
Proof.
  set (fs0 := files s). set (sp0 := join (backup_dir (self s)) name).
  pose proof (careful_pre fs0 sp0) as PO.
  unfold restore_snapshot, try_finally, try_except.
  match goal with |- context [bind get ?k] => set (body := bind get k) end.
  destruct (body s) as [r1 s1] eqn:B.
  assert (QB : careful fs0 sp0 s s1).
  { subst body. unfold bind at 1, get at 1 in B. apply bind_inv in B.
    assert (Hc : forall ra sa,
               when (is_none (client (self s))) connect s = (ra, sa) ->
               harmless s sa).
    { intros ra sa. apply preserves_when; [typeclasses eauto |].
      apply harmless_connect. }
    destruct B as [(e & B & _) | ([] & sa & Ba & B)].
    - apply careful_of_harmless. eapply Hc; eauto.
    - pose proof (Hc _ _ Ba) as Qa.
      etransitivity; [apply careful_of_harmless; exact Qa |].
      destruct Qa as (_ & Fa & (Ca & _) & _). unfold same_files in Fa.
      unfold bind at 1, get at 1 in B. rewrite Ca in B. fold sp0 in B.
      unfold bind at 1, os_path_exists at 1 in B.
      destruct (FS.exists_ (files sa) sp0); simpl in B.
      2:{ inversion B; subst. reflexivity. }
      apply bind_inv in B. destruct B as [(e & B & _) | (names & sb & Bb & B)].
      { eapply careful_listdir; eauto. }
      assert (Qb : careful fs0 sp0 sa sb) by (eapply careful_listdir; eauto).
      etransitivity; [exact Qb |]. destruct Qb as (Fb & _).
      unfold same_files in Fb.
      unfold bind at 1 in B. rewrite databases_are_directories in B.
      apply bind_inv in B. destruct B as [(e & B & _) | ([] & sc & Bc & B)].
      + eapply careful_restore_databases; eauto. unfold fs0. congruence.
      + etransitivity.
        * eapply careful_restore_databases; eauto. unfold fs0. congruence.
        * eapply careful_logging_info; eauto. }
  assert (Fin : forall s2 r3 s3,
             careful fs0 sp0 s1 s2 -> release s2 = (r3, s3) ->
             careful fs0 sp0 s s3).
  { intros s2 r3 s3 Q2 Rl. apply (careful_release fs0 sp0) in Rl.
    etransitivity; [exact QB |]. etransitivity; [exact Q2 | exact Rl]. }
  destruct r1 as [a|e].
  - destruct (release s1) as [r3 s3] eqn:Rl.
    intros H. assert (s3 = s') by (destruct r3; inversion H; auto). subst s3.
    eapply Fin; [reflexivity | exact Rl].
  - destruct (is_Exception e).
    + destruct (log_and_raise_returns
                  ("Error restoring snapshot: " +++ str_exn e) e s1) as (s2 & L).
      rewrite L. destruct (release s2) as [r3 s3] eqn:Rl.
      intros H. assert (s3 = s') by (destruct r3; inversion H; auto). subst s3.
      eapply Fin; [| exact Rl].
      apply careful_of_harmless. eapply harmless_log_and_raise; eauto.
    + destruct (release s1) as [r3 s3] eqn:Rl.
      intros H. assert (s3 = s') by (destruct r3; inversion H; auto). subst s3.
      eapply Fin; [reflexivity | exact Rl].
Qed.

End RestoreFacts.

(** ** Listing snapshots *)

Module StoreFacts.
Import PyStr PyVal Exn FS Mongo Run MongoDBSnapshot RunFacts Frames.
Import StoreSpec FSFacts OrderFacts RestoreFacts.

Lemma external_next s :
  next_call_succeeds s ->
  exists s', external s = (Ok tt, s')
             /\ files s' = files s /\ self s' = self s
             /\ server_ s' = server_ s /\ log s' = log s
             /\ trace s' = trace s.
Proof.
  unfold next_call_succeeds, external.
  destruct (faults s) as [|[e|] fl]; simpl; intros H; try discriminate;
    eexists; (split; [reflexivity |]); simpl; auto.
Qed.

Lemma list_snapshots_absent s :
  FS.exists_ (files s) (backup_dir (self s)) = false ->
  list_snapshots s = (Ok [], s).
Proof.
  intros H. unfold list_snapshots, try_except, bind, get, os_path_exists.
  rewrite H. reflexivity.
Qed.

(** The directories among the names of a well-formed directory, as lines
    100-102 find them. *)
Lemma filter_isdir_subdirectories f p es :
  node_at f p = Some (Dir es) ->
  NoDup (map fst es) ->
  Forall (fun n => is_component n = true) (map fst es) ->
  filter (fun d => FS.isdir f (join p d)) (map fst es) = subdirectories es.
Proof.
  intros Hp Hnd Hc. rewrite <- (filter_names_by_entry es Hnd).
  apply filter_ext_in. intros n Hin.
  rewrite Forall_forall in Hc. apply isdir_join; auto.
Qed.

Lemma list_snapshots_directory s es :
  node_at (files s) (backup_dir (self s)) = Some (Dir es) ->
  NoDup (map fst es) ->
  Forall (fun n => is_component n = true) (map fst es) ->
  next_call_succeeds s ->
  exists s', list_snapshots s = (Ok (sorted_reverse (subdirectories es)), s').
Proof.
  intros Hp Hnd Hc Hn.
  destruct (external_next s Hn) as (s1 & E & F1 & S1 & _).
  assert (Ex : os_path_exists (backup_dir (self s)) s = (Ok true, s)).
  { unfold os_path_exists, FS.exists_. rewrite Hp. reflexivity. }
  assert (Ls : os_listdir (backup_dir (self s)) s = (Ok (map fst es), s1)).
  { unfold os_listdir. rewrite (bind_ok _ _ _ _ _ E).
    unfold bind, get, lift, FS.listdir. rewrite F1, Hp. reflexivity. }
  unfold list_snapshots, try_except.
  rewrite (bind_ok get _ s s s eq_refl).
  rewrite (bind_ok _ _ _ _ _ Ex). change (negb true) with false. cbv iota.
  rewrite (bind_ok _ _ _ _ _ Ls).
  change (for_fold (map fst es) []
            (fun snapshots snapshot_dir =>
               d <- os_path_isdir (join (backup_dir (self s)) snapshot_dir) ;;
               ret (if d then snapshots ++ [snapshot_dir] else snapshots)))
    with (comprehension (map fst es)
            (fun d => os_path_isdir (join (backup_dir (self s)) d))).
  pose proof (databases_are_directories (backup_dir (self s)) (map fst es) s1)
    as Dirs.
  rewrite F1, (filter_isdir_subdirectories _ _ es Hp Hnd Hc) in Dirs.
  rewrite (bind_ok _ _ _ _ _ Dirs).
  exists s1. reflexivity.
Qed.

End StoreFacts.

(** ** Creating a snapshot *)

Module CreateFacts.
Import PyStr PyVal Exn FS Mongo Run MongoDBSnapshot RunFacts Frames.
Import StoreSpec FSFacts RestoreFacts.

(** The files, the server's data, the clock and the configuration of the
    object stay. *)
Definition keeps : state -> state -> Prop :=
  rel_and same_files (rel_and same_server (rel_and same_now same_config)).

#[export] Instance keeps_pre : PreOrder keeps.
Proof. unfold keeps. typeclasses eauto. Qed.

Ltac keeps_prim := unfold keeps; frame_prim ltac:(idtac).

Lemma keeps_logging_info m : preserves keeps (logging_info m).
Proof. keeps_prim. Qed.
Lemma keeps_driver_call c op : preserves keeps (driver_call c op).
Proof. keeps_prim. Qed.
Lemma keeps_self_client : preserves keeps self_client.
Proof. keeps_prim. Qed.
Lemma keeps_collection_find c d coll :
  preserves keeps (collection_find c d coll).
Proof. pres_by keeps_prim. Qed.
Lemma keeps_list_collection_names c d :
  preserves keeps (db_list_collection_names c d).
Proof. pres_by keeps_prim. Qed.
Lemma keeps_list_database_names c :
  preserves keeps (client_list_database_names c).
Proof. pres_by keeps_prim. Qed.
Lemma keeps_connect : preserves keeps connect.
Proof. unfold connect. pres_by keeps_prim. Qed.
Lemma keeps_release : preserves keeps release.
Proof.
  unfold release. apply preserves_bind; [typeclasses eauto | |].
  - apply preserves_get. typeclasses eauto.
  - intros s0. destruct (client (self s0)).
    + keeps_prim.
    + apply preserves_ret. typeclasses eauto.
Qed.

(** The files change, the rest stays. *)
Definition keeps_but_files : state -> state -> Prop :=
  rel_and same_server (rel_and same_now same_config).

#[export] Instance keeps_but_files_pre : PreOrder keeps_but_files.
Proof. unfold keeps_but_files. typeclasses eauto. Qed.

Lemma os_makedirs_ok p s s' :
  os_makedirs p s = (Ok tt, s') ->
  FS.makedirs (files s) p = Ok (files s') /\ keeps_but_files s s'.
Proof.
  unfold os_makedirs, bind, external, get, lift, modify.
  destruct (faults s) as [|[e|] fl]; simpl;
    try (destruct (FS.makedirs (files s) p) as [f|e'] eqn:R);
    intros H; inversion H; subst; simpl; split; auto;
    unfold keeps_but_files; frame_simpl.
Qed.

Lemma open_write_ok p s s' :
  open_write p s = (Ok tt, s') ->
  FS.write_text (files s) p "" = Ok (files s') /\ keeps_but_files s s'.
Proof.
  unfold open_write, bind, external, get, lift, modify.
  destruct (faults s) as [|[e|] fl]; simpl;
    try (destruct (FS.write_text (files s) p "") as [f|e'] eqn:R);
    intros H; inversion H; subst; simpl; split; auto;
    unfold keeps_but_files; frame_simpl.
Qed.

Lemma file_write_ok p text s s' :
  file_write p text s = (Ok tt, s') ->
  FS.append_text (files s) p text = Ok (files s') /\ keeps_but_files s s'.
Proof.
  unfold file_write, bind, external, get, lift, modify.
  destruct (faults s) as [|[e|] fl]; simpl;
    try (destruct (FS.append_text (files s) p text) as [f|e'] eqn:R);
    intros H; inversion H; subst; simpl; split; auto;
    unfold keeps_but_files; frame_simpl.
Qed.

Lemma keeps_weaken s s' : keeps s s' -> keeps_but_files s s'.
Proof. intros (_ & H). exact H. Qed.

Section Snapshot.
Variable P0 : list string.
Variable bp : string.
Variable v0 : server.
Variable t0 : datetime.
Variable dir0 : string.

(** While the snapshot is written: its directory has the subdirectories
    [created], and the rest of the state is as it was. *)
Definition writing (created : list string) (st : state) : Prop :=
  snapshot_dir P0 bp created (files st)
  /\ server_ st = v0 /\ now st = t0 /\ backup_dir (self st) = dir0.

Lemma writing_keeps created st st' :
  writing created st -> keeps st st' -> writing created st'.
Proof.
  intros (S & V & N & B) (F & V' & N' & (B' & _)).
  unfold same_files, same_server, same_now in *.
  split; [rewrite F; exact S |]. repeat split; congruence.
Qed.

Lemma writing_files created st st' f :
  writing created st -> keeps_but_files st st' ->
  snapshot_dir P0 bp f (files st') -> writing f st'.
Proof.
  intros (S & V & N & B) (V' & N' & (B' & _)) S'.
  unfold same_server, same_now in *.
  split; [exact S' |]. repeat split; congruence.
Qed.

(** One collection, lines 72-82. *)
Lemma export_collection_writing created c d coll :
  is_component d = true -> str_in d created = true ->
  is_component (coll +++ ".json") = true ->
  hoare (writing created) (export_collection c d (join bp d) coll)
        (fun _ => writing created) (fun _ _ => True).
Proof.
  intros Hd Hin Hc. apply hoare_of_ok. intros st [] st' W H.
  unfold export_collection in H.
  apply bind_inv in H. destruct H as [(e & _ & H) | (docs & s1 & H1 & H)];
    [discriminate |].
  assert (W1 : writing created s1).
  { eapply writing_keeps; [exact W |]. eapply keeps_collection_find; eauto. }
  apply bind_inv in H. destruct H as [(e & _ & H) | ([] & s2 & H2 & H)];
    [discriminate |].
  apply open_write_ok in H2. destruct H2 as (Wr & K2).
  assert (W2 : writing created s2).
  { eapply writing_files; [exact W1 | exact K2 |].
    apply (snapshot_dir_write P0 bp created (files s1) d (coll +++ ".json")
             "" (files s2)); auto. apply W1. }
  apply bind_inv in H. destruct H as [(e & _ & H) | ([] & s3 & H3 & H)];
    [discriminate |].
  assert (T : hoare (writing created)
                (for_each docs (fun document =>
                   file_write (join (join bp d) (coll +++ ".json"))
                              (str document +++ String LF "")))
                (fun _ => writing created) (fun _ _ => True)).
  { apply hoare_for_each. intros doc _. apply hoare_of_ok.
    intros sa [] sb Wa Ha. apply file_write_ok in Ha.
    destruct Ha as (Ap & Ka).
    eapply writing_files; [exact Wa | exact Ka |].
    eapply snapshot_dir_append; eauto. apply Wa. }
  pose proof (hoare_ok_elim _ _ _ _ _ _ _ T W2 H3) as W3.
  eapply writing_keeps; [exact W3 |]. eapply keeps_logging_info; eauto.
Qed.

(** The names in [created] are the databases seen so far that are not
    system databases. *)
Definition subdirs_are (created seen : list string) : Prop :=
  forall x, str_in x created = true
            <-> (In x seen /\ str_in x system_databases = false).

Lemma str_in_In x l : str_in x l = true <-> In x l.
Proof.
  unfold str_in. rewrite existsb_exists. split.
  - intros (y & Hy & E). apply String.eqb_eq in E. subst. exact Hy.
  - intros H. exists x. split; [exact H | apply String.eqb_refl].
Qed.

Lemma db_list_collection_names_value c d s names s' :
  db_list_collection_names c d s = (Ok names, s') ->
  names = list_collection_names (server_ s) d.
Proof.
  unfold db_list_collection_names. intros H.
  apply bind_inv in H. destruct H as [(e & _ & H) | ([] & s1 & H1 & H)];
    [discriminate |].
  apply keeps_driver_call in H1. destruct H1 as (_ & V & _).
  unfold same_server in V. unfold bind, get, ret in H.
  inversion H; subst. rewrite V. reflexivity.
Qed.

Lemma client_list_database_names_value c s names s' :
  client_list_database_names c s = (Ok names, s') ->
  names = list_database_names (server_ s).
Proof.
  unfold client_list_database_names. intros H.
  apply bind_inv in H. destruct H as [(e & _ & H) | ([] & s1 & H1 & H)];
    [discriminate |].
  apply keeps_driver_call in H1. destruct H1 as (_ & V & _).
  unfold same_server in V. unfold bind, get, ret in H.
  inversion H; subst. rewrite V. reflexivity.
Qed.

(** One database, lines 59-82. *)
Lemma snapshot_database_writing seen d :
  is_component d = true ->
  (forall c, In c (list_collection_names v0 d) ->
             is_component (c +++ ".json") = true) ->
  hoare (fun st => exists created,
                     writing created st /\ subdirs_are created seen)
        (snapshot_database bp d)
        (fun _ st => exists created,
                       writing created st /\ subdirs_are created (seen ++ [d]))
        (fun _ _ => True).
Proof.
  intros Hd Hfit. apply hoare_of_ok.
  intros st [] st' (created & W & Sub) H. unfold snapshot_database in H.
  fold system_databases in H.
  destruct (str_in d system_databases) eqn:Sys; simpl in H.
  - inversion H; subst. exists created. split; [exact W |].
    intros x. rewrite (Sub x). rewrite in_app_iff. cbn [In].
    split; [tauto |]. intros [[Hx | [<- | []]] Hs]; [tauto | congruence].
  - apply bind_inv in H. destruct H as [(e & _ & H) | ([] & s1 & H1 & H)];
      [discriminate |].
    assert (W1 : writing created s1).
    { eapply writing_keeps; [exact W |]. eapply keeps_logging_info; eauto. }
    unfold bind at 1, os_path_exists at 1 in H.
    assert (Ex : FS.exists_ (files s1) (join bp d) = str_in d created).
    { apply (snapshot_dir_exists P0 bp); auto. apply W1. }
    rewrite Ex in H.
    assert (Step : exists s2 created',
               writing created' s2
               /\ str_in d created' = true
               /\ subdirs_are created' (seen ++ [d])
               /\ (c <- self_client ;;
                    collections <- db_list_collection_names c d ;;
                    for_each collections (export_collection c d (join bp d))) s2
                  = (Ok tt, st')).
    { destruct (str_in d created) eqn:In_d; simpl in H.
      - exists s1, created. split; [exact W1 |]. split; [exact In_d |].
        split; [| exact H].
        intros x. rewrite in_app_iff. cbn [In]. split.
        + intros Hx. apply Sub in Hx. tauto.
        + intros [[Hx | [<- | []]] Hs]; [apply Sub; auto | exact In_d].
      - apply bind_inv in H. destruct H as [(e & _ & H) | ([] & s2 & H2 & H)];
          [discriminate |].
        apply os_makedirs_ok in H2. destruct H2 as (Mk & K2).
        exists s2, (d :: created).
        assert (S2 : snapshot_dir P0 bp (d :: created) (files s2)).
        { apply (snapshot_dir_makedirs P0 bp created (files s1) d (files s2)
                   (proj1 W1) Hd); [exact Ex | exact Mk]. }
        split; [eapply writing_files; eauto |].
        split; [rewrite str_in_cons, String.eqb_refl; reflexivity |].
        split; [| exact H].
        intros x. rewrite str_in_cons, in_app_iff. cbn [In].
        destruct (String.eqb x d) eqn:Exd; cbn [orb].
        + apply String.eqb_eq in Exd. subst x. split; auto.
        + rewrite (Sub x). split; [tauto |].
          intros [[Hx | [<- | []]] Hs]; [tauto |].
          rewrite String.eqb_refl in Exd. discriminate. }
    clear H. destruct Step as (s2 & created' & W2 & In2 & Sub2 & H).
    exists created'. split; [| exact Sub2].
    apply bind_inv in H. destruct H as [(e & _ & H) | (c & s3 & H3 & H)];
      [discriminate |].
    apply self_client_value in H3. subst s3.
    apply bind_inv in H. destruct H as [(e & _ & H) | (colls & s4 & H4 & H)];
      [discriminate |].
    pose proof (db_list_collection_names_value _ _ _ _ _ H4) as ->.
    assert (W4 : writing created' s4).
    { eapply writing_keeps; [exact W2 |].
      eapply keeps_list_collection_names; eauto. }
    assert (V2 : server_ s2 = v0) by apply W2.
    rewrite V2 in H.
    assert (T : hoare (writing created')
                  (for_each (list_collection_names v0 d)
                            (export_collection c d (join bp d)))
                  (fun _ => writing created') (fun _ _ => True)).
    { apply hoare_for_each. intros coll Hc.
      apply export_collection_writing; auto. }
    exact (hoare_ok_elim _ _ _ _ _ _ _ T W4 H).
Qed.

(** The loop over the databases, lines 59-82. *)
Lemma snapshot_databases_writing dbs :
  Forall (fun d => is_component d = true) dbs ->
  (forall d c, In c (list_collection_names v0 d) ->
               is_component (c +++ ".json") = true) ->
  hoare (fun st => writing [] st)
        (for_each dbs (snapshot_database bp))
        (fun _ st => exists created,
                       writing created st /\ subdirs_are created dbs)
        (fun _ _ => True).
Proof.
  intros Hc Hfit.
  eapply hoare_weaken.
  - apply (hoare_for_each_prefix dbs (snapshot_database bp)
             (fun seen st => exists created,
                               writing created st /\ subdirs_are created seen)
             (fun _ _ => True)).
    intros pre x post Hx. apply snapshot_database_writing.
    + rewrite Forall_forall in Hc. apply Hc. rewrite Hx.
      apply in_or_app. simpl. auto.
    + intros c. apply Hfit.
  - intros st W. exists []. split; [exact W |].
    intros x. simpl. split; [discriminate | tauto].
  - auto.
  - auto.
Qed.

End Snapshot.

(** A check that the names of a server fit files. *)
Definition names_fit_filesb (v : server) : bool :=
  forallb (fun db : string * database =>
             is_component (fst db)
             && forallb (fun cl : string * collection =>
                           is_component (fst cl +++ ".json")) (snd db)) v.

Lemma assoc_In {A} k (es : list (string * A)) a :
  assoc k es = Some a -> In (k, a) es.
Proof.
  induction es as [|[k0 a0] es IH]; simpl; [discriminate |].
  destruct (String.eqb k0 k) eqn:E.
  - apply String.eqb_eq in E. subst. intros H; inversion H; auto.
  - auto.
Qed.

Lemma names_fit_filesb_sound v :
  names_fit_filesb v = true -> names_fit_files v.
Proof.
  unfold names_fit_filesb. rewrite forallb_forall. intros H. split.
  - unfold list_database_names. rewrite Forall_forall. intros d Hd.
    apply in_map_iff in Hd. destruct Hd as (db & <- & Hin).
    apply H in Hin. apply andb_true_iff in Hin. apply Hin.
  - intros d c. unfold list_collection_names, get_database.
    destruct (assoc d v) as [colls|] eqn:A; [| intros []].
    apply assoc_In in A. apply H in A. simpl in A.
    apply andb_true_iff in A. destruct A as [_ A].
    rewrite forallb_forall in A. intros Hc.
    apply in_map_iff in Hc. destruct Hc as (cl & <- & Hin). apply A. exact Hin.
Qed.

(** The whole operation on a run that returns, the directory of the
    snapshot being new. *)
Lemma create_snapshot_subdirs s s' :
  create_snapshot s = (Ok tt, s') ->
  FS.exists_ (files s) (join (backup_dir (self s)) (strftime (now s))) = false ->
  names_fit_files (server_ s) ->
  exists P0 created,
    snapshot_dir P0 (join (backup_dir (self s)) (strftime (now s))) created
                 (files s')
    /\ subdirs_are created (list_database_names (server_ s)).
Proof.
  intros H Hfresh (Fit1 & Fit2).
  unfold create_snapshot, try_finally, try_except in H.
  match type of H with context [bind get ?k] => set (body := bind get k) in H end.
  destruct (body s) as [r1 s1] eqn:B.
  destruct r1 as [[]|e].
  2:{ destruct (is_Exception e).
      - destruct (log_and_raise_returns
                    ("Error creating snapshot: " +++ str_exn e) e s1) as (s2 & L).
        rewrite L in H. destruct (release_returns s2) as (sf & Rl).
        rewrite Rl in H. discriminate.
      - destruct (release_returns s1) as (sf & Rl). rewrite Rl in H.
        discriminate. }
  destruct (release s1) as [r2 s2] eqn:Rl.
  pose proof (keeps_release _ _ _ Rl) as (RF & _).
  unfold same_files in RF.
  assert (s2 = s') by (destruct r2; inversion H; auto). subst s2.
  clear H Rl. rewrite RF. clear RF.
  subst body. unfold bind at 1, get at 1 in B.
  apply bind_inv in B. destruct B as [(e & _ & B) | ([] & sa & Ba & B)];
    [discriminate |].
  assert (Ka : keeps s sa).
  { revert Ba. apply preserves_when; [typeclasses eauto |]. apply keeps_connect. }
  apply bind_inv in B. destruct B as [(e & _ & B) | (c & sb & Bb & B)];
    [discriminate |].
  apply self_client_value in Bb. subst sb.
  apply bind_inv in B. destruct B as [(e & _ & B) | (dbs & sc & Bc & B)];
    [discriminate |].
  pose proof (client_list_database_names_value _ _ _ _ Bc) as ->.
  assert (Kc : keeps s sc).
  { etransitivity; [exact Ka |]. eapply keeps_list_database_names; eauto. }
  destruct Ka as (_ & Va & _). unfold same_server in Va. rewrite Va in *.
  destruct Kc as (Fc & Vc & Nc & (Cc & _)).
  unfold same_files, same_server, same_now in Fc, Vc, Nc.
  unfold bind at 1, get at 1 in B. rewrite Nc, Cc in B.
  set (bp := join (backup_dir (self s)) (strftime (now s))) in *.
  unfold bind at 1, os_path_exists at 1 in B. rewrite Fc, Hfresh in B.
  simpl negb in B. cbv iota in B. unfold when at 1 in B.
  apply bind_inv in B. destruct B as [(e & _ & B) | ([] & sd & Bd & B)];
    [discriminate |].
  apply os_makedirs_ok in Bd. destruct Bd as (Mk & Kd).
  destruct (snapshot_dir_fresh _ _ _ Mk) as (P0 & S0).
  assert (W0 : writing P0 bp (server_ s) (now s) (backup_dir (self s)) [] sd).
  { destruct Kd as (Vd & Nd & (Cd & _)). unfold same_server, same_now in *.
    split; [exact S0 |]. repeat split; congruence. }
  apply bind_inv in B. destruct B as [(e & _ & B) | ([] & se & Be & B)];
    [discriminate |].
  pose proof (snapshot_databases_writing P0 bp (server_ s) (now s)
                (backup_dir (self s)) (list_database_names (server_ s))
                Fit1 Fit2) as T.
  pose proof (hoare_ok_elim _ _ _ _ _ _ _ T W0 Be) as (created & We & Sub).
  exists P0, created. split; [| exact Sub].
  apply keeps_logging_info in B. destruct B as (Ff & _).
  unfold same_files in Ff. rewrite Ff. apply We.
Qed.

End CreateFacts.

(** ** What the operations leave alone, and what they log *)

Module Outcomes.
Import PyStr PyVal Exn FS Mongo Run MongoDBSnapshot RunFacts Frames.
Import PyEval(outcome, Value, Raises).
Import RestoreSpec StoreSpec FSFacts.

(** The server's data, the configuration and the clock are the same, and
    nothing asked of the server was a deletion or an insertion. *)
Definition reads_only : state -> state -> Prop :=
  rel_and same_server
    (rel_and same_config
       (rel_and same_now (trace_grows (fun e => is_mutation e = false)))).

#[export] Instance reads_only_pre : PreOrder reads_only.
Proof. unfold reads_only. typeclasses eauto. Qed.

Ltac reads_only_prim := unfold reads_only; frame_prim ltac:(reflexivity).

Lemma reads_only_create_snapshot : preserves reads_only create_snapshot.
Proof. unfold create_snapshot, connect, release. pres_by reads_only_prim. Qed.

(** The clock is the same and the log has only grown. *)
Definition moves_on : state -> state -> Prop :=
  rel_and same_now (log_grows (fun _ => True)).

#[export] Instance moves_on_pre : PreOrder moves_on.
Proof. unfold moves_on. typeclasses eauto. Qed.















Lemma is_closed_mark_open c l : is_closed (mark_open c l) c = false.
Proof.
  unfold is_closed, mark_open. induction l as [|x l IH]; simpl; auto.
  destruct (Nat.eqb c x) eqn:E; simpl; auto. rewrite E. auto.
Qed.

#[local] Arguments is_Exception : simpl never.
#[local] Arguments is_closed : simpl never.
#[local] Arguments mark_open : simpl never.

Lemma connect_outcome s :
  match connect s with
  | (Ok _, s') =>
      client (self s') = Some (clients s)
      /\ is_closed (closed s') (clients s) = false
      /\ trace s' = trace s
                    ++ [EvNewClient (clients s);
                        EvCall (clients s) (is_closed (closed s) (clients s))
                               OpServerInfo]
      /\ log s' = log s ++ [(INFO, "Successfully connected to MongoDB")]
  | (Err e, s') =>
      log s' = log s
               ++ (if is_Exception e
                   then [(ERROR, "Failed to connect to MongoDB: " +++ str_exn e)]
                   else [])
      /\ (client (self s') = client (self s) /\ trace s' = trace s
          \/ client (self s') = Some (clients s))
  end.
Proof.
  destruct s as [i f v n cl tr lg nw fl].
  unfold connect, try_except, MongoClient, self_client, client_server_info,
    driver_call, logging_info, logging_error, modify, external, bind, get,
    put, ret, raise.
  destruct fl as [|[e1|] [|[e2|] rest]]; cbn;
    repeat match goal with
           | |- context [is_Exception ?e] =>
               let X := fresh "X" in
               destruct (is_Exception e) eqn:X; cbn; rewrite ?X
           end;
    cbn; rewrite ?app_nil_r, <- ?app_assoc; cbn;
    repeat split; auto;
    apply (is_closed_mark_open n cl).
Qed.

Lemma isdir_fold p names : forall acc s,
  exists l,
    for_fold names acc (fun snapshots snapshot_dir =>
      d <- os_path_isdir (join p snapshot_dir) ;;
      ret (if d then snapshots ++ [snapshot_dir] else snapshots)) s
    = (Ok l, s).
Proof.
  induction names as [|n names IH]; intros acc s; simpl.
  - exists acc. reflexivity.
  - unfold bind at 1, os_path_isdir at 1, bind at 1, ret at 1. apply IH.
Qed.

#[local] Arguments FS.exists_ : simpl never.
#[local] Arguments FS.listdir : simpl never.
#[local] Arguments for_fold : simpl never.
#[local] Arguments sorted_reverse : simpl never.
#[local] Arguments String.append : simpl never.

Lemma list_snapshots_outcome s :
  match list_snapshots s with
  | (r, s') =>
      files s' = files s /\ server_ s' = server_ s /\ self s' = self s
      /\ trace s' = trace s /\ closed s' = closed s /\ clients s' = clients s
      /\ log s' = log s
                  ++ match r with
                     | Ok _ => []
                     | Err e =>
                         if is_Exception e
                         then [(ERROR, "Error listing snapshots: " +++ str_exn e)]
                         else []
                     end
  end.
Proof.
  destruct s as [i f v n cl tr lg nw fl].
  unfold list_snapshots, try_except, os_path_exists, os_listdir,
    logging_error, modify, external, lift, bind, get, ret, raise.
  cbn. destruct (FS.exists_ f (backup_dir i)); cbn.
  2:{ rewrite app_nil_r. repeat split; auto. }
  destruct fl as [|[e|] rest]; cbn.
  - destruct (FS.listdir f (backup_dir i)) as [names|e]; cbn.
    + match goal with
      | |- context [for_fold names [] ?b ?st] =>
          destruct (isdir_fold (backup_dir i) names [] st) as (l & E);
          replace (for_fold names [] b st) with (@Ok (list string) l, st)
            by (symmetry; exact E)
      end.
      cbn. rewrite app_nil_r. repeat split; auto.
    + destruct (is_Exception e) eqn:X; cbn; rewrite ?X, ?app_nil_r;
        repeat split; auto.
  - destruct (is_Exception e) eqn:X; cbn; rewrite ?X, ?app_nil_r;
      repeat split; auto.
  - destruct (FS.listdir f (backup_dir i)) as [names|e]; cbn.
    + match goal with
      | |- context [for_fold names [] ?b ?st] =>
          destruct (isdir_fold (backup_dir i) names [] st) as (l & E);
          replace (for_fold names [] b st) with (@Ok (list string) l, st)
            by (symmetry; exact E)
      end.
      cbn. rewrite app_nil_r. repeat split; auto.
    + destruct (is_Exception e) eqn:X; cbn; rewrite ?X, ?app_nil_r;
        repeat split; auto.
Qed.

#[local] Arguments FS.makedirs : simpl never.

Lemma makedirs_node f p f' :
  FS.makedirs f p = Ok f' -> node_at f' p = Some (Dir []).
Proof.
  intros H. destruct (makedirs_ok _ _ _ H) as (_ & P & R & L & _).
  unfold node_at. rewrite R. exact L.
Qed.

(** [__init__], when it returns: the object holds the configuration, no
    client, and the backup directory exists; it was made, empty, when it
    was missing, and nothing else was touched. *)
Lemma init_outcome u d s s' :
  init u d s = (Ok tt, s') ->
  let dir := match d with Some x => x | None => "backups" end in
  self s' = mk_instance u dir None
  /\ FS.exists_ (files s') dir = true
  /\ (FS.exists_ (files s) dir = true -> files s' = files s)
  /\ (FS.exists_ (files s) dir = false -> node_at (files s') dir = Some (Dir []))
  /\ server_ s' = server_ s /\ trace s' = trace s /\ log s' = log s.
Proof.
  destruct s as [i f v n cl tr lg nw fl]. intros H dir. revert H.
  unfold init, os_path_exists, os_makedirs, when, modify, external, lift,
    bind, get, ret.
  fold dir. cbn. destruct (FS.exists_ f dir) eqn:X; cbn.
  - intros H. inversion H; subst. cbn. repeat split; auto. discriminate.
  - destruct fl as [|[e|] rest]; cbn; try discriminate;
      destruct (FS.makedirs f dir) as [f'|e'] eqn:Mk; cbn; try discriminate;
      intros H; inversion H; subst; cbn;
      pose proof (makedirs_node _ _ _ Mk) as Nd;
      (repeat split; auto; [unfold FS.exists_; rewrite Nd; reflexivity
                           | discriminate]).
Qed.

End Outcomes.
(** ** Restoring, with [eval] in its frame *)

Module FramedFacts.
Import PyStr PyVal Exn FS Mongo Run MongoDBSnapshot RunFacts Frames.
Import PyEval(outcome, Value, Raises).
Import RestoreSpec FrameSpec StrFacts RestoreFacts.

(** *** Runs that agree *)

Lemma bind_cong {A B} (m : M A) (k1 k2 : A -> M B) s :
  (forall a s1, m s = (Ok a, s1) -> k1 a s1 = k2 a s1) ->
  bind m k1 s = bind m k2 s.
Proof.
  intros H. unfold bind. destruct (m s) as [[a|e] s1]; auto.
Qed.

Lemma bind_cong_l {A B} (m1 m2 : M A) (k : A -> M B) s :
  m1 s = m2 s -> bind m1 k s = bind m2 k s.
Proof. unfold bind. intros ->. reflexivity. Qed.

Lemma for_each_cong {A} (I : state -> Prop) (xs : list A)
      (b1 b2 : A -> M unit) :
  (forall x s, In x xs -> I s -> b1 x s = b2 x s) ->
  (forall x s r s', In x xs -> I s -> b2 x s = (r, s') -> I s') ->
  forall s, I s -> for_each xs b1 s = for_each xs b2 s.
Proof.
  induction xs as [|x xs IH]; intros H1 H2 s Hs; [reflexivity |].
  simpl. unfold bind. rewrite (H1 x s) by (simpl; auto).
  destruct (b2 x s) as [[u|e] s1] eqn:E; [| reflexivity].
  apply IH.
  - intros y t Hy. apply H1. simpl; auto.
  - intros y t r t' Hy. apply H2. simpl; auto.
  - eapply H2; eauto. simpl; auto.
Qed.

Lemma try_except_cong {A} (b1 b2 : M A) h s :
  b1 s = b2 s -> try_except b1 h s = try_except b2 h s.
Proof. unfold try_except. intros ->. reflexivity. Qed.

Lemma try_finally_cong {A} (b1 b2 : M A) f s :
  b1 s = b2 s -> try_finally b1 f s = try_finally b2 f s.
Proof. unfold try_finally. intros ->. reflexivity. Qed.

Lemma same_files_restore_collection ev c db path f :
  preserves same_files (restore_collection ev c db path f).
Proof. pres_by ltac:(frame_prim ltac:(idtac)). Qed.

Lemma same_files_restore_database ev sp db :
  preserves same_files (restore_database ev sp db).
Proof. pres_by ltac:(frame_prim ltac:(idtac)). Qed.

Section Agree.
Variable eval : Framed.evaluator.
Variable e0 : string -> outcome pyval.

(** An evaluator in its frame and one that looks at the text only give
    the same runs, on lines where the first only computes what the second
    gives. *)
Lemma restore_line_computes documents line s :
  (startswith (strip line) "{" = true -> computes eval e0 (strip line)) ->
  Framed.restore_line eval documents line s
  = restore_line e0 documents line s.
Proof.
  intros H. unfold Framed.restore_line, restore_line, try_except.
  destruct (startswith (strip line) "{") eqn:B; [| reflexivity].
  rewrite (H eq_refl documents s).
  destruct (e0 (strip line)) as [doc|e]; [reflexivity |].
  unfold raise. destruct (is_Exception e); reflexivity.
Qed.

Lemma restore_lines_computes lines : forall documents s,
  (forall line, In line lines ->
     startswith (strip line) "{" = true -> computes eval e0 (strip line)) ->
  for_fold lines documents (Framed.restore_line eval) s
  = for_fold lines documents (restore_line e0) s.
Proof.
  induction lines as [|line lines IH]; intros documents s H; [reflexivity |].
  simpl. unfold bind. rewrite restore_line_computes by (apply H; simpl; auto).
  destruct (restore_line e0 documents line s) as [[d|e] s1]; [| reflexivity].
  apply IH. intros l Hl. apply H. simpl; auto.
Qed.

Lemma restore_collection_computes c db path file s :
  (forall line, In line (file_lines (files s) (join path file)) ->
     startswith (strip line) "{" = true -> computes eval e0 (strip line)) ->
  Framed.restore_collection eval c db path file s
  = restore_collection e0 c db path file s.
Proof.
  intros H. unfold Framed.restore_collection, restore_collection. cbv zeta.
  apply bind_cong. intros [] s1 H1.
  assert (F1 : files s1 = files s).
  { unfold logging_info, modify in H1. inversion H1; subst. reflexivity. }
  apply bind_cong. intros [] s2 H2.
  assert (F2 : files s2 = files s1).
  { revert H2. unfold collection_delete_many. intros H2.
    apply bind_inv in H2. destruct H2 as [(e & _ & X) | ([] & sa & Ha & Hb)];
      [discriminate |].
    apply steady_driver_call in Ha. destruct Ha as (Fa & _).
    unfold modify in Hb. inversion Hb; subst. exact Fa. }
  apply bind_cong. intros lines s3 H3.
  destruct (open_read_value _ _ _ _ H3) as (text & R & ->).
  apply bind_cong_l.
  apply restore_lines_computes. intros line Hl. apply H.
  unfold file_lines. rewrite <- F1, <- F2, R. exact Hl.
Qed.

Lemma restore_database_computes sp db s :
  (forall file line,
     In file (collection_files (files s) (join sp db)) ->
     In line (file_lines (files s) (join (join sp db) file)) ->
     startswith (strip line) "{" = true -> computes eval e0 (strip line)) ->
  Framed.restore_database eval sp db s = restore_database e0 sp db s.
Proof.
  intros H. unfold Framed.restore_database, restore_database. cbv zeta.
  apply bind_cong. intros [] s1 H1.
  assert (F1 : files s1 = files s).
  { unfold logging_info, modify in H1. inversion H1; subst. reflexivity. }
  apply bind_cong. intros c s2 H2.
  apply self_client_value in H2. subst s2.
  apply bind_cong. intros names s3 H3.
  pose proof (os_listdir_value _ _ _ _ H3) as L.
  apply steady_listdir in H3. destruct H3 as (F3 & _).
  unfold same_files in F3.
  apply bind_cong. intros fs' s4 H4.
  rewrite collection_files_are_json in H4. inversion H4; subst fs' s4.
  assert (Cf : collection_files (files s) (join sp db)
               = filter (fun n => endswith n ".json") names).
  { unfold collection_files. rewrite <- F1, L. reflexivity. }
  apply (for_each_cong (fun st => files st = files s)).
  - intros file st Hf Fs. apply restore_collection_computes.
    intros line Hl. rewrite Fs in Hl. apply (H file line); auto.
    rewrite Cf. exact Hf.
  - intros file st r st' _ Fs Hr.
    apply same_files_restore_collection in Hr. unfold same_files in Hr.
    congruence.
  - congruence.
Qed.

Lemma in_evaluated_texts f sp db file line :
  In db (database_dirs f sp) ->
  In file (collection_files f (join sp db)) ->
  In line (file_lines f (join (join sp db) file)) ->
  startswith (strip line) "{" = true ->
  In (strip line) (evaluated_texts f sp).
Proof.
  intros Hd Hf Hl B. unfold evaluated_texts.
  apply in_flat_map. exists db. split; [exact Hd |].
  apply in_flat_map. exists file. split; [exact Hf |].
  apply filter_In. split; [| exact B]. apply in_map. exact Hl.
Qed.

(** The whole operation, on a snapshot where the evaluator only computes. *)
Lemma restore_snapshot_computes name s :
  (forall text,
     In text (evaluated_texts (files s) (join (backup_dir (self s)) name)) ->
     computes eval e0 text) ->
  Framed.restore_snapshot eval name s = restore_snapshot e0 name s.
Proof.
  intros H. unfold Framed.restore_snapshot, restore_snapshot.
  apply try_finally_cong. apply try_except_cong.
  apply bind_cong. intros s0 s1 H1.
  unfold get in H1. inversion H1; subst s0 s1. clear H1.
  apply bind_cong. intros [] sa Ha.
  assert (Qa : harmless s sa).
  { revert Ha. apply preserves_when; [typeclasses eauto |].
    apply harmless_connect. }
  destruct Qa as (_ & Fa & (Ca & _) & _). unfold same_files in Fa.
  apply bind_cong. intros s0 s1 H1.
  unfold get in H1. inversion H1; subst s0 s1. clear H1.
  rewrite Ca. set (sp := join (backup_dir (self s)) name) in *.
  apply bind_cong. intros ex sb Hb.
  unfold os_path_exists in Hb. inversion Hb; subst ex sb. clear Hb.
  destruct (negb (FS.exists_ (files sa) sp)); [reflexivity |].
  apply bind_cong. intros names sb Hb.
  pose proof (os_listdir_value _ _ _ _ Hb) as L.
  apply steady_listdir in Hb. destruct Hb as (Fb & _).
  unfold same_files in Fb.
  apply bind_cong. intros dbs sc Hc.
  rewrite databases_are_directories in Hc. inversion Hc; subst dbs sc.
  assert (Dd : database_dirs (files s) sp
               = filter (fun d => FS.isdir (files sb) (join sp d)) names).
  { unfold database_dirs. rewrite <- Fa, L, Fb. reflexivity. }
  apply bind_cong_l.
  apply (for_each_cong (fun st => files st = files s)).
  - intros db st Hd Fs. apply restore_database_computes.
    intros file line Hf Hl B. rewrite Fs in Hf, Hl. apply H.
    apply (in_evaluated_texts _ _ db file line); auto.
    rewrite Dd. exact Hd.
  - intros db st r st' _ Fs Hr.
    apply same_files_restore_database in Hr. unfold same_files in Hr.
    congruence.
  - congruence.
Qed.

End Agree.

(** An evaluator that looks at the text only, run in the frame. *)
Lemma restore_snapshot_only_text e0 name s :
  Framed.restore_snapshot (Framed.only_text e0) name s
  = restore_snapshot e0 name s.
Proof.
  apply restore_snapshot_computes. intros text _ documents t. reflexivity.
Qed.

(** *** What a restore that returns has cleared *)







(** Nothing is asked of the server. *)
Definition silent : state -> state -> Prop := trace_grows (fun _ => False).

#[local] Instance silent_pre : PreOrder silent.
Proof. unfold silent. typeclasses eauto. Qed.










(** *** The evaluator of the model in its frame *)

Section ExprInduction.
Import PyEval.
Variable P : expr -> Prop.
Hypothesis HConst : forall v, P (EConst v).
Hypothesis HName : forall x, P (EName x).
Hypothesis HAttr : forall e a, P e -> P (EAttr e a).
Hypothesis HCall : forall f args, P f -> Forall P args -> P (ECall f args).
Hypothesis HList : forall es, Forall P es -> P (EList es).
Hypothesis HDict :
  forall kvs, Forall (fun kv => P (fst kv) /\ P (snd kv)) kvs -> P (EDict kvs).

Fixpoint expr_induction (e : expr) : P e :=
  match e with
  | EConst v => HConst v
  | EName x => HName x
  | EAttr e1 a => HAttr e1 a (expr_induction e1)
  | ECall f args =>
      HCall f args (expr_induction f)
        ((fix go (l : list expr) : Forall P l :=
            match l with
            | [] => Forall_nil P
            | x :: r => Forall_cons x (expr_induction x) (go r)
            end) args)
  | EList es =>
      HList es ((fix go (l : list expr) : Forall P l :=
                   match l with
                   | [] => Forall_nil P
                   | x :: r => Forall_cons x (expr_induction x) (go r)
                   end) es)
  | EDict kvs =>
      HDict kvs
        ((fix go (l : list (expr * expr))
            : Forall (fun kv => P (fst kv) /\ P (snd kv)) l :=
            match l with
            | [] => Forall_nil _
            | (k, x) :: r =>
                Forall_cons (k, x)
                  (conj (expr_induction k) (expr_induction x)) (go r)
            end) kvs)
  end.

End ExprInduction.

(** Where the model of literals speaks, the model in the frame says the
    same and leaves the documents alone. *)
Lemma eval_in_frame_literal e :
  forall o documents,
    PyEval.eval_expr e = Some o ->
    Framed.eval_in_frame e documents = Some (o, documents).
Proof.
  induction e as [v | x | e1 a IH | f args IHf IHa | es IH | kvs IH]
    using expr_induction; intros o documents H.
  - cbn in *. inversion H. reflexivity.
  - cbn [Framed.eval_in_frame]. rewrite H. reflexivity.
  - cbn [Framed.eval_in_frame]. rewrite H. reflexivity.
  - destruct args as [|a0 args].
    + cbn [Framed.eval_in_frame].
      destruct (Framed.is_documents_clear f) eqn:C.
      * exfalso. destruct f as [| | [| y | | | |] a | | |]; try discriminate.
        cbn [Framed.is_documents_clear] in C.
        apply andb_true_iff in C. destruct C as [Cx Ca].
        apply String.eqb_eq in Cx, Ca. subst y a.
        vm_compute in H. discriminate.
      * rewrite H. reflexivity.
    + cbn [Framed.eval_in_frame]. rewrite H. reflexivity.
  - cbn [Framed.eval_in_frame PyEval.eval_expr] in *.
    match type of H with
    | context [match ?g es with _ => _ end] => set (pure_list := g) in *
    end.
    match goal with
    | |- context [match ?g es documents with _ => _ end] =>
        set (frame_list := g)
    end.
    assert (G : forall ol, pure_list es = Some ol ->
                frame_list es documents = Some (ol, documents)).
    { clear H o. induction IH as [|e1 r H1 _ IHr]; intros ol Hl.
      - cbn in *. inversion Hl. reflexivity.
      - cbn [pure_list] in Hl. cbn [frame_list].
        destruct (PyEval.eval_expr e1) as [[v|ex]|] eqn:E1; try discriminate.
        + rewrite (H1 _ documents eq_refl).
          destruct (pure_list r) as [[vs|ex]|] eqn:Er; try discriminate.
          * rewrite (IHr _ eq_refl). inversion Hl. reflexivity.
          * rewrite (IHr _ eq_refl). inversion Hl. reflexivity.
        + rewrite (H1 _ documents eq_refl). inversion Hl. reflexivity. }
    destruct (pure_list es) as [[vs|ex]|] eqn:El; try discriminate;
      rewrite (G _ eq_refl); inversion H; reflexivity.
  - cbn [Framed.eval_in_frame PyEval.eval_expr] in *.
    match type of H with
    | context [match ?g kvs with _ => _ end] => set (pure_pairs := g) in *
    end.
    match goal with
    | |- context [match ?g kvs documents with _ => _ end] =>
        set (frame_pairs := g)
    end.
    assert (G : forall ol, pure_pairs kvs = Some ol ->
                frame_pairs kvs documents = Some (ol, documents)).
    { clear H o. induction IH as [|[ke xe] r [Hk Hx] _ IHr]; intros ol Hl.
      - cbn in *. inversion Hl. reflexivity.
      - cbn [pure_pairs] in Hl. cbn [frame_pairs]. cbn [fst snd] in Hk, Hx.
        destruct (PyEval.eval_expr ke) as [[k|ex]|] eqn:Ek; try discriminate.
        + rewrite (Hk _ documents eq_refl).
          destruct (PyEval.eval_expr xe) as [[x|ex]|] eqn:Ex;
            try discriminate.
          * rewrite (Hx _ documents eq_refl).
            destruct (pure_pairs r) as [[ps|ex]|] eqn:Er; try discriminate.
            -- rewrite (IHr _ eq_refl). inversion Hl. reflexivity.
            -- rewrite (IHr _ eq_refl). inversion Hl. reflexivity.
          * rewrite (Hx _ documents eq_refl). inversion Hl. reflexivity.
        + rewrite (Hk _ documents eq_refl). inversion Hl. reflexivity. }
    destruct (pure_pairs kvs) as [[ps|ex]|] eqn:El; try discriminate;
      rewrite (G _ eq_refl).
    + rewrite H. reflexivity.
    + inversion H. reflexivity.
Qed.

Lemma py_eval_in_frame_literal text o documents :
  PyEval.py_eval text = Some o ->
  Framed.py_eval_in_frame text documents = Some (o, documents).
Proof.
  unfold PyEval.py_eval, Framed.py_eval_in_frame.
  destruct (PyEval.tokenize text) as [[ts|ex]|]; try discriminate.
  - destruct (PyEval.parse ts) as [[e|ex]|]; try discriminate.
    + apply eval_in_frame_literal.
    + intros H. inversion H. reflexivity.
  - intros H. inversion H. reflexivity.
Qed.

(** The model in its frame reads literals as the model of literals says,
    although [documents.clear()] has an effect in it. *)
Lemma frame_eval_reads_literal text : reads_literal Framed.frame_eval text.
Proof.
  intros o H _ documents s. unfold Framed.frame_eval.
  rewrite (py_eval_in_frame_literal _ _ _ H). reflexivity.
Qed.

Lemma frame_eval_computes text :
  PyEval.py_eval text <> None ->
  computes Framed.frame_eval PyEval.py_eval_total text.
Proof.
  intros H documents s. unfold Framed.frame_eval, PyEval.py_eval_total.
  destruct (PyEval.py_eval text) as [o|] eqn:E; [| contradiction].
  rewrite (py_eval_in_frame_literal _ _ _ E). reflexivity.
Qed.

(** *** The evaluator of the model on the files of the examples *)

Ltac each_text H :=
  vm_compute in H;
  repeat (destruct H as [H | H];
          [subst; intros ? ?; vm_compute; reflexivity |]);
  destruct H.

Lemma restore_state_only_computes t :
  In t (evaluated_texts (files Demo.restore_state)
                        (join "backups" "20240102_020000")) ->
  computes Framed.frame_eval PyEval.py_eval_total t.
Proof. intros H. each_text H. Qed.


End FramedFacts.

(** ** Documents and their lines *)

Module DocFacts.
Import PyStr PyVal Exn FS DocumentSpec StrFacts.

(** Induction on values, through the lists they hold. *)
Section Induction.
Variable P : pyval -> Prop.
Hypothesis HNone : P PNone.
Hypothesis HBool : forall b, P (PBool b).
Hypothesis HInt : forall z, P (PInt z).
Hypothesis HStr : forall s, P (PStr s).
Hypothesis HList : forall xs, Forall P xs -> P (PList xs).
Hypothesis HDict :
  forall items, Forall (fun kv => P (fst kv) /\ P (snd kv)) items ->
                P (PDict items).
Hypothesis HObjectId : forall oid, P (PObjectId oid).
Hypothesis HDatetime : forall dt, P (PDatetime dt).

Fixpoint pyval_induction (v : pyval) : P v :=
  match v with
  | PNone => HNone
  | PBool b => HBool b
  | PInt z => HInt z
  | PStr s => HStr s
  | PList xs =>
      HList xs ((fix go (l : list pyval) : Forall P l :=
                   match l with
                   | [] => Forall_nil P
                   | x :: r => Forall_cons x (pyval_induction x) (go r)
                   end) xs)
  | PDict items =>
      HDict items
        ((fix go (l : list (pyval * pyval))
            : Forall (fun kv => P (fst kv) /\ P (snd kv)) l :=
            match l with
            | [] => Forall_nil _
            | (k, x) :: r =>
                Forall_cons (k, x)
                  (conj (pyval_induction k) (pyval_induction x)) (go r)
            end) items)
  | PObjectId oid => HObjectId oid
  | PDatetime dt => HDatetime dt
  end.

End Induction.

(** Every character, for properties checked on each of the 256. *)
Definition every_ascii : list ascii := map ascii_of_nat (seq 0 256).

Lemma every_ascii_all (p : ascii -> bool) :
  forallb p every_ascii = true -> forall c, p c = true.
Proof.
  intros H c. rewrite forallb_forall in H. apply H.
  unfold every_ascii. rewrite <- (ascii_nat_embedding c).
  apply in_map. apply in_seq. pose proof (nat_ascii_bounded c). lia.
Qed.

Lemma every_ascii_none (p : ascii -> bool) :
  forallb (fun c => negb (p c)) every_ascii = true -> forall c, p c = false.
Proof.
  intros H c. apply negb_true_iff.
  apply (every_ascii_all (fun c => negb (p c)) H).
Qed.

(** *** Line breaks *)

Lemma has_line_break_app a b :
  has_line_break (a +++ b) = has_line_break a || has_line_break b.
Proof.
  induction a as [|c a IH]; simpl; auto.
  rewrite IH. rewrite !orb_assoc. reflexivity.
Qed.

Lemma has_line_break_join sep xs :
  has_line_break sep = false ->
  Forall (fun x => has_line_break x = false) xs ->
  has_line_break (PyVal.join sep xs) = false.
Proof.
  intros Hs H. induction H as [|x xs Hx H IH]; simpl; auto.
  destruct xs as [|y ys]; auto.
  rewrite !has_line_break_app, Hx, Hs, IH. reflexivity.
Qed.

Lemma has_line_break_digits d :
  has_line_break (NilEmpty.string_of_uint d) = false.
Proof. induction d; simpl; auto. Qed.

Lemma has_line_break_uint d :
  has_line_break (NilZero.string_of_uint d) = false.
Proof.
  unfold NilZero.string_of_uint. destruct d; try reflexivity;
    apply has_line_break_digits.
Qed.

Lemma has_line_break_str_of_nat n : has_line_break (str_of_nat n) = false.
Proof. apply has_line_break_uint. Qed.

Lemma has_line_break_str_of_Z z : has_line_break (str_of_Z z) = false.
Proof.
  unfold str_of_Z. destruct (Z.to_int z); simpl; apply has_line_break_uint.
Qed.

Lemma has_line_break_repr_char q c :
  q = squote \/ q = dquote -> has_line_break (repr_char q c) = false.
Proof.
  intros [-> | ->]; revert c;
    [apply (every_ascii_none (fun c => has_line_break (repr_char squote c)))
    |apply (every_ascii_none (fun c => has_line_break (repr_char dquote c)))];
    vm_compute; reflexivity.
Qed.

Lemma has_line_break_repr_body q s :
  q = squote \/ q = dquote -> has_line_break (repr_body q s) = false.
Proof.
  intros Hq. induction s as [|c s IH]; simpl; auto.
  rewrite has_line_break_app, has_line_break_repr_char, IH; auto.
Qed.

Lemma repr_quote_cases s : repr_quote s = squote \/ repr_quote s = dquote.
Proof. unfold repr_quote. destruct (_ && _); auto. Qed.

Lemma has_line_break_repr_str s : has_line_break (repr_str s) = false.
Proof.
  unfold repr_str. destruct (repr_quote_cases s) as [E | E]; rewrite E;
    cbn [has_line_break]; rewrite has_line_break_app,
      has_line_break_repr_body by auto; reflexivity.
Qed.

Lemma has_line_break_hex oid :
  all_chars is_hex_digit oid = true -> has_line_break oid = false.
Proof.
  induction oid as [|c oid IH]; simpl; auto.
  intros H. apply andb_prop in H. destruct H as [Hc H].
  rewrite IH by exact H. rewrite orb_false_r.
  revert Hc. generalize c.
  assert (G : forall c0, (negb (is_hex_digit c0)
                          || negb (Ascii.eqb c0 LF || Ascii.eqb c0 CR)) = true).
  { apply every_ascii_all. vm_compute. reflexivity. }
  intros c0 Hc. specialize (G c0). rewrite Hc in G. simpl in G.
  destruct (Ascii.eqb c0 LF || Ascii.eqb c0 CR); auto; discriminate.
Qed.

Lemma has_line_break_repr_datetime dt :
  has_line_break (repr_datetime dt) = false.
Proof.
  unfold repr_datetime. rewrite !has_line_break_app.
  rewrite has_line_break_join; [reflexivity | reflexivity |].
  apply Forall_map. apply Forall_forall. intros n _.
  apply has_line_break_str_of_nat.
Qed.

(** [str] of a value never holds a line break: text is shown with its line
    breaks escaped. *)
Lemma has_line_break_repr v :
  is_value v = true -> has_line_break (repr v) = false.
Proof.
  induction v as [| b | z | s | xs IH | items IH | oid | dt]
    using pyval_induction; intros W.
  - reflexivity.
  - destruct b; reflexivity.
  - apply has_line_break_str_of_Z.
  - apply has_line_break_repr_str.
  - cbn [repr]. rewrite !has_line_break_app.
    rewrite has_line_break_join; [reflexivity | reflexivity |].
    apply Forall_map. cbn [is_value] in W. rewrite forallb_forall in W.
    rewrite Forall_forall in *. intros x Hx. apply IH; auto.
  - cbn [repr]. rewrite !has_line_break_app.
    rewrite has_line_break_join; [reflexivity | reflexivity |].
    apply Forall_map. cbn [is_value] in W. apply andb_prop in W.
    destruct W as [W _]. rewrite forallb_forall in W.
    rewrite Forall_forall in *. intros [k x] Hx.
    specialize (IH _ Hx). specialize (W _ Hx). cbn in IH, W.
    apply andb_prop in W. destruct W as [Wk Wx]. destruct IH as [IHk IHx].
    rewrite !has_line_break_app, IHx by exact Wx.
    destruct k; try discriminate. rewrite IHk by reflexivity. reflexivity.
  - cbn [repr is_value] in *. unfold is_object_id in W.
    apply andb_prop in W. destruct W as [_ W].
    rewrite !has_line_break_app, (has_line_break_hex _ W). reflexivity.
  - apply has_line_break_repr_datetime.
Qed.

(** *** The lines of a Collection File *)

Lemma has_line_break_cons c r :
  has_line_break (String c r) = false ->
  Ascii.eqb c LF = false /\ Ascii.eqb c CR = false
  /\ has_line_break r = false.
Proof.
  simpl. intros H. apply orb_false_elim in H. destruct H as [H Hr].
  apply orb_false_elim in H. tauto.
Qed.

Lemma universal_newlines_line x rest :
  has_line_break x = false ->
  universal_newlines (x +++ String LF rest)
  = x +++ String LF (universal_newlines rest).
Proof.
  induction x as [|c x IH]; intros H.
  - reflexivity.
  - apply has_line_break_cons in H. destruct H as (_ & Hc & Hx).
    cbn [String.append universal_newlines]. rewrite Hc, IH by exact Hx.
    reflexivity.
Qed.

Lemma lines_from_line x : forall cur rest,
  has_line_break x = false ->
  lines_from cur (x +++ String LF rest)
  = (cur +++ x +++ String LF "") :: lines_from "" rest.
Proof.
  induction x as [|c x IH]; intros cur rest H.
  - reflexivity.
  - apply has_line_break_cons in H. destruct H as (Hc & _ & Hx).
    cbn [String.append lines_from]. rewrite Hc, IH by exact Hx.
    rewrite append_assoc. reflexivity.
Qed.

Lemma lines_of_universal docs :
  Forall (fun d => has_line_break (str d) = false) docs ->
  universal_newlines (lines_of docs) = lines_of docs.
Proof.
  induction 1 as [|d docs Hd H IH]; [reflexivity |].
  cbn [lines_of fold_right]. unfold line_of at 1 3.
  rewrite !append_assoc. cbn [String.append].
  rewrite universal_newlines_line by exact Hd.
  fold (lines_of docs). rewrite IH. reflexivity.
Qed.

(** Reading the file written for a list of documents yields one line for
    each document, the line that was written for it. *)
Lemma readlines_lines_of docs :
  Forall (fun d => has_line_break (str d) = false) docs ->
  readlines (lines_of docs) = map line_of docs.
Proof.
  intros H. unfold readlines. rewrite lines_of_universal by exact H.
  induction H as [|d docs Hd H IH]; [reflexivity |].
  cbn [lines_of fold_right map]. unfold line_of at 1.
  rewrite append_assoc. cbn [String.append].
  rewrite lines_from_line by exact Hd. fold (lines_of docs). rewrite IH.
  reflexivity.
Qed.

(** *** The line of a document passes the test of line 150 *)

Lemma rstrip_app a b : rstrip b <> "" -> rstrip (a +++ b) = a +++ rstrip b.
Proof.
  intros Hb. induction a as [|c a IH]; [reflexivity |].
  cbn [String.append rstrip]. rewrite IH.
  destruct (a +++ rstrip b) eqn:E; [| reflexivity].
  destruct a; [cbn in E; contradiction | discriminate].
Qed.

Lemma strip_line_of_dict items :
  strip (line_of (PDict items)) = str (PDict items).
Proof.
  unfold line_of, str, strip. cbn [repr].
  set (body := PyVal.join ", " _).
  change ("{" +++ body +++ "}") with (String "{" (body +++ "}")).
  cbn [String.append lstrip].
  change (isspace "{") with false. cbv iota.
  change (String "{" ((body +++ "}") +++ String LF ""))
    with ("{" +++ ((body +++ "}") +++ String LF "")).
  rewrite (append_assoc body). rewrite <- (append_assoc "{").
  rewrite rstrip_app.
  - rewrite append_assoc. reflexivity.
  - vm_compute. discriminate.
Qed.

Lemma startswith_dict items : startswith (str (PDict items)) "{" = true.
Proof.
  unfold str. cbn [repr]. set (body := PyVal.join ", " _).
  change ("{" +++ body +++ "}") with (String "{" (body +++ "}")).
  unfold startswith. cbn [String.prefix].
  destruct (ascii_dec "{" "{"); [| contradiction].
  destruct (body +++ "}"); reflexivity.
Qed.

End DocFacts.

(** ** Snapshot names *)

Module StampFacts.
Import PyStr PyVal FS MongoDBSnapshot StoreSpec StampSpec StrFacts.

Lemma compare_app a1 : forall a2 b1 b2,
  String.length a1 = String.length a2 ->
  String.compare (a1 +++ b1) (a2 +++ b2)
  = match String.compare a1 a2 with
    | Eq => String.compare b1 b2
    | c => c
    end.
Proof.
  induction a1 as [|c1 a1 IH]; intros [|c2 a2] b1 b2 L; try discriminate.
  - reflexivity.
  - cbn [String.append String.compare]. injection L as L.
    destruct (Ascii.compare c1 c2); auto.
Qed.

Lemma has_slash_app a b : has_slash (a +++ b) = has_slash a || has_slash b.
Proof.
  induction a as [|c a IH]; simpl; auto. rewrite IH, orb_assoc. reflexivity.
Qed.

(** The two-digit fields, checked on each of the hundred values. *)
Definition two_digits_ok (n : nat) : bool :=
  (String.length (zero_pad 2 n) =? 2) && negb (has_slash (zero_pad 2 n)).

Lemma two_digits n :
  n < 100 ->
  String.length (zero_pad 2 n) = 2 /\ has_slash (zero_pad 2 n) = false.
Proof.
  intros H.
  assert (G : forallb two_digits_ok (seq 0 100) = true)
    by (vm_compute; reflexivity).
  rewrite forallb_forall in G. specialize (G n).
  unfold two_digits_ok in G. rewrite andb_true_iff in G.
  destruct G as [G1 G2]; [apply in_seq; lia |].
  apply Nat.eqb_eq in G1. apply negb_true_iff in G2. auto.
Qed.

Definition comparison_eqb (a b : comparison) : bool :=
  match a, b with
  | Eq, Eq | Lt, Lt | Gt, Gt => true
  | _, _ => false
  end.

Lemma two_digits_compare a b :
  a < 100 -> b < 100 ->
  String.compare (zero_pad 2 a) (zero_pad 2 b) = Nat.compare a b.
Proof.
  intros Ha Hb.
  assert (G : forallb (fun x =>
                forallb (fun y =>
                  comparison_eqb
                    (String.compare (zero_pad 2 x) (zero_pad 2 y))
                    (Nat.compare x y)) (seq 0 100)) (seq 0 100) = true)
    by (vm_compute; reflexivity).
  rewrite forallb_forall in G. specialize (G a).
  rewrite forallb_forall in G. specialize (G ltac:(apply in_seq; lia) b).
  specialize (G ltac:(apply in_seq; lia)).
  destruct (String.compare _ _), (Nat.compare a b); auto; discriminate.
Qed.

(** A year of four digits is shown as its hundreds and its last two
    digits. *)
Lemma four_digits y :
  1000 <= y < 100 * 100 ->
  zero_pad 4 y = zero_pad 2 (y / 100) +++ zero_pad 2 (y mod 100).
Proof.
  intros H.
  assert (G : forallb (fun y =>
                String.eqb (zero_pad 4 y)
                  (zero_pad 2 (y / 100) +++ zero_pad 2 (y mod 100)))
                (seq 1000 (90 * 100)) = true)
    by (vm_compute; reflexivity).
  rewrite forallb_forall in G. apply String.eqb_eq. apply G.
  apply in_seq. lia.
Qed.

Lemma compare_hundreds a b :
  Nat.compare a b
  = match Nat.compare (a / 100) (b / 100) with
    | Eq => Nat.compare (a mod 100) (b mod 100)
    | c => c
    end.
Proof.
  pose proof (Nat.div_mod_eq a 100) as Ea.
  pose proof (Nat.div_mod_eq b 100) as Eb.
  pose proof (Nat.mod_upper_bound a 100 ltac:(lia)) as Ma.
  pose proof (Nat.mod_upper_bound b 100 ltac:(lia)) as Mb.
  destruct (Nat.compare_spec (a / 100) (b / 100)) as [E | L | L].
  - destruct (Nat.compare_spec (a mod 100) (b mod 100)) as [E2 | L2 | L2].
    + apply Nat.compare_eq_iff. lia.
    + apply Nat.compare_lt_iff. lia.
    + apply Nat.compare_gt_iff. lia.
  - apply Nat.compare_lt_iff. lia.
  - apply Nat.compare_gt_iff. lia.
Qed.

(** The seven blocks of two digits of a snapshot name. *)
Definition blocks (dt : datetime) : list nat :=
  [year dt / 100; year dt mod 100; month dt; day dt;
   hour dt; minute dt; second dt].

Lemma is_clock_time_bounds dt :
  is_clock_time dt = true ->
  1000 <= year dt < 100 * 100 /\ Forall (fun n => n < 100) (blocks dt).
Proof.
  unfold is_clock_time. rewrite !andb_true_iff.
  rewrite !Nat.leb_le, !Nat.ltb_lt. intros H.
  split; [lia |]. unfold blocks.
  pose proof (Nat.mod_upper_bound (year dt) 100 ltac:(lia)).
  assert (year dt / 100 < 100) by (apply Nat.Div0.div_lt_upper_bound; lia).
  repeat (apply Forall_cons; [lia |]). apply Forall_nil.
Qed.

Lemma strftime_blocks dt :
  is_clock_time dt = true ->
  strftime dt
  = zero_pad 2 (year dt / 100) +++ zero_pad 2 (year dt mod 100)
    +++ zero_pad 2 (month dt) +++ zero_pad 2 (day dt) +++ "_"
    +++ zero_pad 2 (hour dt) +++ zero_pad 2 (minute dt)
    +++ zero_pad 2 (second dt).
Proof.
  intros H. destruct (is_clock_time_bounds dt H) as [Hy _].
  unfold strftime. rewrite (four_digits _ Hy), append_assoc. reflexivity.
Qed.

Lemma blocks_bounds dt :
  is_clock_time dt = true ->
  year dt / 100 < 100 /\ year dt mod 100 < 100 /\ month dt < 100
  /\ day dt < 100 /\ hour dt < 100 /\ minute dt < 100 /\ second dt < 100.
Proof.
  intros H. destruct (is_clock_time_bounds dt H) as [_ F]. unfold blocks in F.
  repeat match goal with
         | F : Forall _ (_ :: _) |- _ => inversion F; subst; clear F
         end.
  tauto.
Qed.

(** Snapshot names compare as the times they show. *)
Lemma strftime_compare a b :
  is_clock_time a = true -> is_clock_time b = true ->
  String.compare (strftime a) (strftime b)
  = compare_fields (fields a) (fields b).
Proof.
  intros Ha Hb. rewrite (strftime_blocks a Ha), (strftime_blocks b Hb).
  destruct (blocks_bounds a Ha) as (A1 & A2 & A3 & A4 & A5 & A6 & A7).
  destruct (blocks_bounds b Hb) as (B1 & B2 & B3 & B4 & B5 & B6 & B7).
  assert (L : forall x y, x < 100 -> y < 100 ->
            String.length (zero_pad 2 x) = String.length (zero_pad 2 y)).
  { intros x y Hx Hy. destruct (two_digits x Hx) as [-> _].
    destruct (two_digits y Hy) as [-> _]. reflexivity. }
  rewrite !compare_app by (auto || reflexivity).
  rewrite !two_digits_compare by assumption.
  change (String.compare "_" "_") with Eq. cbv iota.
  unfold fields. cbn [compare_fields].
  rewrite (compare_hundreds (year a) (year b)).
  destruct (Nat.compare (year a / 100) (year b / 100)); try reflexivity.
  destruct (Nat.compare (year a mod 100) (year b mod 100)); try reflexivity.
  destruct (Nat.compare (month a) (month b)); try reflexivity.
  destruct (Nat.compare (day a) (day b)); try reflexivity.
  destruct (Nat.compare (hour a) (hour b)); try reflexivity.
  destruct (Nat.compare (minute a) (minute b)); try reflexivity.
  destruct (Nat.compare (second a) (second b)); reflexivity.
Qed.

Lemma strftime_length dt :
  is_clock_time dt = true -> String.length (strftime dt) = 15.
Proof.
  intros H. rewrite (strftime_blocks dt H).
  destruct (blocks_bounds dt H) as (A1 & A2 & A3 & A4 & A5 & A6 & A7).
  rewrite !length_append.
  repeat match goal with
         | |- context [String.length (zero_pad 2 ?n)] =>
             let E := fresh in
             destruct (two_digits n ltac:(assumption)) as [E _]; rewrite E;
             clear E
         end.
  reflexivity.
Qed.

Lemma strftime_no_slash dt :
  is_clock_time dt = true -> has_slash (strftime dt) = false.
Proof.
  intros H. rewrite (strftime_blocks dt H).
  destruct (blocks_bounds dt H) as (A1 & A2 & A3 & A4 & A5 & A6 & A7).
  rewrite !has_slash_app.
  repeat match goal with
         | |- context [has_slash (zero_pad 2 ?n)] =>
             let E := fresh in
             destruct (two_digits n ltac:(assumption)) as [_ E]; rewrite E;
             clear E
         end.
  reflexivity.
Qed.

(** A snapshot name is a name a directory entry can bear. *)
Lemma strftime_component dt :
  is_clock_time dt = true -> is_component (strftime dt) = true.
Proof.
  intros H. pose proof (strftime_length dt H) as L.
  pose proof (strftime_no_slash dt H) as S.
  unfold is_component. rewrite S.
  destruct (strftime dt) as [|c1 [|c2 [|c3 r]]]; try discriminate.
  cbn. destruct (Ascii.eqb c1 "."); [| reflexivity].
  cbn. destruct (Ascii.eqb c2 "."); reflexivity.
Qed.

End StampFacts.

(** ** What a snapshot holds *)

Module ContentFacts.
Import PyStr PyVal Exn FS Mongo Run MongoDBSnapshot RunFacts Frames.
Import StoreSpec DocumentSpec FSFacts StrFacts CreateFacts.

Lemma lookup_nil_dir q : q <> [] -> lookup (Dir []) q = None.
Proof. destruct q; [congruence | reflexivity]. Qed.

(** A change at one position leaves alone every position that parts from
    it on the way. *)
Lemma lookup_update_diverge common : forall t a b r1 r2 new,
  a <> b ->
  lookup (update t (common ++ a :: r1) new) (common ++ b :: r2)
  = lookup t (common ++ b :: r2).
Proof.
  induction common as [|c cs IH]; intros t a b r1 r2 new Hab;
    destruct t as [s|es]; simpl; auto.
  - rewrite assoc_set_entry_other by exact Hab. reflexivity.
  - rewrite assoc_set_entry_same. destruct (assoc c es) as [n|].
    + apply IH; auto.
    + rewrite IH by auto. apply lookup_nil_dir. destruct cs; discriminate.
Qed.

Lemma lookup_parent_dir t pos c n :
  lookup t (pos ++ [c]) = Some n -> is_dir_at t pos = true.
Proof.
  rewrite lookup_child. unfold is_dir_at.
  destruct (lookup t pos) as [[s|es]|]; try discriminate. reflexivity.
Qed.

Lemma write_text_at f p s0 f' par c :
  write_text f p s0 = Ok f' ->
  resolve f p = Some (par ++ [c]) ->
  root f' = update (root f) (par ++ [c]) (File s0)
  /\ lookup (root f') (par ++ [c]) = Some (File s0).
Proof.
  unfold write_text. intros W R. rewrite R in W.
  assert (G : is_dir_at (root f) (removelast (par ++ [c])) = true ->
              Ok (with_root f (update (root f) (par ++ [c]) (File s0))) = Ok f' ->
              root f' = update (root f) (par ++ [c]) (File s0)
              /\ lookup (root f') (par ++ [c]) = Some (File s0)).
  { intros D H. inversion H; subst. cbn [root with_root]. split; auto.
    apply lookup_update_same. exact D. }
  destruct (lookup (root f) (par ++ [c])) as [[old|es]|];
    try discriminate;
    (destruct (par ++ [c]) eqn:E; [destruct par; discriminate |]);
    rewrite <- E in *;
    (destruct (is_dir_at (root f) (removelast (par ++ [c]))) eqn:D;
     [apply G; auto | discriminate]).
Qed.

Lemma append_text_at f p s0 f' par c old :
  append_text f p s0 = Ok f' ->
  resolve f p = Some (par ++ [c]) ->
  lookup (root f) (par ++ [c]) = Some (File old) ->
  root f' = update (root f) (par ++ [c]) (File (old +++ s0))
  /\ lookup (root f') (par ++ [c]) = Some (File (old +++ s0)).
Proof.
  unfold append_text. intros W R L. rewrite R, L in W.
  inversion W; subst. cbn [root with_root]. split; auto.
  apply lookup_update_same. rewrite removelast_last.
  eapply lookup_parent_dir; eauto.
Qed.

Lemma append_inj_l x : forall a b, a +++ x = b +++ x -> a = b.
Proof.
  intros a b H.
  assert (L : String.length a = String.length b).
  { apply (f_equal String.length) in H. rewrite !length_append in H. lia. }
  revert b H L. induction a as [|c a IH]; intros [|c' b] H L;
    try discriminate; auto.
  cbn [String.append] in H. injection H as -> H. injection L as L.
  f_equal. auto.
Qed.

Lemma lines_of_app xs ys : lines_of (xs ++ ys) = lines_of xs +++ lines_of ys.
Proof.
  induction xs as [|x xs IH]; [reflexivity |].
  change (lines_of ((x :: xs) ++ ys)) with (line_of x +++ lines_of (xs ++ ys)).
  change (lines_of (x :: xs)) with (line_of x +++ lines_of xs).
  rewrite IH, append_assoc. reflexivity.
Qed.

Lemma append_nil_r s : s +++ "" = s.
Proof. induction s as [|c s IH]; simpl; congruence. Qed.

Lemma lines_of_snoc xs x : lines_of (xs ++ [x]) = lines_of xs +++ line_of x.
Proof.
  rewrite lines_of_app.
  change (lines_of [x]) with (line_of x +++ ""). rewrite append_nil_r.
  reflexivity.
Qed.

Lemma collection_find_value c d coll s docs s' :
  collection_find c d coll s = (Ok docs, s') ->
  docs = find (server_ s) d coll.
Proof.
  unfold collection_find. intros H.
  apply bind_inv in H. destruct H as [(e & _ & H) | ([] & s1 & H1 & H)];
    [discriminate |].
  apply keeps_driver_call in H1. destruct H1 as (_ & V & _).
  unfold same_server in V. unfold bind, get, ret in H.
  inversion H; subst. rewrite V. reflexivity.
Qed.

Section Contents.
Variable P0 : list string.
Variable bp : string.
Variable v0 : server.
Variable t0 : datetime.
Variable dir0 : string.

(** Where the entry [n] of the directory of database [d] is. *)
Definition entry_of (d n : string) : list string := (P0 ++ [d]) ++ [n].

(** Where the Collection File of collection [c] of database [d] is. *)
Definition file_of (d c : string) : list string :=
  entry_of d (c +++ ".json").

(** The Collection Files of the collections in [done] hold the lines of
    their documents. *)
Definition contents (done : list (string * string)) (f : fs) : Prop :=
  forall d c, In (d, c) done ->
    lookup (root f) (file_of d c) = Some (File (lines_of (find v0 d c))).

(** The directories of the databases hold nothing but the Collection
    Files of the collections in [done]. *)
Definition only (done : list (string * string)) (f : fs) : Prop :=
  forall d n node, lookup (root f) (entry_of d n) = Some node ->
    exists c, In (d, c) done /\ n = c +++ ".json".

(** What the snapshot holds while it is written. *)
Definition holds (done : list (string * string)) (f : fs) : Prop :=
  contents done f /\ only done f.

Lemma holds_same l1 l2 f :
  (forall p, In p l1 <-> In p l2) -> holds l1 f -> holds l2 f.
Proof.
  intros I [C O]. split.
  - intros d c H. apply C. apply I. exact H.
  - intros d n node H. destruct (O d n node H) as (c & Hc & E).
    exists c. split; [apply I; exact Hc | exact E].
Qed.

Lemma other_entry t new d n d' n' :
  (d, n) <> (d', n') ->
  lookup (update t (entry_of d' n') new) (entry_of d n)
  = lookup t (entry_of d n).
Proof.
  intros N. unfold entry_of. destruct (string_dec d d') as [-> | Nd].
  - apply (lookup_update_diverge (P0 ++ [d']) t n' n [] []). congruence.
  - rewrite <- !app_assoc.
    apply (lookup_update_diverge P0 t d' d [n'] [n]). congruence.
Qed.

Lemma other_file t new d c d' c' :
  (d, c) <> (d', c') ->
  lookup (update t (file_of d' c') new) (file_of d c)
  = lookup t (file_of d c).
Proof.
  intros N. apply other_entry. intros E. apply N.
  injection E as -> E. apply append_inj_l in E. congruence.
Qed.

Lemma other_dir t new d n d' :
  d <> d' ->
  lookup (update t (P0 ++ [d']) new) (entry_of d n) = lookup t (entry_of d n).
Proof.
  intros N. unfold entry_of. rewrite <- !app_assoc.
  apply (lookup_update_diverge P0 t d' d [] [n]). congruence.
Qed.

Lemma new_dir_empty t d n :
  is_dir_at t P0 = true ->
  lookup (update t (P0 ++ [d]) (Dir [])) (entry_of d n) = None.
Proof.
  intros D. unfold entry_of. rewrite lookup_app.
  rewrite lookup_update_same by (rewrite removelast_last; exact D).
  reflexivity.
Qed.

Lemma resolve_file f created d cj :
  snapshot_dir P0 bp created f ->
  is_component d = true -> str_in d created = true ->
  is_component cj = true ->
  resolve f (join (join bp d) cj) = Some ((P0 ++ [d]) ++ [cj]).
Proof.
  intros S Hd Hin Hc. pose proof S as (R & K & E).
  destruct (kind_dir_lookup _ _ K) as (es & L).
  pose proof (resolve_join f bp d P0 es Hd R L) as R1.
  pose proof (E d) as Kd. rewrite Hin in Kd.
  destruct (kind_dir_lookup _ _ Kd) as (es1 & L1).
  exact (resolve_join f (join bp d) cj (P0 ++ [d]) es1 Hc R1 L1).
Qed.

Lemma pair_dec (p q : string * string) : {p = q} + {p <> q}.
Proof. decide equality; apply string_dec. Qed.

(** A change of the one entry [n0] of the directory of [d0] keeps the
    directories free of anything but Collection Files, when [n0] is one. *)
Lemma only_update done t new d0 c0 t' :
  t' = update t (file_of d0 c0) new ->
  (forall d n node, lookup t (entry_of d n) = Some node ->
     exists c, In (d, c) ((d0, c0) :: done) /\ n = c +++ ".json") ->
  forall d n node, lookup t' (entry_of d n) = Some node ->
    exists c, In (d, c) ((d0, c0) :: done) /\ n = c +++ ".json".
Proof.
  intros -> O d n node H.
  destruct (pair_dec (d, n) (d0, c0 +++ ".json")) as [E | N].
  - inversion E; subst. exists c0. split; [left; reflexivity | reflexivity].
  - unfold file_of in H. rewrite other_entry in H by exact N. eauto.
Qed.

(** One collection, lines 72-82: its file holds the lines of its
    documents, and the files written before are as they were. *)
Lemma export_collection_contents created done c d coll :
  is_component d = true -> str_in d created = true ->
  is_component (coll +++ ".json") = true ->
  hoare (fun st => writing P0 bp v0 t0 dir0 created st
                   /\ holds done (files st))
        (export_collection c d (join bp d) coll)
        (fun _ st => writing P0 bp v0 t0 dir0 created st
                     /\ holds ((d, coll) :: done) (files st))
        (fun _ _ => True).
Proof.
  intros Hd Hin Hc. apply hoare_of_ok. intros st [] st' [W [C O]] H.
  unfold export_collection in H.
  apply bind_inv in H. destruct H as [(e & _ & H) | (docs & s1 & H1 & H)];
    [discriminate |].
  pose proof (collection_find_value _ _ _ _ _ _ H1) as Hdocs.
  assert (V0 : server_ st = v0) by apply W. rewrite V0 in Hdocs.
  pose proof (keeps_collection_find _ _ _ _ _ _ H1) as K1.
  assert (W1 : writing P0 bp v0 t0 dir0 created s1)
    by (eapply writing_keeps; eauto).
  assert (F1 : files s1 = files st) by apply K1.
  apply bind_inv in H. destruct H as [(e & _ & H) | ([] & s2 & H2 & H)];
    [discriminate |].
  apply open_write_ok in H2. destruct H2 as (Wr & K2).
  pose proof (resolve_file (files s1) created d (coll +++ ".json")
                (proj1 W1) Hd Hin Hc) as R1.
  destruct (write_text_at _ _ _ _ _ _ Wr R1) as (U2 & L2).
  assert (W2 : writing P0 bp v0 t0 dir0 created s2).
  { eapply writing_files; [exact W1 | exact K2 |].
    apply (snapshot_dir_write P0 bp created (files s1) d (coll +++ ".json")
             "" (files s2)); auto. apply W1. }
  apply bind_inv in H. destruct H as [(e & _ & H) | ([] & s3 & H3 & H)];
    [discriminate |].
  set (I := fun (pre : list pyval) (sx : state) =>
              writing P0 bp v0 t0 dir0 created sx
              /\ lookup (root (files sx)) (file_of d coll)
                 = Some (File (lines_of pre))
              /\ (forall d2 c2, In (d2, c2) done -> (d2, c2) <> (d, coll) ->
                    lookup (root (files sx)) (file_of d2 c2)
                    = Some (File (lines_of (find v0 d2 c2))))
              /\ only ((d, coll) :: done) (files sx)).
  assert (T : hoare (I [])
                (for_each docs (fun document =>
                   file_write (join (join bp d) (coll +++ ".json"))
                              (str document +++ String LF "")))
                (fun _ => I docs) (fun _ _ => True)).
  { apply hoare_for_each_prefix. intros pre x post _. apply hoare_of_ok.
    intros sa [] sb (Wa & La & Oa & Na) Ha. apply file_write_ok in Ha.
    destruct Ha as (Ap & Ka).
    pose proof (resolve_file (files sa) created d (coll +++ ".json")
                  (proj1 Wa) Hd Hin Hc) as Ra.
    destruct (append_text_at _ _ _ _ _ _ _ Ap Ra La) as (Ub & Lb).
    split; [| split; [| split]].
    - eapply writing_files; [exact Wa | exact Ka |].
      eapply snapshot_dir_append; eauto. apply Wa.
    - unfold file_of, entry_of. rewrite Lb, lines_of_snoc. reflexivity.
    - intros d2 c2 Hin2 Hne. rewrite Ub.
      fold (entry_of d (coll +++ ".json")). fold (file_of d coll).
      rewrite other_file by exact Hne. auto.
    - intros d2 n node Hl.
      exact (only_update done _ _ d coll _ Ub Na d2 n node Hl). }
  assert (I2 : I [] s2).
  { split; [exact W2 |]. split; [exact L2 |]. split.
    - intros d2 c2 Hin2 Hne. rewrite U2.
      fold (entry_of d (coll +++ ".json")). fold (file_of d coll).
      rewrite other_file by exact Hne. rewrite F1. auto.
    - assert (O1 : forall d2 n node,
                 lookup (root (files s1)) (entry_of d2 n) = Some node ->
                 exists c2, In (d2, c2) ((d, coll) :: done)
                            /\ n = c2 +++ ".json").
      { intros d2 n node Hl. rewrite F1 in Hl.
        destruct (O d2 n node Hl) as (c2 & Hc2 & E).
        exists c2. split; [right; exact Hc2 | exact E]. }
      intros d2 n node Hl.
      exact (only_update done _ _ d coll _ U2 O1 d2 n node Hl). }
  pose proof (hoare_ok_elim _ _ _ _ _ _ _ T I2 H3) as (W3 & L3 & O3 & N3).
  pose proof (keeps_logging_info _ _ _ _ H) as K4.
  assert (F4 : files st' = files s3) by apply K4.
  split; [eapply writing_keeps; eauto |]. rewrite F4. split.
  - intros d2 c2 Hin2.
    destruct (pair_dec (d2, c2) (d, coll)) as [E | Hne].
    + inversion E; subst. exact L3.
    + destruct Hin2 as [E | Hin2]; [congruence |]. auto.
  - exact N3.
Qed.

(** The files a database brings to the snapshot: none for a system
    database, one for each collection otherwise. *)
Definition exported (d : string) : list (string * string) :=
  if str_in d system_databases then []
  else map (pair d) (list_collection_names v0 d).

(** One database, lines 59-82. *)
Lemma snapshot_database_contents done d :
  is_component d = true ->
  (forall c, In c (list_collection_names v0 d) ->
             is_component (c +++ ".json") = true) ->
  hoare (fun st => exists created,
                     writing P0 bp v0 t0 dir0 created st
                     /\ holds done (files st))
        (snapshot_database bp d)
        (fun _ st => exists created,
                       writing P0 bp v0 t0 dir0 created st
                       /\ holds (done ++ exported d) (files st))
        (fun _ _ => True).
Proof.
  intros Hd Hfit. apply hoare_of_ok.
  intros st [] st' (created & W & C) H. unfold snapshot_database in H.
  fold system_databases in H. unfold exported.
  destruct (str_in d system_databases) eqn:Sys; simpl in H.
  - inversion H; subst. exists created. rewrite app_nil_r. auto.
  - apply bind_inv in H. destruct H as [(e & _ & H) | ([] & s1 & H1 & H)];
      [discriminate |].
    pose proof (keeps_logging_info _ _ _ _ H1) as K1.
    assert (W1 : writing P0 bp v0 t0 dir0 created s1)
      by (eapply writing_keeps; eauto).
    assert (C1 : holds done (files s1)).
    { destruct K1 as (F1 & _). unfold same_files in F1. rewrite F1. exact C. }
    unfold bind at 1, os_path_exists at 1 in H.
    assert (Ex : FS.exists_ (files s1) (join bp d) = str_in d created).
    { apply (snapshot_dir_exists P0 bp); auto. apply W1. }
    rewrite Ex in H.
    assert (Step : exists s2 created',
               writing P0 bp v0 t0 dir0 created' s2
               /\ str_in d created' = true
               /\ holds done (files s2)
               /\ (c <- self_client ;;
                    collections <- db_list_collection_names c d ;;
                    for_each collections (export_collection c d (join bp d))) s2
                  = (Ok tt, st')).
    { destruct (str_in d created) eqn:In_d; simpl in H.
      - exists s1, created. auto.
      - apply bind_inv in H. destruct H as [(e & _ & H) | ([] & s2 & H2 & H)];
          [discriminate |].
        apply os_makedirs_ok in H2. destruct H2 as (Mk & K2).
        exists s2, (d :: created).
        pose proof (proj1 W1) as S1. pose proof S1 as (R & K & E).
        assert (S2 : snapshot_dir P0 bp (d :: created) (files s2)).
        { apply (snapshot_dir_makedirs P0 bp created (files s1) d (files s2)
                   S1 Hd); [exact Ex | exact Mk]. }
        split; [eapply writing_files; eauto |].
        split; [rewrite str_in_cons, String.eqb_refl; reflexivity |].
        split; [| exact H].
        pose proof (E d) as Kd. rewrite In_d in Kd.
        assert (Ln : lookup (root (files s1)) (P0 ++ [d]) = None).
        { unfold kind in Kd.
          destruct (lookup (root (files s1)) (P0 ++ [d])); [discriminate | auto]. }
        assert (Dp : is_dir_at (root (files s1)) P0 = true)
          by (apply is_dir_at_kind; exact K).
        pose proof (makedirs_join _ _ _ _ _ Hd R Dp Ln Mk) as ->.
        destruct C1 as [C1 O1]. cbn [root with_root]. split.
        + intros d2 c2 Hin2. unfold file_of. cbn [root with_root].
          rewrite other_dir; [apply C1; exact Hin2 |].
          intros ->. specialize (C1 _ _ Hin2). unfold file_of, entry_of in C1.
          apply lookup_parent_dir in C1. unfold is_dir_at in C1.
          rewrite Ln in C1. discriminate.
        + intros d2 n node Hl. cbn [root with_root] in Hl.
          destruct (string_dec d2 d) as [-> | Nd].
          * rewrite new_dir_empty in Hl by exact Dp. discriminate.
          * rewrite other_dir in Hl by exact Nd. eauto. }
    clear H. destruct Step as (s2 & created' & W2 & In2 & C2 & H).
    exists created'.
    apply bind_inv in H. destruct H as [(e & _ & H) | (c & s3 & H3 & H)];
      [discriminate |].
    apply RestoreFacts.self_client_value in H3. subst s3.
    apply bind_inv in H. destruct H as [(e & _ & H) | (colls & s4 & H4 & H)];
      [discriminate |].
    pose proof (db_list_collection_names_value _ _ _ _ _ H4) as ->.
    pose proof (keeps_list_collection_names _ _ _ _ _ H4) as K4.
    assert (W4 : writing P0 bp v0 t0 dir0 created' s4)
      by (eapply writing_keeps; eauto).
    assert (C4 : holds done (files s4)).
    { destruct K4 as (F4 & _). unfold same_files in F4. rewrite F4. exact C2. }
    assert (V2 : server_ s2 = v0) by apply W2.
    rewrite V2 in H.
    set (I := fun (pre : list string) (sx : state) =>
                writing P0 bp v0 t0 dir0 created' sx
                /\ holds (done ++ map (pair d) pre) (files sx)).
    assert (T : hoare (I [])
                  (for_each (list_collection_names v0 d)
                            (export_collection c d (join bp d)))
                  (fun _ => I (list_collection_names v0 d))
                  (fun _ _ => True)).
    { apply hoare_for_each_prefix. intros pre x post Hx.
      eapply hoare_weaken.
      - apply (export_collection_contents created'
                 (done ++ map (pair d) pre) c d x Hd In2).
        apply Hfit. rewrite Hx. apply in_or_app. simpl. auto.
      - intros sx Ix. exact Ix.
      - intros [] sx (Wx & Cx). split; [exact Wx |].
        eapply holds_same; [| exact Cx].
        intros p. rewrite map_app. cbn [map In].
        rewrite !in_app_iff. cbn [In]. tauto.
      - auto. }
    assert (I4 : I [] s4).
    { split; [exact W4 |]. cbn [map]. rewrite app_nil_r. exact C4. }
    exact (hoare_ok_elim _ _ _ _ _ _ _ T I4 H).
Qed.

(** The loop over the databases, lines 59-82. *)
Lemma snapshot_databases_contents dbs :
  Forall (fun d => is_component d = true) dbs ->
  (forall d c, In c (list_collection_names v0 d) ->
               is_component (c +++ ".json") = true) ->
  hoare (fun st => writing P0 bp v0 t0 dir0 [] st)
        (for_each dbs (snapshot_database bp))
        (fun _ st => exists created,
                       writing P0 bp v0 t0 dir0 created st
                       /\ holds (flat_map exported dbs) (files st))
        (fun _ _ => True).
Proof.
  intros Hc Hfit.
  eapply hoare_weaken.
  - apply (hoare_for_each_prefix dbs (snapshot_database bp)
             (fun seen st => exists created,
                               writing P0 bp v0 t0 dir0 created st
                               /\ holds (flat_map exported seen) (files st))
             (fun _ _ => True)).
    intros pre x post Hx. eapply hoare_weaken.
    + apply (snapshot_database_contents (flat_map exported pre) x).
      * rewrite Forall_forall in Hc. apply Hc. rewrite Hx.
        apply in_or_app. simpl. auto.
      * intros c. apply Hfit.
    + auto.
    + intros [] sx (created & Wx & Cx). exists created. split; [exact Wx |].
      rewrite flat_map_app. cbn [flat_map]. rewrite app_nil_r. exact Cx.
    + auto.
  - intros st W. exists []. split; [exact W |]. split.
    + intros d c [].
    + intros d n node Hl. exfalso.
      destruct W as ((_ & _ & E) & _). specialize (E d). cbn in E.
      unfold entry_of in Hl. apply lookup_parent_dir in Hl.
      apply is_dir_at_kind in Hl. congruence.
  - auto.
  - auto.
Qed.

End Contents.

(** The whole operation on a run that returns, the directory of the
    snapshot being new: the snapshot directory with its subdirectories and
    what they hold. *)
Lemma create_snapshot_holds s s' :
  create_snapshot s = (Ok tt, s') ->
  FS.exists_ (files s) (join (backup_dir (self s)) (strftime (now s))) = false ->
  names_fit_files (server_ s) ->
  exists P0 created,
    snapshot_dir P0 (join (backup_dir (self s)) (strftime (now s))) created
                 (files s')
    /\ holds P0 (server_ s)
             (flat_map (exported (server_ s))
                       (list_database_names (server_ s)))
             (files s').
Proof.
  intros H Hfresh (Fit1 & Fit2).
  unfold create_snapshot, try_finally, try_except in H.
  match type of H with context [bind get ?k] => set (body := bind get k) in H end.
  destruct (body s) as [r1 s1] eqn:B.
  destruct r1 as [[]|e].
  2:{ destruct (is_Exception e).
      - destruct (RestoreFacts.log_and_raise_returns
                    ("Error creating snapshot: " +++ str_exn e) e s1) as (s2 & L).
        rewrite L in H. destruct (RestoreFacts.release_returns s2) as (sf & Rl).
        rewrite Rl in H. discriminate.
      - destruct (RestoreFacts.release_returns s1) as (sf & Rl). rewrite Rl in H.
        discriminate. }
  destruct (release s1) as [r2 s2] eqn:Rl.
  pose proof (keeps_release _ _ _ Rl) as (RF & _).
  unfold same_files in RF.
  assert (s2 = s') by (destruct r2; inversion H; auto). subst s2.
  clear H Rl. rewrite RF. clear RF.
  subst body. unfold bind at 1, get at 1 in B.
  apply bind_inv in B. destruct B as [(e & _ & B) | ([] & sa & Ba & B)];
    [discriminate |].
  assert (Ka : keeps s sa).
  { revert Ba. apply preserves_when; [typeclasses eauto |]. apply keeps_connect. }
  apply bind_inv in B. destruct B as [(e & _ & B) | (cl & sb & Bb & B)];
    [discriminate |].
  apply RestoreFacts.self_client_value in Bb. subst sb.
  apply bind_inv in B. destruct B as [(e & _ & B) | (dbs & sc & Bc & B)];
    [discriminate |].
  pose proof (client_list_database_names_value _ _ _ _ Bc) as ->.
  assert (Kc : keeps s sc).
  { etransitivity; [exact Ka |]. eapply keeps_list_database_names; eauto. }
  destruct Ka as (_ & Va & _). unfold same_server in Va. rewrite Va in *.
  destruct Kc as (Fc & Vc & Nc & (Cc & _)).
  unfold same_files, same_server, same_now in Fc, Vc, Nc.
  unfold bind at 1, get at 1 in B. rewrite Nc, Cc in B.
  set (bp := join (backup_dir (self s)) (strftime (now s))) in *.
  unfold bind at 1, os_path_exists at 1 in B. rewrite Fc, Hfresh in B.
  simpl negb in B. cbv iota in B. unfold when at 1 in B.
  apply bind_inv in B. destruct B as [(e & _ & B) | ([] & sd & Bd & B)];
    [discriminate |].
  apply os_makedirs_ok in Bd. destruct Bd as (Mk & Kd).
  destruct (snapshot_dir_fresh _ _ _ Mk) as (P0 & S0).
  assert (W0 : writing P0 bp (server_ s) (now s) (backup_dir (self s)) [] sd).
  { destruct Kd as (Vd & Nd & (Cd & _)). unfold same_server, same_now in *.
    split; [exact S0 |]. repeat split; congruence. }
  apply bind_inv in B. destruct B as [(e & _ & B) | ([] & se & Be & B)];
    [discriminate |].
  pose proof (snapshot_databases_contents P0 bp (server_ s) (now s)
                (backup_dir (self s)) (list_database_names (server_ s))
                Fit1 Fit2) as T.
  pose proof (hoare_ok_elim _ _ _ _ _ _ _ T W0 Be) as (created & We & Ce).
  apply keeps_logging_info in B. destruct B as (Ff & _).
  unfold same_files in Ff. rewrite Ff.
  exists P0, created. split; [apply We | exact Ce].
Qed.

(** A subdirectory of the snapshot that holds a file was made. *)
Lemma holder_created P0 bp created f d n node :
  snapshot_dir P0 bp created f ->
  lookup (root f) (entry_of P0 d n) = Some node ->
  str_in d created = true.
Proof.
  intros (_ & _ & E) L. specialize (E d).
  unfold entry_of in L. apply lookup_parent_dir in L.
  apply is_dir_at_kind in L. rewrite L in E.
  destruct (str_in d created); [reflexivity | discriminate].
Qed.

(** The file of every collection of every database that is not a system
    database holds the lines of its documents. *)
Lemma create_snapshot_contents s s' d c :
  create_snapshot s = (Ok tt, s') ->
  FS.exists_ (files s) (join (backup_dir (self s)) (strftime (now s))) = false ->
  names_fit_files (server_ s) ->
  In d (list_database_names (server_ s)) ->
  str_in d system_databases = false ->
  In c (list_collection_names (server_ s) d) ->
  FS.read_text (files s')
    (join (join (join (backup_dir (self s)) (strftime (now s))) d)
          (c +++ ".json"))
  = Ok (lines_of (find (server_ s) d c)).
Proof.
  intros H Hfresh Fit Hd Hsys Hcoll.
  destruct (create_snapshot_holds s s' H Hfresh Fit)
    as (P0 & created & Se & (Ce & _)).
  destruct Fit as (Fit1 & Fit2).
  assert (Hin : In (d, c) (flat_map (exported (server_ s))
                             (list_database_names (server_ s)))).
  { apply in_flat_map. exists d. split; [exact Hd |].
    unfold exported. rewrite Hsys. apply in_map. exact Hcoll. }
  specialize (Ce _ _ Hin).
  assert (Hcomp : is_component d = true).
  { rewrite Forall_forall in Fit1. auto. }
  pose proof (holder_created _ _ _ _ _ _ _ Se Ce) as Hcr.
  pose proof (resolve_file P0 _ (files s') created d (c +++ ".json")
                Se Hcomp Hcr (Fit2 d c Hcoll)) as R.
  unfold FS.read_text, node_at. rewrite R. unfold file_of, entry_of in Ce.
  rewrite Ce. reflexivity.
Qed.

End ContentFacts.

(** ** Decoding the text of a value *)

Module EvalFacts.
Import PyStr PyVal Exn PyEval DocumentSpec DocFacts StrFacts.

(** *** Scanning *)

(** The scanner run over a text that need not end there: the tokens
    emitted and the state reached. *)
Fixpoint lex_run (st : lex_state) (s : string)
  : option (list token * lex_state) :=
  match s with
  | EmptyString => Some ([], st)
  | String c r =>
      match lex_step st c with
      | None => None
      | Some (ts, st') =>
          match lex_run st' r with
          | Some (ts', st'') => Some (ts ++ ts', st'')
          | None => None
          end
      end
  end.

(** [ts] put before the tokens of a run. *)
Definition emit (ts : list token) (r : option (list token * lex_state))
  : option (list token * lex_state) :=
  match r with
  | Some (ts', st) => Some (ts ++ ts', st)
  | None => None
  end.

Lemma emit_nil r : emit [] r = r.
Proof. destruct r as [[ts st]|]; reflexivity. Qed.

Lemma emit_emit a b r : emit a (emit b r) = emit (a ++ b) r.
Proof. destruct r as [[ts st]|]; simpl; [rewrite app_assoc |]; reflexivity. Qed.

Lemma lex_run_cons st c r :
  lex_run st (String c r)
  = match lex_step st c with
    | Some (ts, st') => emit ts (lex_run st' r)
    | None => None
    end.
Proof. reflexivity. Qed.

Lemma lex_run_app a : forall st b,
  lex_run st (a +++ b)
  = match lex_run st a with
    | Some (ts, st') => emit ts (lex_run st' b)
    | None => None
    end.
Proof.
  induction a as [|c a IH]; intros st b.
  - cbn [String.append lex_run]. rewrite emit_nil. reflexivity.
  - cbn [String.append]. rewrite !lex_run_cons.
    destruct (lex_step st c) as [[ts st']|]; [| reflexivity].
    rewrite IH. destruct (lex_run st' a) as [[ts' st'']|]; [| reflexivity].
    cbn [emit]. rewrite emit_emit. reflexivity.
Qed.

Lemma lex_of_run s : forall st,
  lex st s
  = match lex_run st s with
    | Some (ts, st') =>
        match lex_end st' with
        | Some (Value rest) => Some (Value (ts ++ rest))
        | other => other
        end
    | None => None
    end.
Proof.
  induction s as [|c s IH]; intros st.
  - cbn [lex lex_run]. destruct (lex_end st) as [[rest|e]|]; reflexivity.
  - cbn [lex]. rewrite lex_run_cons.
    destruct (lex_step st c) as [[ts st']|]; [| reflexivity].
    rewrite IH. destruct (lex_run st' s) as [[ts' st'']|]; [| reflexivity].
    cbn [emit]. destruct (lex_end st'') as [[rest|e]|]; try reflexivity.
    rewrite app_assoc. reflexivity.
Qed.

(** What a state emits when a token ends there. *)
Definition flush (st : lex_state) : option (list token) :=
  match st with
  | LDefault | LAfterStr => Some []
  | LName acc => Some [TName acc]
  | LNum acc => option_map (fun t => [t]) (int_token acc)
  | _ => None
  end.

(** The characters that follow a value in the text of a value, and the
    token each is. *)
Definition delimiter (c : ascii) : option (list token) :=
  if Ascii.eqb c "," then Some [TComma]
  else if Ascii.eqb c ":" then Some [TColon]
  else if Ascii.eqb c "}" then Some [TRBrace]
  else if Ascii.eqb c "]" then Some [TRBrack]
  else if Ascii.eqb c ")" then Some [TRParen]
  else if Ascii.eqb c " " then Some []
  else None.

Lemma delimiter_cases c tc :
  delimiter c = Some tc ->
  (c = "," \/ c = ":" \/ c = "}" \/ c = "]" \/ c = ")" \/ c = " ")%char.
Proof.
  unfold delimiter.
  repeat match goal with
         | |- context [Ascii.eqb c ?x] =>
             destruct (Ascii.eqb_spec c x); [subst; tauto |]
         end.
  discriminate.
Qed.

Lemma step_delimiter st pend c tc :
  flush st = Some pend -> delimiter c = Some tc ->
  lex_step st c = Some (pend ++ tc, LDefault).
Proof.
  intros F D. pose proof (delimiter_cases c tc D) as C.
  destruct st; cbn [flush] in F; try discriminate.
  - inversion F; subst.
    destruct C as [-> | [-> | [-> | [-> | [-> | ->]]]]];
      inversion D; subst; reflexivity.
  - inversion F; subst.
    destruct C as [-> | [-> | [-> | [-> | [-> | ->]]]]];
      inversion D; subst; reflexivity.
  - destruct (int_token acc) as [t|] eqn:I; [| discriminate].
    inversion F; subst.
    destruct C as [-> | [-> | [-> | [-> | [-> | ->]]]]];
      inversion D; subst; cbn; rewrite I; reflexivity.
  - inversion F; subst.
    destruct C as [-> | [-> | [-> | [-> | [-> | ->]]]]];
      inversion D; subst; reflexivity.
Qed.

(** A text is scanned to the tokens [ts]: from between tokens the scanner
    emits them, the last one at the latest when a delimiter or the end of
    the text follows. *)
Definition scans (text : string) (ts : list token) : Prop :=
  exists ts1 st pend,
    lex_run LDefault text = Some (ts1, st)
    /\ flush st = Some pend /\ ts = ts1 ++ pend.

(** A scanned text followed by a delimiter. *)
Lemma scans_then text ts c tc rest :
  scans text ts -> delimiter c = Some tc ->
  lex_run LDefault (text +++ String c rest)
  = emit (ts ++ tc) (lex_run LDefault rest).
Proof.
  intros (ts1 & st & pend & R & F & ->) D.
  rewrite lex_run_app, R, lex_run_cons, (step_delimiter st pend c tc F D).
  rewrite emit_emit, !app_assoc. reflexivity.
Qed.

Lemma scans_end text ts :
  scans text ts -> tokenize text = Some (Value ts).
Proof.
  intros (ts1 & st & pend & R & F & ->). unfold tokenize.
  rewrite lex_of_run, R.
  destruct st; cbn [flush] in F; try discriminate; cbn [lex_end];
    try (inversion F; subst; reflexivity).
  destruct (int_token acc); [| discriminate]. inversion F; subst. reflexivity.
Qed.



(** *** Numbers *)

Definition digits (d : uint) : string := NilEmpty.string_of_uint d.

Lemma lex_num_digit acc c r :
  is_digit c = true ->
  lex_run (LNum acc) (String c r) = lex_run (LNum (snoc acc c)) r.
Proof.
  intros H. rewrite lex_run_cons. cbn [lex_step]. rewrite H.
  apply emit_nil.
Qed.

Lemma lex_run_digits d : forall acc,
  lex_run (LNum acc) (digits d) = Some ([], LNum (acc +++ digits d)).
Proof.
  unfold digits.
  induction d; intros acc; cbn [NilEmpty.string_of_uint];
    try (rewrite lex_num_digit by reflexivity; rewrite IHd;
         unfold snoc; rewrite append_assoc; reflexivity).
  cbn [lex_run]. rewrite ContentFacts.append_nil_r. reflexivity.
Qed.

Lemma lex_run_number d :
  d <> Nil ->
  lex_run LDefault (digits d) = Some ([], LNum (digits d)).
Proof.
  unfold digits.
  destruct d; intros H; try congruence;
    cbn [NilEmpty.string_of_uint]; rewrite lex_run_cons;
    (match goal with
     | |- context [lex_step LDefault ?c] =>
         change (lex_step LDefault c) with (Some (@nil token, LNum (String c "")))
     end);
    cbv iota beta; rewrite emit_nil; apply (lex_run_digits d).
Qed.

(** A numeral without leading zeros: zero itself, or one whose first
    digit is not zero. *)
Definition normal (d : uint) : Prop :=
  d = D0 Nil \/ match d with Nil | D0 _ => False | _ => True end.

Lemma unorm_normal d : unorm d = d -> normal d.
Proof.
  intros H. destruct d; try (right; exact I).
  - exfalso. exact (DecimalFacts.unorm_nonnil _ H).
  - destruct (uint_eq_dec d Nil) as [-> | N]; [left; reflexivity |].
    exfalso. rewrite DecimalFacts.unorm_D0 in H.
    pose proof (DecimalFacts.nb_digits_unorm d N) as L. rewrite H in L.
    cbn [nb_digits] in L. lia.
Qed.

Lemma normal_to_uint n : normal (Nat.to_uint n).
Proof.
  apply unorm_normal. rewrite <- DecimalNat.Unsigned.to_of.
  rewrite DecimalNat.Unsigned.of_to. reflexivity.
Qed.

Lemma normal_pos_to_uint p : normal (Pos.to_uint p).
Proof.
  apply unorm_normal.
  rewrite <- DecimalPos.Unsigned.to_of, DecimalPos.Unsigned.of_to.
  reflexivity.
Qed.

Lemma int_token_normal d :
  normal d ->
  int_token (NilZero.string_of_uint d) = Some (TInt (Nat.of_uint d)).
Proof.
  intros [-> | H]; [reflexivity |].
  assert (N : d <> Nil) by (destruct d; [contradiction | discriminate..]).
  unfold int_token.
  replace (NilZero.uint_of_string (NilZero.string_of_uint d)) with (Some d)
    by (symmetry; apply NilZero.usu; exact N).
  destruct d; try contradiction; reflexivity.
Qed.

Lemma string_of_uint_digits d :
  d <> Nil -> NilZero.string_of_uint d = digits d.
Proof. destruct d; [congruence | reflexivity..]. Qed.

Lemma normal_nonnil d : normal d -> d <> Nil.
Proof. intros [-> | H]; [discriminate |]. destruct d; [contradiction | discriminate..]. Qed.

Lemma scans_uint d :
  normal d -> scans (NilZero.string_of_uint d) [TInt (Nat.of_uint d)].
Proof.
  intros H. pose proof (normal_nonnil d H) as N.
  exists [], (LNum (NilZero.string_of_uint d)), [TInt (Nat.of_uint d)].
  split; [| split; [| reflexivity]].
  - rewrite (string_of_uint_digits d N). apply lex_run_number. exact N.
  - cbn [flush]. rewrite (int_token_normal d H). reflexivity.
Qed.

Lemma scans_str_of_nat n : scans (str_of_nat n) [TInt n].
Proof.
  unfold str_of_nat.
  rewrite <- (DecimalNat.Unsigned.of_to n) at 2.
  apply scans_uint. apply normal_to_uint.
Qed.

Lemma of_lu_N d :
  N.of_nat (DecimalNat.Unsigned.of_lu d) = DecimalPos.Unsigned.of_lu d.
Proof.
  induction d; cbn [DecimalNat.Unsigned.of_lu DecimalPos.Unsigned.of_lu];
    try reflexivity; rewrite <- IHd; lia.
Qed.

Lemma of_uint_pos p : Nat.of_uint (Pos.to_uint p) = Pos.to_nat p.
Proof.
  apply Nnat.Nat2N.inj.
  rewrite DecimalNat.Unsigned.of_uint_alt, of_lu_N.
  rewrite <- DecimalPos.Unsigned.of_uint_alt, DecimalPos.Unsigned.of_to.
  rewrite positive_nat_N. reflexivity.
Qed.

(** The tokens of an integer. *)
Definition int_toks (z : Z) : list token :=
  match z with
  | Zneg p => [TMinus; TInt (Pos.to_nat p)]
  | _ => [TInt (Z.to_nat z)]
  end.

Lemma scans_str_of_Z z : scans (str_of_Z z) (int_toks z).
Proof.
  unfold str_of_Z, int_toks. destruct z as [|p|p]; cbn [Z.to_int NilZero.string_of_int].
  - exists [], (LNum "0"), [TInt 0]. repeat split.
  - replace (Z.to_nat (Z.pos p)) with (Nat.of_uint (Pos.to_uint p))
      by (rewrite of_uint_pos; reflexivity).
    apply scans_uint. apply normal_pos_to_uint.
  - destruct (scans_uint _ (normal_pos_to_uint p)) as (ts1 & st & pend & R & F & E).
    exists (TMinus :: ts1), st, pend. split; [| split; [exact F |]].
    + rewrite lex_run_cons.
      change (lex_step LDefault "-") with (Some ([TMinus], LDefault)).
      cbv iota beta. rewrite R. reflexivity.
    + change ((TMinus :: ts1) ++ pend) with (TMinus :: (ts1 ++ pend)).
      rewrite <- E, of_uint_pos. reflexivity.
Qed.

(** *** Text literals *)

Lemma lex_escape q acc x k rest :
  q = squote \/ q = dquote ->
  lex_step (LEsc q acc) x = Some ([], LStr q (snoc acc k)) ->
  lex_run (LStr q acc) (String backslash (String x rest))
  = lex_run (LStr q (snoc acc k)) rest.
Proof.
  intros Hq H. rewrite lex_run_cons.
  assert (S1 : lex_step (LStr q acc) backslash = Some ([], LEsc q acc))
    by (destruct Hq as [-> | ->]; reflexivity).
  rewrite S1, emit_nil, lex_run_cons, H, emit_nil. reflexivity.
Qed.

Lemma hex_value_digit k : k < 16 -> hex_value (hex_digit k) = Some k.
Proof.
  intros H. do 16 (destruct k as [|k]; [reflexivity |]). lia.
Qed.

Lemma nat_of_ascii_eqb c k :
  k < 256 -> (nat_of_ascii c =? k) = Ascii.eqb c (ascii_of_nat k).
Proof.
  intros H. destruct (Ascii.eqb_spec c (ascii_of_nat k)) as [-> | N].
  - rewrite nat_ascii_embedding by exact H. apply Nat.eqb_refl.
  - apply Nat.eqb_neq. intros E. apply N. rewrite <- E.
    symmetry. apply ascii_nat_embedding.
Qed.

(** One character of the body of a literal is scanned back to the
    character it shows. *)
Lemma lex_run_repr_char q c acc rest :
  q = squote \/ q = dquote ->
  lex_run (LStr q acc) (repr_char q c +++ rest)
  = lex_run (LStr q (snoc acc c)) rest.
Proof.
  intros Hq. unfold repr_char.
  destruct (Ascii.eqb c q || Ascii.eqb c backslash) eqn:E1.
  { cbn [String.append]. apply lex_escape; [exact Hq |].
    cbn [lex_step].
    replace (Ascii.eqb c backslash || Ascii.eqb c squote || Ascii.eqb c dquote)
      with true; [reflexivity |].
    symmetry. apply orb_prop in E1.
    destruct E1 as [E | E]; [| rewrite E; reflexivity].
    apply Ascii.eqb_eq in E. subst c.
    destruct Hq as [-> | ->]; reflexivity. }
  apply orb_false_elim in E1. destruct E1 as [Eq Eb].
  rewrite !nat_of_ascii_eqb by lia.
  destruct (Ascii.eqb_spec c (ascii_of_nat 9)) as [-> | N9].
  { cbn [String.append]. apply lex_escape; [exact Hq | reflexivity]. }
  destruct (Ascii.eqb_spec c (ascii_of_nat 10)) as [-> | N10].
  { cbn [String.append]. apply lex_escape; [exact Hq | reflexivity]. }
  destruct (Ascii.eqb_spec c (ascii_of_nat 13)) as [-> | N13].
  { cbn [String.append]. apply lex_escape; [exact Hq | reflexivity]. }
  destruct (isprintable c) eqn:P.
  { cbn [String.append]. rewrite lex_run_cons. cbn [lex_step].
    rewrite Eq, Eb, !nat_of_ascii_eqb by lia.
    destruct (Ascii.eqb_spec c (ascii_of_nat 0)) as [-> | N0];
      [discriminate P |].
    destruct (Ascii.eqb_spec c (ascii_of_nat 10)); [contradiction |].
    destruct (Ascii.eqb_spec c (ascii_of_nat 13)); [contradiction |].
    cbn [orb]. apply emit_nil. }
  unfold hex_escape. cbn [String.append].
  pose proof (nat_ascii_bounded c) as B.
  assert (Hhi : nat_of_ascii c / 16 < 16)
    by (apply Nat.Div0.div_lt_upper_bound; lia).
  assert (Hlo : nat_of_ascii c mod 16 < 16)
    by (apply Nat.mod_upper_bound; lia).
  rewrite lex_run_cons.
  assert (S1 : lex_step (LStr q acc) "\"%char = Some ([], LEsc q acc))
    by (destruct Hq as [-> | ->]; reflexivity).
  rewrite S1, emit_nil, lex_run_cons.
  change (lex_step (LEsc q acc) "x") with (Some (@nil token, LHex1 q acc)).
  cbv iota beta. rewrite emit_nil, lex_run_cons. cbn [lex_step].
  rewrite (hex_value_digit _ Hhi), emit_nil, lex_run_cons. cbn [lex_step].
  rewrite (hex_value_digit _ Hlo), emit_nil.
  rewrite <- (Nat.div_mod_eq (nat_of_ascii c) 16), ascii_nat_embedding.
  reflexivity.
Qed.

Lemma lex_run_repr_body q s : forall acc rest,
  q = squote \/ q = dquote ->
  lex_run (LStr q acc) (repr_body q s +++ rest)
  = lex_run (LStr q (acc +++ s)) rest.
Proof.
  induction s as [|c s IH]; intros acc rest Hq.
  - cbn [repr_body String.append]. rewrite ContentFacts.append_nil_r.
    reflexivity.
  - cbn [repr_body]. rewrite append_assoc, lex_run_repr_char by exact Hq.
    rewrite IH by exact Hq. unfold snoc. rewrite append_assoc. reflexivity.
Qed.

Lemma scans_repr_str s : scans (repr_str s) [TStr s].
Proof.
  exists [TStr s], LAfterStr, []. split; [| split; reflexivity].
  unfold repr_str. destruct (repr_quote_cases s) as [E | E]; rewrite E;
    rewrite lex_run_cons;
    [change (lex_step LDefault squote) with (Some (@nil token, LStr squote ""))
    |change (lex_step LDefault dquote) with (Some (@nil token, LStr dquote ""))];
    cbv iota beta; rewrite emit_nil, lex_run_repr_body by auto;
    rewrite lex_run_cons; cbn [lex_step]; rewrite Ascii.eqb_refl;
    reflexivity.
Qed.

(** *** Values *)

(** Token lists separated by commas. *)
Fixpoint sep_by (tss : list (list token)) : list token :=
  match tss with
  | [] => []
  | [ts] => ts
  | ts :: rest => ts ++ TComma :: sep_by rest
  end.

(** The fields [repr] shows of a datetime. *)
Definition shown_fields (dt : datetime) : list nat :=
  let base := [year dt; month dt; day dt; hour dt; minute dt] in
  if microsecond dt =? 0
  then (if second dt =? 0 then base else base ++ [second dt])
  else base ++ [second dt; microsecond dt].

Lemma repr_datetime_fields dt :
  repr_datetime dt
  = "datetime.datetime(" +++ PyVal.join ", " (map str_of_nat (shown_fields dt))
    +++ ")".
Proof. reflexivity. Qed.

(** The tokens of the text of a value. *)
Fixpoint toks (v : pyval) : list token :=
  match v with
  | PNone => [TName "None"]
  | PBool true => [TName "True"]
  | PBool false => [TName "False"]
  | PInt z => int_toks z
  | PStr s => [TStr s]
  | PList xs => TLBrack :: sep_by (map toks xs) ++ [TRBrack]
  | PDict items =>
      TLBrace
      :: sep_by (map (fun '(k, x) => toks k ++ TColon :: toks x) items)
      ++ [TRBrace]
  | PObjectId oid => [TName "ObjectId"; TLParen; TStr oid; TRParen]
  | PDatetime dt =>
      TName "datetime" :: TDot :: TName "datetime" :: TLParen
      :: sep_by (map (fun n => [TInt n]) (shown_fields dt)) ++ [TRParen]
  end.

(** Texts joined by [", "] and followed by a delimiter. *)
Lemma scans_join texts : forall tss close tc rest,
  Forall2 scans texts tss -> texts <> [] ->
  delimiter close = Some tc ->
  lex_run LDefault (PyVal.join ", " texts +++ String close rest)
  = emit (sep_by tss ++ tc) (lex_run LDefault rest).
Proof.
  induction texts as [|x texts IH]; intros tss close tc rest F N D;
    [congruence |].
  inversion F as [|x' ts texts' tss' Hx Hrest]; subst.
  destruct texts as [|y texts].
  - inversion Hrest; subst. cbn [PyVal.join sep_by].
    apply scans_then; assumption.
  - destruct tss' as [|ts2 tss']; [inversion Hrest |].
    change (PyVal.join ", " (x :: y :: texts))
      with (x +++ ", " +++ PyVal.join ", " (y :: texts)).
    change (sep_by (ts :: ts2 :: tss'))
      with (ts ++ TComma :: sep_by (ts2 :: tss')).
    rewrite !append_assoc.
    change (", " +++ PyVal.join ", " (y :: texts) +++ String close rest)
      with (String "," (String " " (PyVal.join ", " (y :: texts)
                                    +++ String close rest))).
    rewrite (scans_then x ts "," [TComma]) by (auto; reflexivity).
    rewrite lex_run_cons.
    change (lex_step LDefault " ") with (Some (@nil token, LDefault)).
    cbv iota beta. rewrite emit_nil.
    rewrite (IH (ts2 :: tss') close tc rest Hrest) by (auto; discriminate).
    rewrite emit_emit. f_equal. rewrite <- !app_assoc. reflexivity.
Qed.

(** A bracketed display: an opening bracket, texts joined by [", "], the
    closing bracket. *)
Lemma scans_display open topen close tclose texts tss :
  lex_step LDefault open = Some ([topen], LDefault) ->
  delimiter close = Some [tclose] ->
  Forall2 scans texts tss ->
  scans (String open (PyVal.join ", " texts +++ String close ""))
        (topen :: sep_by tss ++ [tclose]).
Proof.
  intros So Dc F. exists (topen :: sep_by tss ++ [tclose]), LDefault, [].
  split; [| split; [reflexivity | rewrite app_nil_r; reflexivity]].
  rewrite lex_run_cons, So.
  destruct texts as [|x texts].
  - inversion F; subst. cbn [PyVal.join String.append sep_by List.app].
    rewrite lex_run_cons, (step_delimiter LDefault [] close [tclose]) by auto.
    reflexivity.
  - rewrite (scans_join (x :: texts) tss close [tclose] "" F) by
      (auto; discriminate).
    rewrite emit_emit. cbn [lex_run emit]. rewrite List.app_nil_r.
    reflexivity.
Qed.

Lemma lex_run_hex oid : forall acc rest,
  all_chars is_hex_digit oid = true ->
  lex_run (LStr squote acc) (oid +++ rest)
  = lex_run (LStr squote (acc +++ oid)) rest.
Proof.
  induction oid as [|c oid IH]; intros acc rest H.
  - cbn [String.append]. rewrite ContentFacts.append_nil_r. reflexivity.
  - cbn [all_chars] in H. apply andb_prop in H. destruct H as [Hc H].
    cbn [String.append]. rewrite lex_run_cons.
    assert (S1 : lex_step (LStr squote acc) c
                 = Some ([], LStr squote (snoc acc c))).
    { assert (G : forall c0, is_hex_digit c0 = true ->
                    Ascii.eqb c0 squote = false
                    /\ Ascii.eqb c0 backslash = false
                    /\ ((nat_of_ascii c0 =? 0) || (nat_of_ascii c0 =? 10)
                        || (nat_of_ascii c0 =? 13)) = false).
      { intros c0.
        assert (A : forall c1,
                   (negb (is_hex_digit c1)
                    || (negb (Ascii.eqb c1 squote)
                        && negb (Ascii.eqb c1 backslash)
                        && negb ((nat_of_ascii c1 =? 0)
                                 || (nat_of_ascii c1 =? 10)
                                 || (nat_of_ascii c1 =? 13)))) = true)
          by (apply every_ascii_all; vm_compute; reflexivity).
        intros Hh. specialize (A c0). rewrite Hh in A. cbn [negb orb] in A.
        apply andb_prop in A. destruct A as [A A3].
        apply andb_prop in A. destruct A as [A1 A2].
        rewrite !negb_true_iff in *. auto. }
      destruct (G c Hc) as (G1 & G2 & G3).
      cbn [lex_step]. rewrite G1, G2, G3. reflexivity. }
    rewrite S1, emit_nil, IH by exact H.
    unfold snoc. rewrite append_assoc. reflexivity.
Qed.

Lemma scans_object_id oid :
  is_object_id oid = true ->
  scans ("ObjectId('" +++ oid +++ "')")
        [TName "ObjectId"; TLParen; TStr oid; TRParen].
Proof.
  intros H. unfold is_object_id in H. apply andb_prop in H.
  destruct H as [_ H].
  exists [TName "ObjectId"; TLParen; TStr oid; TRParen], LDefault, [].
  split; [| split; reflexivity].
  rewrite lex_run_app.
  change (lex_run LDefault "ObjectId('")
    with (Some ([TName "ObjectId"; TLParen], LStr squote "")).
  cbv iota beta. rewrite (lex_run_hex oid "" "')" H).
  cbn [String.append]. rewrite !lex_run_cons. cbn [lex_step].
  rewrite Ascii.eqb_refl. cbn. reflexivity.
Qed.

Lemma scans_datetime dt : scans (repr_datetime dt) (toks (PDatetime dt)).
Proof.
  rewrite repr_datetime_fields. cbn [toks].
  set (fs := shown_fields dt).
  assert (F : Forall2 scans (map str_of_nat fs) (map (fun n => [TInt n]) fs)).
  { induction fs as [|n fs IH]; cbn [map]; constructor; auto.
    apply scans_str_of_nat. }
  assert (N : map str_of_nat fs <> []).
  { subst fs. unfold shown_fields.
    destruct (microsecond dt =? 0); [destruct (second dt =? 0) |];
      discriminate. }
  exists (TName "datetime" :: TDot :: TName "datetime" :: TLParen
          :: sep_by (map (fun n => [TInt n]) fs) ++ [TRParen]), LDefault, [].
  split; [| split; [reflexivity | rewrite app_nil_r; reflexivity]].
  rewrite lex_run_app.
  change (lex_run LDefault "datetime.datetime(")
    with (Some ([TName "datetime"; TDot; TName "datetime"; TLParen], LDefault)).
  cbv iota beta.
  change (PyVal.join ", " (map str_of_nat fs) +++ ")")
    with (PyVal.join ", " (map str_of_nat fs) +++ String ")" "").
  rewrite (scans_join _ _ ")" [TRParen] "" F N) by reflexivity.
  rewrite emit_emit. cbn [lex_run emit]. rewrite List.app_nil_r.
  reflexivity.
Qed.

(** The text of a value is scanned to its tokens. *)
Lemma scans_repr v : is_value v = true -> scans (repr v) (toks v).
Proof.
  induction v as [| b | z | s | xs IH | items IH | oid | dt]
    using pyval_induction; intros W.
  - exists [], (LName "None"), [TName "None"]. repeat split.
  - destruct b.
    + exists [], (LName "True"), [TName "True"]. repeat split.
    + exists [], (LName "False"), [TName "False"]. repeat split.
  - apply scans_str_of_Z.
  - apply scans_repr_str.
  - cbn [repr toks].
    change ("[" +++ PyVal.join ", " (map repr xs) +++ "]")
      with (String "[" (PyVal.join ", " (map repr xs) +++ String "]" "")).
    apply (scans_display "[" TLBrack "]" TRBrack); try reflexivity.
    cbn [is_value] in W. rewrite forallb_forall in W.
    induction xs as [|x xs IHxs]; cbn [map]; constructor.
    + inversion IH; subst. apply H1. apply W. left. reflexivity.
    + inversion IH; subst. apply IHxs; auto.
      intros y Hy. apply W. right. exact Hy.
  - cbn [repr toks].
    match goal with
    | |- scans ("{" +++ PyVal.join ", " ?l +++ "}") _ =>
        change ("{" +++ PyVal.join ", " l +++ "}")
          with (String "{" (PyVal.join ", " l +++ String "}" ""))
    end.
    apply (scans_display "{" TLBrace "}" TRBrace); try reflexivity.
    cbn [is_value] in W. apply andb_prop in W. destruct W as [W _].
    rewrite forallb_forall in W.
    induction items as [|[k x] items IHitems]; cbn [map]; constructor.
    + inversion IH as [|? ? [Hk Hx] ?]; subst.
      specialize (W (k, x) (or_introl eq_refl)). cbn in W.
      apply andb_prop in W. destruct W as [Wk Wx]. cbn [fst snd] in *.
      destruct k; try discriminate.
      destruct (Hx Wx) as (ts1 & st & pend & R & Fl & E).
      change (scans (repr (PStr s) +++ String ":" (String " " (repr x)))
                    (toks (PStr s) ++ TColon :: toks x)).
      exists ([TStr s; TColon] ++ ts1), st, pend.
      split; [| split; [exact Fl |]].
      * rewrite (scans_then (repr (PStr s)) [TStr s] ":" [TColon])
          by (try reflexivity; apply scans_repr_str).
        rewrite lex_run_cons.
        change (lex_step LDefault " ") with (Some (@nil token, LDefault)).
        cbv iota beta. rewrite emit_nil, R. reflexivity.
      * cbn [toks List.app]. rewrite E. reflexivity.
    + inversion IH; subst. apply IHitems; auto.
      intros y Hy. apply W. right. exact Hy.
  - cbn [is_value] in W. apply scans_object_id. exact W.
  - apply scans_datetime.
Qed.

(** *** Parsing *)

(** The expression the text of a value is. *)
Fixpoint expr_of (v : pyval) : expr :=
  match v with
  | PList xs => EList (map expr_of xs)
  | PDict items => EDict (map (fun '(k, x) => (expr_of k, expr_of x)) items)
  | PObjectId oid => ECall (EName "ObjectId") [EConst (PStr oid)]
  | PDatetime dt =>
      ECall (EAttr (EName "datetime") "datetime")
            (map (fun n => EConst (PInt (Z.of_nat n))) (shown_fields dt))
  | _ => EConst v
  end.

(** A token that can follow an expression inside a display. *)
Definition follows (rest : list token) : Prop :=
  match rest with
  | [] | (TComma | TColon | TRBrace | TRBrack | TRParen) :: _ => True
  | _ => False
  end.

(** A token list that starts the way the text of a value does. *)
Definition starts (ts : list token) : Prop :=
  match ts with
  | (TInt _ | TMinus | TStr _ | TName _ | TLBrack | TLBrace) :: _ => True
  | _ => False
  end.

(** [ts] is parsed to [e], whatever follows, by any parser that is given
    more steps than [ts] has tokens. *)
Definition parses (ts : list token) (e : expr) : Prop :=
  starts ts
  /\ forall rest f, follows rest -> List.length ts < f ->
       parse_expr f (ts ++ rest) = POk e rest.

Definition is_close (t : token) : Prop := t = TRBrack \/ t = TRParen.

Definition items_size (its : list (list token * expr)) : nat :=
  list_sum (map (fun it => S (List.length (fst it))) its).

Lemma follows_close close rest : is_close close -> follows (close :: rest).
Proof. intros [-> | ->]; exact I. Qed.

Lemma parse_items_ok its : forall close rest f,
  Forall (fun it => parses (fst it) (snd it)) its -> its <> [] ->
  is_close close ->
  items_size its < f ->
  parse_items f close (sep_by (map fst its) ++ close :: rest)
  = POk (map snd its) rest.
Proof.
  induction its as [|[ts e] its IH]; intros close rest f F N C L;
    [congruence |].
  inversion F as [|? ? [St P] F']; subst. cbn [fst snd] in *.
  unfold items_size in L. cbn [map list_sum fst] in L.
  destruct f as [|f]; [lia |]. cbn [parse_items].
  destruct its as [|[ts2 e2] its]; cbn in L.
  - cbn [map sep_by fst snd].
    rewrite (P (close :: rest) f) by (try apply follows_close; auto; lia).
    destruct C as [-> | ->]; reflexivity.
  - change (sep_by (map fst ((ts, e) :: (ts2, e2) :: its)))
      with (ts ++ TComma :: sep_by (map fst ((ts2, e2) :: its))).
    rewrite <- List.app_assoc.
    rewrite (P ((TComma :: sep_by (map fst ((ts2, e2) :: its)))
                ++ close :: rest) f) by (try exact I; lia).
    assert (R : parse_items f close
                  (sep_by (map fst ((ts2, e2) :: its)) ++ close :: rest)
                = POk (map snd ((ts2, e2) :: its)) rest).
    { apply IH; auto; [discriminate |].
      unfold items_size. cbn. lia. }
    assert (S2 : starts (sep_by (map fst ((ts2, e2) :: its)) ++ close :: rest)).
    { inversion F' as [|? ? [St2 _] _]; subst. cbn [fst] in St2.
      cbn [map fst]. destruct ts2 as [|t ts2]; [contradiction |].
      destruct its; cbn [sep_by map]; exact St2. }
    change ((TComma :: sep_by (map fst ((ts2, e2) :: its))) ++ close :: rest)
      with (TComma :: (sep_by (map fst ((ts2, e2) :: its)) ++ close :: rest)).
    destruct (sep_by (map fst ((ts2, e2) :: its)) ++ close :: rest)
      as [|t r'] eqn:E; [contradiction |].
    destruct t; try contradiction; rewrite R; reflexivity.
Qed.

Definition pairs_size (kvs : list ((list token * expr) * (list token * expr)))
  : nat :=
  list_sum (map (fun kv => S (S (List.length (fst (fst kv))
                                 + List.length (fst (snd kv))))) kvs).

Definition pair_toks (kv : (list token * expr) * (list token * expr))
  : list token :=
  fst (fst kv) ++ TColon :: fst (snd kv).

Lemma parse_pairs_ok kvs : forall rest f,
  Forall (fun kv => parses (fst (fst kv)) (snd (fst kv))
                    /\ parses (fst (snd kv)) (snd (snd kv))) kvs ->
  kvs <> [] ->
  pairs_size kvs < f ->
  parse_pairs f (sep_by (map pair_toks kvs) ++ TRBrace :: rest)
  = POk (map (fun kv => (snd (fst kv), snd (snd kv))) kvs) rest.
Proof.
  induction kvs as [|[[tk ek] [tx ex]] kvs IH]; intros rest f F N L;
    [congruence |].
  inversion F as [|? ? [[Sk Pk] [Sx Px]] F']; subst. cbn [fst snd] in *.
  unfold pairs_size in L. cbn [map list_sum fst snd] in L.
  destruct f as [|f]; [lia |]. cbn [parse_pairs].
  destruct kvs as [|kv2 kvs]; cbn in L.
  - cbn [map sep_by]. unfold pair_toks. cbn [fst snd].
    rewrite <- List.app_assoc.
    rewrite (Pk ((TColon :: tx) ++ TRBrace :: rest) f) by (try exact I; lia).
    change ((TColon :: tx) ++ TRBrace :: rest)
      with (TColon :: (tx ++ TRBrace :: rest)).
    cbv iota beta.
    rewrite (Px (TRBrace :: rest) f) by (try exact I; lia).
    reflexivity.
  - change (sep_by (map pair_toks (((tk, ek), (tx, ex)) :: kv2 :: kvs)))
      with ((tk ++ TColon :: tx)
            ++ TComma :: sep_by (map pair_toks (kv2 :: kvs))).
    rewrite <- !List.app_assoc.
    rewrite (Pk ((TColon :: tx)
                 ++ (TComma :: sep_by (map pair_toks (kv2 :: kvs)))
                 ++ TRBrace :: rest) f) by (try exact I; lia).
    change ((TColon :: tx)
            ++ (TComma :: sep_by (map pair_toks (kv2 :: kvs)))
            ++ TRBrace :: rest)
      with (TColon :: (tx ++ (TComma :: sep_by (map pair_toks (kv2 :: kvs)))
                             ++ TRBrace :: rest)).
    cbv iota beta.
    rewrite (Px ((TComma :: sep_by (map pair_toks (kv2 :: kvs)))
                 ++ TRBrace :: rest) f) by (try exact I; lia).
    assert (R : parse_pairs f
                  (sep_by (map pair_toks (kv2 :: kvs)) ++ TRBrace :: rest)
                = POk (map (fun kv => (snd (fst kv), snd (snd kv)))
                           (kv2 :: kvs)) rest).
    { apply IH; auto; [discriminate |].
      unfold pairs_size. cbn. cbn in L. lia. }
    assert (S2 : starts (sep_by (map pair_toks (kv2 :: kvs))
                         ++ TRBrace :: rest)).
    { inversion F' as [|? ? [[Sk2 _] _] _]; subst.
      destruct kv2 as [[tk2 ek2] [tx2 ex2]]. cbn [fst] in Sk2.
      destruct tk2 as [|t tk2]; [contradiction |].
      destruct kvs; cbn [sep_by map]; unfold pair_toks; exact Sk2. }
    change ((TComma :: sep_by (map pair_toks (kv2 :: kvs))) ++ TRBrace :: rest)
      with (TComma :: (sep_by (map pair_toks (kv2 :: kvs)) ++ TRBrace :: rest)).
    destruct (sep_by (map pair_toks (kv2 :: kvs)) ++ TRBrace :: rest)
      as [|t r'] eqn:E; [contradiction |].
    destruct t; try contradiction; rewrite R; reflexivity.
Qed.

Lemma sep_by_length tss :
  tss <> [] ->
  list_sum (map (fun ts => S (List.length ts)) tss)
  = S (List.length (sep_by tss)).
Proof.
  induction tss as [|ts tss IH]; intros N; [congruence |].
  destruct tss as [|ts2 tss].
  - cbn. lia.
  - change (sep_by (ts :: ts2 :: tss)) with (ts ++ TComma :: sep_by (ts2 :: tss)).
    rewrite List.length_app. cbn [List.length map list_sum fold_right] in *.
    change (list_sum (map (fun ts => S (List.length ts)) (ts2 :: tss)))
      with (S (List.length ts2)
            + list_sum (map (fun ts => S (List.length ts)) tss)) in IH.
    unfold list_sum in *. cbn [map fold_right] in *.
    rewrite IH by discriminate. lia.
Qed.

Lemma starts_sep_by tss rest :
  Forall starts tss -> tss <> [] -> starts (sep_by tss ++ rest).
Proof.
  intros F N. destruct tss as [|ts tss]; [congruence |].
  inversion F; subst. destruct ts as [|t ts]; [contradiction |].
  destruct tss; cbn [sep_by]; assumption.
Qed.

Lemma parses_int z : parses (int_toks z) (EConst (PInt z)).
Proof.
  split; [destruct z; exact I |].
  intros rest f _ L. destruct z as [|p|p]; cbn [int_toks List.length] in *.
  - destruct f as [|f]; [lia |]. reflexivity.
  - destruct f as [|f]; [lia |].
    change (POk (EConst (PInt (Z.of_nat (Pos.to_nat p)))) rest
            = POk (EConst (PInt (Z.pos p))) rest).
    rewrite positive_nat_Z. reflexivity.
  - destruct f as [|f]; [lia |].
    change (POk (EConst (PInt (- Z.of_nat (Pos.to_nat p)))) rest
            = POk (EConst (PInt (Z.neg p))) rest).
    rewrite positive_nat_Z. reflexivity.
Qed.

Lemma parses_nat n : parses [TInt n] (EConst (PInt (Z.of_nat n))).
Proof.
  split; [exact I |]. intros rest f _ L.
  destruct f as [|f]; [cbn in L; lia |]. reflexivity.
Qed.

Lemma parse_trailers_end f e rest :
  follows rest -> parse_trailers (S f) e rest = POk e rest.
Proof.
  intros F. destruct rest as [|t r]; [reflexivity |].
  destruct t; try contradiction; reflexivity.
Qed.

(** The tokens of a value are parsed to its expression. *)
Lemma parses_value v : parses (toks v) (expr_of v).
Proof.
  induction v as [| b | z | s | xs IH | items IH | oid | dt]
    using pyval_induction.
  - split; [exact I |]. intros rest f _ L.
    destruct f as [|f]; [cbn in L; lia |]. reflexivity.
  - split; [destruct b; exact I |]. intros rest f _ L.
    destruct f as [|f]; [cbn in L; lia |]. destruct b; reflexivity.
  - apply parses_int.
  - split; [exact I |]. intros rest f _ L.
    destruct f as [|f]; [cbn in L; lia |]. reflexivity.
  - split; [exact I |]. intros rest f Fo L. cbn [toks expr_of] in *.
    destruct f as [|f]; [lia |].
    destruct xs as [|x xs]; [reflexivity |].
    set (its := map (fun y => (toks y, expr_of y)) (x :: xs)).
    assert (E1 : map toks (x :: xs) = map fst its)
      by (unfold its; rewrite map_map; reflexivity).
    assert (E2 : map expr_of (x :: xs) = map snd its)
      by (unfold its; rewrite map_map; reflexivity).
    assert (Fi : Forall (fun it => parses (fst it) (snd it)) its).
    { unfold its. apply Forall_map. exact IH. }
    assert (Ni : its <> []) by (unfold its; discriminate).
    rewrite E1, E2 in *.
    change ((TLBrack :: sep_by (map fst its) ++ [TRBrack]) ++ rest)
      with (TLBrack :: ((sep_by (map fst its) ++ [TRBrack]) ++ rest)).
    rewrite <- List.app_assoc.
    change ([TRBrack] ++ rest) with (TRBrack :: rest).
    assert (St : starts (sep_by (map fst its) ++ TRBrack :: rest)).
    { apply starts_sep_by.
      - apply Forall_map. eapply Forall_impl; [| exact Fi].
        intros it [S _]. exact S.
      - destruct its; [congruence | discriminate]. }
    assert (R : parse_items f TRBrack
                  (sep_by (map fst its) ++ TRBrack :: rest)
                = POk (map snd its) rest).
    { apply parse_items_ok; auto; [left; reflexivity |].
      unfold items_size. rewrite <- (map_map fst (fun ts => S (List.length ts))).
      rewrite sep_by_length by (destruct its; [congruence | discriminate]).
      cbn [List.length] in L. rewrite List.length_app in L. cbn [List.length] in L. lia. }
    cbn [parse_expr].
    destruct (sep_by (map fst its) ++ TRBrack :: rest) as [|t r] eqn:E;
      [contradiction |].
    destruct t; try contradiction; rewrite R; reflexivity.
  - split; [exact I |]. intros rest f Fo L. cbn [toks expr_of] in *.
    destruct f as [|f]; [lia |].
    destruct items as [|kx items]; [reflexivity |].
    set (kvs := map (fun '(k, x) => ((toks k, expr_of k), (toks x, expr_of x)))
                    (kx :: items)).
    assert (E1 : map (fun '(k, x) => toks k ++ TColon :: toks x) (kx :: items)
                 = map pair_toks kvs).
    { unfold kvs. rewrite map_map. apply map_ext. intros [k x]. reflexivity. }
    assert (E2 : map (fun '(k, x) => (expr_of k, expr_of x)) (kx :: items)
                 = map (fun kv => (snd (fst kv), snd (snd kv))) kvs).
    { unfold kvs. rewrite map_map. apply map_ext. intros [k x]. reflexivity. }
    assert (Fi : Forall (fun kv => parses (fst (fst kv)) (snd (fst kv))
                                   /\ parses (fst (snd kv)) (snd (snd kv))) kvs).
    { unfold kvs. apply Forall_map. eapply Forall_impl; [| exact IH].
      intros [k x] H. exact H. }
    assert (Ni : kvs <> []) by (unfold kvs; discriminate).
    rewrite E1, E2 in *.
    change ((TLBrace :: sep_by (map pair_toks kvs) ++ [TRBrace]) ++ rest)
      with (TLBrace :: ((sep_by (map pair_toks kvs) ++ [TRBrace]) ++ rest)).
    rewrite <- List.app_assoc.
    change ([TRBrace] ++ rest) with (TRBrace :: rest).
    assert (St : starts (sep_by (map pair_toks kvs) ++ TRBrace :: rest)).
    { apply starts_sep_by.
      - apply Forall_map. eapply Forall_impl; [| exact Fi].
        intros [[tk ek] [tx ex]] [[S _] _]. unfold pair_toks. cbn [fst snd] in *.
        destruct tk; [contradiction | exact S].
      - destruct kvs; [congruence | discriminate]. }
    assert (R : parse_pairs f (sep_by (map pair_toks kvs) ++ TRBrace :: rest)
                = POk (map (fun kv => (snd (fst kv), snd (snd kv))) kvs) rest).
    { apply parse_pairs_ok; auto.
      assert (Sz : pairs_size kvs
                   = list_sum (map (fun ts => S (List.length ts))
                                   (map pair_toks kvs))).
      { unfold pairs_size. rewrite map_map. f_equal. apply map_ext.
        intros [[tk ek] [tx ex]]. unfold pair_toks. cbn [fst snd].
        rewrite List.length_app. cbn [List.length]. lia. }
      rewrite Sz, sep_by_length by (destruct kvs; [congruence | discriminate]).
      cbn [List.length] in L. rewrite List.length_app in L. cbn [List.length] in L. lia. }
    cbn [parse_expr].
    destruct (sep_by (map pair_toks kvs) ++ TRBrace :: rest) as [|t r] eqn:E;
      [contradiction |].
    destruct t; try contradiction; rewrite R; reflexivity.
  - split; [exact I |]. intros rest f Fo L. cbn [toks expr_of List.length] in *.
    do 4 (destruct f as [|f]; [lia |]).
    change (parse_trailers (S (S f))
              (ECall (EName "ObjectId") [EConst (PStr oid)]) rest
            = POk (ECall (EName "ObjectId") [EConst (PStr oid)]) rest).
    apply parse_trailers_end. exact Fo.
  - split; [exact I |]. intros rest f Fo L. cbn [toks expr_of] in *.
    set (its := map (fun n => ([TInt n], EConst (PInt (Z.of_nat n))))
                    (shown_fields dt)).
    assert (E1 : map (fun n => [TInt n]) (shown_fields dt) = map fst its)
      by (unfold its; rewrite map_map; reflexivity).
    assert (E2 : map (fun n => EConst (PInt (Z.of_nat n))) (shown_fields dt)
                 = map snd its)
      by (unfold its; rewrite map_map; reflexivity).
    assert (Fi : Forall (fun it => parses (fst it) (snd it)) its).
    { unfold its. apply Forall_map. apply Forall_forall. intros n _.
      apply parses_nat. }
    assert (Ni : its <> []).
    { unfold its, shown_fields.
      destruct (microsecond dt =? 0); [destruct (second dt =? 0) |];
        discriminate. }
    rewrite E1, E2 in *.
    cbn [List.length] in L. rewrite List.length_app in L. cbn [List.length] in L.
    do 3 (destruct f as [|f]; [lia |]).
    assert (R : parse_items f TRParen
                  (sep_by (map fst its) ++ TRParen :: rest)
                = POk (map snd its) rest).
    { apply parse_items_ok; auto; [right; reflexivity |].
      unfold items_size. rewrite <- (map_map fst (fun ts => S (List.length ts))).
      rewrite sep_by_length by (destruct its; [congruence | discriminate]).
      lia. }
    assert (St : starts (sep_by (map fst its) ++ TRParen :: rest)).
    { apply starts_sep_by.
      - apply Forall_map. eapply Forall_impl; [| exact Fi].
        intros it [S _]. exact S.
      - destruct its; [congruence | discriminate]. }
    change ((TName "datetime" :: TDot :: TName "datetime" :: TLParen
             :: sep_by (map fst its) ++ [TRParen]) ++ rest)
      with (TName "datetime" :: TDot :: TName "datetime" :: TLParen
            :: ((sep_by (map fst its) ++ [TRParen]) ++ rest)).
    rewrite <- List.app_assoc.
    change ([TRParen] ++ rest) with (TRParen :: rest).
    change (parse_expr (S (S (S f)))
              (TName "datetime" :: TDot :: TName "datetime" :: TLParen
               :: sep_by (map fst its) ++ TRParen :: rest))
      with (parse_trailers (S f) (EAttr (EName "datetime") "datetime")
              (TLParen :: sep_by (map fst its) ++ TRParen :: rest)).
    destruct f as [|f]; [destruct its; [congruence | cbn in R; discriminate] |].
    cbn [parse_trailers].
    destruct (sep_by (map fst its) ++ TRParen :: rest) as [|t r] eqn:E;
      [contradiction |].
    destruct t; try contradiction; rewrite R;
      apply parse_trailers_end; exact Fo.
Qed.

(** *** Nesting *)

Lemma nesting_ge ts : forall d, d <= nesting d ts.
Proof.
  induction ts as [|t ts IH]; intros d; [apply Nat.le_refl |].
  destruct t; cbn [nesting]; try apply IH; lia.
Qed.

(** The brackets of [ts] nest at most [k] deep. *)
Definition nests (ts : list token) (k : nat) : Prop :=
  forall d rest, nesting d (ts ++ rest) <= Nat.max (d + k) (nesting d rest).

Lemma nests_nil : nests [] 0.
Proof. intros d rest. cbn [List.app]. lia. Qed.

Lemma nests_weaken ts k k' : nests ts k -> k <= k' -> nests ts k'.
Proof. intros H L d rest. specialize (H d rest). lia. Qed.

Lemma nests_app ts1 ts2 k : nests ts1 k -> nests ts2 k -> nests (ts1 ++ ts2) k.
Proof.
  intros H1 H2 d rest. rewrite <- List.app_assoc.
  specialize (H1 d (ts2 ++ rest)). specialize (H2 d rest). lia.
Qed.

Definition is_bracket (t : token) : bool :=
  match t with
  | TLBrace | TRBrace | TLBrack | TRBrack | TLParen | TRParen => true
  | _ => false
  end.

Lemma nests_plain t : is_bracket t = false -> nests [t] 0.
Proof.
  intros H d rest. pose proof (nesting_ge rest d).
  destruct t; try discriminate; cbn [List.app nesting]; lia.
Qed.

Lemma nests_display topen tclose ts k :
  (topen = TLBrace \/ topen = TLBrack \/ topen = TLParen) ->
  (tclose = TRBrace \/ tclose = TRBrack \/ tclose = TRParen) ->
  nests ts k -> nests (topen :: ts ++ [tclose]) (S k).
Proof.
  intros Ho Hc H d rest.
  change ((topen :: ts ++ [tclose]) ++ rest)
    with (topen :: ((ts ++ [tclose]) ++ rest)).
  rewrite <- List.app_assoc. change ([tclose] ++ rest) with (tclose :: rest).
  specialize (H (S d) (tclose :: rest)).
  assert (E : nesting (S d) (tclose :: rest) = Nat.max (S d) (nesting d rest))
    by (destruct Hc as [-> | [-> | ->]]; reflexivity).
  rewrite E in H.
  assert (E2 : nesting d (topen :: ts ++ tclose :: rest)
               = Nat.max d (nesting (S d) (ts ++ tclose :: rest)))
    by (destruct Ho as [-> | [-> | ->]]; reflexivity).
  rewrite E2. lia.
Qed.

Lemma nests_sep_by tss ks :
  Forall2 nests tss ks -> nests (sep_by tss) (list_max ks).
Proof.
  induction 1 as [|ts k tss ks H F IH]; [apply nests_nil |].
  destruct tss as [|ts2 tss].
  - inversion F; subst. cbn [sep_by list_max fold_right].
    eapply nests_weaken; [exact H | lia].
  - change (sep_by (ts :: ts2 :: tss)) with (ts ++ TComma :: sep_by (ts2 :: tss)).
    change (list_max (k :: ks)) with (Nat.max k (list_max ks)).
    apply nests_app; [eapply nests_weaken; [exact H | lia] |].
    change (TComma :: sep_by (ts2 :: tss))
      with ([TComma] ++ sep_by (ts2 :: tss)).
    apply nests_app.
    + eapply nests_weaken; [apply nests_plain; reflexivity | lia].
    + eapply nests_weaken; [exact IH | lia].
Qed.

Lemma nests_value v : nests (toks v) (depth v).
Proof.
  induction v as [| b | z | s | xs IH | items IH | oid | dt]
    using pyval_induction.
  - apply nests_plain. reflexivity.
  - destruct b; apply nests_plain; reflexivity.
  - destruct z; cbn [toks int_toks depth]; try (apply nests_plain; reflexivity).
    change [TMinus; TInt (Pos.to_nat p)] with ([TMinus] ++ [TInt (Pos.to_nat p)]).
    apply nests_app; apply nests_plain; reflexivity.
  - apply nests_plain. reflexivity.
  - cbn [toks depth]. apply nests_display; auto.
    apply nests_sep_by. induction IH; cbn [map]; constructor; auto.
  - cbn [toks depth]. apply nests_display; auto.
    apply nests_sep_by.
    induction IH as [|[k x] items [Hk Hx] _ IHi]; cbn [map]; constructor; auto.
    cbn [fst snd] in *. apply nests_app.
    + eapply nests_weaken; [exact Hk | lia].
    + change (TColon :: toks x) with ([TColon] ++ toks x). apply nests_app.
      * eapply nests_weaken; [apply nests_plain; reflexivity | lia].
      * eapply nests_weaken; [exact Hx | lia].
  - intros d rest. pose proof (nesting_ge rest d).
    cbn [toks depth List.app nesting Nat.pred]. lia.
  - cbn [toks depth].
    change (TName "datetime" :: TDot :: TName "datetime" :: TLParen
            :: sep_by (map (fun n => [TInt n]) (shown_fields dt)) ++ [TRParen])
      with ([TName "datetime"; TDot; TName "datetime"]
            ++ (TLParen :: sep_by (map (fun n => [TInt n]) (shown_fields dt))
                ++ [TRParen])).
    apply nests_app.
    + intros d rest. pose proof (nesting_ge rest d). cbn [List.app nesting]. lia.
    + apply (nests_display TLParen TRParen _ 0); auto.
      replace 0 with (list_max (map (fun _ : nat => 0) (shown_fields dt))).
      * apply nests_sep_by. induction (shown_fields dt); cbn [map];
          constructor; auto. apply nests_plain. reflexivity.
      * induction (shown_fields dt) as [|n l IHl]; [reflexivity |].
        cbn [map]. change (list_max (0 :: map (fun _ : nat => 0) l))
          with (Nat.max 0 (list_max (map (fun _ : nat => 0) l))).
        rewrite IHl. reflexivity.
Qed.

Lemma nesting_value v : nesting 0 (toks v) <= depth v.
Proof.
  pose proof (nests_value v 0 []) as H. rewrite List.app_nil_r in H.
  cbn [nesting] in H. lia.
Qed.

(** *** Evaluation *)

(** The exception the evaluation of the text of a value meets first, going
    from left to right: an object identifier is a call of a name bound
    nowhere, a datetime an attribute the class [datetime] does not have. *)
Fixpoint first_error (v : pyval) : option exn :=
  match v with
  | PObjectId _ => Some (name_error "ObjectId")
  | PDatetime _ => Some datetime_attribute_error
  | PList xs =>
      (fix go (l : list pyval) : option exn :=
         match l with
         | [] => None
         | x :: r =>
             match first_error x with
             | Some e => Some e
             | None => go r
             end
         end) xs
  | PDict items =>
      (fix go (l : list (pyval * pyval)) : option exn :=
         match l with
         | [] => None
         | (k, x) :: r =>
             match first_error k with
             | Some e => Some e
             | None =>
                 match first_error x with
                 | Some e => Some e
                 | None => go r
                 end
             end
         end) items
  | _ => None
  end.

Definition decodes (v : pyval) : outcome pyval :=
  match first_error v with
  | Some e => Raises e
  | None => Value v
  end.

Lemma first_error_plain v : first_error v = None <-> plain v = true.
Proof.
  induction v as [| b | z | s | xs IH | items IH | oid | dt]
    using pyval_induction; cbn [first_error plain]; try tauto;
    try (split; discriminate).
  - induction IH as [|x xs Hx _ IHxs]; [tauto |].
    cbn [forallb]. rewrite andb_true_iff, <- Hx, <- IHxs.
    destruct (first_error x); [split; [discriminate | intros [? _]; discriminate] | tauto].
  - induction IH as [|[k x] items [Hk Hx] _ IHi]; [tauto |].
    cbn [forallb fst snd] in *. rewrite !andb_true_iff, <- Hk, <- Hx, <- IHi.
    destruct (first_error k);
      [split; [discriminate | intros [[? _] _]; discriminate] |].
    destruct (first_error x);
      [split; [discriminate | intros [[_ ?] _]; discriminate] | tauto].
Qed.

Lemma first_error_cases v e :
  first_error v = Some e ->
  e = name_error "ObjectId" \/ e = datetime_attribute_error.
Proof.
  induction v as [| b | z | s | xs IH | items IH | oid | dt]
    using pyval_induction; cbn [first_error]; try discriminate.
  - induction IH as [|x xs Hx _ IHxs]; [discriminate |].
    destruct (first_error x); [intros H; apply Hx; exact H | exact IHxs].
  - induction IH as [|[k x] items [Hk Hx] _ IHi]; [discriminate |].
    cbn [fst snd] in *.
    destruct (first_error k); [intros H; apply Hk; exact H |].
    destruct (first_error x); [intros H; apply Hx; exact H | exact IHi].
  - intros H. inversion H. auto.
  - intros H. inversion H. auto.
Qed.

(** A key that is set in a dictionary none of whose keys equals it goes
    to the end. *)
Lemma dict_set_new items k x :
  forallb (fun kv => negb (key_eqb (fst kv) k)) items = true ->
  dict_set items k x = items ++ [(k, x)].
Proof.
  induction items as [|[k0 x0] items IH]; intros H; [reflexivity |].
  cbn [forallb fst] in H. apply andb_prop in H. destruct H as [H0 H].
  apply negb_true_iff in H0. cbn [dict_set]. rewrite H0, IH by exact H.
  reflexivity.
Qed.

Lemma distinct_snoc ks k :
  distinct (ks ++ [k])
  = distinct ks && forallb (fun k0 => negb (key_eqb k0 k)) ks.
Proof.
  induction ks as [|k1 ks IH]; [reflexivity |].
  cbn [List.app distinct forallb]. rewrite IH, forallb_app. cbn [forallb].
  rewrite andb_true_r.
  destruct (forallb (fun k' => negb (key_eqb k1 k')) ks),
           (negb (key_eqb k1 k)), (distinct ks),
           (forallb (fun k0 => negb (key_eqb k0 k)) ks); reflexivity.
Qed.

Lemma build_items items : forall acc,
  distinct (map fst (acc ++ items)) = true ->
  fold_left (fun d kv => dict_set d (fst kv) (snd kv)) items acc
  = acc ++ items.
Proof.
  induction items as [|[k x] items IH]; intros acc D.
  - cbn [fold_left]. rewrite List.app_nil_r. reflexivity.
  - cbn [fold_left fst snd].
    assert (E : acc ++ (k, x) :: items = (acc ++ [(k, x)]) ++ items)
      by (rewrite <- List.app_assoc; reflexivity).
    rewrite E in *. rewrite map_app in D.
    assert (D1 : distinct (map fst (acc ++ [(k, x)])) = true).
    { clear - D. revert D.
      generalize (map fst (acc ++ [(k, x)])) as l1.
      generalize (map fst items) as l2.
      intros l2 l1. induction l1 as [|a l1 IHl]; [reflexivity |].
      cbn [List.app distinct]. rewrite forallb_app, !andb_true_iff.
      intros [[H1 _] H2]. auto. }
    rewrite dict_set_new.
    + apply IH. rewrite map_app. exact D.
    + rewrite map_app in D1. cbn [map fst] in D1.
      rewrite distinct_snoc in D1. apply andb_prop in D1.
      destruct D1 as [_ D1]. rewrite forallb_forall in *.
      intros kv Hkv. apply D1. apply in_map. exact Hkv.
Qed.

Lemma build_dict_items items :
  forallb (fun '(k, x) => is_text k) items = true ->
  distinct (map fst items) = true ->
  build_dict items = Some (Value (PDict items)).
Proof.
  intros T D. unfold build_dict.
  assert (H : forallb (fun kv => hashable (fst kv)) items = true).
  { rewrite forallb_forall in *. intros [k x] Hin. specialize (T _ Hin).
    cbn in *. destruct k; try discriminate. reflexivity. }
  rewrite H, (build_items items []) by exact D. reflexivity.
Qed.

(** The expression of a value evaluates to the value, or raises the first
    exception its extended scalars cause. *)
Lemma eval_expr_of v :
  is_value v = true -> eval_expr (expr_of v) = Some (decodes v).
Proof.
  unfold decodes.
  induction v as [| b | z | s | xs IH | items IH | oid | dt]
    using pyval_induction; intros W; try reflexivity.
  - cbn [expr_of eval_expr first_error]. cbn [is_value] in W.
    assert (G : (fix eval_list (es : list expr) : option (outcome (list pyval)) :=
                   match es with
                   | [] => Some (Value [])
                   | e1 :: r =>
                       match eval_expr e1 with
                       | Some (Value v) =>
                           match eval_list r with
                           | Some (Value vs) => Some (Value (v :: vs))
                           | other => other
                           end
                       | Some (Raises ex) => Some (Raises ex)
                       | None => None
                       end
                   end) (map expr_of xs)
                = Some (match (fix go (l : list pyval) : option exn :=
                                 match l with
                                 | [] => None
                                 | x :: r =>
                                     match first_error x with
                                     | Some e => Some e
                                     | None => go r
                                     end
                                 end) xs with
                        | Some e => Raises e
                        | None => Value xs
                        end)).
    { induction IH as [|x xs Hx _ IHxs]; [reflexivity |].
      cbn [forallb] in W. apply andb_prop in W. destruct W as [Wx W].
      cbn [map]. rewrite (Hx Wx). destruct (first_error x); [reflexivity |].
      rewrite (IHxs W). destruct (_ xs); reflexivity. }
    rewrite G. destruct (_ xs); reflexivity.
  - cbn [expr_of eval_expr first_error]. cbn [is_value] in W.
    apply andb_prop in W. destruct W as [W D].
    assert (T : forallb (fun '(k, x) => is_text k) items = true).
    { rewrite forallb_forall in *. intros [k x] Hin. specialize (W _ Hin).
      cbn in W. apply andb_prop in W. apply W. }
    assert (G : (fix eval_pairs (kvs : list (expr * expr))
                   : option (outcome (list (pyval * pyval))) :=
                   match kvs with
                   | [] => Some (Value [])
                   | (ke, xe) :: r =>
                       match eval_expr ke with
                       | Some (Value k) =>
                           match eval_expr xe with
                           | Some (Value x) =>
                               match eval_pairs r with
                               | Some (Value ps) => Some (Value ((k, x) :: ps))
                               | other => other
                               end
                           | Some (Raises ex) => Some (Raises ex)
                           | None => None
                           end
                       | Some (Raises ex) => Some (Raises ex)
                       | None => None
                       end
                   end) (map (fun '(k, x) => (expr_of k, expr_of x)) items)
                = Some (match (fix go (l : list (pyval * pyval)) : option exn :=
                                 match l with
                                 | [] => None
                                 | (k, x) :: r =>
                                     match first_error k with
                                     | Some e => Some e
                                     | None =>
                                         match first_error x with
                                         | Some e => Some e
                                         | None => go r
                                         end
                                     end
                                 end) items with
                        | Some e => Raises e
                        | None => Value items
                        end)).
    { clear D T. induction IH as [|[k x] items [Hk Hx] _ IHi]; [reflexivity |].
      cbn [forallb] in W. apply andb_prop in W. destruct W as [Wkx W].
      apply andb_prop in Wkx. destruct Wkx as [Wk Wx].
      cbn [fst snd] in *. cbn [map].
      destruct k; try discriminate.
      rewrite (Hx Wx). cbn [eval_expr expr_of first_error].
      destruct (first_error x); [reflexivity |].
      rewrite (IHi W). destruct (_ items); reflexivity. }
    rewrite G. destruct (_ items); [reflexivity |].
    apply build_dict_items; assumption.
Qed.

(** *** The whole of [eval] *)

Lemma parse_toks v :
  depth v <= max_nesting -> parse (toks v) = Some (Value (expr_of v)).
Proof.
  intros D. unfold parse.
  assert (N : (max_nesting <? nesting 0 (toks v)) = false).
  { apply Nat.ltb_ge. pose proof (nesting_value v). lia. }
  rewrite N. destruct (parses_value v) as [_ P].
  specialize (P [] (2 * List.length (toks v) + 2) I ltac:(lia)).
  rewrite List.app_nil_r in P. rewrite P. reflexivity.
Qed.

(** [eval] on the text of a value. *)
Lemma py_eval_str v :
  is_value v = true -> depth v <= max_nesting ->
  py_eval (str v) = Some (decodes v).
Proof.
  intros W D. unfold py_eval, str.
  rewrite (scans_end _ _ (scans_repr v W)), (parse_toks v D).
  apply eval_expr_of. exact W.
Qed.

(** *** The lines of documents *)

Section Lines.
Import RestoreSpec.
Variable eval : string -> outcome pyval.
Hypothesis eval_extends : extends_py_eval eval.

Lemma classify_line_of d :
  is_document d = true -> depth d <= max_nesting ->
  classify eval (line_of d)
  = match first_error d with
    | None => Decodable d
    | Some e => Malformed e
    end.
Proof.
  intros W D. destruct d as [| | | | |items| |]; try discriminate.
  cbn [is_document] in W. unfold classify, looks_like_document.
  rewrite strip_line_of_dict, startswith_dict.
  rewrite (eval_extends _ _ (py_eval_str _ W D)). unfold decodes.
  destruct (first_error (PDict items)) as [e|] eqn:E; [| reflexivity].
  destruct (first_error_cases _ _ E) as [-> | ->]; reflexivity.
Qed.

Lemma decoded_lines docs :
  Forall (fun d => is_document d = true /\ depth d <= max_nesting) docs ->
  decoded eval (map line_of docs) = filter plain docs.
Proof.
  induction 1 as [|d docs [W D] _ IH]; [reflexivity |].
  cbn [map decoded flat_map filter]. fold (decoded eval (map line_of docs)).
  rewrite (classify_line_of d W D), IH.
  destruct (first_error d) as [e|] eqn:E.
  - assert (P : plain d = false).
    { destruct (plain d) eqn:P; [| reflexivity].
      apply first_error_plain in P. congruence. }
    rewrite P. reflexivity.
  - apply first_error_plain in E. rewrite E. reflexivity.
Qed.

Lemma malformed_lines docs :
  Forall (fun d => is_document d = true /\ depth d <= max_nesting) docs ->
  List.length (filter (is_malformed eval) (map line_of docs))
  = List.length (filter (fun d => negb (plain d)) docs).
Proof.
  induction 1 as [|d docs [W D] _ IH]; [reflexivity |].
  cbn [map filter]. unfold is_malformed at 1.
  rewrite (classify_line_of d W D).
  destruct (first_error d) as [e|] eqn:E.
  - assert (P : plain d = false).
    { destruct (plain d) eqn:P; [| reflexivity].
      apply first_error_plain in P. congruence. }
    rewrite P. cbn [negb List.length]. rewrite IH. reflexivity.
  - apply first_error_plain in E. rewrite E. cbn [negb]. exact IH.
Qed.

End Lines.

End EvalFacts.

(** ** A snapshot restored *)

Module RoundTripFacts.
Import PyStr PyVal Exn FS Mongo Run MongoDBSnapshot RunFacts Frames.
Import PyEval(outcome, Value, Raises, extends_py_eval, max_nesting).
Import RestoreSpec StoreSpec DocumentSpec.
Import MongoFacts StrFacts FSFacts RestoreFacts CreateFacts ContentFacts.

Section Tracked.
Variable fs0 : fs.
Variable sp0 : string.

(** Collection [c] of database [d] has a Collection File in the snapshot
    at [sp0]: [d] is an entry of the snapshot and [c.json] an entry of
    [d]. *)
Definition touches (d c : string) : Prop :=
  exists names fnames,
    FS.listdir fs0 sp0 = Ok names /\ In d names
    /\ FS.listdir fs0 (join sp0 d) = Ok fnames
    /\ In (c +++ ".json") fnames.

(** The collections without a Collection File hold what they held. *)
Definition untouched (s s' : state) : Prop :=
  forall d c, ~ touches d c -> find (server_ s') d c = find (server_ s) d c.

#[local] Instance untouched_pre : PreOrder untouched.
Proof.
  split.
  - intros s d c _. reflexivity.
  - intros a b c H1 H2 d x N. rewrite (H2 d x N). apply H1. exact N.
Qed.

Definition tracked : state -> state -> Prop :=
  rel_and same_files (rel_and same_config untouched).

#[local] Instance tracked_pre : PreOrder tracked.
Proof. unfold tracked. typeclasses eauto. Qed.

Lemma tracked_of_steady s s' : steady s s' -> tracked s s'.
Proof.
  intros (F & S & V). unfold same_self, same_server in *.
  split; [exact F |]. split.
  - unfold same_config. rewrite S. auto.
  - intros d c _. rewrite V. reflexivity.
Qed.

Lemma tracked_of_harmless s s' : harmless s s' -> tracked s s'.
Proof.
  intros (V & F & C & _). unfold same_server in V.
  split; [exact F |]. split; [exact C |].
  intros d c _. rewrite V. reflexivity.
Qed.

Lemma tracked_steady {A} (m : M A) :
  preserves steady m -> preserves tracked m.
Proof. intros H s r s' E. apply tracked_of_steady. eapply H; eauto. Qed.

(** A change of one collection that has a Collection File. *)
Lemma tracked_change (g : server -> server) d0 c0 :
  touches d0 c0 ->
  (forall v d c, (d, c) <> (d0, c0) -> find (g v) d c = find v d c) ->
  preserves tracked (modify (fun s => set_server (g (server_ s)) s)).
Proof.
  intros T G. apply preserves_modify. intros s.
  split; [reflexivity |]. split; [split; reflexivity |].
  intros d c N. cbn [server_ set_server]. apply G.
  intros E. inversion E; subst. contradiction.
Qed.

Ltac tracked_prim db f :=
  first
    [ solve [apply tracked_steady; RestoreFacts.steady_prim]
    | solve [apply (tracked_change (fun v => delete_many v db (drop_last 5 f))
                      db (drop_last 5 f));
             [assumption | intros; apply find_delete_many_other; assumption]]
    | solve [eapply (tracked_change (fun v => insert_many v db (drop_last 5 f) _)
                       db (drop_last 5 f));
             [assumption | intros; apply find_insert_many_other; assumption]] ].

Lemma tracked_restore_collection ev c db p f :
  touches db (drop_last 5 f) ->
  preserves tracked (restore_collection ev c db p f).
Proof. intros T. pres_by ltac:(tracked_prim db f). Qed.

Lemma tracked_logging_info m : preserves tracked (logging_info m).
Proof. apply tracked_steady. apply steady_logging_info. Qed.
Lemma tracked_self_client : preserves tracked self_client.
Proof. apply tracked_steady. apply steady_self_client. Qed.
Lemma tracked_listdir p : preserves tracked (os_listdir p).
Proof. apply tracked_steady. apply steady_listdir. Qed.

Lemma tracked_restore_database ev names0 db s r s' :
  FS.listdir fs0 sp0 = Ok names0 -> In db names0 ->
  files s = fs0 ->
  restore_database ev sp0 db s = (r, s') -> tracked s s'.
Proof.
  intros L0 Hdb F0. unfold restore_database. intros H.
  apply bind_inv in H. destruct H as [(e & H & _) | ([] & s1 & H1 & H)].
  { eapply tracked_logging_info; eauto. }
  assert (Q1 : tracked s s1) by (eapply tracked_logging_info; eauto).
  etransitivity; [exact Q1 |]. destruct Q1 as (F1 & _).
  apply bind_inv in H. destruct H as [(e & H & _) | (c & s2 & H2 & H)].
  { eapply tracked_self_client; eauto. }
  apply self_client_value in H2. subst s2.
  apply bind_inv in H. destruct H as [(e & H & _) | (names & s3 & H3 & H)].
  { eapply tracked_listdir; eauto. }
  pose proof (os_listdir_value _ _ _ _ H3) as L.
  assert (Q3 : tracked s1 s3) by (eapply tracked_listdir; eauto).
  etransitivity; [exact Q3 |].
  unfold bind in H. rewrite collection_files_are_json in H.
  revert H. apply preserves_for_each; [typeclasses eauto |].
  intros f Hf. apply filter_In in Hf. destruct Hf as [Hin Ej].
  apply tracked_restore_collection.
  exists names0, names. unfold same_files in F1. rewrite F1, F0 in L.
  repeat split; auto. rewrite <- (drop_last_json f Ej). exact Hin.
Qed.

Lemma tracked_restore_databases ev names0 dbs : forall s r s',
  FS.listdir fs0 sp0 = Ok names0 ->
  (forall db, In db dbs -> In db names0) ->
  files s = fs0 ->
  for_each dbs (restore_database ev sp0) s = (r, s') -> tracked s s'.
Proof.
  induction dbs as [|db dbs IH]; intros s r s' L0 Hin F0; simpl.
  - intros H; inversion H; subst. reflexivity.
  - intros H. apply bind_inv in H.
    destruct H as [(e & H & _) | ([] & s1 & H1 & H)].
    + eapply tracked_restore_database; eauto. apply Hin. left. reflexivity.
    + assert (Q1 : tracked s s1).
      { eapply tracked_restore_database; eauto. apply Hin. left. reflexivity. }
      etransitivity; [exact Q1 |]. eapply IH; eauto.
      * intros x Hx. apply Hin. right. exact Hx.
      * destruct Q1 as (F1 & _). unfold same_files in F1. congruence.
Qed.

Lemma tracked_release : preserves tracked release.
Proof.
  intros s r s' H. apply tracked_of_harmless. eapply harmless_release; eauto.
Qed.

End Tracked.

(** [restore_snapshot] leaves alone every collection that has no
    Collection File in the snapshot. *)
Lemma restore_snapshot_tracked ev name s r s' :
  restore_snapshot ev name s = (r, s') ->
  tracked (files s) (join (backup_dir (self s)) name) s s'.
Proof.
  set (fs0 := files s). set (sp0 := join (backup_dir (self s)) name).
  pose proof (tracked_pre fs0 sp0) as PO.
  unfold restore_snapshot, try_finally, try_except.
  match goal with |- context [bind get ?k] => set (body := bind get k) end.
  destruct (body s) as [r1 s1] eqn:B.
  assert (QB : tracked fs0 sp0 s s1).
  { subst body. unfold bind at 1, get at 1 in B. apply bind_inv in B.
    assert (Hc : forall ra sa,
               when (is_none (client (self s))) connect s = (ra, sa) ->
               harmless s sa).
    { intros ra sa. apply preserves_when; [typeclasses eauto |].
      apply harmless_connect. }
    destruct B as [(e & B & _) | ([] & sa & Ba & B)].
    - apply tracked_of_harmless. eapply Hc; eauto.
    - pose proof (Hc _ _ Ba) as Qa.
      etransitivity; [apply tracked_of_harmless; exact Qa |].
      destruct Qa as (_ & Fa & (Ca & _) & _). unfold same_files in Fa.
      unfold bind at 1, get at 1 in B. rewrite Ca in B. fold sp0 in B.
      unfold bind at 1, os_path_exists at 1 in B.
      destruct (FS.exists_ (files sa) sp0); simpl in B.
      2:{ inversion B; subst. reflexivity. }
      apply bind_inv in B. destruct B as [(e & B & _) | (names & sb & Bb & B)].
      { eapply tracked_listdir; eauto. }
      pose proof (os_listdir_value _ _ _ _ Bb) as L0.
      rewrite Fa in L0. fold fs0 in L0.
      assert (Qb : tracked fs0 sp0 sa sb) by (eapply tracked_listdir; eauto).
      etransitivity; [exact Qb |]. destruct Qb as (Fb & _).
      unfold same_files in Fb.
      unfold bind at 1 in B. rewrite databases_are_directories in B.
      assert (Hsub : forall db,
                 In db (filter (fun d => FS.isdir (files sb) (join sp0 d)) names) ->
                 In db names).
      { intros db Hdb. apply filter_In in Hdb. apply Hdb. }
      apply bind_inv in B. destruct B as [(e & B & _) | ([] & sc & Bc & B)].
      + eapply tracked_restore_databases; eauto. unfold fs0. congruence.
      + etransitivity.
        * eapply tracked_restore_databases; eauto. unfold fs0. congruence.
        * eapply tracked_logging_info; eauto. }
  assert (Fin : forall s2 r3 s3,
             tracked fs0 sp0 s1 s2 -> release s2 = (r3, s3) ->
             tracked fs0 sp0 s s3).
  { intros s2 r3 s3 Q2 Rl. apply (tracked_release fs0 sp0) in Rl.
    etransitivity; [exact QB |]. etransitivity; [exact Q2 | exact Rl]. }
  destruct r1 as [a|e].
  - destruct (release s1) as [r3 s3] eqn:Rl.
    intros H. assert (s3 = s') by (destruct r3; inversion H; auto). subst s3.
    eapply Fin; [reflexivity | exact Rl].
  - destruct (is_Exception e).
    + destruct (log_and_raise_returns
                  ("Error restoring snapshot: " +++ str_exn e) e s1) as (s2 & L).
      rewrite L. destruct (release s2) as [r3 s3] eqn:Rl.
      intros H. assert (s3 = s') by (destruct r3; inversion H; auto). subst s3.
      eapply Fin; [| exact Rl].
      apply tracked_of_harmless. eapply harmless_log_and_raise; eauto.
    + destruct (release s1) as [r3 s3] eqn:Rl.
      intros H. assert (s3 = s') by (destruct r3; inversion H; auto). subst s3.
      eapply Fin; [reflexivity | exact Rl].
Qed.

(** *** What create wrote, read by restore *)

Lemma in_assoc {A} k (es : list (string * A)) :
  In k (map fst es) -> exists a, assoc k es = Some a.
Proof.
  induction es as [|[k0 a0] es IH]; cbn [map fst In assoc]; [intros [] |].
  destruct (String.eqb k0 k) eqn:E; [eauto |].
  intros [H | H]; [| auto]. subst. rewrite String.eqb_refl in E. discriminate.
Qed.

Lemma assoc_in_fst {A} k (es : list (string * A)) a :
  assoc k es = Some a -> In k (map fst es).
Proof.
  intros H. apply assoc_In in H. apply (in_map fst) in H. exact H.
Qed.

Lemma find_no_database v d c :
  ~ In d (list_database_names v) -> find v d c = [].
Proof.
  intros N. unfold find, get_database.
  destruct (assoc d v) as [db|] eqn:A; [| reflexivity].
  exfalso. apply N. eapply assoc_in_fst; eauto.
Qed.

Lemma find_no_collection v d c :
  ~ In c (list_collection_names v d) -> find v d c = [].
Proof.
  intros N. unfold find. unfold list_collection_names in N.
  destruct (assoc c (get_database v d)) as [docs|] eqn:A; [| reflexivity].
  exfalso. apply N. eapply assoc_in_fst; eauto.
Qed.

Lemma documents_ok_find v d c :
  documents_ok v = true ->
  forallb (fun doc => is_document doc && (depth doc <=? max_nesting))
          (find v d c) = true.
Proof.
  intros H. unfold find, get_database.
  destruct (assoc d v) as [db|] eqn:A; [| reflexivity].
  destruct (assoc c db) as [docs|] eqn:B; [| reflexivity].
  apply assoc_In in A. apply assoc_In in B.
  unfold documents_ok in H. rewrite forallb_forall in H.
  specialize (H _ A). cbn [snd] in H. rewrite forallb_forall in H.
  exact (H _ B).
Qed.

Lemma substring_skip a : forall n b,
  substring (String.length a) n (a +++ b) = substring 0 n b.
Proof. induction a as [|c a IH]; intros n b; [reflexivity | apply IH]. Qed.

Lemma endswith_json c : endswith (c +++ ".json") ".json" = true.
Proof.
  unfold endswith. rewrite length_append.
  replace (String.length c + String.length ".json" - String.length ".json")
    with (String.length c) by lia.
  rewrite substring_skip.
  replace (String.length ".json" <=? String.length c + String.length ".json")
    with true by (symmetry; apply Nat.leb_le; lia).
  reflexivity.
Qed.

Lemma drop_last_5_json c : drop_last 5 (c +++ ".json") = c.
Proof.
  pose proof (drop_last_json _ (endswith_json c)) as E.
  apply append_inj_l in E. symmetry. exact E.
Qed.

(** The listing of a directory of the tree. *)
Lemma listdir_at f p P es :
  resolve f p = Some P -> lookup (root f) P = Some (Dir es) ->
  FS.listdir f p = Ok (map fst es).
Proof. intros R L. unfold FS.listdir, node_at. rewrite R, L. reflexivity. Qed.

Lemma listdir_entry f p P names n :
  resolve f p = Some P -> FS.listdir f p = Ok names -> In n names ->
  exists node, lookup (root f) (P ++ [n]) = Some node.
Proof.
  intros R L Hin. unfold FS.listdir, node_at in L. rewrite R in L.
  destruct (lookup (root f) P) as [[t|es]|] eqn:E; try discriminate.
  inversion L; subst. destruct (in_assoc _ _ Hin) as (a & A).
  exists a. rewrite lookup_child, E. exact A.
Qed.

Lemma entry_listed f P es n node :
  lookup (root f) P = Some (Dir es) ->
  lookup (root f) (P ++ [n]) = Some node -> In n (map fst es).
Proof.
  intros L H. rewrite lookup_child, L in H. eapply assoc_in_fst; eauto.
Qed.

Lemma snapshot_entry_created P0 bp created f n node :
  snapshot_dir P0 bp created f ->
  lookup (root f) (P0 ++ [n]) = Some node -> str_in n created = true.
Proof.
  intros (_ & _ & E) L. specialize (E n). unfold kind in E. rewrite L in E.
  destruct (str_in n created); [reflexivity | discriminate].
Qed.

(** A snapshot restored after the server changed.  [s] is the state
    [create_snapshot] ran in, [t] a later state with the files the run left:
    the collections the run exported hold their documents without extended
    scalars, every other collection holds what it held in [t]. *)
Lemma restore_of_create ev s s1 t s2 :
  extends_py_eval ev ->
  create_snapshot s = (Ok tt, s1) ->
  FS.exists_ (files s) (join (backup_dir (self s)) (strftime (now s))) = false ->
  names_fit_files (server_ s) ->
  documents_ok (server_ s) = true ->
  files t = files s1 ->
  backup_dir (self t) = backup_dir (self s) ->
  restore_snapshot ev (strftime (now s)) t = (Ok tt, s2) ->
  forall d c,
    (str_in d system_databases = false ->
     In d (list_database_names (server_ s)) ->
     In c (list_collection_names (server_ s) d) ->
     find (server_ s2) d c = filter plain (find (server_ s) d c))
    /\ (str_in d system_databases = true
        \/ ~ In d (list_database_names (server_ s))
        \/ ~ In c (list_collection_names (server_ s) d) ->
        find (server_ s2) d c = find (server_ t) d c).
Proof.
  intros Hev Hc Hfresh Fit Docs Ft Bt Hr d c.
  destruct (create_snapshot_holds s s1 Hc Hfresh Fit)
    as (P0 & created & Sd & (Cn & On)).
  destruct (create_snapshot_subdirs s s1 Hc Hfresh Fit)
    as (P0' & created' & Sd' & Sub).
  assert (EP : P0' = P0).
  { destruct Sd as (R & _). destruct Sd' as (R' & _). congruence. }
  subst P0'.
  assert (Sub1 : forall x, str_in x created = true
                           <-> In x (list_database_names (server_ s))
                               /\ str_in x system_databases = false).
  { intros x. rewrite <- (Sub x).
    destruct Sd as (_ & _ & E). destruct Sd' as (_ & _ & E').
    specialize (E x). specialize (E' x). rewrite E in E'.
    destruct (str_in x created), (str_in x created'); try discriminate; tauto. }
  clear Sub Sd' created'.
  set (bp := join (backup_dir (self s)) (strftime (now s))) in *.
  pose proof (restore_snapshot_tracked _ _ _ _ _ Hr) as (_ & _ & Un).
  rewrite Bt, Ft in Un. fold bp in Un.
  pose proof (restore_snapshot_ok _ _ _ _ Hr) as (_ & _ & Ok3).
  rewrite Bt, Ft in Ok3. fold bp in Ok3.
  pose proof Sd as (R0 & K0 & E0).
  destruct (kind_dir_lookup _ _ K0) as (es0 & L0).
  pose proof (listdir_at _ _ _ _ R0 L0) as Ls0.
  pose proof Fit as (Fit1 & Fit2). rewrite Forall_forall in Fit1.
  assert (NotMade : str_in d created = false ->
                    find (server_ s2) d c = find (server_ t) d c).
  { intros Nc. apply Un. intros (names & fnames & L & Hd & _).
    destruct (listdir_entry _ _ _ _ _ R0 L Hd) as (node & Ln).
    rewrite (snapshot_entry_created _ _ _ _ _ _ Sd Ln) in Nc. discriminate. }
  split.
  - intros Sys Hd Hcoll.
    assert (Cr : str_in d created = true) by (apply Sub1; auto).
    assert (Hcomp : is_component d = true) by auto.
    pose proof (E0 d) as Kd. rewrite Cr in Kd.
    destruct (kind_dir_lookup _ _ Kd) as (es1 & L1).
    pose proof (resolve_join _ _ _ _ _ Hcomp R0 L0) as R1.
    pose proof (listdir_at _ _ _ _ R1 L1) as Ls1.
    assert (Hin : In (d, c) (flat_map (exported (server_ s))
                               (list_database_names (server_ s)))).
    { apply in_flat_map. exists d. split; [exact Hd |].
      unfold exported. rewrite Sys. apply in_map. exact Hcoll. }
    pose proof (Cn _ _ Hin) as File.
    assert (Listed : In (c +++ ".json") (map fst es1))
      by (eapply entry_listed; eauto).
    assert (Dir0 : In d (map fst es0)) by (eapply entry_listed; eauto).
    assert (Isd : FS.isdir (files s1) (join bp d) = true).
    { rewrite (snapshot_dir_isdir P0 bp created (files s1) d Sd Hcomp).
      exact Cr. }
    pose proof (Ok3 _ d _ (c +++ ".json") Ls0 Dir0 Isd Ls1 Listed
                  (endswith_json c)) as Hx.
    pose proof (create_snapshot_contents s s1 d c Hc Hfresh Fit Hd Sys Hcoll)
      as Rd.
    fold bp in Rd. specialize (Hx _ Rd). rewrite drop_last_5_json in Hx.
    rewrite Hx.
    pose proof (documents_ok_find _ d c Docs) as Dk.
    assert (F : Forall (fun x => is_document x = true
                                 /\ depth x <= max_nesting)
                       (find (server_ s) d c)).
    { rewrite forallb_forall in Dk. apply Forall_forall. intros x Hx'.
      specialize (Dk x Hx'). apply andb_prop in Dk. destruct Dk as [D1 D2].
      apply Nat.leb_le in D2. auto. }
    rewrite DocFacts.readlines_lines_of.
    + apply EvalFacts.decoded_lines; assumption.
    + eapply Forall_impl; [| exact F]. intros x [Wx _].
      apply DocFacts.has_line_break_repr.
      destruct x; try discriminate; exact Wx.
  - intros Out.
    destruct (str_in d created) eqn:Cr; [| apply NotMade; reflexivity].
    pose proof (proj1 (Sub1 d) Cr) as (Hd & Sys).
    destruct Out as [Out | [Out | Ncoll]]; [congruence | contradiction |].
    assert (Hcomp : is_component d = true) by auto.
    pose proof (E0 d) as Kd. rewrite Cr in Kd.
    destruct (kind_dir_lookup _ _ Kd) as (es1 & L1).
    pose proof (resolve_join _ _ _ _ _ Hcomp R0 L0) as R1.
    apply Un. intros (names & fnames & _ & _ & L & Hf).
    destruct (listdir_entry _ _ _ _ _ R1 L Hf) as (node & Ln).
    destruct (On d (c +++ ".json") node Ln) as (c' & Hc' & E).
    apply append_inj_l in E. subst c'.
    apply Ncoll. apply in_flat_map in Hc'. destruct Hc' as (d' & _ & Hp).
    unfold exported in Hp. destruct (str_in d' system_databases); [destruct Hp |].
    apply in_map_iff in Hp. destruct Hp as (c0 & E & Hc0).
    inversion E; subst. exact Hc0.
Qed.

End RoundTripFacts.
(** ** Where a snapshot is written *)

Module PlaceFacts.
Import PyStr PyVal Exn FS Mongo Run MongoDBSnapshot RunFacts Frames.
Import StoreSpec StampSpec PlaceSpec.
Import StrFacts FSFacts OrderFacts RestoreFacts CreateFacts ContentFacts
       StampFacts.

(** *** Positions off a branch *)

Lemma off_branch_parts : forall p q,
  off_branch p q = true ->
  exists common a b r1 r2,
    a <> b /\ p = common ++ a :: r1 /\ q = common ++ b :: r2.
Proof.
  unfold off_branch.
  induction p as [|a p IH]; intros [|b q]; simpl; try discriminate.
  destruct (String.eqb a b) eqn:E; simpl.
  - apply String.eqb_eq in E. subst b. rewrite String.eqb_refl. simpl.
    intros H. destruct (IH q H) as (cm & x & y & r1 & r2 & N & -> & ->).
    exists (a :: cm), x, y, r1, r2. auto.
  - intros _. apply String.eqb_neq in E.
    exists [], a, b, p, q. auto.
Qed.

(** The positions off the branch of [P] hold in [t'] what they hold in
    [t]. *)
Definition apart (P : list string) (t t' : node) : Prop :=
  forall q, off_branch P q = true -> lookup t' q = lookup t q.

Lemma apart_update P r t new : apart P t (update t (P ++ r) new).
Proof.
  intros q H.
  destruct (off_branch_parts _ _ H) as (cm & a & b & r1 & r2 & N & -> & ->).
  rewrite <- app_assoc. cbn [List.app].
  apply lookup_update_diverge. exact N.
Qed.

(** The files change at or below [P] only, and no directory goes. *)
Definition grows (P : list string) (f f' : fs) : Prop :=
  cwd f' = cwd f
  /\ (forall q, is_dir_at (root f) q = true -> is_dir_at (root f') q = true)
  /\ apart P (root f) (root f').

Lemma grows_refl P f : grows P f f.
Proof.
  split; [reflexivity |]. split; [auto |]. intros q _. reflexivity.
Qed.

Lemma grows_trans P f1 f2 f3 : grows P f1 f2 -> grows P f2 f3 -> grows P f1 f3.
Proof.
  intros (C1 & M1 & A1) (C2 & M2 & A2). split; [congruence |]. split.
  - auto.
  - intros q H. rewrite (A2 q H). auto.
Qed.

Lemma grows_resolve P f f' p pos :
  grows P f f' -> resolve f p = Some pos -> resolve f' p = Some pos.
Proof.
  intros (C & M & _). unfold resolve. destruct p as [|c p']; [auto |].
  rewrite C. apply walk_mono. exact M.
Qed.

(** *** Paths made with [os.path.join] *)

Lemma join_nonempty p n : n <> "" -> join p n <> "".
Proof.
  intros Hn. unfold join. destruct (startswith n "/"); [exact Hn |].
  destruct (String.eqb p "" || endswith p "/").
  - destruct p; simpl; [exact Hn | discriminate].
  - destruct p; simpl; discriminate.
Qed.

Lemma component_nonempty n : is_component n = true -> n <> "".
Proof. intros H ->. discriminate. Qed.

(** The components of [os.path.join(p, n)]: those of [p], then [n]. *)
Lemma join_split f p n pos :
  is_component n = true ->
  resolve f p = Some pos ->
  exists xs,
    split_slash (join p n) = xs ++ [n]
    /\ join p n <> ""
    /\ start f (join p n) = start f p
    /\ walk (root f) (start f p) xs = Some pos.
Proof.
  intros Hn Hp.
  assert (Pne : p <> "") by (intros ->; discriminate).
  rewrite resolve_walk in Hp by auto.
  unfold join. rewrite component_not_absolute by auto.
  destruct (String.eqb p "") eqn:E0; [apply String.eqb_eq in E0; contradiction |].
  simpl. destruct (endswith p "/") eqn:Es.
  - pose proof (endswith_split _ _ Es) as Hsplit. simpl in Hsplit.
    set (a := substring 0 (String.length p - 1) p) in *.
    assert (Pa : p +++ n = a +++ String "/" n).
    { rewrite Hsplit at 1. apply append_assoc. }
    exists (split_slash a). repeat split.
    + rewrite Pa, split_slash_app, (split_slash_component n)
        by (apply component_no_slash; auto). reflexivity.
    + destruct p; [contradiction | discriminate].
    + destruct p; [contradiction | reflexivity].
    + rewrite Hsplit, split_slash_app, walk_app in Hp. simpl in Hp.
      rewrite <- Hsplit in Hp.
      destruct (walk (root f) (start f p) (split_slash a)) as [q|] eqn:W;
        [| discriminate].
      destruct (is_dir_at (root f) q); [| discriminate].
      unfold step in Hp. simpl in Hp. exact Hp.
  - exists (split_slash p). repeat split.
    + rewrite split_slash_app, (split_slash_component n)
        by (apply component_no_slash; auto). reflexivity.
    + destruct p; [contradiction | discriminate].
    + destruct p; [contradiction | reflexivity].
    + exact Hp.
Qed.

(** What [os.path.join(p, n)] resolves to, read backwards: [p] is a
    directory and the position is its entry [n]. *)
Lemma resolve_join_inv f p n P :
  is_component n = true -> p <> "" ->
  resolve f (join p n) = Some P ->
  exists pos, resolve f p = Some pos
              /\ is_dir_at (root f) pos = true /\ P = pos ++ [n].
Proof.
  intros Hn Pne H.
  assert (Jne : join p n <> "")
    by (apply join_nonempty, component_nonempty; exact Hn).
  rewrite resolve_walk in H by exact Jne.
  rewrite (resolve_walk f p Pne).
  unfold join in H. rewrite component_not_absolute in H by auto.
  destruct (String.eqb p "") eqn:E0; [apply String.eqb_eq in E0; contradiction |].
  simpl in H. destruct (endswith p "/") eqn:Es.
  - pose proof (endswith_split _ _ Es) as Hsplit. simpl in Hsplit.
    set (a := substring 0 (String.length p - 1) p) in *.
    assert (Pa : p +++ n = a +++ String "/" n).
    { rewrite Hsplit at 1. apply append_assoc. }
    assert (St : start f (p +++ n) = start f p).
    { destruct p; [contradiction | reflexivity]. }
    rewrite St, Pa, split_slash_app, (split_slash_component n), walk_app in H
      by (apply component_no_slash; auto).
    destruct (walk (root f) (start f p) (split_slash a)) as [q|] eqn:W;
      [| discriminate].
    simpl in H. destruct (is_dir_at (root f) q) eqn:D; [| discriminate].
    rewrite step_component in H by auto. inversion H; subst P.
    exists q. split; [| auto].
    rewrite Hsplit at 2. rewrite split_slash_app, walk_app.
    rewrite W. simpl. rewrite D. reflexivity.
  - assert (St : start f (p +++ String "/" n) = start f p).
    { destruct p; [contradiction | reflexivity]. }
    rewrite St, split_slash_app, (split_slash_component n), walk_app in H
      by (apply component_no_slash; auto).
    destruct (walk (root f) (start f p) (split_slash p)) as [q|] eqn:W;
      [| discriminate].
    simpl in H. destruct (is_dir_at (root f) q) eqn:D; [| discriminate].
    rewrite step_component in H by auto. inversion H; subst P.
    exists q. auto.
Qed.

(** [os.makedirs(os.path.join(p, n))] when [p] is there: it returns only
    when [p] is a directory without an entry [n], which it makes. *)
Lemma makedirs_child f p n pos f' :
  is_component n = true ->
  resolve f p = Some pos ->
  lookup (root f) pos <> None ->
  makedirs f (join p n) = Ok f' ->
  is_dir_at (root f) pos = true
  /\ lookup (root f) (pos ++ [n]) = None
  /\ f' = with_root f (update (root f) (pos ++ [n]) (Dir [])).
Proof.
  intros Hn Hp Hq.
  destruct (join_split f p n pos Hn Hp) as (xs & Sp & Ne & St & W).
  unfold makedirs. destruct (join p n) as [|c j] eqn:J; [congruence |].
  change (if Ascii.eqb c "/" then [] else cwd f) with (start f (String c j)).
  rewrite St, Sp.
  destruct (makedirs_walk_existing xs (root f) (start f p) pos [n] false
              (String c j) W Hq) as (fresh' & ->).
  simpl. destruct (is_dir_at (root f) pos); [| discriminate].
  rewrite step_component by auto.
  assert (E1 : String.eqb n "" = false)
    by (destruct (String.eqb n "") eqn:X; auto;
        apply String.eqb_eq in X; subst; discriminate).
  assert (E2 : String.eqb n "." = false)
    by (destruct (String.eqb n ".") eqn:X; auto;
        apply String.eqb_eq in X; subst; discriminate).
  rewrite E1, E2. simpl.
  destruct (lookup (root f) (pos ++ [n])); [discriminate |].
  intros H. inversion H. auto.
Qed.

Lemma write_text_root f p s0 f' :
  write_text f p s0 = Ok f' ->
  exists pos, resolve f p = Some pos
              /\ f' = with_root f (update (root f) pos (File s0)).
Proof.
  unfold write_text. destruct (resolve f p) as [pos|]; [| discriminate].
  intros H. exists pos. split; [reflexivity |].
  destruct (lookup (root f) pos) as [[s1|es]|]; try discriminate;
    (destruct pos; [discriminate |]);
    (destruct (is_dir_at (root f) (removelast (s :: pos)));
     [inversion H; reflexivity | discriminate]).
Qed.

Lemma append_text_root f p s0 f' :
  append_text f p s0 = Ok f' ->
  exists pos new, resolve f p = Some pos
                  /\ f' = with_root f (update (root f) pos new).
Proof.
  unfold append_text. destruct (resolve f p) as [pos|]; [| discriminate].
  destruct (lookup (root f) pos) as [[s1|es]|]; try discriminate.
  intros H. inversion H. eauto.
Qed.

Section Under.
Variable P0 : list string.
Variable bp : string.

Lemma resolve_under f d cj pos :
  resolve f bp = Some P0 ->
  is_component d = true -> is_component cj = true ->
  resolve f (join (join bp d) cj) = Some pos ->
  pos = P0 ++ [d; cj] /\ is_dir_at (root f) P0 = true.
Proof.
  intros R Hd Hc H.
  apply resolve_join_inv in H; auto.
  2:{ apply join_nonempty, component_nonempty; exact Hd. }
  destruct H as (q & Rq & _ & ->).
  apply resolve_join_inv in Rq; auto.
  2:{ intros ->. discriminate. }
  destruct Rq as (q0 & R0 & D0 & ->).
  rewrite R in R0. inversion R0; subst q0.
  rewrite <- app_assoc. auto.
Qed.

Lemma makedirs_under f d f' :
  resolve f bp = Some P0 -> lookup (root f) P0 <> None ->
  is_component d = true ->
  makedirs f (join bp d) = Ok f' ->
  grows P0 f f' /\ is_dir_at (root f) P0 = true.
Proof.
  intros R L Hd Mk.
  destruct (makedirs_child _ _ _ _ _ Hd R L Mk) as (D & N & ->).
  split; [| exact D]. split; [reflexivity |]. split.
  - intros q Hq. cbn [root with_root]. apply is_dir_at_update_dir; auto.
  - cbn [root with_root]. apply apart_update.
Qed.

Lemma write_under f d cj text f' :
  resolve f bp = Some P0 ->
  is_component d = true -> is_component cj = true ->
  write_text f (join (join bp d) cj) text = Ok f' ->
  grows P0 f f' /\ is_dir_at (root f) P0 = true.
Proof.
  intros R Hd Hc W.
  destruct (write_text_kind _ _ _ _ W) as (C & M & _).
  destruct (write_text_root _ _ _ _ W) as (pos & Rp & ->).
  destruct (resolve_under _ _ _ _ R Hd Hc Rp) as (-> & D).
  split; [| exact D]. split; [exact C |]. split.
  - intros q Hq. rewrite <- M. exact Hq.
  - cbn [root with_root]. apply apart_update.
Qed.

Lemma append_under f d cj text f' :
  resolve f bp = Some P0 ->
  is_component d = true -> is_component cj = true ->
  append_text f (join (join bp d) cj) text = Ok f' ->
  grows P0 f f' /\ is_dir_at (root f) P0 = true.
Proof.
  intros R Hd Hc W.
  destruct (append_text_kind _ _ _ _ W) as (C & K).
  destruct (append_text_root _ _ _ _ W) as (pos & new & Rp & ->).
  destruct (resolve_under _ _ _ _ R Hd Hc Rp) as (-> & D).
  split; [| exact D]. split; [exact C |]. split.
  - intros q Hq. apply is_dir_at_kind. rewrite K. apply is_dir_at_kind.
    exact Hq.
  - cbn [root with_root]. apply apart_update.
Qed.

End Under.

(** *** The calls that write, whatever they meet *)

Lemma os_makedirs_any p s r s' :
  os_makedirs p s = (r, s') ->
  keeps_but_files s s'
  /\ match r with
     | Ok _ => FS.makedirs (files s) p = Ok (files s')
     | Err _ => files s' = files s
     end.
Proof.
  unfold os_makedirs, bind, external, get, lift, modify.
  destruct (faults s) as [|[e|] fl]; simpl;
    try (destruct (FS.makedirs (files s) p) as [f|e'] eqn:R);
    intros H; inversion H; subst; simpl; split; auto;
    unfold keeps_but_files; frame_simpl.
Qed.

Lemma open_write_any p s r s' :
  open_write p s = (r, s') ->
  keeps_but_files s s'
  /\ match r with
     | Ok _ => FS.write_text (files s) p "" = Ok (files s')
     | Err _ => files s' = files s
     end.
Proof.
  unfold open_write, bind, external, get, lift, modify.
  destruct (faults s) as [|[e|] fl]; simpl;
    try (destruct (FS.write_text (files s) p "") as [f|e'] eqn:R);
    intros H; inversion H; subst; simpl; split; auto;
    unfold keeps_but_files; frame_simpl.
Qed.

Lemma file_write_any p text s r s' :
  file_write p text s = (r, s') ->
  keeps_but_files s s'
  /\ match r with
     | Ok _ => FS.append_text (files s) p text = Ok (files s')
     | Err _ => files s' = files s
     end.
Proof.
  unfold file_write, bind, external, get, lift, modify.
  destruct (faults s) as [|[e|] fl]; simpl;
    try (destruct (FS.append_text (files s) p text) as [f|e'] eqn:R);
    intros H; inversion H; subst; simpl; split; auto;
    unfold keeps_but_files; frame_simpl.
Qed.

Lemma hoare_run {A} (P : state -> Prop) (m : M A) Q E :
  (forall s r s', P s -> m s = (r, s') ->
     match r with Ok a => Q a s' | Err e => E e s' end) ->
  hoare P m Q E.
Proof.
  intros H s Hp. destruct (m s) as [r s'] eqn:X.
  specialize (H s r s' Hp X). destruct r; exact H.
Qed.

Lemma keeps_log_and_raise {A} m e :
  preserves keeps (logging_error m ;; @raise A e).
Proof.
  intros s r s'. unfold logging_error, modify, bind, raise.
  intros H. inversion H; subst. unfold keeps. frame_simpl.
Qed.

Section Within.
Variable P0 : list string.
Variable bp : string.
Variable v0 : server.
Variable f0 : fs.

(** While the snapshot is written, whatever happens: its directory is
    there, the files have changed at or below it only, the server's data
    is as it was. *)
Definition within (st : state) : Prop :=
  resolve (files st) bp = Some P0
  /\ lookup (root (files st)) P0 <> None
  /\ grows P0 f0 (files st)
  /\ server_ st = v0.

Definition loose (st : state) : Prop := grows P0 f0 (files st).

Lemma within_loose st : within st -> loose st.
Proof. intros (_ & _ & G & _). exact G. Qed.

Lemma within_keeps st st' : within st -> keeps st st' -> within st'.
Proof.
  intros (R & L & G & V) (F & V' & _).
  unfold same_files, same_server in *. unfold within.
  rewrite F, V'. auto.
Qed.

Lemma loose_keeps st st' : loose st -> keeps st st' -> loose st'.
Proof. intros G (F & _). unfold same_files in F. unfold loose. rewrite F. exact G. Qed.

Lemma within_same st st' :
  within st -> keeps_but_files st st' -> files st' = files st -> within st'.
Proof.
  intros (R & L & G & V) (V' & _) F. unfold same_server in V'.
  unfold within. rewrite F, V'. auto.
Qed.

Lemma within_step st st' :
  within st -> keeps_but_files st st' ->
  grows P0 (files st) (files st') /\ is_dir_at (root (files st)) P0 = true ->
  within st'.
Proof.
  intros (R & L & G & V) (V' & _) (G' & D). unfold same_server in V'.
  split; [eapply grows_resolve; eauto |]. split; [| split].
  - destruct G' as (_ & M & _). apply M in D. unfold is_dir_at in D.
    destruct (lookup (root (files st')) P0); [discriminate | discriminate].
  - eapply grows_trans; eauto.
  - congruence.
Qed.

Lemma within_of_keeps {A} (m : M A) :
  preserves keeps m -> hoare within m (fun _ => within) (fun _ => loose).
Proof.
  intros H. apply hoare_run. intros s r s' W X.
  pose proof (within_keeps _ _ W (H _ _ _ X)) as W'.
  destruct r; [exact W' | apply within_loose; exact W'].
Qed.

Lemma loose_of_keeps {A} (m : M A) :
  preserves keeps m -> hoare loose m (fun _ => loose) (fun _ => loose).
Proof.
  intros H. apply hoare_run. intros s r s' W X.
  pose proof (loose_keeps _ _ W (H _ _ _ X)) as W'.
  destruct r; exact W'.
Qed.

Lemma within_exists p :
  hoare within (os_path_exists p) (fun _ => within) (fun _ => loose).
Proof.
  apply hoare_run. intros s r s' W X. unfold os_path_exists in X.
  inversion X; subst. exact W.
Qed.

Lemma within_makedirs d :
  is_component d = true ->
  hoare within (os_makedirs (join bp d)) (fun _ => within) (fun _ => loose).
Proof.
  intros Hd. apply hoare_run. intros s r s' W X.
  apply os_makedirs_any in X. destruct X as (K & X). destruct r as [u|e].
  - eapply within_step; eauto.
    destruct W as (R & L & _).
    apply (makedirs_under P0 bp (files s) d (files s')); auto.
  - apply within_loose. eapply within_same; eauto.
Qed.

Lemma within_open_write d cj :
  is_component d = true -> is_component cj = true ->
  hoare within (open_write (join (join bp d) cj))
        (fun _ => within) (fun _ => loose).
Proof.
  intros Hd Hc. apply hoare_run. intros s r s' W X.
  apply open_write_any in X. destruct X as (K & X). destruct r as [u|e].
  - eapply within_step; eauto.
    destruct W as (R & L & _).
    apply (write_under P0 bp (files s) d cj "" (files s')); auto.
  - apply within_loose. eapply within_same; eauto.
Qed.

Lemma within_file_write d cj text :
  is_component d = true -> is_component cj = true ->
  hoare within (file_write (join (join bp d) cj) text)
        (fun _ => within) (fun _ => loose).
Proof.
  intros Hd Hc. apply hoare_run. intros s r s' W X.
  apply file_write_any in X. destruct X as (K & X). destruct r as [u|e].
  - eapply within_step; eauto.
    destruct W as (R & L & _).
    apply (append_under P0 bp (files s) d cj text (files s')); auto.
  - apply within_loose. eapply within_same; eauto.
Qed.

(** One collection, lines 72-82. *)
Lemma within_export_collection c d coll :
  is_component d = true -> is_component (coll +++ ".json") = true ->
  hoare within (export_collection c d (join bp d) coll)
        (fun _ => within) (fun _ => loose).
Proof.
  intros Hd Hc. unfold export_collection.
  eapply hoare_bind; [apply within_of_keeps, keeps_collection_find |].
  intros docs. cbv zeta.
  eapply hoare_bind; [apply within_open_write; assumption |]. intro.
  eapply hoare_bind.
  - apply hoare_for_each. intros doc _. apply within_file_write; assumption.
  - intro. apply within_of_keeps, keeps_logging_info.
Qed.

(** One database, lines 59-82. *)
Lemma within_snapshot_database d :
  is_component d = true ->
  (forall c, In c (list_collection_names v0 d) ->
             is_component (c +++ ".json") = true) ->
  hoare within (snapshot_database bp d) (fun _ => within) (fun _ => loose).
Proof.
  intros Hd Hfit. unfold snapshot_database. apply hoare_when; [| auto].
  intro.
  eapply hoare_bind; [apply within_of_keeps, keeps_logging_info |].
  intro. cbv zeta.
  eapply hoare_bind; [apply within_exists |]. intros e.
  eapply (hoare_bind _ _ _ (fun _ => within)).
  { apply hoare_when; [| auto]. intros _. apply within_makedirs. exact Hd. }
  intro.
  eapply hoare_bind; [apply within_of_keeps, keeps_self_client |].
  intros c.
  eapply (hoare_bind _ _ _
            (fun colls st => within st
                             /\ colls = list_collection_names v0 d)).
  - apply hoare_run. intros s r s' W X.
    pose proof (within_keeps _ _ W (keeps_list_collection_names _ _ _ _ _ X))
      as W'.
    destruct r as [colls|ex]; [| apply within_loose; exact W'].
    split; [exact W' |].
    rewrite (db_list_collection_names_value _ _ _ _ _ X).
    destruct W as (_ & _ & _ & ->). reflexivity.
  - intros colls. apply hoare_run. intros s r s' (W & ->) X.
    assert (T : hoare within
                  (for_each (list_collection_names v0 d)
                            (export_collection c d (join bp d)))
                  (fun _ => within) (fun _ => loose)).
    { apply hoare_for_each. intros x Hx.
      apply within_export_collection; auto. }
    specialize (T s W). rewrite X in T. destruct r; exact T.
Qed.

End Within.

(** [create_snapshot], whatever it returns or raises: the files change at
    or below the directory of the snapshot only. *)
Lemma create_snapshot_grows s r s' Q :
  create_snapshot s = (r, s') ->
  names_fit_files (server_ s) ->
  is_clock_time (now s) = true ->
  resolve (files s) (backup_dir (self s)) = Some Q ->
  is_dir_at (root (files s)) Q = true ->
  grows (Q ++ [strftime (now s)]) (files s) (files s').
Proof.
  intros H (Fit1 & Fit2) Clock RQ DQ.
  set (name := strftime (now s)).
  set (bp := join (backup_dir (self s)) name).
  set (P0 := Q ++ [name]).
  assert (Hname : is_component name = true)
    by (apply strftime_component; exact Clock).
  destruct (is_dir_at_lookup _ _ DQ) as (esQ & LQ).
  assert (R0 : resolve (files s) bp = Some P0)
    by (eapply resolve_join; eauto).
  set (L := loose P0 (files s)).
  set (W := within P0 bp (server_ s) (files s)).
  assert (Start : forall {A} (m : M A),
            preserves keeps m ->
            hoare (keeps s) m (fun _ => keeps s) (fun _ => L)).
  { intros A m Hm. apply hoare_run. intros st rr st' K X.
    assert (K' : keeps s st')
      by (etransitivity; [exact K | eapply Hm; eauto]).
    destruct rr; [exact K' |].
    destruct K' as (F & _). unfold same_files in F. unfold L, loose.
    rewrite F. apply grows_refl. }
  assert (T : hoare (keeps s) create_snapshot (fun _ => L) (fun _ => L)).
  { unfold create_snapshot.
    apply (hoare_try_finally _ _ _ (fun _ => L) (fun _ => L)).
    2:{ intro. apply loose_of_keeps, keeps_release. }
    2:{ intro. apply loose_of_keeps, keeps_release. }
    apply (hoare_try_except _ _ _ _ (fun _ => L)).
    2:{ intros e _. apply loose_of_keeps, keeps_log_and_raise. }
    2:{ auto. }
    apply hoare_get_bind. intros s0.
    eapply hoare_bind.
    { eapply hoare_weaken; [apply (Start _ (when (is_none (client (self s0))) connect)) | | |].
      - apply preserves_when; [typeclasses eauto |]. apply keeps_connect.
      - intros st [K _]. exact K.
      - intros a st K. exact K.
      - auto. }
    intro.
    eapply hoare_bind; [apply Start, keeps_self_client |]. intros c.
    eapply (hoare_bind _ _ _
              (fun dbs st => keeps s st
                             /\ dbs = list_database_names (server_ s))).
    { apply hoare_run. intros st rr st' K X.
      assert (K' : keeps s st').
      { etransitivity; [exact K |].
        eapply keeps_list_database_names; eauto. }
      destruct rr as [dbs|e].
      - split; [exact K' |].
        rewrite (client_list_database_names_value _ _ _ _ X).
        destruct K as (_ & V & _). unfold same_server in V. rewrite V.
        reflexivity.
      - destruct K' as (F & _). unfold same_files in F. unfold L, loose.
        rewrite F. apply grows_refl. }
    intros dbs. apply hoare_get_bind. intros s1.
    intros st ((K & ->) & ->).
    pose proof K as (F1 & V1 & N1 & (B1 & _)).
    unfold same_files, same_server, same_now in F1, V1, N1.
    rewrite N1, B1. fold name. fold bp.
    unfold bind at 1, os_path_exists at 1. rewrite F1.
    assert (Mk : hoare (fun x => x = s1)
                   (when (negb (FS.exists_ (files s) bp)) (os_makedirs bp))
                   (fun _ => W) (fun _ => L)).
    { apply hoare_run. intros x rr x' -> X.
      destruct (FS.exists_ (files s) bp) eqn:Ex; simpl in X.
      - inversion X; subst. unfold W, within. rewrite F1, V1.
        split; [exact R0 |]. split; [| split; [apply grows_refl | reflexivity]].
        unfold FS.exists_, node_at in Ex. rewrite R0 in Ex.
        destruct (lookup (root (files s)) P0); [discriminate | discriminate].
      - apply os_makedirs_any in X. destruct X as ((V2 & _) & X).
        unfold same_server in V2. rewrite F1 in X.
        destruct rr as [u|e].
        + assert (LQ' : lookup (root (files s)) Q <> None)
            by (rewrite LQ; discriminate).
          destruct (makedirs_child _ _ _ _ _ Hname RQ LQ' X) as (_ & N & E).
          assert (G : grows P0 (files s) (files x')).
          { rewrite E. split; [reflexivity |]. split.
            - intros q Hq. cbn [root with_root].
              apply is_dir_at_update_dir; auto.
            - cbn [root with_root]. unfold P0.
              rewrite <- (app_nil_r (Q ++ [name])) at 2.
              apply apart_update. }
          unfold W, within. split; [eapply grows_resolve; eauto |].
          split; [| split; [exact G | congruence]].
          rewrite E. cbn [root with_root]. unfold P0.
          rewrite lookup_update_same by (rewrite removelast_last; exact DQ).
          discriminate.
        + unfold L, loose. rewrite X. apply grows_refl. }
    assert (Rest : hoare (fun x => x = s1)
                     (when (negb (FS.exists_ (files s) bp)) (os_makedirs bp) ;;
                      for_each (list_database_names (server_ s))
                               (snapshot_database bp) ;;
                      logging_info ("Snapshot completed successfully at "
                                    +++ name))
                     (fun _ => L) (fun _ => L)).
    { eapply hoare_bind; [exact Mk |]. intro.
      eapply hoare_bind.
      - apply hoare_for_each. intros d Hd.
        apply within_snapshot_database.
        + rewrite Forall_forall in Fit1. auto.
        + intros c0. apply Fit2.
      - intro. eapply hoare_weaken.
        + apply (within_of_keeps P0 bp (server_ s) (files s)).
          apply keeps_logging_info.
        + intros x Hx. exact Hx.
        + intros u x. apply within_loose.
        + intros e x Hx. exact Hx. }
    exact (Rest s1 eq_refl). }
  specialize (T s). rewrite H in T.
  assert (K0 : keeps s s) by reflexivity.
  specialize (T K0). destruct r; exact T.
Qed.

(** *** What [list_snapshots] returns *)

Lemma list_snapshots_value s l s' :
  list_snapshots s = (Ok l, s') ->
  FS.exists_ (files s) (backup_dir (self s)) = true ->
  exists names,
    FS.listdir (files s) (backup_dir (self s)) = Ok names
    /\ l = sorted_reverse
             (filter (fun d => FS.isdir (files s)
                                 (join (backup_dir (self s)) d)) names).
Proof.
  unfold list_snapshots, try_except. intros H Ex.
  match type of H with context [bind get ?k] => set (body := bind get k) in H end.
  destruct (body s) as [[l0|e] s1] eqn:B.
  2:{ destruct (is_Exception e); [| discriminate].
      unfold logging_error, modify, bind, raise in H. discriminate. }
  inversion H; subst l0 s1. clear H. subst body.
  unfold bind at 1, get at 1 in B.
  unfold bind at 1, os_path_exists at 1 in B. rewrite Ex in B.
  change (negb true) with false in B. cbv iota in B.
  apply bind_inv in B. destruct B as [(e & _ & B) | (names & s1 & B1 & B)];
    [discriminate |].
  pose proof (os_listdir_value _ _ _ _ B1) as Ls.
  apply steady_listdir in B1. destruct B1 as (F1 & _).
  unfold same_files in F1.
  exists names. split; [exact Ls |].
  change (for_fold names []
            (fun snapshots snapshot_dir =>
               d <- os_path_isdir (join (backup_dir (self s)) snapshot_dir) ;;
               ret (if d then snapshots ++ [snapshot_dir] else snapshots)))
    with (comprehension names
            (fun d => os_path_isdir (join (backup_dir (self s)) d))) in B.
  unfold bind at 1 in B. rewrite databases_are_directories in B.
  unfold ret in B. inversion B; subst. rewrite F1. reflexivity.
Qed.

(** Of the names an entry can bear, [list_snapshots] returns those of the
    subdirectories of the backup directory. *)
Lemma listed_iff s l s' Q n :
  list_snapshots s = (Ok l, s') ->
  resolve (files s) (backup_dir (self s)) = Some Q ->
  is_dir_at (root (files s)) Q = true ->
  is_component n = true ->
  In n l <-> is_dir_at (root (files s)) (Q ++ [n]) = true.
Proof.
  intros H R D Hn.
  destruct (is_dir_at_lookup _ _ D) as (es & L).
  assert (Nd : node_at (files s) (backup_dir (self s)) = Some (Dir es))
    by (unfold node_at; rewrite R; exact L).
  assert (Ex : FS.exists_ (files s) (backup_dir (self s)) = true)
    by (unfold FS.exists_; rewrite Nd; reflexivity).
  destruct (list_snapshots_value _ _ _ H Ex) as (names & Ls & ->).
  unfold FS.listdir in Ls. rewrite Nd in Ls. inversion Ls; subst names.
  assert (I : FS.isdir (files s) (join (backup_dir (self s)) n)
              = is_dir_at (root (files s)) (Q ++ [n])).
  { rewrite (isdir_join _ _ _ es Hn Nd). unfold is_dir_at.
    rewrite lookup_child, L. destruct (assoc n es) as [[t|e2]|]; reflexivity. }
  split.
  - intros Hin.
    apply (Permutation.Permutation_in _ (sorted_reverse_perm _)) in Hin.
    apply filter_In in Hin. destruct Hin as (_ & Hd). rewrite <- I. exact Hd.
  - intros Hd.
    apply (Permutation.Permutation_in _
             (Permutation.Permutation_sym (sorted_reverse_perm _))).
    apply filter_In. split; [| rewrite I; exact Hd].
    unfold is_dir_at in Hd. rewrite lookup_child, L in Hd.
    destruct (assoc n es) as [m|] eqn:A; [| discriminate].
    apply assoc_In in A. apply (in_map fst) in A. exact A.
Qed.

Lemma off_branch_sibling Q a b :
  a <> b -> off_branch (Q ++ [a]) (Q ++ [b]) = true.
Proof.
  intros N. unfold off_branch.
  assert (G : forall x y, x <> y -> is_prefix (Q ++ [x]) (Q ++ [y]) = false).
  { intros x y Hxy. induction Q as [|c Q IH]; simpl.
    - apply String.eqb_neq in Hxy. rewrite Hxy. reflexivity.
    - rewrite String.eqb_refl. exact IH. }
  rewrite (G a b N), (G b a) by congruence. reflexivity.
Qed.

(** The listing after a snapshot was created: the names listed before,
    and the name of the snapshot. *)
Lemma list_after_create s s1 Q l0 s0' l1 s1' n :
  create_snapshot s = (Ok tt, s1) ->
  FS.exists_ (files s) (join (backup_dir (self s)) (strftime (now s))) = false ->
  names_fit_files (server_ s) ->
  is_clock_time (now s) = true ->
  resolve (files s) (backup_dir (self s)) = Some Q ->
  is_dir_at (root (files s)) Q = true ->
  list_snapshots s = (Ok l0, s0') ->
  list_snapshots s1 = (Ok l1, s1') ->
  is_component n = true ->
  In n l1 <-> n = strftime (now s) \/ In n l0.
Proof.
  intros Hc Hfresh Fit Clock RQ DQ H0 H1 Hn.
  pose proof (create_snapshot_grows _ _ _ _ Hc Fit Clock RQ DQ) as G.
  destruct (create_snapshot_subdirs s s1 Hc Hfresh Fit)
    as (P0 & created & (R1 & K1 & _) & _).
  pose proof (Outcomes.reads_only_create_snapshot _ _ _ Hc)
    as (_ & (B1 & _) & _).
  assert (Hname : is_component (strftime (now s)) = true)
    by (apply strftime_component; exact Clock).
  destruct (is_dir_at_lookup _ _ DQ) as (esQ & LQ).
  pose proof (resolve_join _ _ _ _ _ Hname RQ LQ) as R0.
  pose proof (grows_resolve _ _ _ _ _ G R0) as R1'.
  rewrite R1 in R1'. inversion R1'; subst P0. clear R1'.
  pose proof (grows_resolve _ _ _ _ _ G RQ) as RQ1.
  pose proof G as (_ & M & Ap).
  pose proof (M _ DQ) as DQ1.
  rewrite <- B1 in RQ1.
  rewrite (listed_iff _ _ _ _ _ H1 RQ1 DQ1 Hn).
  rewrite (listed_iff _ _ _ _ _ H0 RQ DQ Hn).
  destruct (string_dec n (strftime (now s))) as [-> | Ne].
  - split; [auto |]. intros _. apply is_dir_at_kind. exact K1.
  - unfold is_dir_at.
    rewrite (Ap (Q ++ [n])) by (apply off_branch_sibling; congruence).
    split; [auto |]. intros [E | Hd]; [contradiction | exact Hd].
Qed.

End PlaceFacts.
(** ** The command line tool *)

Module CliFacts.
Import PyStr PyVal Exn FS Mongo Run MongoDBSnapshot MongoDBCli RunFacts Frames.
Import PyEval(outcome).
Import StoreSpec FSFacts OrderFacts RestoreFacts PlaceFacts.

(** [__init__], whatever it meets: it only makes the backup directory,
    and raises only when it could not. *)
Lemma init_any u d s r s' :
  init u d s = (r, s') ->
  let dir := match d with Some x => x | None => "backups" end in
  self s' = mk_instance u dir None
  /\ server_ s' = server_ s /\ trace s' = trace s /\ log s' = log s
  /\ match r with
     | Ok _ =>
         FS.exists_ (files s') dir = true
         /\ (FS.exists_ (files s) dir = true -> files s' = files s)
         /\ (FS.exists_ (files s) dir = false ->
             node_at (files s') dir = Some (Dir []))
     | Err _ => files s' = files s /\ FS.exists_ (files s) dir = false
     end.
Proof.
  destruct s as [i f v n cl tr lg nw fl]. intros H dir. revert H.
  unfold init, os_path_exists, os_makedirs, when, modify, external, lift,
    bind, get, ret.
  fold dir. cbn. destruct (FS.exists_ f dir) eqn:X; cbn.
  - intros H. inversion H; subst. cbn. repeat split; auto. discriminate.
  - destruct fl as [|[e|] rest]; cbn;
      try (destruct (FS.makedirs f dir) as [f'|e'] eqn:Mk; cbn);
      intros H; inversion H; subst; cbn;
      try (pose proof (Outcomes.makedirs_node _ _ _ Mk) as Nd);
      repeat split; auto;
      try (unfold FS.exists_; rewrite Nd; reflexivity);
      try discriminate.
Qed.

Section Main.
Variable eval : string -> outcome pyval.
Variables env_uri env_backup_dir : option string.

Let dir : string :=
  match env_backup_dir with Some x => x | None => "backups" end.

(** [restore] without a snapshot name. *)
Lemma main_restore_unnamed o s r s' :
  o = None \/ o = Some "" ->
  main eval env_uri env_backup_dir (mk_namespace ActRestore o) s = (r, s') ->
  server_ s' = server_ s /\ trace s' = trace s /\ log s' = log s
  /\ client (self s') = None
  /\ (r = Ok ["Error: Snapshot name is required for restore action"]
      /\ FS.exists_ (files s') dir = true
      /\ (FS.exists_ (files s) dir = true -> files s' = files s)
      \/ (exists e, r = Err e) /\ FS.exists_ (files s) dir = false).
Proof.
  intros Ho H. unfold main in H. cbn [action_ snapshot] in H.
  apply bind_inv in H. destruct H as [(e & H & ->) | ([] & s1 & H1 & H)].
  - pose proof (init_any _ _ _ _ _ H) as (S & V & T & L & F & X).
    rewrite S. repeat split; auto. right. eauto.
  - pose proof (init_any _ _ _ _ _ H1) as (S & V & T & L & Ex & Same & _).
    assert (E : (r, s')
                = (Ok ["Error: Snapshot name is required for restore action"],
                   s1)).
    { destruct Ho as [-> | ->]; unfold ret in H; congruence. }
    inversion E; subst. rewrite S. repeat split; auto.
Qed.

(** [list]: what is printed. *)
Lemma main_list_prints o s out s' :
  main eval env_uri env_backup_dir (mk_namespace ActList o) s = (Ok out, s') ->
  server_ s' = server_ s /\ trace s' = trace s
  /\ (exists names,
        FS.listdir (files s') dir = Ok names
        /\ out = let snapshots :=
                   sorted_reverse
                     (filter (fun n => FS.isdir (files s') (join dir n)) names)
                 in if nonempty snapshots
                    then String LF "Available snapshots:"
                         :: map (fun n => "- " +++ n) snapshots
                    else [String LF "No snapshots found"])
  /\ (FS.exists_ (files s) dir = false ->
      out = [String LF "No snapshots found"]).
Proof.
  intros H. unfold main in H. cbn [action_ snapshot] in H.
  apply bind_inv in H. destruct H as [(e & _ & H) | ([] & s1 & H1 & H)];
    [discriminate |].
  pose proof (init_any _ _ _ _ _ H1) as (S & V & T & L & Ex & _ & New).
  fold dir in S, Ex, New.
  apply bind_inv in H. destruct H as [(e & _ & H) | (l & s2 & H2 & H)];
    [discriminate |].
  assert (B : backup_dir (self s1) = dir) by (rewrite S; reflexivity).
  pose proof (Outcomes.list_snapshots_outcome s1) as O. rewrite H2 in O.
  destruct O as (F2 & V2 & _ & T2 & _).
  assert (Ex1 : FS.exists_ (files s1) (backup_dir (self s1)) = true)
    by (rewrite B; exact Ex).
  destruct (list_snapshots_value _ _ _ H2 Ex1) as (names & Ls & El).
  rewrite B in Ls, El.
  assert (E : s' = s2
              /\ out = if nonempty l
                       then String LF "Available snapshots:"
                            :: map (fun n => "- " +++ n) l
                       else [String LF "No snapshots found"]).
  { destruct l; unfold ret in H; cbn [nonempty] in H; inversion H; auto. }
  destruct E as (-> & ->).
  split; [congruence |]. split; [congruence |]. split.
  - exists names. rewrite F2. split; [exact Ls |]. rewrite <- El. reflexivity.
  - intros Missing. specialize (New Missing).
    unfold FS.listdir in Ls. rewrite New in Ls. inversion Ls; subst names.
    rewrite El. reflexivity.
Qed.

End Main.

End CliFacts.
(** ** A restore that stops on the way *)

Module PartialFacts.
Import PyStr PyVal Exn FS Mongo Run MongoDBSnapshot RunFacts Frames.
Import PyEval(outcome).
Import StoreSpec MongoFacts RestoreFacts.



End PartialFacts.

(** ** The lines [create_snapshot] writes, read in the frame *)

Module LiteralFacts.
Import PyStr PyVal Exn FS Mongo Run MongoDBSnapshot RunFacts Frames.
Import PyEval(outcome, Value, Raises, py_eval, py_eval_total,
              extends_py_eval, max_nesting, name_error,
              datetime_attribute_error).
Import RestoreSpec DocumentSpec FrameSpec.
Import RestoreFacts DocFacts EvalFacts FramedFacts.

Lemma total_extends : extends_py_eval py_eval_total.
Proof. intros s o H. unfold py_eval_total. rewrite H. reflexivity. Qed.

Lemma decodes_no_syntax_error d : is_syntax_error (decodes d) = false.
Proof.
  unfold decodes. destruct (first_error d) as [e|] eqn:E; [| reflexivity].
  destruct (first_error_cases _ _ E) as [-> | ->]; reflexivity.
Qed.

Section Literals.
Variable eval : Framed.evaluator.

(** A document whose text the evaluator reads as the model says. *)
Definition readable (d : pyval) : Prop :=
  is_document d = true /\ depth d <= max_nesting
  /\ reads_literal eval (str d).

(** On the text of such a document the evaluator only computes. *)
Lemma computes_str d : readable d -> computes eval py_eval_total (str d).
Proof.
  intros (W & D & Rd) documents s.
  assert (V : is_value d = true) by (destruct d; try discriminate; exact W).
  pose proof (py_eval_str d V D) as E.
  unfold py_eval_total. rewrite E.
  apply Rd; [exact E | apply decodes_no_syntax_error].
Qed.

Lemma restore_line_of documents d s :
  readable d ->
  Framed.restore_line eval documents (line_of d) s
  = restore_line py_eval_total documents (line_of d) s.
Proof.
  intros Rd. apply restore_line_computes. intros _.
  pose proof Rd as (W & _).
  destruct d as [| | | | |items| |]; try discriminate.
  rewrite strip_line_of_dict. apply computes_str; assumption.
Qed.

Lemma classify_total d :
  is_document d = true -> depth d <= max_nesting ->
  classify py_eval_total (line_of d)
  = match first_error d with
    | None => Decodable d
    | Some e => Malformed e
    end.
Proof. apply classify_line_of. exact total_extends. Qed.

(** The loop of lines 146-155 over the file written for [ds]. *)
Lemma restore_lines_of ds s :
  Forall readable ds ->
  for_fold (readlines (lines_of ds)) [] (Framed.restore_line eval) s
  = (Ok (filter plain ds),
     add_logs (failure_entries py_eval_total (map line_of ds)) s).
Proof.
  intros F.
  assert (F' : Forall (fun d => is_document d = true
                                /\ depth d <= max_nesting) ds).
  { eapply Forall_impl; [| exact F]. intros d (W & D & _). auto. }
  assert (L : readlines (lines_of ds) = map line_of ds).
  { apply readlines_lines_of. eapply Forall_impl; [| exact F].
    intros d (W & _). apply has_line_break_repr.
    destruct d; try discriminate; exact W. }
  rewrite L.
  rewrite (restore_lines_computes eval py_eval_total).
  2:{ intros line Hl _. apply in_map_iff in Hl.
      destruct Hl as (d & <- & Hd). rewrite Forall_forall in F.
      pose proof (F d Hd) as Rd. pose proof Rd as (W & _).
      destruct d as [| | | | |items| |]; try discriminate.
      rewrite strip_line_of_dict. apply computes_str; assumption. }
  rewrite restore_lines.
  - rewrite (decoded_lines py_eval_total total_extends ds F'). reflexivity.
  - apply forallb_forall. intros line Hl. apply in_map_iff in Hl.
    destruct Hl as (d & <- & Hd). rewrite Forall_forall in F'.
    destruct (F' d Hd) as [W D]. unfold is_fatal.
    rewrite (classify_total d W D). destruct (first_error d); reflexivity.
Qed.

End Literals.

End LiteralFacts.

(** ** A snapshot the program wrote, restored in the frame *)

Module FramedRoundTrip.
Import PyStr PyVal Exn FS Mongo Run MongoDBSnapshot RunFacts Frames.
Import PyEval(outcome, Value, Raises, py_eval_total, max_nesting).
Import RestoreSpec StoreSpec DocumentSpec FrameSpec.
Import MongoFacts StrFacts FSFacts RestoreFacts CreateFacts ContentFacts
       DocFacts FramedFacts LiteralFacts RoundTripFacts.

(** Every text a restore of the snapshot gives to [eval] is the text of
    a document of the server. *)
Lemma created_texts s s1 text :
  create_snapshot s = (Ok tt, s1) ->
  FS.exists_ (files s) (join (backup_dir (self s)) (strftime (now s))) = false ->
  names_fit_files (server_ s) ->
  documents_ok (server_ s) = true ->
  In text (evaluated_texts (files s1)
             (join (backup_dir (self s)) (strftime (now s)))) ->
  exists db coll d,
    In d (find (server_ s) db coll)
    /\ text = str d /\ is_document d = true /\ depth d <= max_nesting.
Proof.
  intros Hc Hfresh Fit Docs Ht.
  destruct (create_snapshot_holds s s1 Hc Hfresh Fit)
    as (P0 & created & Sd & (Cn & On)).
  destruct (create_snapshot_subdirs s s1 Hc Hfresh Fit)
    as (P0' & created' & Sd' & Sub).
  assert (EP : P0' = P0).
  { destruct Sd as (R & _). destruct Sd' as (R' & _). congruence. }
  subst P0'.
  assert (Sub1 : forall x, str_in x created = true
                           <-> In x (list_database_names (server_ s))
                               /\ str_in x system_databases = false).
  { intros x. rewrite <- (Sub x).
    destruct Sd as (_ & _ & E). destruct Sd' as (_ & _ & E').
    specialize (E x). specialize (E' x). rewrite E in E'.
    destruct (str_in x created), (str_in x created'); try discriminate; tauto. }
  clear Sub Sd' created'.
  set (bp := join (backup_dir (self s)) (strftime (now s))) in *.
  pose proof Sd as (R0 & K0 & E0).
  destruct (kind_dir_lookup _ _ K0) as (es0 & L0).
  pose proof (listdir_at _ _ _ _ R0 L0) as Ls0.
  pose proof Fit as (Fit1 & Fit2). rewrite Forall_forall in Fit1.
  unfold evaluated_texts in Ht.
  apply in_flat_map in Ht. destruct Ht as (db & Hdb & Ht).
  apply in_flat_map in Ht. destruct Ht as (file & Hf & Ht).
  apply filter_In in Ht. destruct Ht as (Ht & _).
  unfold database_dirs in Hdb. rewrite Ls0 in Hdb.
  apply filter_In in Hdb. destruct Hdb as (Hdb & _).
  destruct (listdir_entry _ _ _ _ _ R0 Ls0 Hdb) as (node & Ln).
  pose proof (snapshot_entry_created _ _ _ _ _ _ Sd Ln) as Cr.
  pose proof (proj1 (Sub1 db) Cr) as (Hd & Sys).
  assert (Hcomp : is_component db = true) by auto.
  pose proof (E0 db) as Kd. rewrite Cr in Kd.
  destruct (kind_dir_lookup _ _ Kd) as (es1 & L1).
  pose proof (resolve_join _ _ _ _ _ Hcomp R0 L0) as R1.
  pose proof (listdir_at _ _ _ _ R1 L1) as Ls1.
  unfold collection_files in Hf. rewrite Ls1 in Hf.
  apply filter_In in Hf. destruct Hf as (Hf & _).
  destruct (listdir_entry _ _ _ _ _ R1 Ls1 Hf) as (nodef & Lf).
  destruct (On db file nodef Lf) as (c & Hc' & ->).
  assert (Hcoll : In c (list_collection_names (server_ s) db)).
  { apply in_flat_map in Hc'. destruct Hc' as (d' & _ & Hp).
    unfold exported in Hp.
    destruct (str_in d' system_databases); [destruct Hp |].
    apply in_map_iff in Hp. destruct Hp as (c0 & E & Hc0).
    inversion E; subst. exact Hc0. }
  pose proof (create_snapshot_contents s s1 db c Hc Hfresh Fit Hd Sys Hcoll)
    as Rd.
  fold bp in Rd. unfold file_lines in Ht. rewrite Rd in Ht.
  pose proof (documents_ok_find _ db c Docs) as Dk.
  assert (F : Forall (fun x => is_document x = true
                               /\ depth x <= max_nesting)
                     (find (server_ s) db c)).
  { rewrite forallb_forall in Dk. apply Forall_forall. intros x Hx'.
    specialize (Dk x Hx'). apply andb_prop in Dk. destruct Dk as [D1 D2].
    apply Nat.leb_le in D2. auto. }
  rewrite readlines_lines_of in Ht.
  2:{ eapply Forall_impl; [| exact F]. intros x [Wx _].
      apply has_line_break_repr. destruct x; try discriminate; exact Wx. }
  rewrite map_map in Ht. apply in_map_iff in Ht.
  destruct Ht as (d & <- & Hdoc). rewrite Forall_forall in F.
  destruct (F d Hdoc) as [W D]. exists db, c, d.
  split; [exact Hdoc |].
  split; [| auto]. destruct d as [| | | | |items| |]; try discriminate.
  apply strip_line_of_dict.
Qed.

(** The snapshot restored in the frame, by an evaluator that reads the
    documents of the server as the model says. *)
Lemma restore_of_create_framed eval s s1 t s2 :
  reads_documents eval (server_ s) ->
  create_snapshot s = (Ok tt, s1) ->
  FS.exists_ (files s) (join (backup_dir (self s)) (strftime (now s))) = false ->
  names_fit_files (server_ s) ->
  documents_ok (server_ s) = true ->
  files t = files s1 ->
  backup_dir (self t) = backup_dir (self s) ->
  Framed.restore_snapshot eval (strftime (now s)) t = (Ok tt, s2) ->
  forall d c,
    (str_in d system_databases = false ->
     In d (list_database_names (server_ s)) ->
     In c (list_collection_names (server_ s) d) ->
     find (server_ s2) d c = filter plain (find (server_ s) d c))
    /\ (str_in d system_databases = true
        \/ ~ In d (list_database_names (server_ s))
        \/ ~ In c (list_collection_names (server_ s) d) ->
        find (server_ s2) d c = find (server_ t) d c).
Proof.
  intros Hev Hc Hfresh Fit Docs Ft Bt Hr.
  rewrite (restore_snapshot_computes eval py_eval_total) in Hr.
  - apply (restore_of_create py_eval_total s s1 t s2); auto.
    exact total_extends.
  - intros text Ht. rewrite Ft, Bt in Ht.
    destruct (created_texts s s1 text Hc Hfresh Fit Docs Ht)
      as (db & coll & d & Hd & -> & W & D).
    apply computes_str. split; [exact W |]. split; [exact D |].
    exact (Hev db coll d Hd).
Qed.

End FramedRoundTrip.

(** * The claims of the specification *)

Import PyStr PyVal Exn FS Mongo Run MongoDBSnapshot.
Import PyEval(outcome, Value, Raises, py_eval, py_eval_total, extends_py_eval,
              name_error, datetime_attribute_error).
Import ConnectionSpec RestoreSpec StoreSpec Demo.
Import FrameSpec FrameDemo.


(** C6, where the code departs from the claim.  After a first
    [create_snapshot] on a new object has completed, [self.client] still
    holds the client that run closed.  A second invocation on the same
    object makes no client: [create_snapshot] starts by calling
    [list_database_names] through the closed client, and [restore_snapshot]
    makes no client either. *)
Theorem C6_second_invocation_runs_on_released_client :
  forall (eval : string -> outcome pyval) (snapshot_name : string)
         (s s1 : state),
    client (self s) = None ->
    create_snapshot s = (Ok tt, s1) ->
    exists c,
      client (self s1) = Some c
      /\ is_closed (closed s1) c = true
      /\ (forall r2 s2, create_snapshot s1 = (r2, s2) ->
            exists evs,
              trace s2 = trace s1 ++ EvCall c true OpListDatabaseNames :: evs
              /\ Forall not_new evs)
      /\ (forall r2 s2, restore_snapshot eval snapshot_name s1 = (r2, s2) ->
            exists evs, trace s2 = trace s1 ++ evs /\ Forall not_new evs).
Proof.
  intros eval name s s1 Hnone Hrun.
  destruct (Release.create_snapshot_ok_holds _ _ Hrun) as (c & Hc).
  pose proof (Release.create_snapshot_releases _ _ _ Hrun) as (evs & _ & _ & Hcl).
  destruct (Hcl c Hc) as [Hclosed _].
  exists c. repeat split; auto.
  - intros r2 s2 H2.
    destruct (Release.create_snapshot_first_call _ _ _ _ Hc H2) as (evs2 & Ht & Hf).
    rewrite Hclosed in Ht. eauto.
  - intros r2 s2 H2.
    destruct (Release.restore_snapshot_reuses _ _ _ _ _ _ Hc H2) as [_ Hq].
    exact Hq.
Qed.

Lemma C6_second_invocation_witness :
  exists c,
    client (self (snd (create_snapshot demo_state))) = Some c
    /\ is_closed (closed (snd (create_snapshot demo_state))) c = true
    /\ (forall r2 s2,
          create_snapshot (snd (create_snapshot demo_state)) = (r2, s2) ->
          exists evs,
            trace s2 = trace (snd (create_snapshot demo_state))
                       ++ EvCall c true OpListDatabaseNames :: evs
            /\ Forall not_new evs)
    /\ (forall r2 s2,
          restore_snapshot py_eval_total "20240102_020000"
            (snd (create_snapshot demo_state)) = (r2, s2) ->
          exists evs,
            trace s2 = trace (snd (create_snapshot demo_state)) ++ evs
            /\ Forall not_new evs).
Proof.
  apply (C6_second_invocation_runs_on_released_client
           py_eval_total "20240102_020000" demo_state).
  - reflexivity.
  - vm_compute. reflexivity.
Defined.

(** C3. For every snapshot name whose path under the backup root does not
    exist, [restore_snapshot] fails, asks the server for no deletion and no
    insertion and leaves the server's data as it was; and once the
    connection of line 112 is there, the failure is the validation error
    [ValueError] of line 117 (not a file-not-found error). *)
Theorem C3_missing_snapshot_is_rejected :
  forall (eval : string -> outcome pyval) (snapshot_name : string) (s : state),
    FS.exists_ (files s) (join (backup_dir (self s)) snapshot_name) = false ->
    (exists e, fst (restore_snapshot eval snapshot_name s) = Err e)
    /\ server_ (snd (restore_snapshot eval snapshot_name s)) = server_ s
    /\ (exists evs,
          trace (snd (restore_snapshot eval snapshot_name s)) = trace s ++ evs
          /\ Forall (fun e => is_mutation e = false) evs)
    /\ (connection_ready s ->
          fst (restore_snapshot eval snapshot_name s)
          = Err (snapshot_not_found snapshot_name)
          /\ exn_cls (snapshot_not_found snapshot_name) = ValueError).
Proof.
  intros eval name s Hmiss.
  destruct (restore_snapshot eval name s) as [r s'] eqn:E.
  destruct (RestoreFacts.restore_missing _ _ _ _ _ Hmiss E)
    as ((Hsrv & _ & _ & Htr) & Herr & Hval).
  simpl. repeat split; auto.
Qed.

Lemma C3_missing_snapshot_witness :
  (exists e, fst (restore_snapshot py_eval_total "nonexistent" demo_state)
             = Err e)
  /\ server_ (snd (restore_snapshot py_eval_total "nonexistent" demo_state))
     = server_ demo_state
  /\ (exists evs,
        trace (snd (restore_snapshot py_eval_total "nonexistent" demo_state))
        = trace demo_state ++ evs
        /\ Forall (fun e => is_mutation e = false) evs)
  /\ (connection_ready demo_state ->
        fst (restore_snapshot py_eval_total "nonexistent" demo_state)
        = Err (snapshot_not_found "nonexistent")
        /\ exn_cls (snapshot_not_found "nonexistent") = ValueError).
Proof.
  apply (C3_missing_snapshot_is_rejected py_eval_total "nonexistent" demo_state).
  vm_compute. reflexivity.
Defined.






(** C2, as the code has it.  For every snapshot that exists and on whose
    Collection Files [eval] only computes (as it does on every file the
    program wrote), and every Collection File in it (a name ending in
    [.json] in a database directory of the snapshot): after
    [restore_snapshot] has returned the target collection holds exactly
    the documents decoded from that file, whatever it held before: what
    was there is deleted, what the file gives is inserted. *)
Theorem C2_restore_overwrites_where_eval_only_computes :
  forall (eval : Framed.evaluator) (e0 : string -> outcome pyval)
         (snapshot_name : string)
         (s s' : state) (databases : list string) (db_name : string)
         (json_files : list string) (collection_file text : string),
    Framed.restore_snapshot eval snapshot_name s = (Ok tt, s') ->
    let snapshot_path := join (backup_dir (self s)) snapshot_name in
    let db_path := join snapshot_path db_name in
    (forall t, In t (evaluated_texts (files s) snapshot_path) ->
               computes eval e0 t) ->
    FS.listdir (files s) snapshot_path = Ok databases ->
    In db_name databases ->
    FS.isdir (files s) db_path = true ->
    FS.listdir (files s) db_path = Ok json_files ->
    In collection_file json_files ->
    endswith collection_file ".json" = true ->
    FS.read_text (files s) (join db_path collection_file) = Ok text ->
    find (server_ s') db_name (drop_last 5 collection_file)
    = decoded e0 (readlines text).
Proof.
  intros eval e0 name s s' dbs db fnames f text Hrun sp dbp Hq
         L Hdb Hdir Lf Hf Ej R.
  rewrite (FramedFacts.restore_snapshot_computes eval e0 name s Hq) in Hrun.
  destruct (RestoreFacts.restore_snapshot_ok _ _ _ _ Hrun) as (_ & _ & H).
  eapply H; eauto.
Qed.

(** The collection [shop.users] held [zed]; after the restore it holds the
    ten documents of the file and [zed] is gone. *)
Lemma C2_restore_overwrites_witness :
  find (server_ (snd (Framed.restore_snapshot Framed.frame_eval
                        "20240102_020000" restore_state)))
       "shop" (drop_last 5 "users.json")
  = decoded py_eval_total (readlines twelve_lines)
  /\ find (server_ restore_state) "shop" "users" = [zed]
  /\ ~ In zed (decoded py_eval_total (readlines twelve_lines)).
Proof.
  split; [| split].
  - apply (C2_restore_overwrites_where_eval_only_computes
             Framed.frame_eval py_eval_total "20240102_020000"
             restore_state
             (snd (Framed.restore_snapshot Framed.frame_eval
                     "20240102_020000" restore_state))
             ["shop"] "shop" ["users.json"; "README.txt"] "users.json"
             twelve_lines).
    + vm_compute. reflexivity.
    + apply FramedFacts.restore_state_only_computes.
    + vm_compute. reflexivity.
    + simpl. auto.
    + vm_compute. reflexivity.
    + vm_compute. reflexivity.
    + simpl. auto.
    + vm_compute. reflexivity.
    + vm_compute. reflexivity.
  - reflexivity.
  - vm_compute. intros H.
    repeat (destruct H as [H | H]; [discriminate H |]). exact H.
Defined.

(** C2 as it is stated fails.  The snapshot holds one Collection File,
    [shop/users.json], whose second line empties the list [documents]
    while it is evaluated.  Its first two lines decode, to [ann] and to
    [two]; [restore_snapshot] returns, and the collection [shop.users]
    holds [two] alone: a document decoded from the file is missing. *)
Lemma C2_a_decoded_document_is_missing :
  let run := Framed.restore_snapshot Framed.frame_eval "20240102_020000"
               clearing_state in
  FS.listdir (files clearing_state) (join "backups" "20240102_020000")
  = Ok ["shop"]
  /\ FS.listdir (files clearing_state)
                (join (join "backups" "20240102_020000") "shop")
     = Ok ["users.json"]
  /\ FS.read_text (files clearing_state)
                  (join (join (join "backups" "20240102_020000") "shop")
                        "users.json")
     = Ok clearing_lines
  /\ map strip (readlines clearing_lines)
     = ["{'_id': 1, 'name': 'ann'}";
        "{'_id': 2, 'x': documents.clear()}";
        str bob]
  /\ (forall documents s,
        fst (fst (Framed.frame_eval "{'_id': 1, 'name': 'ann'}" documents s))
        = Value ann)
  /\ (forall documents s,
        fst (fst (Framed.frame_eval "{'_id': 2, 'x': documents.clear()}"
                                    documents s))
        = Value two)
  /\ fst run = Ok tt
  /\ find (server_ (snd run)) "shop" (drop_last 5 "users.json") = [two]
  /\ ~ In ann (find (server_ (snd run)) "shop" (drop_last 5 "users.json")).
Proof.
  intros run.
  assert (F : find (server_ (snd run)) "shop" (drop_last 5 "users.json")
              = [two]) by (vm_compute; reflexivity).
  split; [vm_compute; reflexivity |].
  split; [vm_compute; reflexivity |].
  split; [vm_compute; reflexivity |].
  split; [vm_compute; reflexivity |].
  split; [intros documents s; vm_compute; reflexivity |].
  split; [intros documents s; vm_compute; reflexivity |].
  split; [vm_compute; reflexivity |].
  split; [exact F |].
  rewrite F. intros [H | []]. discriminate H.
Qed.



(** C8. When the backup root is absent, [list_snapshots] returns the empty
    list and no error.  When it is a directory (of entries with distinct
    names) that the listing call can read, [list_snapshots] returns a list
    that holds exactly the names of its immediate subdirectories, the
    entries that are not directories being left out, sorted newest first
    (each name is at least every name after it); for an empty directory
    that list is empty. *)
Theorem C8_list_snapshots_newest_first :
  forall (s : state),
    (FS.exists_ (files s) (backup_dir (self s)) = false ->
       list_snapshots s = (Ok [], s))
    /\ (forall es,
          node_at (files s) (backup_dir (self s)) = Some (Dir es) ->
          NoDup (map fst es) ->
          Forall (fun n => is_component n = true) (map fst es) ->
          next_call_succeeds s ->
          exists snapshots s',
            list_snapshots s = (Ok snapshots, s')
            /\ Permutation snapshots (subdirectories es)
            /\ StronglySorted newest_first snapshots
            /\ (es = [] -> snapshots = [])).
Proof.
  intros s. split.
  - apply StoreFacts.list_snapshots_absent.
  - intros es Hp Hnd Hc Hn.
    destruct (StoreFacts.list_snapshots_directory s es Hp Hnd Hc Hn) as (s' & E).
    exists (sorted_reverse (subdirectories es)), s'.
    split; [exact E |]. split; [apply OrderFacts.sorted_reverse_perm |].
    split; [apply OrderFacts.sorted_reverse_sorted |].
    intros ->. reflexivity.
Qed.

(** On snapshots [20240101_020000], [20240102_020000], [20240103_020000]
    and a stray file, the listing is the three names, newest first. *)
Lemma C8_list_snapshots_witness :
  (exists snapshots s',
      list_snapshots listing_state = (Ok snapshots, s')
      /\ Permutation snapshots (subdirectories listing_entries)
      /\ StronglySorted newest_first snapshots
      /\ (listing_entries = [] -> snapshots = []))
  /\ fst (list_snapshots listing_state)
     = Ok ["20240103_020000"; "20240102_020000"; "20240101_020000"].
Proof.
  split.
  - apply (proj2 (C8_list_snapshots_newest_first listing_state)
                 listing_entries).
    + vm_compute. reflexivity.
    + repeat constructor; simpl; intuition discriminate.
    + repeat constructor.
    + reflexivity.
  - vm_compute. reflexivity.
Defined.

(** C5. When [create_snapshot] returns, the directory of the snapshot being
    new and the names of the server being fit for files, the
    subdirectories of the snapshot are exactly the databases the instance
    reported whose name is not one of the two reserved names [admin] and
    [local], compared exactly: for every name [d], the snapshot has a
    subdirectory [d] if and only if [d] was reported and is not
    reserved. *)
Theorem C5_system_databases_are_skipped :
  forall (s s' : state) (d : string),
    create_snapshot s = (Ok tt, s') ->
    FS.exists_ (files s) (join (backup_dir (self s)) (strftime (now s))) = false ->
    names_fit_files (server_ s) ->
    is_component d = true ->
    (FS.isdir (files s')
              (join (join (backup_dir (self s)) (strftime (now s))) d) = true
     <-> In d (list_database_names (server_ s))
         /\ str_in d ["admin"; "local"] = false).
Proof.
  intros s s' d Hrun Hfresh Hfit Hd.
  destruct (CreateFacts.create_snapshot_subdirs s s' Hrun Hfresh Hfit)
    as (P0 & created & S & Sub).
  rewrite (FSFacts.snapshot_dir_isdir P0 _ created (files s') d S Hd).
  apply Sub.
Qed.

(** On databases [admin], [local], [shop] and [analytics] the snapshot holds
    the subdirectories [shop] and [analytics] and no other entry. *)
Lemma C5_system_databases_witness :
  (FS.isdir (files (snd (create_snapshot demo_state)))
            (join (join (backup_dir (self demo_state))
                        (strftime (now demo_state))) "shop") = true
   <-> In "shop" (list_database_names (server_ demo_state))
       /\ str_in "shop" ["admin"; "local"] = false)
  /\ (FS.isdir (files (snd (create_snapshot demo_state)))
               (join (join (backup_dir (self demo_state))
                           (strftime (now demo_state))) "admin") = true
      <-> In "admin" (list_database_names (server_ demo_state))
          /\ str_in "admin" ["admin"; "local"] = false)
  /\ list_database_names (server_ demo_state)
     = ["admin"; "local"; "shop"; "analytics"]
  /\ FS.listdir (files (snd (create_snapshot demo_state)))
                (join (backup_dir (self demo_state)) (strftime (now demo_state)))
     = Ok ["shop"; "analytics"].
Proof.
  assert (Fit : names_fit_files (server_ demo_state)).
  { apply CreateFacts.names_fit_filesb_sound. vm_compute. reflexivity. }
  split; [| split; [| split]].
  - apply (C5_system_databases_are_skipped demo_state
             (snd (create_snapshot demo_state)) "shop").
    + vm_compute. reflexivity.
    + vm_compute. reflexivity.
    + exact Fit.
    + vm_compute. reflexivity.
  - apply (C5_system_databases_are_skipped demo_state
             (snd (create_snapshot demo_state)) "admin").
    + vm_compute. reflexivity.
    + vm_compute. reflexivity.
    + exact Fit.
    + vm_compute. reflexivity.
  - vm_compute. reflexivity.
  - vm_compute. reflexivity.
Defined.

(** C1, where the code departs from the claim.  The line [create_snapshot]
    writes for a document with an object identifier does not decode: the
    name [ObjectId] is bound nowhere in the module, [eval] raises
    [NameError], and [restore_snapshot] logs the failure and drops the
    document.  The line written for a document with a datetime does not
    decode either: [datetime] names the class, which has no attribute
    [datetime].  A document without extended scalars does come back. *)
Theorem C1_round_trip_fails_on_extended_scalars :
  forall (eval : string -> outcome pyval) (documents : list pyval) (s : state),
    extends_py_eval eval ->
    restore_line eval documents (str bob +++ String LF "") s
    = (Ok documents, add_log ERROR (snd (decode_failure_entry (name_error "ObjectId"))) s)
    /\ restore_line eval documents (str cal +++ String LF "") s
       = (Ok documents,
          add_log ERROR (snd (decode_failure_entry datetime_attribute_error)) s)
    /\ restore_line eval documents (str ann +++ String LF "") s
       = (Ok (documents ++ [ann]), s).
Proof.
  intros eval documents s Hev.
  rewrite !RestoreFacts.restore_line_classify. unfold classify.
  assert (B : py_eval (strip (str bob +++ String LF ""))
              = Some (Raises (name_error "ObjectId")))
    by (vm_compute; reflexivity).
  assert (C : py_eval (strip (str cal +++ String LF ""))
              = Some (Raises datetime_attribute_error))
    by (vm_compute; reflexivity).
  assert (A : py_eval (strip (str ann +++ String LF "")) = Some (Value ann))
    by (vm_compute; reflexivity).
  rewrite (Hev _ _ B), (Hev _ _ C), (Hev _ _ A).
  repeat split.
Qed.

Lemma py_eval_total_extends : extends_py_eval py_eval_total.
Proof. intros s o H. unfold py_eval_total. rewrite H. reflexivity. Qed.

Lemma C1_round_trip_witness :
  restore_line py_eval_total [] (str bob +++ String LF "") demo_state
  = (Ok [], add_log ERROR (snd (decode_failure_entry (name_error "ObjectId")))
                    demo_state)
  /\ restore_line py_eval_total [] (str cal +++ String LF "") demo_state
     = (Ok [],
        add_log ERROR (snd (decode_failure_entry datetime_attribute_error))
                demo_state)
  /\ restore_line py_eval_total [] (str ann +++ String LF "") demo_state
     = (Ok ([] ++ [ann]), demo_state).
Proof.
  apply (C1_round_trip_fails_on_extended_scalars py_eval_total [] demo_state).
  exact py_eval_total_extends.
Defined.

(** * Further properties of the code *)

Import DocumentSpec StampSpec Setup.
Import PlaceSpec MongoDBCli.
Import FrameSpec FrameDemo.

(** [create_snapshot] only reads the server, whatever it returns or raises
    and whatever the external calls meet: the data of the server is what it
    was, and no call issued through the driver is a deletion or an
    insertion. *)
Theorem create_snapshot_only_reads_the_server :
  forall (s : state),
    server_ (snd (create_snapshot s)) = server_ s
    /\ exists evs,
         trace (snd (create_snapshot s)) = trace s ++ evs
         /\ Forall (fun e => is_mutation e = false) evs.
Proof.
  intros s. destruct (create_snapshot s) as [r s'] eqn:E.
  destruct (Outcomes.reads_only_create_snapshot _ _ _ E) as (V & _ & _ & T).
  split; [exact V | exact T].
Qed.

(** [restore_snapshot] only reads the file system, when [eval] only
    computes on the lines of the snapshot, as it does on the lines the
    program wrote: whatever the run returns or raises, the files are what
    they were, snapshot included.  (The files are those the operations
    name; the file the logging handler of lines 10-17 appends to is kept
    apart, as the log.) *)
Theorem restore_snapshot_only_reads_the_files :
  forall (eval : Framed.evaluator) (e0 : string -> outcome pyval)
         (snapshot_name : string) (s : state),
    (forall t,
       In t (evaluated_texts (files s)
                             (join (backup_dir (self s)) snapshot_name)) ->
       computes eval e0 t) ->
    files (snd (Framed.restore_snapshot eval snapshot_name s)) = files s.
Proof.
  intros eval e0 name s Hq.
  rewrite (FramedFacts.restore_snapshot_computes eval e0 name s Hq).
  destruct (restore_snapshot e0 name s) as [r s'] eqn:E.
  destruct (RestoreFacts.restore_snapshot_careful _ _ _ _ _ E) as (F & _).
  exact F.
Qed.

Lemma restore_snapshot_only_reads_the_files_witness :
  files (snd (Framed.restore_snapshot Framed.frame_eval "20240102_020000"
                restore_state))
  = files restore_state.
Proof.
  apply (restore_snapshot_only_reads_the_files
           Framed.frame_eval py_eval_total "20240102_020000" restore_state).
  apply FramedFacts.restore_state_only_computes.
Defined.

(** [list_snapshots] changes nothing but the log: the files, the server,
    the object and its client are what they were and no call goes through
    the driver.  The log is untouched when it returns, and gains the one
    entry of line 106 when it raises an [Exception]. *)
Theorem list_snapshots_only_logs_failures :
  forall (s : state),
    let (r, s') := list_snapshots s in
    files s' = files s /\ server_ s' = server_ s /\ self s' = self s
    /\ trace s' = trace s /\ closed s' = closed s /\ clients s' = clients s
    /\ log s' = log s
                ++ match r with
                   | Ok _ => []
                   | Err e =>
                       if is_Exception e
                       then [(ERROR, "Error listing snapshots: " +++ str_exn e)]
                       else []
                   end.
Proof. intros s. apply Outcomes.list_snapshots_outcome. Qed.

(** What [connect] does, lines 32-41.  When it returns, [self.client] is a
    client made by this call, open, verified by one [server_info] call, and
    the success is logged.  When it raises, the exception is the one the
    driver raised, logged by line 40 if it is an [Exception]; [self.client]
    is what it was when the constructor failed, and is left holding the new
    client when [server_info] failed. *)
Theorem connect_outcomes :
  forall (s : state),
    match connect s with
    | (Ok _, s') =>
        client (self s') = Some (clients s)
        /\ is_closed (closed s') (clients s) = false
        /\ trace s' = trace s
                      ++ [EvNewClient (clients s);
                          EvCall (clients s)
                                 (is_closed (closed s) (clients s))
                                 OpServerInfo]
        /\ log s' = log s ++ [(INFO, "Successfully connected to MongoDB")]
    | (Err e, s') =>
        log s' = log s
                 ++ (if is_Exception e
                     then [(ERROR, "Failed to connect to MongoDB: "
                                   +++ str_exn e)]
                     else [])
        /\ (client (self s') = client (self s) /\ trace s' = trace s
            \/ client (self s') = Some (clients s))
    end.
Proof. intros s. apply Outcomes.connect_outcome. Qed.


(** [__init__], lines 23-30.  When it returns, the object holds the two
    settings of the environment, [backups] standing for a missing
    [BACKUP_DIR], and no client; the backup directory exists.  A directory
    that was there is left as it was; one that was missing has been made,
    empty.  Nothing is asked of the server. *)
Theorem init_makes_the_backup_directory :
  forall (env_uri env_backup_dir : option string) (s s' : state),
    init env_uri env_backup_dir s = (Ok tt, s') ->
    let dir := match env_backup_dir with Some d => d | None => "backups" end in
    self s' = mk_instance env_uri dir None
    /\ FS.exists_ (files s') dir = true
    /\ (FS.exists_ (files s) dir = true -> files s' = files s)
    /\ (FS.exists_ (files s) dir = false ->
        node_at (files s') dir = Some (Dir []))
    /\ server_ s' = server_ s /\ trace s' = trace s /\ log s' = log s.
Proof. intros u d s s' H. apply Outcomes.init_outcome. exact H. Qed.

Lemma init_makes_the_backup_directory_witness :
  let s' := snd (init (Some "mongodb://db:27017") None bare_state) in
  self s' = mk_instance (Some "mongodb://db:27017") "backups" None
  /\ FS.exists_ (files s') "backups" = true
  /\ (FS.exists_ (files bare_state) "backups" = true ->
      files s' = files bare_state)
  /\ (FS.exists_ (files bare_state) "backups" = false ->
      node_at (files s') "backups" = Some (Dir []))
  /\ server_ s' = server_ bare_state /\ trace s' = trace bare_state
  /\ log s' = log bare_state.
Proof.
  apply (init_makes_the_backup_directory
           (Some "mongodb://db:27017") None bare_state).
  vm_compute. reflexivity.
Defined.

(** One document, one line.  The text [create_snapshot] writes for a
    document holds no line break, so that reading the lines of the file
    written for a list of documents yields, in order, exactly the line
    written for each of them. *)
Theorem collection_file_reads_back_line_by_line :
  forall (documents : list pyval),
    forallb is_value documents = true ->
    forallb (fun d => negb (has_line_break (str d))) documents = true
    /\ readlines (lines_of documents) = map line_of documents.
Proof.
  intros docs W. rewrite forallb_forall in W.
  assert (F : Forall (fun d => has_line_break (str d) = false) docs).
  { apply Forall_forall. intros d Hd.
    apply DocFacts.has_line_break_repr. auto. }
  split.
  - apply forallb_forall. intros d Hd. rewrite Forall_forall in F.
    rewrite (F d Hd). reflexivity.
  - apply DocFacts.readlines_lines_of. exact F.
Qed.

Lemma collection_file_reads_back_witness :
  forallb (fun d => negb (has_line_break (str d))) [ann; bob; cal] = true
  /\ readlines (lines_of [ann; bob; cal]) = map line_of [ann; bob; cal].
Proof.
  apply (collection_file_reads_back_line_by_line [ann; bob; cal]).
  vm_compute. reflexivity.
Defined.

(** The line written for a document passes the test of lines 149-150: its
    stripped text is the text of the document, which starts with a brace.
    No document is skipped silently by [restore_snapshot]. *)
Theorem document_line_looks_like_document :
  forall (items : list (pyval * pyval)),
    strip (line_of (PDict items)) = str (PDict items)
    /\ looks_like_document (line_of (PDict items)) = true.
Proof.
  intros items. split.
  - apply DocFacts.strip_line_of_dict.
  - unfold looks_like_document. rewrite DocFacts.strip_line_of_dict.
    apply DocFacts.startswith_dict.
Qed.

(** Snapshot names order as the times they were taken at, down to the
    second: the names of two times of the clock compare, as texts, the way
    the times do.  A name has 15 characters and can be the name of a
    directory entry. *)
Theorem snapshot_names_order_as_times :
  forall (a b : datetime),
    is_clock_time a = true -> is_clock_time b = true ->
    String.compare (strftime a) (strftime b)
    = compare_fields (fields a) (fields b)
    /\ String.length (strftime a) = 15
    /\ is_component (strftime a) = true.
Proof.
  intros a b Ha Hb. split; [| split].
  - apply StampFacts.strftime_compare; assumption.
  - apply StampFacts.strftime_length; assumption.
  - apply StampFacts.strftime_component; assumption.
Qed.

Lemma snapshot_names_order_witness :
  String.compare (strftime monday) (strftime tuesday)
  = compare_fields (fields monday) (fields tuesday)
  /\ String.length (strftime monday) = 15
  /\ is_component (strftime monday) = true.
Proof.
  apply (snapshot_names_order_as_times monday tuesday).
  - vm_compute. reflexivity.
  - vm_compute. reflexivity.
Defined.

(** What a snapshot holds.  When [create_snapshot] returns, the directory
    of the snapshot being new and the names of the server being fit for
    files, the file [<collection>.json] in the directory of each database
    that is not a system database holds one line for each document the
    collection had, [str] of the document, in the order [find] gave
    them. *)
Theorem create_snapshot_writes_every_document :
  forall (s s' : state) (d c : string),
    create_snapshot s = (Ok tt, s') ->
    FS.exists_ (files s) (join (backup_dir (self s)) (strftime (now s))) = false ->
    names_fit_files (server_ s) ->
    In d (list_database_names (server_ s)) ->
    str_in d system_databases = false ->
    In c (list_collection_names (server_ s) d) ->
    FS.read_text (files s')
      (join (join (join (backup_dir (self s)) (strftime (now s))) d)
            (c +++ ".json"))
    = Ok (lines_of (find (server_ s) d c)).
Proof. intros. apply ContentFacts.create_snapshot_contents; assumption. Qed.

Lemma create_snapshot_writes_every_document_witness :
  FS.read_text (files (snd (create_snapshot demo_state)))
    (join (join (join (backup_dir (self demo_state))
                      (strftime (now demo_state))) "shop")
          ("users" +++ ".json"))
  = Ok (lines_of (find (server_ demo_state) "shop" "users")).
Proof.
  apply (create_snapshot_writes_every_document
           demo_state (snd (create_snapshot demo_state)) "shop" "users").
  - vm_compute. reflexivity.
  - vm_compute. reflexivity.
  - apply CreateFacts.names_fit_filesb_sound. vm_compute. reflexivity.
  - vm_compute. auto.
  - vm_compute. reflexivity.
  - vm_compute. auto.
Defined.

(** The round trip of a document without extended scalars.  For a
    document made of nested dictionaries with distinct text keys, lists,
    texts, integers, booleans and [None], whose brackets nest at most 32
    deep, and whose text [eval] reads as the model of literals says:
    [eval] of the text [create_snapshot] writes gives the document back,
    and the body of the loop of lines 146-155 adds it to the documents to
    insert, logging nothing and changing nothing. *)
Theorem plain_document_round_trip :
  forall (eval : Framed.evaluator) (documents : list pyval)
         (d : pyval) (s : state),
    reads_literal eval (str d) ->
    is_document d = true -> plain d = true ->
    depth d <= PyEval.max_nesting ->
    py_eval (str d) = Some (Value d)
    /\ Framed.restore_line eval documents (line_of d) s
       = (Ok (documents ++ [d]), s).
Proof.
  intros eval docs d s Hev W P D.
  assert (V : is_value d = true) by (destruct d; try discriminate; exact W).
  assert (E : py_eval (str d) = Some (Value d)).
  { rewrite (EvalFacts.py_eval_str d V D). unfold EvalFacts.decodes.
    apply EvalFacts.first_error_plain in P. rewrite P. reflexivity. }
  split; [exact E |].
  rewrite (LiteralFacts.restore_line_of eval docs d s (conj W (conj D Hev))).
  rewrite RestoreFacts.restore_line_classify.
  rewrite (LiteralFacts.classify_total d W D).
  apply EvalFacts.first_error_plain in P. rewrite P. reflexivity.
Qed.

Lemma plain_document_round_trip_witness :
  py_eval (str ann) = Some (Value ann)
  /\ Framed.restore_line Framed.frame_eval [zed] (line_of ann) demo_state
     = (Ok ([zed] ++ [ann]), demo_state).
Proof.
  apply (plain_document_round_trip Framed.frame_eval [zed] ann demo_state).
  - apply FramedFacts.frame_eval_reads_literal.
  - vm_compute. reflexivity.
  - vm_compute. reflexivity.
  - vm_compute. lia.
Defined.

(** No document with an extended scalar survives.  For a document made of
    nested dictionaries with distinct text keys, lists, texts, integers,
    booleans, [None], object identifiers and datetimes, whose brackets nest
    at most 32 deep, that holds an object identifier or a datetime at any
    depth, and whose text [eval] reads as the model of literals says:
    [eval] of the text [create_snapshot] writes raises [NameError] (the
    name [ObjectId] is bound nowhere) or [AttributeError] (the class
    [datetime] has no attribute [datetime]), whichever scalar comes first;
    the body of the loop of lines 146-155 logs the failure and leaves the
    document out. *)
Theorem extended_document_is_dropped :
  forall (eval : Framed.evaluator) (documents : list pyval)
         (d : pyval) (s : state),
    reads_literal eval (str d) ->
    is_document d = true -> plain d = false ->
    depth d <= PyEval.max_nesting ->
    exists e,
      (e = name_error "ObjectId" \/ e = datetime_attribute_error)
      /\ py_eval (str d) = Some (Raises e)
      /\ Framed.restore_line eval documents (line_of d) s
         = (Ok documents,
            add_log ERROR ("Error parsing document: " +++ str_exn e) s).
Proof.
  intros eval docs d s Hev W P D.
  assert (V : is_value d = true) by (destruct d; try discriminate; exact W).
  destruct (EvalFacts.first_error d) as [e|] eqn:E.
  2:{ apply EvalFacts.first_error_plain in E. congruence. }
  exists e. split; [exact (EvalFacts.first_error_cases d e E) |]. split.
  - rewrite (EvalFacts.py_eval_str d V D). unfold EvalFacts.decodes.
    rewrite E. reflexivity.
  - rewrite (LiteralFacts.restore_line_of eval docs d s
               (conj W (conj D Hev))).
    rewrite RestoreFacts.restore_line_classify.
    rewrite (LiteralFacts.classify_total d W D), E. reflexivity.
Qed.

Lemma extended_document_is_dropped_witness :
  exists e,
    (e = name_error "ObjectId" \/ e = datetime_attribute_error)
    /\ py_eval (str cal) = Some (Raises e)
    /\ Framed.restore_line Framed.frame_eval [zed] (line_of cal) demo_state
       = (Ok [zed],
          add_log ERROR ("Error parsing document: " +++ str_exn e) demo_state).
Proof.
  apply (extended_document_is_dropped Framed.frame_eval [zed] cal demo_state).
  - apply FramedFacts.frame_eval_reads_literal.
  - vm_compute. reflexivity.
  - vm_compute. reflexivity.
  - vm_compute. lia.
Defined.

(** What comes back from a Collection File.  For documents made of nested
    dictionaries with distinct text keys, lists, texts, integers, booleans,
    [None], object identifiers and datetimes, whose brackets nest at most
    32 deep and whose texts [eval] reads as the model of literals says:
    the loop of lines 146-155 over the file [create_snapshot] wrote for
    them ends with exactly the documents without object identifier and
    datetime, in order, logs one decode failure for each of the others,
    and changes neither the files nor the server nor the trace. *)
Theorem collection_file_decodes_to_the_plain_documents :
  forall (eval : Framed.evaluator) (documents : list pyval) (s : state),
    Forall (fun d => is_document d = true
                     /\ depth d <= PyEval.max_nesting
                     /\ reads_literal eval (str d)) documents ->
    exists s',
      for_fold (readlines (lines_of documents)) []
               (Framed.restore_line eval) s
      = (Ok (filter plain documents), s')
      /\ decode_failures (log s')
         = decode_failures (log s)
           + List.length (filter (fun d => negb (plain d)) documents)
      /\ files s' = files s /\ server_ s' = server_ s
      /\ trace s' = trace s.
Proof.
  intros eval docs s F.
  rewrite (LiteralFacts.restore_lines_of eval docs s F).
  eexists. split; [reflexivity |].
  assert (F' : Forall (fun d => is_document d = true
                                /\ depth d <= PyEval.max_nesting) docs).
  { eapply Forall_impl; [| exact F]. intros d (W & D & _). auto. }
  cbn [RestoreFacts.add_logs log files server_ trace].
  repeat split.
  rewrite RestoreFacts.decode_failures_app,
    RestoreFacts.failure_entries_count.
  rewrite (EvalFacts.malformed_lines py_eval_total
             LiteralFacts.total_extends docs F').
  reflexivity.
Qed.

Lemma collection_file_decodes_witness :
  exists s',
    for_fold (readlines (lines_of [ann; bob; cal; zed])) []
             (Framed.restore_line Framed.frame_eval) demo_state
    = (Ok (filter plain [ann; bob; cal; zed]), s')
    /\ decode_failures (log s')
       = decode_failures (log demo_state)
         + List.length (filter (fun d => negb (plain d)) [ann; bob; cal; zed])
    /\ files s' = files demo_state /\ server_ s' = server_ demo_state
    /\ trace s' = trace demo_state.
Proof.
  apply (collection_file_decodes_to_the_plain_documents
           Framed.frame_eval [ann; bob; cal; zed] demo_state).
  repeat (apply Forall_cons;
          [split; [vm_compute; reflexivity |];
           split; [vm_compute; lia |];
           apply FramedFacts.frame_eval_reads_literal |]).
  apply Forall_nil.
Defined.

(** A snapshot restored after the server changed.  [s] is the state
    [create_snapshot] returned in, its documents made of nested
    dictionaries with distinct text keys, lists, texts, integers, booleans,
    [None], object identifiers and datetimes, their brackets nesting at
    most 32 deep, their texts read by [eval] as the model of literals
    says; [t] is a later state with the files that run left and any
    server.  When [restore_snapshot] of that snapshot returns, each
    collection the snapshot exported (a collection of a non-system
    database of [s]) holds the documents it held in [s] that have no
    object identifier and no datetime, in order; every other collection,
    those of [admin] and [local] and those created since, holds what it
    held in [t]: nothing is removed for being absent from the snapshot. *)
Theorem restore_after_create :
  forall (eval : Framed.evaluator) (s s1 t s2 : state),
    reads_documents eval (server_ s) ->
    create_snapshot s = (Ok tt, s1) ->
    FS.exists_ (files s) (join (backup_dir (self s)) (strftime (now s)))
    = false ->
    names_fit_files (server_ s) ->
    documents_ok (server_ s) = true ->
    files t = files s1 ->
    backup_dir (self t) = backup_dir (self s) ->
    Framed.restore_snapshot eval (strftime (now s)) t = (Ok tt, s2) ->
    forall d c,
      (str_in d system_databases = false ->
       In d (list_database_names (server_ s)) ->
       In c (list_collection_names (server_ s) d) ->
       find (server_ s2) d c = filter plain (find (server_ s) d c))
      /\ (str_in d system_databases = true
          \/ ~ In d (list_database_names (server_ s))
          \/ ~ In c (list_collection_names (server_ s) d) ->
          find (server_ s2) d c = find (server_ t) d c).
Proof. intros. eapply FramedRoundTrip.restore_of_create_framed; eassumption. Qed.

Lemma restore_after_create_witness :
  let s1 := snd (create_snapshot demo_state) in
  let t := set_server later_server s1 in
  let s2 := snd (Framed.restore_snapshot Framed.frame_eval
                   "20240102_020000" t) in
  find (server_ s2) "shop" "users" = [ann]
  /\ find (server_ s2) "shop" "carts" = [zed]
  /\ find (server_ s2) "local" "startup_log" = [].
Proof.
  intros s1 t s2.
  assert (H : forall d c,
    (str_in d system_databases = false ->
     In d (list_database_names (server_ demo_state)) ->
     In c (list_collection_names (server_ demo_state) d) ->
     find (server_ s2) d c = filter plain (find (server_ demo_state) d c))
    /\ (str_in d system_databases = true
        \/ ~ In d (list_database_names (server_ demo_state))
        \/ ~ In c (list_collection_names (server_ demo_state) d) ->
        find (server_ s2) d c = find (server_ t) d c)).
  { apply (restore_after_create Framed.frame_eval demo_state s1 t s2).
    - intros db coll d _. apply FramedFacts.frame_eval_reads_literal.
    - vm_compute. reflexivity.
    - vm_compute. reflexivity.
    - apply CreateFacts.names_fit_filesb_sound. vm_compute. reflexivity.
    - vm_compute. reflexivity.
    - reflexivity.
    - vm_compute. reflexivity.
    - vm_compute. reflexivity. }
  split; [| split].
  - rewrite (proj1 (H "shop" "users")).
    + vm_compute. reflexivity.
    + vm_compute. reflexivity.
    + vm_compute. auto.
    + vm_compute. auto.
  - rewrite (proj2 (H "shop" "carts")).
    + vm_compute. reflexivity.
    + right. right. vm_compute. intros [E | [E | []]]; discriminate.
  - rewrite (proj2 (H "local" "startup_log")).
    + vm_compute. reflexivity.
    + left. vm_compute. reflexivity.
Defined.

(** [create_snapshot] writes in the directory of its snapshot only.  With
    a backup directory that is a directory, at position [Q] of the tree,
    and names fit for files: whatever [create_snapshot] returns or raises
    and whatever the external calls meet, every position that is neither
    at or below the directory of the new snapshot nor above it holds what
    it held: the older snapshots and every other file are untouched.  (The
    file the logging handler appends to is kept apart, as the log.) *)
Theorem create_snapshot_touches_only_its_directory :
  forall (s : state) (r : result unit) (s' : state) (Q : list string),
    create_snapshot s = (r, s') ->
    names_fit_files (server_ s) ->
    is_clock_time (now s) = true ->
    resolve (files s) (backup_dir (self s)) = Some Q ->
    is_dir_at (root (files s)) Q = true ->
    cwd (files s') = cwd (files s)
    /\ forall q,
         off_branch (Q ++ [strftime (now s)]) q = true ->
         lookup (root (files s')) q = lookup (root (files s)) q.
Proof.
  intros s r s' Q H Fit Clock RQ DQ.
  destruct (PlaceFacts.create_snapshot_grows s r s' Q H Fit Clock RQ DQ)
    as (C & _ & A).
  split; [exact C | exact A].
Qed.

Lemma create_snapshot_touches_only_its_directory_witness :
  let s := set_server demo_server listing_state in
  let s' := snd (create_snapshot s) in
  lookup (root (files s')) ["srv"; "backups"; "20240101_020000"; "shop"]
  = lookup (root (files s)) ["srv"; "backups"; "20240101_020000"; "shop"].
Proof.
  intros s s'.
  refine (proj2 (create_snapshot_touches_only_its_directory
                   s (fst (create_snapshot s)) s' ["srv"; "backups"]
                   _ _ _ _ _) _ _).
  - apply surjective_pairing.
  - apply CreateFacts.names_fit_filesb_sound. vm_compute. reflexivity.
  - vm_compute. reflexivity.
  - vm_compute. reflexivity.
  - vm_compute. reflexivity.
  - vm_compute. reflexivity.
Defined.

(** The listing after a snapshot was created.  With a backup directory
    that is a directory and names fit for files, when [create_snapshot]
    has returned, its snapshot directory being new: [list_snapshots]
    returns the names it returned before and the name of the new
    snapshot, and no other name a directory entry can bear. *)
Theorem listing_after_create :
  forall (s s1 : state) (Q : list string)
         (before : list string) (s0 : state)
         (after : list string) (s2 : state) (n : string),
    create_snapshot s = (Ok tt, s1) ->
    FS.exists_ (files s) (join (backup_dir (self s)) (strftime (now s)))
    = false ->
    names_fit_files (server_ s) ->
    is_clock_time (now s) = true ->
    resolve (files s) (backup_dir (self s)) = Some Q ->
    is_dir_at (root (files s)) Q = true ->
    list_snapshots s = (Ok before, s0) ->
    list_snapshots s1 = (Ok after, s2) ->
    is_component n = true ->
    In n after <-> n = strftime (now s) \/ In n before.
Proof. intros. eapply PlaceFacts.list_after_create; eassumption. Qed.

Lemma listing_after_create_witness :
  let s := set_server demo_server listing_state in
  let s1 := snd (create_snapshot s) in
  fst (list_snapshots s1)
  = Ok ["20240104_080000"; "20240103_020000"; "20240102_020000";
        "20240101_020000"]
  /\ (In "20240104_080000"
         ["20240104_080000"; "20240103_020000"; "20240102_020000";
          "20240101_020000"]
      <-> "20240104_080000" = strftime (now s)
          \/ In "20240104_080000"
                ["20240103_020000"; "20240102_020000"; "20240101_020000"]).
Proof.
  intros s s1. split; [vm_compute; reflexivity |].
  apply (listing_after_create s s1 ["srv"; "backups"]
           ["20240103_020000"; "20240102_020000"; "20240101_020000"]
           (snd (list_snapshots s))
           ["20240104_080000"; "20240103_020000"; "20240102_020000";
            "20240101_020000"]
           (snd (list_snapshots s1)) "20240104_080000").
  - vm_compute. reflexivity.
  - vm_compute. reflexivity.
  - apply CreateFacts.names_fit_filesb_sound. vm_compute. reflexivity.
  - vm_compute. reflexivity.
  - vm_compute. reflexivity.
  - vm_compute. reflexivity.
  - vm_compute. reflexivity.
  - vm_compute. reflexivity.
  - vm_compute. reflexivity.
Defined.

(** The command line tool, [restore] without a snapshot name.  When
    [--snapshot] is absent or empty, [main] makes the object and stops: it
    makes no client, asks nothing of the server and logs nothing.  When it
    returns it has printed the one line of line 17, and the backup
    directory exists, made by [__init__] if it was missing, the files
    being untouched otherwise.  It raises only when the backup directory
    was missing and [__init__] could not make it. *)
Theorem cli_restore_needs_a_snapshot_name :
  forall (eval : string -> outcome pyval)
         (env_uri env_backup_dir : option string)
         (o : option string) (s : state) (r : result (list string))
         (s' : state),
    o = None \/ o = Some EmptyString ->
    main eval env_uri env_backup_dir (mk_namespace ActRestore o) s = (r, s') ->
    let dir := match env_backup_dir with Some x => x | None => "backups" end in
    server_ s' = server_ s /\ trace s' = trace s /\ log s' = log s
    /\ client (self s') = None
    /\ (r = Ok ["Error: Snapshot name is required for restore action"]
        /\ FS.exists_ (files s') dir = true
        /\ (FS.exists_ (files s) dir = true -> files s' = files s)
        \/ (exists e, r = Err e) /\ FS.exists_ (files s) dir = false).
Proof.
  intros eval u d o s r s' Ho H.
  exact (CliFacts.main_restore_unnamed eval u d o s r s' Ho H).
Qed.

Lemma cli_restore_needs_a_snapshot_name_witness :
  let r := fst (main py_eval_total None None
                     (mk_namespace ActRestore None) bare_state) in
  let s' := snd (main py_eval_total None None
                      (mk_namespace ActRestore None) bare_state) in
  server_ s' = server_ bare_state /\ trace s' = trace bare_state
  /\ log s' = log bare_state
  /\ client (self s') = None
  /\ (r = Ok ["Error: Snapshot name is required for restore action"]
      /\ FS.exists_ (files s') "backups" = true
      /\ (FS.exists_ (files bare_state) "backups" = true ->
          files s' = files bare_state)
      \/ (exists e, r = Err e)
         /\ FS.exists_ (files bare_state) "backups" = false).
Proof.
  intros r s'.
  apply (cli_restore_needs_a_snapshot_name py_eval_total None None None
           bare_state r s').
  - left. reflexivity.
  - vm_compute. reflexivity.
Defined.

(** The command line tool, [list].  When [main] returns, it has asked
    nothing of the server, and what it printed is read off the backup
    directory: the heading and one line [- name] for each subdirectory,
    the greatest name first, or the one line [No snapshots found] when
    there is no subdirectory; on a machine where the backup directory was
    missing, that one line. *)
Theorem cli_list_prints_the_subdirectories :
  forall (eval : string -> outcome pyval)
         (env_uri env_backup_dir : option string)
         (o : option string) (s : state) (out : list string) (s' : state),
    main eval env_uri env_backup_dir (mk_namespace ActList o) s
    = (Ok out, s') ->
    let dir := match env_backup_dir with Some x => x | None => "backups" end in
    server_ s' = server_ s /\ trace s' = trace s
    /\ (exists names,
          FS.listdir (files s') dir = Ok names
          /\ out = let snapshots :=
                     sorted_reverse
                       (filter (fun n => FS.isdir (files s') (join dir n))
                               names)
                   in if nonempty snapshots
                      then String LF "Available snapshots:"
                           :: map (fun n => "- " +++ n) snapshots
                      else [String LF "No snapshots found"])
    /\ (FS.exists_ (files s) dir = false ->
        out = [String LF "No snapshots found"]).
Proof.
  intros eval u d o s out s' H.
  exact (CliFacts.main_list_prints eval u d o s out s' H).
Qed.

Lemma cli_list_prints_witness :
  let s' := snd (main py_eval_total None None (mk_namespace ActList None)
                      listing_state) in
  let out := [String LF "Available snapshots:"; "- 20240103_020000";
              "- 20240102_020000"; "- 20240101_020000"] in
  server_ s' = server_ listing_state /\ trace s' = trace listing_state
  /\ (exists names,
        FS.listdir (files s') "backups" = Ok names
        /\ out = let snapshots :=
                   sorted_reverse
                     (filter (fun n => FS.isdir (files s') (join "backups" n))
                             names)
                 in if nonempty snapshots
                    then String LF "Available snapshots:"
                         :: map (fun n => "- " +++ n) snapshots
                    else [String LF "No snapshots found"])
  /\ (FS.exists_ (files listing_state) "backups" = false ->
      out = [String LF "No snapshots found"]).
Proof.
  intros s' out.
  apply (cli_list_prints_the_subdirectories py_eval_total None None None
           listing_state out s').
  vm_compute. reflexivity.
Defined.


